(* ===== verification/_CoqProject ===== *)
-Q . S2P
Prelude.v
Unicode.v
PyText.v
PyUrl.v
Headers.v
Types.v
Errors.v
Engine.v
Teardown.v
Stack.v
Creation.v
Callbacks.v
Abi.v
Floats.v
Native.v
Call.v
Dict.v
Regex.v
Generator.v
Header.v
Json.v
JsonDecode.v
Tls.v
HttpDate.v
Cookiejar.v
Cookies.v
Options.v
Multipart.v
Request.v
Redirect.v
Response.v
Bridge.v
Capi.v
Waiting.v
Session.v
Raises.v
Lifecycle.v
Opening.v
Observer.v
Composed.v
Binding.v
Surface.v
Socks.v
