(* ===== verification/Prelude.v ===== *)
(** * Cronet: a model of the Python bindings to Chromium's network stack

    Cronet is a Python HTTP client over one C library, libcronet.so.  A
    [Session] owns a native engine; a request turns its options into one
    native call (or, when the session has a cookie jar, one call per redirect
    hop), waits for it on a descriptor, reads its body in pieces and copies the
    result out of C memory.  This library models the package under
    src/src/cronet/, the library's own C++ around Chromium (src/native/), the
    proxy probe and the generator of the C binding (src/scripts/), as executable
    definitions, and proves what makes them correct.

    ** The parts, from the bottom

    - Prelude, Unicode, PyText, Dict, PyUrl, Floats: what the program uses of its
      language.  A [str] is a list of code points, [bytes] a list of octets;
      PyText has their methods and codecs, Dict dictionaries in the order of
      insertion, PyUrl urllib.parse, Floats the binary64 arithmetic of the
      timeouts.  Fallible code is [res], code that
      also changes state is [st]; both are monads, and a state survives an
      exception as a mutation does.
    - Regex: Python's regular expressions, a backtracking matcher with a
      relation ([matches]) it is sound for, and [re.sub] and [re.findall] on it.
    - Headers (headers.py), Types (the records of _bridge.py and response.py),
      Errors (errors.py: every exception is a value of [exn]), Json and
      JsonDecode (_json.py and the standard library's [json] behind it), Tls
      (tls.py), Abi (_abi.py), Binding (_binding.py: the checks at import).
    - Generator (scripts/generate_binding.py): the whole script over a file
      system; Header: the text of native/cronet.h, and a reader of the module
      the generator writes.
    - HttpDate, Cookiejar: the standard library's http.cookiejar and
      urllib.request.Request, which cookies.py is a layer over: dates, the two
      Set-Cookie grammars, the default policy and the jar; the clock is the class
      [Clock], read anew at each use.
    - Cookies (cookies.py): the package's jar over that one; the rest of the
      program is proved against the class [CookieStore] alone, which it implements.
    - Options, Multipart, Request, Redirect (request.py): the options of a
      request; form uploads with a reference decoder of RFC 2046; URL, header
      and credential guards and [build_call]; [next_hop], the chain and the
      loop that drives it.
    - Response (response.py): reading, streaming and inspecting a response.
    - Native (call.cc, [CallState]) and Call (_bridge.py, [wait_for_headers]
      and [iter_body]): two threads over one call.  [Call.step] is one atomic
      action of either, a schedule is a list of events, [Call.reachable] any
      state some schedule leads to.
    - Observer (call.cc, [RequestObserver]): what each callback of Chromium's
      records and posts; redirects followed natively against redirects followed
      hop by hop, with the servers and Chromium's rule as parameters
      ([usual], [documented]).
    - Capi (c_api.cc, engine.cc, [StartCall] of call.cc): the C functions, null
      handles and defaults included, and the creation of engines and requests;
      Chromium is the class [Chromium].  Opening composes it with Bridge and
      Session through the class [NativeEngine].
    - Creation (global_state.cc, [Engine::Create]): threads that make engines at
      the same time, the lock around the pending proxy configuration and the init
      thread, as a step system.
    - Callbacks (engine.cc): net logs started and stopped by several threads
      against the network thread's completions; the hooks of a proxy tunnel.
    - Teardown (call.cc, engine.cc): letting go of requests and of the engine, a
      step system of the owners, the destroying thread and the network thread's
      queue of tasks.
    - Engine (_bridge.py, [Engine]): any number of uses of one engine, claiming,
      registering, freeing and closing; a step is what runs under the lock at
      once or one call into the library.
    - Stack: Engine on top of Teardown.  A call into the library is made of
      Teardown's steps ([inside], [answers]), taken by the thread that is in it;
      the network thread works on its own.  A thread may have several uses of the
      engine, and is inside one of them at a time ([turn]).
    - Bridge (_bridge.py, [_build_engine_config], [_build_request],
      [_read_response]): Python values into C structs and back.
    - Waiting (_bridge.py and AsyncSession's waiting): one thread's use of a
      library that may answer anything, the class [Library].
    - Session (session.py): opening, [perform], [perform_async], [request] and
      [stream] on top of all of these.
    - Raises (session.py, errors.py): the exceptions of a request, by a judgement
      with a rule for each construct of the monad.
    - Lifecycle (session.py, [Engine.close] and the net logs of _bridge.py): what
      one task may do with a session in a [with] block ([program]: requests,
      streams and what is done inside them, net logs, closing early), and
      closing it.
    - Composed: the class [Library] implemented by Native and Call under any plan
      of the network thread, so that the loops of Waiting run on the call itself.
    - Surface (__init__.py, hatch_build.py): the exported names, the wheel's tag.
    - Socks (probe_socks5_udp.py, and the relay codec of
      tests/socks5_server.py as its peer).

    ** What the theorems show

    - Nothing is used after being freed and closing ends: [Engine.engine_safe],
      [closed_means_cancelled], [close_never_forgotten], [close_completes], for
      every number of threads and every interleaving; for one task and what it
      does with a session, [Lifecycle.session_lifecycle].  Inside the library
      the same holds of requests and engines, [Teardown.teardown_safe] and
      [destroy_completes], as long as no engine is destroyed while a call is
      being started, nor a call started on one that is gone.  The two levels
      together need no such proviso: [Stack.stack_refines] shows that Python's
      bookkeeping keeps it, [stack_safe] that nothing is used after it is gone on
      either side, and [stack_close_completes] that closing ends with the
      library's part in it, or waits for a call that its thread has dropped or
      holds while it closes, and that nothing else can keep it.
    - Engines made at once do not mix their proxies and are all made
      ([Creation.creation_isolated], [creation_completes]); stopping a net log
      returns ([Callbacks.net_log_stops]).
    - Python and C++ fit: a session's arguments become exactly the engine they
      describe or the reason it is refused ([Opening.session_gets_engine]), its
      requests exactly the ones Chromium is given
      ([Capi.request_reaches_network]), and the two ways of following redirects
      agree where Chromium does what it is documented to
      ([Observer.redirects_agree]).
    - Cookies go where they may: [Cookies.cookie_stays_home], [header_for_sends],
      [set_then_sent], and a jar holds what it should, [jar_contents].
    - A body arrives intact, nobody sleeps through it and memory is bounded:
      [Call.body_intact], [no_lost_wakeup], [never_stuck], [backpressure].
    - Every call is freed exactly once and a returned body is whole, whatever
      the library answers: [Session.perform_frees_once], [request_balanced],
      [stream_closed], [response_is_whole]; with [http3_or_nothing],
      [session_opened] and [patience_irrelevant].
    - The parts fit: over the call of Native the waiting loops are schedules of
      Call ([Composed.loops_refine_call]), a returned content is what the network
      brought ([network_to_response]) and a call that ends is returned from
      ([download_returns]).
    - A request raises what it may and nothing else: [Raises.request_raises].
    - Redirects follow Chromium's rules, end, and never take a credential to
      another origin: [Redirect.next_hop_method], [walk_follows] (the stateful
      chain refines the relation [path]), [walk_limits],
      [next_hop_credentials], [no_token_leak].
    - What is sent is what was asked: [Multipart.multipart_roundtrip] (names,
      filenames, types and contents are read back), [disposition_contained], [Request.build_call_appends],
      [with_query_adds], [encode_body_kinds], [proxy_credentials_travel],
      [Headers.with_defaults_pairs], [with_defaults_order],
      [Bridge.request_marshalled], and back: [Bridge.response_read],
      [Response.read_is_the_stream], [Errors.error_for_classifies],
      [JsonDecode.json_roundtrip].
    - What cannot be sent is refused, and exactly that:
      [Request.check_headers_iff], [checked_url_iff],
      [Options.check_options_iff], [Tls.profile_accepted_iff],
      [Binding.import_iff]; and the declared C layout is sound:
      [Abi.layout_sound].
    - The binding is the header's: [Header.binding_is_generated]; the generator
      leaves nothing out and fails where it should, whatever the header:
      [Generator.strip_comments_spec], [split_declarator_spec], [parse_exports],
      [render_error], [write_then_check].
    - The probe and a relay understand each other: [Socks.udp_roundtrip],
      [associate_reads_relay].

    Some lemmas record where the code falls short of its intent:
    [Session.stream_leaks], [Session.iterator_headers_lost],
    [Redirect.session_authorization_travels], [Call.eof_before_outcome],
    [Response.read_after_timeout],
    [Request.ipv6_proxy_rule_broken], [Redirect.see_other_drops_get_body],
    [Socks.probe_bad_port], [Lifecycle.close_inside_stream],
    [Raises.stream_timeout_escapes], [Cookies.negative_version_crosses_sites],
    [host_cookie_reaches_subdomains], [one_bad_cookie_loses_all],
    [port_needs_host], [Capi.cache_limit_truncated], [call_start_stale_reason],
    [shutdown_refuses], [Teardown.start_after_destroy], [cancellation_lost],
    [Engine.exit_while_starting], [Callbacks.stop_waits_forever],
    [stop_returns_early],
    [Observer.redirect_count_published_late], [jar_forgets_redirect_count],
    [negative_limits_differ], [other_codes_differ], [Call.month_long_limit],
    [Generator.hex_constant_truncated],
    [unvalued_member_dropped], [unnamed_pointer_by_value],
    [forward_reference_accepted].

    ** Bounds and fuel

    - [Redirect.walk] takes fuel; [walk_limits] proves limit + 2 rounds enough
      for any answers, and [Session.follow] runs it with exactly that.
    - The waiting loops of Waiting take a [patience]: running out is the
      interruption of the waiting thread, a real behaviour; by
      [patience_irrelevant] it is the only thing patience can change.
    - [Socks.receive_exactly] uses count + 1 rounds
      ([receive_exactly_spec]).  The native marks (256 KiB, 64 KiB), the
      64 KiB chunk and the eventfd counter are the code's numbers.
    - [JsonDecode.scan] takes fuel; [loads_str] gives it twice the length of the
      text, and more changes no result ([loads_str_fuel]).  The scan
      of [re.sub] and [re.findall] in Regex likewise takes twice the length of
      the text ([scan_text]).
    - In Composed a plan is the network thread's steps at each moment and the
      horizon how many turns a wait lasts; [download_returns] needs a horizon
      that reaches the end of the request and as many rounds as the buffer can
      hold octets ([buffer_limit]).
    - Integers stored into C fields are cut to their width in Bridge; a limit
      that poll() cannot count raises OverflowError, as it does in Python.
    - [Observer.follow_natively] takes one round more than the limit, the walk
      beside it two ([redirects_agree]).
    - The step systems have no fuel: a schedule is a list of steps, and what
      ends does so by a measure ([Engine.left], [Teardown.owed_tasks],
      [Stack.stack_left], [Creation.creation_left], [Callbacks.log_left]).

    ** What is not modelled

    Chromium itself (a class, a parameter, or the order of its callbacks), and
    what //base brings up when the library is first used; msgspec, codecs other
    than UTF-8 and Latin-1, the spelling of floats in JSON, mimetypes' tables,
    ruff and the random source (parameters); difflib's suggestions, the text of
    [repr] and other text that is presentation only; the tests.  A block of
    [Lifecycle.program] reads a streamed body to its end or leaves it; several
    tasks at once are Engine and Stack.  Of http.cookiejar, what the package's
    use of it cannot reach: blocked and allowed domains, the RFC 2965 policy,
    which is off, and cookie files.  Case folding uses the tables of
    Unicode 14. *)

(** ** Prelude: shared notations, automation and lemmas *)


From stdpp Require Export base tactics option list strings gmap.
From Stdlib Require Export ZArith NArith Lia Ascii.

(** ** Text and bytes

    A Python [str] is a sequence of Unicode code points and a Python [bytes]
    a sequence of octets; the two are different types here, as they are in the
    program, so that every [.encode()] of the source is visible. *)

Abbreviation str := (list N).
Abbreviation bytes := (list ascii).

Declare Scope cronet_scope.
Delimit Scope cronet_scope with cronet.
Open Scope cronet_scope.

(** [#"text"] is a [str] literal and [##"text"] a [bytes] literal (ASCII only). *)
Definition lit (s : string) : str := N_of_ascii <$> String.list_ascii_of_string s.
Definition blit (s : string) : bytes := String.list_ascii_of_string s.

Notation "# s" := (lit s%stdpp) (at level 1, s at level 0, format "# s") : cronet_scope.
Notation "## s" := (blit s%stdpp) (at level 1, s at level 0, format "## s") : cronet_scope.

(** Code points that a Rocq literal cannot spell. *)
Definition DQUOTE : N := 34.
Definition CR : N := 13.
Definition LF : N := 10.
Definition crlf : str := [CR; LF].
Definition bcrlf : bytes := ["013"%char; "010"%char].

(** ** Fallible code

    [res E A] is a computation that returns [Ok a] or raises [e]; stdpp's
    monad notation ([x ← m; k]) sequences two of them. *)

Inductive res (E A : Type) : Type :=
| Ok (a : A)
| Raise (e : E).
Arguments Ok {E A} a.
Arguments Raise {E A} e.

#[export] Instance res_ret {E} : MRet (res E) := fun A a => Ok a.
#[export] Instance res_bind {E} : MBind (res E) := fun A B f m =>
  match m with Ok a => f a | Raise e => Raise e end.
#[export] Instance res_fmap {E} : FMap (res E) := fun A B f m =>
  match m with Ok a => Ok (f a) | Raise e => Raise e end.

#[export] Instance res_eq_dec {E A} `{EqDecision E, EqDecision A} : EqDecision (res E A).
Proof. solve_decision. Defined.

Definition is_ok {E A} (r : res E A) : bool :=
  match r with Ok _ => true | Raise _ => false end.

(** [for ... : if bad: raise] over a list. *)
Fixpoint res_iter {E A} (f : A -> res E unit) (l : list A) : res E unit :=
  match l with
  | [] => Ok tt
  | x :: l => _ ← f x; res_iter f l
  end.

(** A list comprehension whose body may raise. *)
Fixpoint res_map {E A B} (f : A -> res E B) (l : list A) : res E (list B) :=
  match l with
  | [] => Ok []
  | x :: l => y ← f x; ys ← res_map f l; Ok (y :: ys)
  end.

Lemma res_bind_ok {E A B} (m : res E A) (f : A -> res E B) (b : B) :
  (x ← m; f x) = Ok b <-> exists a, m = Ok a /\ f a = Ok b.
Proof.
  destruct m as [a|e]; cbn; split.
  - eauto.
  - intros (a' & [= <-] & H); exact H.
  - discriminate.
  - intros (a' & H & _); discriminate.
Qed.

Lemma res_bind_raise {E A B} (m : res E A) (f : A -> res E B) (e : E) :
  (x ← m; f x) = Raise e <-> m = Raise e \/ exists a, m = Ok a /\ f a = Raise e.
Proof.
  destruct m as [a|e']; cbn; split.
  - eauto.
  - intros [H|(a' & [= <-] & H)]; [discriminate|exact H].
  - intros [= ->]; eauto.
  - intros [[= ->]|(a' & H & _)]; [reflexivity|discriminate].
Qed.

Lemma res_iter_ok {E A} (f : A -> res E unit) (l : list A) :
  res_iter f l = Ok tt <-> Forall (fun x => f x = Ok tt) l.
Proof.
  induction l as [|x l IH]; cbn; [by split|].
  rewrite Forall_cons, <- IH. destruct (f x) as [[]|e]; cbn; naive_solver.
Qed.

Lemma res_map_ok {E A B} (f : A -> res E B) (l : list A) (l' : list B) :
  res_map f l = Ok l' <-> Forall2 (fun x y => f x = Ok y) l l'.
Proof.
  revert l'; induction l as [|x l IH]; intros l'; cbn.
  - split; [intros [= <-]; constructor|by inversion 1].
  - split.
    + destruct (f x) as [y|] eqn:Hy; cbn; [|discriminate].
      destruct (res_map f l) as [ys|]; cbn; [|discriminate].
      intros [= <-]. constructor; [done|]. by apply IH.
    + inversion 1 as [|? y ? ys Hy Hys]; subst. rewrite Hy. cbn.
      apply IH in Hys. by rewrite Hys.
Qed.

(** A stateful computation that may raise; the state it has reached survives
    the exception, as a mutation does in the program. *)
Definition st (S E A : Type) : Type := S -> res E A * S.

#[export] Instance st_ret {S E} : MRet (st S E) := fun A a s => (Ok a, s).
#[export] Instance st_bind {S E} : MBind (st S E) := fun A B f m s =>
  match m s with
  | (Ok a, s) => f a s
  | (Raise e, s) => (Raise e, s)
  end.

(** A computation that leaves the state alone. *)
Definition st_lift {S E A} (m : res E A) : st S E A := fun s => (m, s).

(** [try: body finally: cleanup]: the cleanup runs whatever happened, and an
    exception of its own replaces the body's outcome. *)
Definition st_finally {S E A} (body : st S E A) (cleanup : st S E unit) : st S E A := fun s =>
  let '(r, s) := body s in
  match cleanup s with
  | (Ok _, s) => (r, s)
  | (Raise e, s) => (Raise e, s)
  end.

(** [try: body except: handler]; the handler decides which exceptions are its
    own by answering [None] for the others. *)
Definition st_except {S E A} (body : st S E A) (handler : E -> option (st S E A)) : st S E A :=
  fun s =>
    match body s with
    | (Ok a, s) => (Ok a, s)
    | (Raise e, s) => match handler e with Some h => h s | None => (Raise e, s) end
    end.

(** ** Automation *)

(** Case analysis on the scrutinee of a [match] or [if] of the goal or of a
    hypothesis, simplifying the equations it leaves. *)
Ltac crush_match :=
  repeat (case_match || case_bool_decide); simplify_eq/=.

(** Turn boolean tests of the code into propositions. *)
Ltac reflect_bools :=
  repeat match goal with
  | H : bool_decide _ = true |- _ => apply bool_decide_eq_true in H
  | H : bool_decide _ = false |- _ => apply bool_decide_eq_false in H
  | H : andb _ _ = true |- _ => apply andb_true_iff in H as [? ?]
  | H : andb _ _ = false |- _ => apply andb_false_iff in H
  | H : orb _ _ = true |- _ => apply orb_true_iff in H
  | H : orb _ _ = false |- _ => apply orb_false_iff in H as [? ?]
  | H : negb _ = true |- _ => apply negb_true_iff in H
  | H : negb _ = false |- _ => apply negb_false_iff in H
  | H : Z.leb _ _ = true |- _ => apply Z.leb_le in H
  | H : Z.leb _ _ = false |- _ => apply Z.leb_gt in H
  | H : Z.ltb _ _ = true |- _ => apply Z.ltb_lt in H
  | H : Z.ltb _ _ = false |- _ => apply Z.ltb_ge in H
  | H : Z.eqb _ _ = true |- _ => apply Z.eqb_eq in H
  | H : Z.eqb _ _ = false |- _ => apply Z.eqb_neq in H
  | H : Nat.leb _ _ = true |- _ => apply Nat.leb_le in H
  | H : Nat.leb _ _ = false |- _ => apply Nat.leb_gt in H
  | H : Nat.ltb _ _ = true |- _ => apply Nat.ltb_lt in H
  | H : Nat.ltb _ _ = false |- _ => apply Nat.ltb_ge in H
  | H : Nat.eqb _ _ = true |- _ => apply Nat.eqb_eq in H
  | H : Nat.eqb _ _ = false |- _ => apply Nat.eqb_neq in H
  | H : N.leb _ _ = true |- _ => apply N.leb_le in H
  | H : N.leb _ _ = false |- _ => apply N.leb_gt in H
  | H : N.ltb _ _ = true |- _ => apply N.ltb_lt in H
  | H : N.ltb _ _ = false |- _ => apply N.ltb_ge in H
  | H : N.eqb _ _ = true |- _ => apply N.eqb_eq in H
  | H : N.eqb _ _ = false |- _ => apply N.eqb_neq in H
  end.

(** A property of every octet is decided by trying all 256 of them. *)
Ltac all_octets c :=
  destruct c as [[] [] [] [] [] [] [] []]; vm_compute; auto.

Create HintDb cronet.
Create Rewrite HintDb cronet.

#[export] Hint Rewrite @length_app @length_fmap @fmap_app @app_nil_r : cronet.

(** ** List helpers the components share *)

(** [next((x for x in l if p(x)), None)] *)
Fixpoint find_first {A} (p : A -> bool) (l : list A) : option A :=
  match l with
  | [] => None
  | x :: l => if p x then Some x else find_first p l
  end.

Lemma find_first_some {A} (p : A -> bool) (l : list A) (x : A) :
  find_first p l = Some x -> p x = true /\ x ∈ l.
Proof.
  induction l as [|y l IH]; cbn; [discriminate|].
  destruct (p y) eqn:Hy; [intros [= <-]; set_solver|].
  intros H; apply IH in H as [? ?]. set_solver.
Qed.

Lemma find_first_none {A} (p : A -> bool) (l : list A) :
  find_first p l = None <-> Forall (fun x => p x = false) l.
Proof.
  induction l as [|y l IH]; cbn; [by split|].
  rewrite Forall_cons, <- IH. destruct (p y); naive_solver.
Qed.

(** A boolean [filter]: the list comprehension [[x for x in l if p(x)]]. *)
Fixpoint keep {A} (p : A -> bool) (l : list A) : list A :=
  match l with
  | [] => []
  | x :: l => if p x then x :: keep p l else keep p l
  end.

Section keep_lemmas.
Context {A : Type}.
Implicit Types (p q : A -> bool) (l : list A).

Lemma keep_app p l1 l2 : keep p (l1 ++ l2) = keep p l1 ++ keep p l2.
Proof. induction l1 as [|x l1 IH]; cbn; [done|]. rewrite IH. by destruct (p x). Qed.

Lemma elem_of_keep p l x : x ∈ keep p l <-> p x = true /\ x ∈ l.
Proof.
  induction l as [|y l IH]; cbn; [set_solver|].
  destruct (p y) eqn:Hy; rewrite ?elem_of_cons, IH; intuition (subst; congruence).
Qed.

Lemma keep_keep p q l : keep p (keep q l) = keep (fun x => p x && q x) l.
Proof.
  induction l as [|x l IH]; cbn; [done|].
  destruct (q x); cbn; destruct (p x); cbn; by rewrite ?IH.
Qed.

Lemma keep_ext p q l : (forall x, x ∈ l -> p x = q x) -> keep p l = keep q l.
Proof.
  induction l as [|x l IH]; cbn; intros H; [done|].
  rewrite (H x) by (by left). rewrite IH; [done|]. intros y Hy. apply H. by right.
Qed.

Lemma keep_all p l : Forall (fun x => p x = true) l -> keep p l = l.
Proof. induction 1 as [|x l Hx Hl IH]; cbn; [done|]. by rewrite Hx, IH. Qed.

Lemma keep_none p l : Forall (fun x => p x = false) l -> keep p l = [].
Proof. induction 1 as [|x l Hx Hl IH]; cbn; [done|]. by rewrite Hx, IH. Qed.

Lemma keep_nil_iff p l :
  keep p l = [] <-> forall x, x ∈ l -> p x = false.
Proof.
  split.
  - intros H x Hx. destruct (p x) eqn:E; [|done].
    assert (x ∈ keep p l) as Hin by (by apply elem_of_keep). rewrite H in Hin.
    by apply elem_of_nil in Hin.
  - intros H. apply keep_none, Forall_forall. done.
Qed.

Lemma keep_length p l : length (keep p l) <= length l.
Proof. induction l as [|x l IH]; cbn; [lia|]. destruct (p x); cbn; lia. Qed.
End keep_lemmas.

#[export] Hint Rewrite @keep_app @keep_keep : cronet.
