(* ===== verification/Unicode.v ===== *)
(** * Unicode: the character data behind [str.lower], [str.upper] and [int].

    Python takes both from the Unicode character database; the tables below
    are its case mappings (version 14), compressed into runs
    [(first, last, stride, delta)]: a code point [c] of the run with
    [(c - first)] a multiple of [stride] maps to [c + delta].  A code point in
    no run maps to itself.  The one context-dependent rule of [str.lower], the
    final form of the Greek capital sigma, is not part of the model. *)

From S2P Require Import Prelude.

Local Open Scope Z_scope.

Definition case_run : Type := Z * Z * Z * Z.

Definition lower_runs : list case_run :=
  [
   (65,90,1,32); (192,214,1,32); (216,222,1,32); (256,302,2,1); (306,310,2,1); (313,327,2,1);
   (330,374,2,1); (376,376,1,-121); (377,381,2,1); (385,385,1,210); (386,388,2,1); (390,390,1,206);
   (391,391,1,1); (393,394,1,205); (395,395,1,1); (398,398,1,79); (399,399,1,202); (400,400,1,203);
   (401,401,1,1); (403,403,1,205); (404,404,1,207); (406,406,1,211); (407,407,1,209); (408,408,1,1);
   (412,412,1,211); (413,413,1,213); (415,415,1,214); (416,420,2,1); (422,422,1,218); (423,423,1,1);
   (425,425,1,218); (428,428,1,1); (430,430,1,218); (431,431,1,1); (433,434,1,217); (435,437,2,1);
   (439,439,1,219); (440,440,1,1); (444,444,1,1); (452,452,1,2); (453,453,1,1); (455,455,1,2);
   (456,456,1,1); (458,458,1,2); (459,475,2,1); (478,494,2,1); (497,497,1,2); (498,500,2,1);
   (502,502,1,-97); (503,503,1,-56); (504,542,2,1); (544,544,1,-130); (546,562,2,1); (570,570,1,10795);
   (571,571,1,1); (573,573,1,-163); (574,574,1,10792); (577,577,1,1); (579,579,1,-195); (580,580,1,69);
   (581,581,1,71); (582,590,2,1); (880,882,2,1); (886,886,1,1); (895,895,1,116); (902,902,1,38);
   (904,906,1,37); (908,908,1,64); (910,911,1,63); (913,929,1,32); (931,939,1,32); (975,975,1,8);
   (984,1006,2,1); (1012,1012,1,-60); (1015,1015,1,1); (1017,1017,1,-7); (1018,1018,1,1); (1021,1023,1,-130);
   (1024,1039,1,80); (1040,1071,1,32); (1120,1152,2,1); (1162,1214,2,1); (1216,1216,1,15); (1217,1229,2,1);
   (1232,1326,2,1); (1329,1366,1,48); (4256,4293,1,7264); (4295,4295,1,7264); (4301,4301,1,7264); (5024,5103,1,38864);
   (5104,5109,1,8); (7312,7354,1,-3008); (7357,7359,1,-3008); (7680,7828,2,1); (7838,7838,1,-7615); (7840,7934,2,1);
   (7944,7951,1,-8); (7960,7965,1,-8); (7976,7983,1,-8); (7992,7999,1,-8); (8008,8013,1,-8); (8025,8031,2,-8);
   (8040,8047,1,-8); (8072,8079,1,-8); (8088,8095,1,-8); (8104,8111,1,-8); (8120,8121,1,-8); (8122,8123,1,-74);
   (8124,8124,1,-9); (8136,8139,1,-86); (8140,8140,1,-9); (8152,8153,1,-8); (8154,8155,1,-100); (8168,8169,1,-8);
   (8170,8171,1,-112); (8172,8172,1,-7); (8184,8185,1,-128); (8186,8187,1,-126); (8188,8188,1,-9); (8486,8486,1,-7517);
   (8490,8490,1,-8383); (8491,8491,1,-8262); (8498,8498,1,28); (8544,8559,1,16); (8579,8579,1,1); (9398,9423,1,26);
   (11264,11311,1,48); (11360,11360,1,1); (11362,11362,1,-10743); (11363,11363,1,-3814); (11364,11364,1,-10727); (11367,11371,2,1);
   (11373,11373,1,-10780); (11374,11374,1,-10749); (11375,11375,1,-10783); (11376,11376,1,-10782); (11378,11378,1,1); (11381,11381,1,1);
   (11390,11391,1,-10815); (11392,11490,2,1); (11499,11501,2,1); (11506,11506,1,1); (42560,42604,2,1); (42624,42650,2,1);
   (42786,42798,2,1); (42802,42862,2,1); (42873,42875,2,1); (42877,42877,1,-35332); (42878,42886,2,1); (42891,42891,1,1);
   (42893,42893,1,-42280); (42896,42898,2,1); (42902,42920,2,1); (42922,42922,1,-42308); (42923,42923,1,-42319); (42924,42924,1,-42315);
   (42925,42925,1,-42305); (42926,42926,1,-42308); (42928,42928,1,-42258); (42929,42929,1,-42282); (42930,42930,1,-42261); (42931,42931,1,928);
   (42932,42946,2,1); (42948,42948,1,-48); (42949,42949,1,-42307); (42950,42950,1,-35384); (42951,42953,2,1); (42960,42960,1,1);
   (42966,42968,2,1); (42997,42997,1,1); (65313,65338,1,32); (66560,66599,1,40); (66736,66771,1,40); (66928,66938,1,39);
   (66940,66954,1,39); (66956,66962,1,39); (66964,66965,1,39); (68736,68786,1,64); (71840,71871,1,32); (93760,93791,1,32);
   (125184,125217,1,34)].

Definition upper_runs : list case_run :=
  [
   (97,122,1,-32); (181,181,1,743); (224,246,1,-32); (248,254,1,-32); (255,255,1,121); (257,303,2,-1);
   (305,305,1,-232); (307,311,2,-1); (314,328,2,-1); (331,375,2,-1); (378,382,2,-1); (383,383,1,-300);
   (384,384,1,195); (387,389,2,-1); (392,392,1,-1); (396,396,1,-1); (402,402,1,-1); (405,405,1,97);
   (409,409,1,-1); (410,410,1,163); (414,414,1,130); (417,421,2,-1); (424,424,1,-1); (429,429,1,-1);
   (432,432,1,-1); (436,438,2,-1); (441,441,1,-1); (445,445,1,-1); (447,447,1,56); (453,453,1,-1);
   (454,454,1,-2); (456,456,1,-1); (457,457,1,-2); (459,459,1,-1); (460,460,1,-2); (462,476,2,-1);
   (477,477,1,-79); (479,495,2,-1); (498,498,1,-1); (499,499,1,-2); (501,501,1,-1); (505,543,2,-1);
   (547,563,2,-1); (572,572,1,-1); (575,576,1,10815); (578,578,1,-1); (583,591,2,-1); (592,592,1,10783);
   (593,593,1,10780); (594,594,1,10782); (595,595,1,-210); (596,596,1,-206); (598,599,1,-205); (601,601,1,-202);
   (603,603,1,-203); (604,604,1,42319); (608,608,1,-205); (609,609,1,42315); (611,611,1,-207); (613,613,1,42280);
   (614,614,1,42308); (616,616,1,-209); (617,617,1,-211); (618,618,1,42308); (619,619,1,10743); (620,620,1,42305);
   (623,623,1,-211); (625,625,1,10749); (626,626,1,-213); (629,629,1,-214); (637,637,1,10727); (640,640,1,-218);
   (642,642,1,42307); (643,643,1,-218); (647,647,1,42282); (648,648,1,-218); (649,649,1,-69); (650,651,1,-217);
   (652,652,1,-71); (658,658,1,-219); (669,669,1,42261); (670,670,1,42258); (837,837,1,84); (881,883,2,-1);
   (887,887,1,-1); (891,893,1,130); (940,940,1,-38); (941,943,1,-37); (945,961,1,-32); (962,962,1,-31);
   (963,971,1,-32); (972,972,1,-64); (973,974,1,-63); (976,976,1,-62); (977,977,1,-57); (981,981,1,-47);
   (982,982,1,-54); (983,983,1,-8); (985,1007,2,-1); (1008,1008,1,-86); (1009,1009,1,-80); (1010,1010,1,7);
   (1011,1011,1,-116); (1013,1013,1,-96); (1016,1016,1,-1); (1019,1019,1,-1); (1072,1103,1,-32); (1104,1119,1,-80);
   (1121,1153,2,-1); (1163,1215,2,-1); (1218,1230,2,-1); (1231,1231,1,-15); (1233,1327,2,-1); (1377,1414,1,-48);
   (4304,4346,1,3008); (4349,4351,1,3008); (5112,5117,1,-8); (7296,7296,1,-6254); (7297,7297,1,-6253); (7298,7298,1,-6244);
   (7299,7300,1,-6242); (7301,7301,1,-6243); (7302,7302,1,-6236); (7303,7303,1,-6181); (7304,7304,1,35266); (7545,7545,1,35332);
   (7549,7549,1,3814); (7566,7566,1,35384); (7681,7829,2,-1); (7835,7835,1,-59); (7841,7935,2,-1); (7936,7943,1,8);
   (7952,7957,1,8); (7968,7975,1,8); (7984,7991,1,8); (8000,8005,1,8); (8017,8023,2,8); (8032,8039,1,8);
   (8048,8049,1,74); (8050,8053,1,86); (8054,8055,1,100); (8056,8057,1,128); (8058,8059,1,112); (8060,8061,1,126);
   (8112,8113,1,8); (8126,8126,1,-7205); (8144,8145,1,8); (8160,8161,1,8); (8165,8165,1,7); (8526,8526,1,-28);
   (8560,8575,1,-16); (8580,8580,1,-1); (9424,9449,1,-26); (11312,11359,1,-48); (11361,11361,1,-1); (11365,11365,1,-10795);
   (11366,11366,1,-10792); (11368,11372,2,-1); (11379,11379,1,-1); (11382,11382,1,-1); (11393,11491,2,-1); (11500,11502,2,-1);
   (11507,11507,1,-1); (11520,11557,1,-7264); (11559,11559,1,-7264); (11565,11565,1,-7264); (42561,42605,2,-1); (42625,42651,2,-1);
   (42787,42799,2,-1); (42803,42863,2,-1); (42874,42876,2,-1); (42879,42887,2,-1); (42892,42892,1,-1); (42897,42899,2,-1);
   (42900,42900,1,48); (42903,42921,2,-1); (42933,42947,2,-1); (42952,42954,2,-1); (42961,42961,1,-1); (42967,42969,2,-1);
   (42998,42998,1,-1); (43859,43859,1,-928); (43888,43967,1,-38864); (65345,65370,1,-32); (66600,66639,1,-40); (66776,66811,1,-40);
   (66967,66977,1,-39); (66979,66993,1,-39); (66995,67001,1,-39); (67003,67004,1,-39); (68800,68850,1,-64); (71872,71903,1,-32);
   (93792,93823,1,-32); (125218,125251,1,-34)].

(** The upper-casings that are longer than one code point. *)
Definition upper_special : list (N * list N) :=
  [
   (223, [83; 83]); (329, [700; 78]); (496, [74; 780]); (912, [921; 776; 769]);
   (944, [933; 776; 769]); (1415, [1333; 1362]); (7830, [72; 817]); (7831, [84; 776]);
   (7832, [87; 778]); (7833, [89; 778]); (7834, [65; 702]); (8016, [933; 787]);
   (8018, [933; 787; 768]); (8020, [933; 787; 769]); (8022, [933; 787; 834]); (8064, [7944; 921]);
   (8065, [7945; 921]); (8066, [7946; 921]); (8067, [7947; 921]); (8068, [7948; 921]);
   (8069, [7949; 921]); (8070, [7950; 921]); (8071, [7951; 921]); (8072, [7944; 921]);
   (8073, [7945; 921]); (8074, [7946; 921]); (8075, [7947; 921]); (8076, [7948; 921]);
   (8077, [7949; 921]); (8078, [7950; 921]); (8079, [7951; 921]); (8080, [7976; 921]);
   (8081, [7977; 921]); (8082, [7978; 921]); (8083, [7979; 921]); (8084, [7980; 921]);
   (8085, [7981; 921]); (8086, [7982; 921]); (8087, [7983; 921]); (8088, [7976; 921]);
   (8089, [7977; 921]); (8090, [7978; 921]); (8091, [7979; 921]); (8092, [7980; 921]);
   (8093, [7981; 921]); (8094, [7982; 921]); (8095, [7983; 921]); (8096, [8040; 921]);
   (8097, [8041; 921]); (8098, [8042; 921]); (8099, [8043; 921]); (8100, [8044; 921]);
   (8101, [8045; 921]); (8102, [8046; 921]); (8103, [8047; 921]); (8104, [8040; 921]);
   (8105, [8041; 921]); (8106, [8042; 921]); (8107, [8043; 921]); (8108, [8044; 921]);
   (8109, [8045; 921]); (8110, [8046; 921]); (8111, [8047; 921]); (8114, [8122; 921]);
   (8115, [913; 921]); (8116, [902; 921]); (8118, [913; 834]); (8119, [913; 834; 921]);
   (8124, [913; 921]); (8130, [8138; 921]); (8131, [919; 921]); (8132, [905; 921]);
   (8134, [919; 834]); (8135, [919; 834; 921]); (8140, [919; 921]); (8146, [921; 776; 768]);
   (8147, [921; 776; 769]); (8150, [921; 834]); (8151, [921; 776; 834]); (8162, [933; 776; 768]);
   (8163, [933; 776; 769]); (8164, [929; 787]); (8166, [933; 834]); (8167, [933; 776; 834]);
   (8178, [8186; 921]); (8179, [937; 921]); (8180, [911; 921]); (8182, [937; 834]);
   (8183, [937; 834; 921]); (8188, [937; 921]); (64256, [70; 70]); (64257, [70; 73]);
   (64258, [70; 76]); (64259, [70; 70; 73]); (64260, [70; 70; 76]); (64261, [83; 84]);
   (64262, [83; 84]); (64275, [1348; 1350]); (64276, [1348; 1333]); (64277, [1348; 1339]);
   (64278, [1358; 1350]); (64279, [1348; 1341])]%N.

(** Code points whose NFKC normal form holds one of [/?#@:]; urllib refuses
    them in a network location. *)
Definition nfkc_delimiters : list N :=
  [
   8263; 8264; 8265; 8448; 8449; 8453; 8454; 10868; 65043; 65046; 65109; 65110;
   65119; 65131; 65283; 65295; 65306; 65311; 65312]%N.

(** The zeros of the runs of ten decimal digits. *)
Definition decimal_zeros : list N :=
  [48; 1632; 1776; 1984; 2406; 2534; 2662; 2790; 2918; 3046; 3174; 3302; 3430; 3558;
   3664; 3792; 3872; 4160; 4240; 6112; 6160; 6470; 6608; 6784; 6800; 6992; 7088; 7232;
   7248; 42528; 43216; 43264; 43472; 43504; 43600; 44016; 65296; 66720; 68912; 69734;
   69872; 69942; 70096; 70384; 70736; 70864; 71248; 71360; 71472; 71904; 72016; 72784;
   73040; 73120; 92768; 92864; 93008; 120782; 120792; 120802; 120812; 120822; 123200;
   123632; 125264; 130032]%N.

(** [unicodedata.decimal(c)] *)
Definition decimal (c : N) : option N :=
  (fun z => c - z)%N <$> find_first (fun z => (z <=? c) && (c <=? z + 9))%N decimal_zeros.

Definition in_run (c : Z) (r : case_run) : bool :=
  let '(first, last, stride, _) := r in
  (first <=? c) && (c <=? last) && ((c - first) mod stride =? 0).

Definition run_delta (r : case_run) : Z := let '(_, _, _, d) := r in d.

Definition map_runs (rs : list case_run) (c : N) : N :=
  match find_first (in_run (Z.of_N c)) rs with
  | Some r => Z.to_N (Z.of_N c + run_delta r)
  | None => c
  end.

Definition lower_cp (c : N) : list N :=
  if (c =? 304)%N then [105; 775]%N else [map_runs lower_runs c].

Definition upper_cp (c : N) : list N :=
  match find_first (fun e => (e.1 =? c)%N) upper_special with
  | Some e => e.2
  | None => [map_runs upper_runs c]
  end.

(** [str.lower] and [str.upper]. *)
Definition lower (s : str) : str := s ≫= lower_cp.
Definition upper (s : str) : str := s ≫= upper_cp.

Example lower_ascii : lower (#"Content-TYPE") = #"content-type".
Proof. vm_compute. reflexivity. Qed.
Example lower_latin : lower [199; 65; 376]%N = [231; 97; 255]%N.
Proof. vm_compute. reflexivity. Qed.
Example upper_sharp : upper (#"get" ++ [223%N]) = #"GETSS".
Proof. vm_compute. reflexivity. Qed.

(** Lower-casing is pointwise, so it distributes over concatenation. *)
Lemma lower_app (s t : str) : lower (s ++ t) = lower s ++ lower t.
Proof. unfold lower. apply bind_app. Qed.

Lemma lower_nil_iff (s : str) : lower s = [] <-> s = [].
Proof.
  split; [|by intros ->]. destruct s as [|c s]; [done|].
  unfold lower. cbn. unfold lower_cp at 1. by destruct (c =? 304)%N.
Qed.

(** Lower-casing lands outside the case table, so a second time changes
    nothing. *)
Definition run_points (r : case_run) : list Z :=
  let '(first, last, stride, _) := r in (fun k => first + stride * k) <$> seqZ 0 ((last - first) / stride + 1).

Lemma in_run_points (c : Z) (r : case_run) :
  (let '(_, _, stride, _) := r in 0 < stride) -> in_run c r = true -> c ∈ run_points r.
Proof.
  destruct r as [[[first last] stride] delta]. cbn. intros Hs H.
  apply andb_true_iff in H as [H Hm]. apply andb_true_iff in H as [H1 H2].
  apply Z.leb_le in H1, H2. apply Z.eqb_eq in Hm.
  apply list_elem_of_fmap. exists ((c - first) / stride). split.
  - pose proof (Z.div_mod (c - first) stride). lia.
  - apply elem_of_seqZ. split; [apply Z.div_pos; lia|].
    pose proof (Z.div_le_mono (c - first) (last - first) stride). lia.
Qed.

Lemma lower_runs_settle :
  Forall (fun r => (let '(_, _, stride, _) := r in 0 < stride) /\
            Forall (fun c => map_runs lower_runs (Z.to_N (c + run_delta r)) = Z.to_N (c + run_delta r)
                             /\ Z.to_N (c + run_delta r) <> 304%N) (run_points r)) lower_runs.
Proof. apply (bool_decide_unpack _). vm_compute. reflexivity. Qed.

Lemma lower_cp_idem (c : N) : lower (lower_cp c) = lower_cp c.
Proof.
  unfold lower_cp. destruct (c =? 304)%N eqn:E; [vm_compute; reflexivity|].
  assert (map_runs lower_runs (map_runs lower_runs c) = map_runs lower_runs c
          /\ map_runs lower_runs c <> 304%N) as [H1 H2].
  { unfold map_runs at 2 3 4. destruct (find_first _ lower_runs) as [r|] eqn:Ef.
    - apply find_first_some in Ef as [Hr Hin]. pose proof lower_runs_settle as Hall.
      rewrite Forall_forall in Hall. destruct (Hall r Hin) as [Hs Hp].
      rewrite Forall_forall in Hp. by apply Hp, in_run_points.
    - split; [|by apply N.eqb_neq]. unfold map_runs. by rewrite Ef. }
  unfold lower. cbn. unfold lower_cp. apply N.eqb_neq in H2. by rewrite H2, H1.
Qed.

Lemma lower_idem (s : str) : lower (lower s) = lower s.
Proof.
  induction s as [|c s IH]; [done|]. change (lower (c :: s)) with (lower_cp c ++ lower s).
  by rewrite lower_app, lower_cp_idem, IH.
Qed.
