(* ===== verification/PyText.v ===== *)
(** * PyText: the operations of [str] and [bytes] the program uses.

    Slicing, splitting, stripping, joining, UTF-8 and Latin-1, decimal
    rendering and Base64, each as the Python standard library defines it on
    sequences of code points.  [encode] is UTF-8 on scalar values; where
    [.encode()] refuses a lone surrogate, the program's definitions ask
    [is_scalar] first (Errors, [encode_strict]). *)

From S2P Require Import Prelude.
From Stdlib Require Import DecimalString DecimalN DecimalZ.

(** ** Splitting and joining, on any sequence *)

Section sequences.
Context {A : Type} `{EqDecision A}.
Implicit Types (c x : A) (s t : list A).

(** [c in s] *)
Definition has (c : A) (s : list A) : bool := bool_decide (c ∈ s).

(** [s.startswith(p)] *)
Definition starts (p s : list A) : bool := bool_decide (p `prefix_of` s).

(** [s.endswith(p)] *)
Definition ends (p s : list A) : bool := starts (reverse p) (reverse s).

(** The longest run of [p] at the front, and the rest. *)
Fixpoint span (p : A -> bool) (s : list A) : list A * list A :=
  match s with
  | [] => ([], [])
  | x :: s' => if p x then let '(a, b) := span p s' in (x :: a, b) else ([], s)
  end.

(** [s.partition(c)]: the text before the first [c], whether there is one,
    and the text after it. *)
Fixpoint partition (c : A) (s : list A) : list A * bool * list A :=
  match s with
  | [] => ([], false, [])
  | x :: s =>
      if decide (x = c) then ([], true, s)
      else let '(a, found, b) := partition c s in (x :: a, found, b)
  end.

(** [s.rpartition(c)]: around the last [c]; all of [s] comes last when
    there is none. *)
Definition rpartition (c : A) (s : list A) : list A * bool * list A :=
  let '(b, found, a) := partition c (reverse s) in
  (reverse a, found, reverse b).

(** [s.split(c)] *)
Fixpoint split_on (c : A) (s : list A) : list (list A) :=
  match s with
  | [] => [[]]
  | x :: s =>
      if decide (x = c) then [] :: split_on c s
      else match split_on c s with
           | [] => [[x]]
           | p :: ps => (x :: p) :: ps
           end
  end.

(** [sep.join(parts)] *)
Fixpoint join_with (sep : list A) (parts : list (list A)) : list A :=
  match parts with
  | [] => []
  | [p] => p
  | p :: ps => p ++ sep ++ join_with sep ps
  end.

(** [s.translate] with a table from one element to several. *)
Definition translate (f : A -> list A) (s : list A) : list A := s ≫= f.

(** [s.lstrip], [s.rstrip], [s.strip], with the stripped set as a test. *)
Fixpoint lstrip (p : A -> bool) (s : list A) : list A :=
  match s with
  | [] => []
  | x :: s' => if p x then lstrip p s' else s
  end.
Definition rstrip (p : A -> bool) (s : list A) : list A := reverse (lstrip p (reverse s)).
Definition strip (p : A -> bool) (s : list A) : list A := rstrip p (lstrip p s).

Lemma partition_found c s a b :
  partition c s = (a, true, b) -> s = a ++ c :: b /\ c ∉ a.
Proof.
  revert a. induction s as [|x s IH]; cbn; intros a H; [discriminate|].
  destruct (decide (x = c)) as [->|Hne].
  - injection H as <- <-. by split; [|apply not_elem_of_nil].
  - destruct (partition c s) as [[a' f] b'] eqn:E. injection H as <- -> ->.
    destruct (IH _ eq_refl) as [-> Hn]. split; [done|].
    rewrite elem_of_cons. naive_solver.
Qed.

Lemma partition_missing c s a b :
  partition c s = (a, false, b) -> s = a /\ b = [] /\ c ∉ s.
Proof.
  revert a. induction s as [|x s IH]; cbn; intros a H.
  - injection H as <- <-. split_and!; try done. apply not_elem_of_nil.
  - destruct (decide (x = c)) as [->|Hne]; [discriminate|].
    destruct (partition c s) as [[a' f] b'] eqn:E. injection H as <- -> ->.
    destruct (IH _ eq_refl) as (-> & -> & Hn). split_and!; try done.
    rewrite elem_of_cons. naive_solver.
Qed.

Lemma partition_app c s t : c ∉ s -> partition c (s ++ c :: t) = (s, true, t).
Proof.
  induction s as [|x s IH]; cbn; intros H.
  - by rewrite decide_True.
  - apply not_elem_of_cons in H as [Hx Hs]. rewrite decide_False by done.
    by rewrite IH.
Qed.

Lemma partition_absent c s : c ∉ s -> partition c s = (s, false, []).
Proof.
  induction s as [|x s IH]; cbn; intros H; [done|].
  apply not_elem_of_cons in H as [Hx Hs]. rewrite decide_False by done.
  by rewrite IH.
Qed.

Lemma elem_of_reverse_iff (x : A) (s : list A) : x ∈ reverse s <-> x ∈ s.
Proof. apply elem_of_reverse. Qed.

Lemma rpartition_absent c s : c ∉ s -> rpartition c s = ([], false, s).
Proof.
  intros H. unfold rpartition. rewrite partition_absent.
  - by rewrite reverse_involutive.
  - by rewrite elem_of_reverse.
Qed.

Lemma rpartition_app c s t : c ∉ t -> rpartition c (s ++ c :: t) = (s, true, t).
Proof.
  intros H. unfold rpartition. rewrite reverse_app, reverse_cons, <- app_assoc. cbn.
  rewrite partition_app by (by rewrite elem_of_reverse).
  by rewrite !reverse_involutive.
Qed.

Lemma rpartition_found c s a b :
  rpartition c s = (a, true, b) -> s = a ++ c :: b /\ c ∉ b.
Proof.
  unfold rpartition. destruct (partition c (reverse s)) as [[x f] y] eqn:E.
  intros [= <- -> <-]. apply partition_found in E as [E H].
  split; [|by rewrite elem_of_reverse].
  apply (f_equal reverse) in E. rewrite reverse_involutive in E.
  by rewrite E, reverse_app, reverse_cons, <- app_assoc.
Qed.

Lemma rpartition_missing c s a b : rpartition c s = (a, false, b) -> c ∉ s.
Proof.
  unfold rpartition. destruct (partition c (reverse s)) as [[x f] y] eqn:E. intros [= _ -> _].
  apply partition_missing in E as (_ & _ & H). by rewrite elem_of_reverse in H.
Qed.

Lemma split_on_nonempty c s : split_on c s <> [].
Proof.
  destruct s as [|x s]; cbn; [done|]. destruct (decide (x = c)); [done|].
  by destruct (split_on c s).
Qed.

Lemma split_on_absent c s : c ∉ s -> split_on c s = [s].
Proof.
  induction s as [|x s IH]; cbn; intros H; [done|].
  apply not_elem_of_cons in H as [Hx Hs]. rewrite decide_False by done.
  by rewrite IH.
Qed.

Lemma split_on_app c s t : c ∉ s -> split_on c (s ++ c :: t) = s :: split_on c t.
Proof.
  induction s as [|x s IH]; cbn; intros H.
  - by rewrite decide_True.
  - apply not_elem_of_cons in H as [Hx Hs]. rewrite decide_False by done.
    by rewrite IH.
Qed.

(** Splitting undoes joining when no part holds the separator. *)
Lemma split_join c (ps : list (list A)) :
  ps <> [] -> Forall (fun p => c ∉ p) ps -> split_on c (join_with [c] ps) = ps.
Proof.
  intros Hne H. induction H as [|p ps Hp Hps IH]; [done|].
  destruct ps as [|q ps].
  - cbn. by apply split_on_absent.
  - change (join_with [c] (p :: q :: ps)) with (p ++ c :: join_with [c] (q :: ps)).
    rewrite split_on_app by done. by rewrite IH.
Qed.

(** Joining undoes splitting, always. *)
Lemma join_split c s : join_with [c] (split_on c s) = s.
Proof.
  induction s as [|x s IH]; cbn; [done|].
  pose proof (split_on_nonempty c s) as Hne.
  destruct (decide (x = c)) as [->|_].
  - destruct (split_on c s) as [|p ps]; [done|]. cbn in *. by rewrite IH.
  - destruct (split_on c s) as [|p [|q ps]]; [done|..]; cbn in *; by rewrite IH.
Qed.

Lemma split_on_cons_found c x s :
  split_on c s <> [s] -> c ∈ s.
Proof.
  intros H. destruct (decide (c ∈ s)) as [|Hn]; [done|].
  by rewrite split_on_absent in H.
Qed.

Lemma starts_app p s : starts p (p ++ s) = true.
Proof. apply bool_decide_eq_true. by apply prefix_app_r. Qed.

Lemma starts_true p s : starts p s = true <-> exists t, s = p ++ t.
Proof. unfold starts. rewrite bool_decide_eq_true. done. Qed.

Lemma ends_true p s : ends p s = true <-> exists t, s = t ++ p.
Proof.
  unfold ends. rewrite starts_true. split; intros [t H].
  - exists (reverse t). apply (f_equal reverse) in H.
    by rewrite reverse_involutive, reverse_app, reverse_involutive in H.
  - exists (reverse t). by rewrite H, reverse_app.
Qed.

Lemma ends_app p s : ends p (s ++ p) = true.
Proof. apply ends_true. by exists s. Qed.

Lemma span_app p s : (span p s).1 ++ (span p s).2 = s.
Proof.
  induction s as [|x s IH]; cbn; [done|]. destruct (p x); [|done].
  destruct (span p s) as [a b]. cbn in *. by rewrite IH.
Qed.

Lemma span_stop (p : A -> bool) s t :
  Forall (fun x => p x = true) s -> match t with x :: _ => p x = false | [] => True end ->
  span p (s ++ t) = (s, t).
Proof.
  intros Hs Ht. induction Hs as [|x s Hx Hs IH]; cbn.
  - destruct t as [|x t]; cbn; [done|]. by rewrite Ht.
  - by rewrite Hx, IH.
Qed.

Lemma has_true c s : has c s = true <-> c ∈ s.
Proof. apply bool_decide_eq_true. Qed.
Lemma has_false c s : has c s = false <-> c ∉ s.
Proof. apply bool_decide_eq_false. Qed.
End sequences.

#[export] Hint Rewrite @rpartition_absent @partition_absent @split_on_absent using done : cronet.

Lemma starts_cons (x : N) (p s : str) :
  starts (x :: p) s = match s with y :: s' => (x =? y)%N && starts p s' | [] => false end.
Proof.
  apply eq_bool_prop_intro. unfold starts. rewrite !Is_true_true, bool_decide_eq_true.
  destruct s as [|y s']; [split; [intros H; by apply prefix_nil_inv in H|done]|].
  rewrite andb_true_iff, N.eqb_eq, bool_decide_eq_true. split.
  - intros H. split; [by eapply prefix_cons_inv_1|by eapply prefix_cons_inv_2].
  - intros [-> ?]. by apply prefix_cons.
Qed.

Lemma starts_nil (s : str) : starts [] s = true.
Proof. apply bool_decide_eq_true, prefix_nil. Qed.

(** [for old, new in ...: s.replace(old, new)] on one code point. *)
Definition remove_cps (bad : list N) (s : str) : str := keep (fun c => negb (has c bad)) s.

Definition is_ascii (c : N) : bool := (c <? 128)%N.
Definition is_ascii_digit (c : N) : bool := (48 <=? c)%N && (c <=? 57)%N.
Definition is_ascii_upper (c : N) : bool := (65 <=? c)%N && (c <=? 90)%N.
Definition is_ascii_lower (c : N) : bool := (97 <=? c)%N && (c <=? 122)%N.
Definition is_ascii_alpha (c : N) : bool := is_ascii_upper c || is_ascii_lower c.
Definition is_ascii_alnum (c : N) : bool := is_ascii_alpha c || is_ascii_digit c.

(** What [str.strip()] removes. *)
Definition is_space (c : N) : bool :=
  ((9 <=? c) && (c <=? 13) || (28 <=? c) && (c <=? 32) || (c =? 133) || (c =? 160)
   || (c =? 5760) || (8192 <=? c) && (c <=? 8202) || (c =? 8232) || (c =? 8233)
   || (c =? 8239) || (c =? 8287) || (c =? 12288))%N.

(** ** Decimal integers: [f"{n}"] and [int(s)] on ASCII digits *)

Definition str_of_Z (z : Z) : str := lit (NilZero.string_of_int (Z.to_int z)).

Fixpoint digits_value (acc : N) (s : str) : N :=
  match s with
  | [] => acc
  | c :: s => digits_value (10 * acc + (c - 48))%N s
  end.

(** ** Encodings *)

Definition octet (n : N) : ascii := ascii_of_N n.
Definition oct (c : ascii) : N := N_of_ascii c.

(** A Unicode scalar value: a code point that is not a surrogate. *)
Definition scalar (c : N) : Prop := (c < 55296 \/ (57344 <= c /\ c < 1114112))%N.

Definition is_scalar (c : N) : bool := (c <? 55296)%N || ((57344 <=? c)%N && (c <? 1114112)%N).

Lemma is_scalar_spec (c : N) : is_scalar c = true <-> scalar c.
Proof.
  unfold is_scalar, scalar.
  rewrite orb_true_iff, andb_true_iff, N.leb_le, !N.ltb_lt. lia.
Qed.

Definition utf8_cp (c : N) : bytes :=
  if (c <? 128)%N then [octet c]
  else if (c <? 2048)%N then [octet (192 + c / 64); octet (128 + c mod 64)]
  else if (c <? 65536)%N then
    [octet (224 + c / 4096); octet (128 + (c / 64) mod 64); octet (128 + c mod 64)]
  else
    [octet (240 + c / 262144); octet (128 + (c / 4096) mod 64);
     octet (128 + (c / 64) mod 64); octet (128 + c mod 64)].

(** [s.encode()] *)
Definition encode (s : str) : bytes := s ≫= utf8_cp.

Definition in_range (lo hi n : N) : bool := (lo <=? n)%N && (n <=? hi)%N.
Definition cont (b : ascii) : bool := in_range 128 191 (oct b).

(** The range the second octet must fall in, by the first. *)
Definition second_range (b0 : N) : N * N :=
  if (b0 =? 224)%N then (160, 191)%N
  else if (b0 =? 237)%N then (128, 159)%N
  else if (b0 =? 240)%N then (144, 191)%N
  else if (b0 =? 244)%N then (128, 143)%N
  else (128, 191)%N.

Definition second_ok (b0 : N) (b1 : ascii) : bool :=
  let '(lo, hi) := second_range b0 in in_range lo hi (oct b1).

(** The units a UTF-8 decoder reads: [Some c] for a well-formed sequence and
    [None] for one maximal ill-formed part, the unit of [errors="replace"]. *)
Fixpoint utf8_units (l : bytes) : list (option N) :=
  match l with
  | [] => []
  | b0 :: r0 =>
      let n0 := oct b0 in
      if (n0 <? 128)%N then Some n0 :: utf8_units r0
      else if in_range 194 223 n0 then
        match r0 with
        | b1 :: r1 =>
            if cont b1
            then Some ((n0 - 192) * 64 + (oct b1 - 128))%N :: utf8_units r1
            else None :: utf8_units r0
        | [] => [None]
        end
      else if in_range 224 239 n0 then
        match r0 with
        | b1 :: r1 =>
            if second_ok n0 b1 then
              match r1 with
              | b2 :: r2 =>
                  if cont b2
                  then Some ((n0 - 224) * 4096 + (oct b1 - 128) * 64 + (oct b2 - 128))%N
                         :: utf8_units r2
                  else None :: utf8_units r1
              | [] => [None]
              end
            else None :: utf8_units r0
        | [] => [None]
        end
      else if in_range 240 244 n0 then
        match r0 with
        | b1 :: r1 =>
            if second_ok n0 b1 then
              match r1 with
              | b2 :: r2 =>
                  if cont b2 then
                    match r2 with
                    | b3 :: r3 =>
                        if cont b3
                        then Some ((n0 - 240) * 262144 + (oct b1 - 128) * 4096
                                   + (oct b2 - 128) * 64 + (oct b3 - 128))%N
                               :: utf8_units r3
                        else None :: utf8_units r2
                    | [] => [None]
                    end
                  else None :: utf8_units r1
              | [] => [None]
              end
            else None :: utf8_units r0
        | [] => [None]
        end
      else None :: utf8_units r0
  end.

(** [b.decode()], [None] being a UnicodeDecodeError, and
    [b.decode(errors="replace")]. *)
Definition decode (b : bytes) : option str := mapM id (utf8_units b).
Definition decode_replace (b : bytes) : str := default 65533%N <$> utf8_units b.

(** [s.encode("latin-1")], [None] being a UnicodeEncodeError, and
    [b.decode("latin-1")], which cannot fail. *)
Definition encode_latin1 (s : str) : option bytes :=
  mapM (fun c => if (c <? 256)%N then Some (octet c) else None) s.
Definition decode_latin1 (b : bytes) : str := oct <$> b.

Lemma oct_octet (n : N) : (n < 256)%N -> oct (octet n) = n.
Proof. apply N_ascii_embedding. Qed.

Lemma octet_oct (c : ascii) : octet (oct c) = c.
Proof. apply ascii_N_embedding. Qed.

Lemma oct_bound (c : ascii) : (oct c < 256)%N.
Proof. apply N_ascii_bounded. Qed.

Lemma encode_app (s t : str) : encode (s ++ t) = encode s ++ encode t.
Proof. apply bind_app. Qed.

Lemma utf8_cp_ascii (c : N) : (c < 128)%N -> utf8_cp c = [octet c].
Proof. intros H. unfold utf8_cp. apply N.ltb_lt in H. by rewrite H. Qed.

(** The base-64 digits of a code point, as linear facts. *)
Lemma digits64 (c : N) :
  exists q d, c = (q * 64 + d)%N /\ (d < 64)%N /\ (c / 64)%N = q /\ (c mod 64)%N = d.
Proof.
  exists (c / 64)%N, (c mod 64)%N. split_and!; [|apply N.mod_lt; lia|done|done].
  rewrite (N.div_mod c 64) at 1 by lia. lia.
Qed.

Lemma in_range_true (lo hi n : N) : (lo <= n <= hi)%N -> in_range lo hi n = true.
Proof. intros [? ?]. unfold in_range. apply andb_true_iff. by rewrite !N.leb_le. Qed.

Lemma in_range_false (lo hi n : N) : (n < lo \/ hi < n)%N -> in_range lo hi n = false.
Proof. intros H. unfold in_range. apply andb_false_iff. rewrite !N.leb_gt. done. Qed.

Lemma cont_octet (d : N) : (d < 64)%N -> cont (octet (128 + d)) = true.
Proof. intros H. unfold cont. rewrite oct_octet by lia. apply in_range_true. lia. Qed.

(** The second octet of a well-formed sequence passes the decoder's test:
    neither overlong, nor a surrogate, nor beyond the last code point. *)
Lemma second_ok_octet (n0 d : N) :
  (d < 64)%N ->
  (n0 = 224 -> 32 <= d)%N -> (n0 = 237 -> d < 32)%N ->
  (n0 = 240 -> 16 <= d)%N -> (n0 = 244 -> d < 16)%N ->
  second_ok n0 (octet (128 + d)) = true.
Proof.
  intros Hd H1 H2 H3 H4. unfold second_ok, second_range. rewrite oct_octet by lia.
  destruct (N.eqb_spec n0 224); [apply in_range_true; lia|].
  destruct (N.eqb_spec n0 237); [apply in_range_true; lia|].
  destruct (N.eqb_spec n0 240); [apply in_range_true; lia|].
  destruct (N.eqb_spec n0 244); apply in_range_true; lia.
Qed.

Ltac utf8_step :=
  cbn [app utf8_units]; repeat (rewrite oct_octet by lia);
  try rewrite (proj2 (N.ltb_ge _ 128)) by lia;
  repeat (rewrite in_range_false by lia);
  rewrite ?in_range_true by lia;
  rewrite ?second_ok_octet by lia; rewrite ?cont_octet by lia.

Lemma utf8_units_cp (c : N) (r : bytes) :
  scalar c -> utf8_units (utf8_cp c ++ r) = Some c :: utf8_units r.
Proof.
  unfold scalar. intros Hs. unfold utf8_cp.
  replace (c / 262144)%N with (c / 64 / 64 / 64)%N by (rewrite !N.Div0.div_div; done).
  replace (c / 4096)%N with (c / 64 / 64)%N by (rewrite !N.Div0.div_div; done).
  destruct (digits64 c) as (q & d & Hc & Hd & -> & ->).
  destruct (digits64 q) as (q' & d' & Hq & Hd' & -> & ->).
  destruct (digits64 q') as (q'' & d'' & Hq' & Hd'' & -> & ->).
  destruct (N.ltb_spec c 128) as [H1|H1]; [|destruct (N.ltb_spec c 2048) as [H2|H2];
    [|destruct (N.ltb_spec c 65536) as [H3|H3]]].
  - cbn [app utf8_units]. rewrite oct_octet by lia.
    by rewrite (proj2 (N.ltb_lt c 128)) by lia.
  - utf8_step. do 2 f_equal. lia.
  - utf8_step. do 2 f_equal. lia.
  - utf8_step. do 2 f_equal. lia.
Qed.

Lemma utf8_units_encode (s : str) :
  Forall scalar s -> utf8_units (encode s) = Some <$> s.
Proof.
  induction 1 as [|c s Hc Hs IH]; [done|].
  unfold encode in *. cbn. rewrite utf8_units_cp by done. by rewrite IH.
Qed.

(** Decoding undoes encoding. *)
Lemma decode_encode (s : str) : Forall scalar s -> decode (encode s) = Some s.
Proof.
  intros H. unfold decode. rewrite utf8_units_encode by done. clear H.
  induction s as [|c s IH]; cbn; [done|]. cbn in IH. by rewrite IH.
Qed.

Lemma decode_replace_encode (s : str) : Forall scalar s -> decode_replace (encode s) = s.
Proof.
  intros H. unfold decode_replace. rewrite utf8_units_encode by done.
  rewrite <- list_fmap_compose. rewrite <- (list_fmap_id s) at 2. done.
Qed.

Lemma encode_ascii (s : str) :
  Forall (fun c => (c < 128)%N) s -> encode s = octet <$> s.
Proof.
  induction 1 as [|c s Hc Hs IH]; [done|]. unfold encode in *. cbn.
  by rewrite utf8_cp_ascii, IH.
Qed.

Lemma encode_latin1_some (s : str) :
  Forall (fun c => (c < 256)%N) s -> encode_latin1 s = Some (octet <$> s).
Proof.
  unfold encode_latin1. induction 1 as [|c s Hc Hs IH]; [done|]. cbn.
  apply N.ltb_lt in Hc. rewrite Hc. cbn. by rewrite IH.
Qed.

(** The two Latin-1 conversions are inverse to each other. *)
Lemma decode_encode_latin1 (s : str) (b : bytes) :
  encode_latin1 s = Some b -> decode_latin1 b = s.
Proof.
  unfold encode_latin1, decode_latin1. revert b. induction s as [|c s IH]; intros b H.
  - by injection H as <-.
  - cbn in H. destruct (N.ltb_spec c 256) as [Hc|]; [|discriminate]. cbn in H.
    destruct (mapM _ s) as [b'|] eqn:E; [|discriminate]. injection H as <-.
    cbn. by rewrite (IH b'), oct_octet.
Qed.

Lemma encode_decode_latin1 (b : bytes) : encode_latin1 (decode_latin1 b) = Some b.
Proof.
  unfold decode_latin1. rewrite encode_latin1_some.
  - f_equal. rewrite <- list_fmap_compose. rewrite <- (list_fmap_id b) at 2.
    apply list_fmap_ext. intros i x _. apply octet_oct.
  - apply Forall_fmap, Forall_true. intros x. apply oct_bound.
Qed.

Lemma Forall_lit (P : N -> Prop) (s : string) :
  Forall (fun c => P (N_of_ascii c)) (String.list_ascii_of_string s) -> Forall P (lit s).
Proof. apply Forall_fmap. Qed.

Lemma in_range_spec (lo hi n : N) : in_range lo hi n = true <-> (lo <= n <= hi)%N.
Proof. unfold in_range. rewrite andb_true_iff, !N.leb_le. done. Qed.

Lemma second_ok_spec (n0 : N) (b : ascii) :
  second_ok n0 b = true ->
  (128 <= oct b <= 191)%N /\ (n0 = 224 -> 160 <= oct b)%N /\ (n0 = 237 -> oct b <= 159)%N
  /\ (n0 = 240 -> 144 <= oct b)%N /\ (n0 = 244 -> oct b <= 143)%N.
Proof.
  unfold second_ok, second_range.
  destruct (N.eqb_spec n0 224); [|destruct (N.eqb_spec n0 237); [|destruct (N.eqb_spec n0 240);
    [|destruct (N.eqb_spec n0 244)]]]; rewrite in_range_spec; lia.
Qed.

Definition unit_scalar (u : option N) : Prop :=
  match u with Some c => scalar c | None => True end.

Ltac next_unit IH :=
  constructor; [cbn; unfold scalar; lia|apply IH; cbn [length] in *; lia].

(** A decoder only ever produces scalar values. *)
Lemma utf8_units_scalar (l : bytes) : Forall unit_scalar (utf8_units l).
Proof.
  remember (length l) as n eqn:Hn. revert l Hn.
  induction n as [n IH] using lt_wf_ind. intros [|b0 r0] Hn; [constructor|].
  cbn [length] in Hn.
  assert (forall r, length r < n -> Forall unit_scalar (utf8_units r)) as IH'.
  { intros r Hr. by eapply IH. }
  clear IH. cbn [utf8_units].
  destruct (N.ltb_spec (oct b0) 128); [next_unit IH'|].
  destruct (in_range 194 223 _) eqn:E2.
  { apply in_range_spec in E2. destruct r0 as [|b1 r1]; [by repeat constructor|].
    destruct (cont b1) eqn:C1; [apply in_range_spec in C1|]; next_unit IH'. }
  destruct (in_range 224 239 _) eqn:E3.
  { apply in_range_spec in E3. destruct r0 as [|b1 r1]; [by repeat constructor|].
    destruct (second_ok _ b1) eqn:C1; [apply second_ok_spec in C1|next_unit IH'].
    destruct r1 as [|b2 r2]; [by repeat constructor|].
    destruct (cont b2) eqn:C2; [apply in_range_spec in C2|]; next_unit IH'. }
  destruct (in_range 240 244 _) eqn:E4; [|next_unit IH'].
  apply in_range_spec in E4. destruct r0 as [|b1 r1]; [by repeat constructor|].
  destruct (second_ok _ b1) eqn:C1; [apply second_ok_spec in C1|next_unit IH'].
  destruct r1 as [|b2 r2]; [by repeat constructor|].
  destruct (cont b2) eqn:C2; [apply in_range_spec in C2|next_unit IH'].
  destruct r2 as [|b3 r3]; [by repeat constructor|].
  destruct (cont b3) eqn:C3; [apply in_range_spec in C3|]; next_unit IH'.
Qed.

Lemma decode_replace_scalar (b : bytes) : Forall scalar (decode_replace b).
Proof.
  unfold decode_replace. apply Forall_fmap. eapply Forall_impl; [apply utf8_units_scalar|].
  intros [c|]; cbn; [done|]. intros _. unfold scalar. lia.
Qed.

(** ** Base64 *)

Definition b64_char (n : N) : ascii :=
  if (n <? 26)%N then octet (65 + n)
  else if (n <? 52)%N then octet (71 + n)
  else if (n <? 62)%N then octet (n - 4)
  else if (n =? 62)%N then "+"%char else "/"%char.

(** [base64.b64encode] *)
Fixpoint b64encode (b : bytes) : bytes :=
  match b with
  | x :: y :: z :: r =>
      let n := (oct x * 65536 + oct y * 256 + oct z)%N in
      b64_char (n / 262144) :: b64_char ((n / 4096) mod 64)
        :: b64_char ((n / 64) mod 64) :: b64_char (n mod 64) :: b64encode r
  | [x; y] =>
      let n := (oct x * 1024 + oct y * 4)%N in
      [b64_char (n / 4096); b64_char ((n / 64) mod 64); b64_char (n mod 64); "="%char]
  | [x] =>
      let n := (oct x * 16)%N in
      [b64_char (n / 64); b64_char (n mod 64); "="%char; "="%char]
  | [] => []
  end.

(** The decoder a server applies (RFC 4648): groups of four digits, with
    padding allowed in the last. *)
Definition b64_value (c : ascii) : option N :=
  let n := oct c in
  if in_range 65 90 n then Some (n - 65)%N
  else if in_range 97 122 n then Some (n - 71)%N
  else if in_range 48 57 n then Some (n + 4)%N
  else if (n =? 43)%N then Some 62%N
  else if (n =? 47)%N then Some 63%N
  else None.

Fixpoint b64decode (s : bytes) : option bytes :=
  match s with
  | [] => Some []
  | a :: b :: c :: d :: r =>
      va ← b64_value a; vb ← b64_value b;
      match b64_value c, b64_value d with
      | Some vc, Some vd =>
          let n := (va * 262144 + vb * 4096 + vc * 64 + vd)%N in
          rest ← b64decode r;
          Some (octet (n / 65536) :: octet ((n / 256) mod 256) :: octet (n mod 256) :: rest)
      | Some vc, None =>
          let n := (va * 4096 + vb * 64 + vc)%N in
          if ascii_dec d "=" then
            if bool_decide (r = []) then Some [octet (n / 1024); octet ((n / 4) mod 256)] else None
          else None
      | None, None =>
          let n := (va * 64 + vb)%N in
          if ascii_dec c "=" then if ascii_dec d "=" then
            if bool_decide (r = []) then Some [octet (n / 16)] else None
          else None else None
      | None, Some _ => None
      end
  | _ => None
  end.

Example b64_ex : b64encode (##"Aladdin:open sesame") = ##"QWxhZGRpbjpvcGVuIHNlc2FtZQ==".
Proof. vm_compute. reflexivity. Qed.

Lemma b64_value_char (n : N) : (n < 64)%N -> b64_value (b64_char n) = Some n.
Proof.
  intros H. assert (n ∈ N.of_nat <$> seq 0 64) as Hn.
  { apply list_elem_of_fmap. exists (N.to_nat n). split; [lia|]. apply elem_of_seq. lia. }
  clear H. revert n Hn. apply Forall_forall.
  repeat (constructor; [vm_compute; reflexivity|]). constructor.
Qed.

Lemma octet_quot (q m r : N) (c : ascii) :
  q = (oct c * m + r)%N -> (r < m)%N -> octet (q / m) = c.
Proof.
  intros -> H. rewrite N.div_add_l by lia. rewrite N.div_small by done.
  rewrite N.add_0_r. apply octet_oct.
Qed.

Lemma octet_mod (q r : N) (c : ascii) : q = (r * 256 + oct c)%N -> octet (q mod 256) = c.
Proof.
  intros ->. rewrite N.add_comm, N.Div0.mod_add, N.mod_small by apply oct_bound.
  apply octet_oct.
Qed.

Lemma octet_mid (q m r s : N) (c : ascii) :
  q = ((r * 256 + oct c) * m + s)%N -> (s < m)%N -> octet ((q / m) mod 256) = c.
Proof.
  intros -> H. rewrite N.div_add_l by lia. rewrite N.div_small by done.
  rewrite N.add_0_r. by eapply octet_mod.
Qed.

(** Base64 loses nothing. *)
Lemma b64_roundtrip (b : bytes) : b64decode (b64encode b) = Some b.
Proof.
  remember (length b) as n eqn:Hn. revert b Hn.
  induction n as [n IH] using lt_wf_ind. intros b Hn.
  destruct b as [|x [|y [|z r]]]; [done|..]; cbn [b64encode b64decode].
  - pose proof (oct_bound x).
    destruct (digits64 (oct x * 16)) as (q & d & Hq & Hd & -> & ->).
    rewrite !b64_value_char by lia. cbn. do 2 f_equal.
    eapply (octet_quot _ 16 0); lia.
  - pose proof (oct_bound x). pose proof (oct_bound y).
    replace ((oct x * 1024 + oct y * 4) / 4096)%N
      with ((oct x * 1024 + oct y * 4) / 64 / 64)%N by (by rewrite N.Div0.div_div).
    destruct (digits64 (oct x * 1024 + oct y * 4)) as (q & d & Hq & Hd & -> & ->).
    destruct (digits64 q) as (q' & d' & Hq' & Hd' & -> & ->).
    rewrite !b64_value_char by lia. cbn. do 2 f_equal; [|f_equal].
    + apply (octet_quot _ 1024 (oct y * 4)); lia.
    + apply (octet_mid _ 4 (oct x) 0); lia.
  - pose proof (oct_bound x). pose proof (oct_bound y). pose proof (oct_bound z).
    set (m := (oct x * 65536 + oct y * 256 + oct z)%N).
    replace (m / 262144)%N with (m / 64 / 64 / 64)%N by (by rewrite !N.Div0.div_div).
    replace (m / 4096)%N with (m / 64 / 64)%N by (by rewrite N.Div0.div_div).
    destruct (digits64 m) as (q & d & Hq & Hd & -> & ->).
    destruct (digits64 q) as (q' & d' & Hq' & Hd' & -> & ->).
    destruct (digits64 q') as (q'' & d'' & Hq'' & Hd'' & -> & ->).
    rewrite !b64_value_char by lia. cbn [mbind option_bind].
    rewrite (IH (length r)) by (cbn in Hn; subst; lia || done). cbn [mbind option_bind].
    do 2 f_equal; [|f_equal; [|f_equal]].
    + apply (octet_quot _ 65536 (oct y * 256 + oct z)); lia.
    + apply (octet_mid _ 256 (oct x) (oct z)); lia.
    + apply (octet_mod _ (oct x * 256 + oct y)); lia.
Qed.

(** ** [sorted] on strings: code point by code point *)

Fixpoint str_leb (s t : str) : bool :=
  match s, t with
  | [], _ => true
  | _ :: _, [] => false
  | a :: s, b :: t => if (a =? b)%N then str_leb s t else (a <? b)%N
  end.

Fixpoint insert_str (x : str) (l : list str) : list str :=
  match l with
  | [] => [x]
  | y :: l => if str_leb x y then x :: y :: l else y :: insert_str x l
  end.

Fixpoint sort_strs (l : list str) : list str :=
  match l with
  | [] => []
  | x :: l => insert_str x (sort_strs l)
  end.

Lemma sort_strs_perm (l : list str) : sort_strs l ≡ₚ l.
Proof.
  induction l as [|x l IH]; cbn; [done|].
  assert (forall m, insert_str x m ≡ₚ x :: m) as Hi.
  { clear. induction m as [|y m IH]; cbn; [done|]. destruct (str_leb x y); [done|].
    rewrite IH. apply Permutation_swap. }
  by rewrite Hi, IH.
Qed.

Lemma sort_strs_nil (l : list str) : sort_strs l = [] <-> l = [].
Proof.
  split; [|by intros ->]. intros H. pose proof (sort_strs_perm l) as Hp. rewrite H in Hp.
  by apply Permutation_nil_l in Hp.
Qed.

(** *** Decimal text of a natural number *)

Definition is_digit_cp (c : N) : Prop := (48 <= c <= 57)%N.

Lemma digits_value_acc (d : Decimal.uint) (acc : positive) :
  digits_value (Npos acc) (lit (NilEmpty.string_of_uint d)) = Npos (Pos.of_uint_acc d acc).
Proof. revert acc. induction d; intros acc; cbn -[N.mul N.add N.sub]; try done; rewrite <- IHd; f_equal; lia. Qed.

Lemma digits_value_uint (d : Decimal.uint) :
  digits_value 0 (lit (NilEmpty.string_of_uint d)) = Pos.of_uint d.
Proof. induction d; cbn -[N.mul N.add N.sub]; try done; apply digits_value_acc. Qed.

Lemma digits_of_uint (d : Decimal.uint) : Forall is_digit_cp (lit (NilEmpty.string_of_uint d)).
Proof. unfold is_digit_cp. induction d; cbn; constructor; try done; lia. Qed.

Lemma str_of_N_eq (n : N) :
  exists d, str_of_Z (Z.of_N n) = lit (NilEmpty.string_of_uint d)
    /\ d <> Decimal.Nil /\ Pos.of_uint d = n.
Proof.
  destruct n as [|p]; [by exists (Decimal.D0 Decimal.Nil)|].
  exists (Pos.to_uint p). pose proof (Unsigned.of_to (Npos p)) as H.
  change (N.to_uint (Npos p)) with (Pos.to_uint p) in H.
  assert (Pos.to_uint p <> Decimal.Nil) as Hn by (intros E; by rewrite E in H).
  split_and!; [|done|exact H]. unfold str_of_Z. cbn [Z.of_N Z.to_int NilZero.string_of_int].
  by destruct (Pos.to_uint p).
Qed.

Lemma str_of_N_value (n : N) : digits_value 0 (str_of_Z (Z.of_N n)) = n.
Proof. destruct (str_of_N_eq n) as (d & -> & _ & <-). apply digits_value_uint. Qed.

Lemma str_of_N_digits (n : N) :
  Forall is_digit_cp (str_of_Z (Z.of_N n)) /\ str_of_Z (Z.of_N n) <> [].
Proof.
  destruct (str_of_N_eq n) as (d & -> & Hd & _). split; [apply digits_of_uint|]. by destruct d.
Qed.
