(* ===== verification/PyUrl.v ===== *)
(** * PyUrl: the parts of [urllib.parse] the program calls.

    Percent-quoting ([quote], [quote_plus], [unquote]), query strings
    ([urlencode], [parse_qsl]), and taking URLs apart and putting them together
    ([urlsplit] with its [netloc] accessors, [urlunsplit], [urljoin]), after the
    standard library's own definitions, with the round trips the rest of the
    development relies on. *)

From S2P Require Import Prelude Unicode PyText.

(** Every error these functions raise is a ValueError. *)
Inductive url_error :=
| InvalidIPv6Url
| InvalidBracketedHost
| NetlocChangesUnderNFKC
| PortNotAnInteger (text : str)
| PortOutOfRange.

#[export] Instance url_error_eq_dec : EqDecision url_error.
Proof. solve_decision. Defined.

(** ** Percent-quoting *)

(** [_ALWAYS_SAFE_BYTES]: letters, digits and [_.-~]. *)
Definition always_safe (b : ascii) : bool :=
  is_ascii_alnum (oct b) || has b (##"_.-~").

Definition hex_digit (n : N) : ascii := octet (if (n <? 10)%N then 48 + n else 55 + n)%N.

Definition quote_byte (safe : bytes) (b : ascii) : bytes :=
  if always_safe b || has b safe then [b]
  else ["%"%char; hex_digit (oct b / 16); hex_digit (oct b mod 16)].

Definition quote_bytes (safe bs : bytes) : bytes := bs ≫= quote_byte safe.

(** [quote(s, safe=safe)]; the result is ASCII text. *)
Definition quote (safe : bytes) (s : str) : str := oct <$> quote_bytes safe (encode s).

(** [s.replace(old, new)] on single code points. *)
Definition replace_cp (old new : N) (s : str) : str :=
  (fun c => if (c =? old)%N then new else c) <$> s.

Definition SPACE : N := 32.
Definition PLUS : N := 43.
Definition PERCENT : N := 37.
Definition AMP : N := 38.
Definition EQUALS : N := 61.
Definition COLON : N := 58.
Definition SLASH : N := 47.
Definition QUESTION : N := 63.
Definition HASH : N := 35.
Definition AT : N := 64.
Definition LBRACKET : N := 91.
Definition RBRACKET : N := 93.
Definition SEMICOLON : N := 59.

Definition quote_plus (s : str) : str :=
  if has SPACE s then replace_cp SPACE PLUS (quote (##" ") s) else quote [] s.

Definition hex_value (b : ascii) : option N :=
  let n := oct b in
  if in_range 48 57 n then Some (n - 48)%N
  else if in_range 65 70 n then Some (n - 55)%N
  else if in_range 97 102 n then Some (n - 87)%N
  else None.

(** [unquote_to_bytes]: a percent sign not followed by two hexadecimal digits
    stands for itself. *)
Fixpoint unquote_bytes (bs : bytes) : bytes :=
  match bs with
  | [] => []
  | c :: r =>
      if ascii_dec c "%" then
        match r with
        | h :: l :: r' =>
            match hex_value h, hex_value l with
            | Some a, Some b => octet (16 * a + b) :: unquote_bytes r'
            | _, _ => c :: unquote_bytes r
            end
        | _ => c :: unquote_bytes r
        end
      else c :: unquote_bytes r
  end.

(** [unquote]: each maximal ASCII run is unquoted and decoded as UTF-8 with
    replacement, the rest is kept. *)
Fixpoint unquote_runs (run : bytes) (s : str) : str :=
  match s with
  | [] => decode_replace (unquote_bytes run)
  | c :: s =>
      if is_ascii c then unquote_runs (run ++ [octet c]) s
      else decode_replace (unquote_bytes run) ++ c :: unquote_runs [] s
  end.

Definition unquote (s : str) : str := if has PERCENT s then unquote_runs [] s else s.

(** ** Query strings *)

Definition urlencode (pairs : list (str * str)) : str :=
  join_with [AMP] ((fun '(k, v) => quote_plus k ++ [EQUALS] ++ quote_plus v) <$> pairs).

(** One piece of [parse_qsl(..., keep_blank_values=True)]. *)
Definition parse_field (field : str) : list (str * str) :=
  match field with
  | [] => []
  | _ =>
      let '(name, _, value) := partition EQUALS field in
      [(unquote (replace_cp PLUS SPACE name), unquote (replace_cp PLUS SPACE value))]
  end.

Definition parse_qsl (qs : str) : list (str * str) := split_on AMP qs ≫= parse_field.

(** ** Quoting lemmas *)

Lemma quote_byte_unquote (safe : bytes) (b : ascii) (r : bytes) :
  "%"%char ∉ safe -> unquote_bytes (quote_byte safe b ++ r) = b :: unquote_bytes r.
Proof.
  intros Hs. unfold quote_byte. destruct (always_safe b || has b safe) eqn:E.
  - cbn. destruct (ascii_dec b "%") as [->|]; [|done].
    apply orb_true_iff in E as [E|E]; [by vm_compute in E|by apply has_true in E].
  - clear E. cbn [app unquote_bytes]. destruct (ascii_dec "%" "%") as [_|]; [|done].
    destruct b as [[] [] [] [] [] [] [] []]; reflexivity.
Qed.

Lemma unquote_quote_bytes (safe bs : bytes) :
  "%"%char ∉ safe -> unquote_bytes (quote_bytes safe bs) = bs.
Proof.
  intros Hs. induction bs as [|b bs IH]; [done|].
  unfold quote_bytes in *. cbn. rewrite quote_byte_unquote by done. by rewrite IH.
Qed.

(** The octets a quoted text is made of. *)
Definition quoted_octet (safe : bytes) (b : ascii) : bool :=
  always_safe b || has b safe || bool_decide (b = "%"%char).

Lemma hex_digit_safe (n : N) : (n < 16)%N -> always_safe (hex_digit n) = true.
Proof.
  intros H. assert (n ∈ N.of_nat <$> seq 0 16) as Hn.
  { apply list_elem_of_fmap. exists (N.to_nat n). split; [lia|]. apply elem_of_seq. lia. }
  revert Hn. generalize n. clear. apply Forall_forall.
  repeat (constructor; [vm_compute; reflexivity|]). constructor.
Qed.

Lemma quote_byte_octets (safe : bytes) (b : ascii) :
  Forall (fun c => quoted_octet safe c = true) (quote_byte safe b).
Proof.
  unfold quote_byte, quoted_octet. destruct (always_safe b || has b safe) eqn:E.
  - constructor; [by rewrite E|constructor].
  - repeat constructor.
    + by rewrite bool_decide_true, orb_true_r.
    + by rewrite hex_digit_safe by (apply N.Div0.div_lt_upper_bound; pose proof (oct_bound b); lia).
    + by rewrite hex_digit_safe by (apply N.mod_lt; lia).
Qed.

Lemma quote_bytes_octets (safe bs : bytes) :
  Forall (fun c => quoted_octet safe c = true) (quote_bytes safe bs).
Proof.
  induction bs as [|b bs IH]; [constructor|]. unfold quote_bytes in *. cbn.
  apply Forall_app. split; [apply quote_byte_octets|done].
Qed.

(** A quoted octet is ASCII and none of the delimiters of a query string. *)
Lemma quoted_octet_plain (b : ascii) :
  quoted_octet (##" ") b = true ->
  (oct b < 128)%N /\ oct b <> PLUS /\ oct b <> AMP /\ oct b <> EQUALS /\ oct b <> HASH.
Proof.
  destruct b as [[] [] [] [] [] [] [] []]; vm_compute; intros H; try discriminate H;
    repeat split; discriminate.
Qed.

Lemma quoted_octet_weaken (b : ascii) :
  quoted_octet [] b = true -> quoted_octet (##" ") b = true.
Proof. destruct b as [[] [] [] [] [] [] [] []]; vm_compute; done. Qed.

(** The safe set [quote_plus] ends up using. *)
Definition plus_safe (s : str) : bytes := if has SPACE s then ##" " else [].

Lemma plus_octets (s : str) :
  Forall (fun c => quoted_octet (##" ") c = true) (quote_bytes (plus_safe s) (encode s)).
Proof.
  unfold plus_safe. eapply Forall_impl; [apply quote_bytes_octets|].
  destruct (has SPACE s); [done|]. apply quoted_octet_weaken.
Qed.

Lemma quote_plus_eq (s : str) :
  quote_plus s =
  (if has SPACE s then replace_cp SPACE PLUS else id) (oct <$> quote_bytes (plus_safe s) (encode s)).
Proof. unfold quote_plus, quote, plus_safe. by destruct (has SPACE s). Qed.

Lemma replace_cp_absent (old new : N) (s : str) : old ∉ s -> replace_cp old new s = s.
Proof.
  induction s as [|c s IH]; intros H; [done|]. apply not_elem_of_cons in H as [Hc Hs].
  unfold replace_cp in *. cbn. rewrite IH by done.
  destruct (N.eqb_spec c old); congruence.
Qed.

Lemma replace_cp_undo (a b : N) (s : str) :
  b ∉ s -> replace_cp b a (replace_cp a b s) = s.
Proof.
  induction s as [|c s IH]; intros H; [done|]. apply not_elem_of_cons in H as [Hc Hs].
  unfold replace_cp in *. cbn. rewrite IH by done. f_equal.
  destruct (N.eqb_spec c a) as [->|]; [by rewrite N.eqb_refl|].
  destruct (N.eqb_spec c b); congruence.
Qed.

Lemma oct_not_in (n : N) (t : bytes) (P : ascii -> Prop) :
  Forall P t -> (forall b, P b -> oct b <> n) -> n ∉ oct <$> t.
Proof.
  intros Ht HP Hin. apply list_elem_of_fmap in Hin as (b & -> & Hb).
  rewrite Forall_forall in Ht. exact (HP b (Ht b Hb) eq_refl).
Qed.

Lemma utf8_units_ascii (t : bytes) :
  Forall (fun b => (oct b < 128)%N) t -> utf8_units t = (fun b => Some (oct b)) <$> t.
Proof.
  induction 1 as [|b t Hb Ht IH]; [done|]. cbn [utf8_units].
  apply N.ltb_lt in Hb. rewrite Hb. cbn. by rewrite IH.
Qed.

Lemma decode_replace_ascii (t : bytes) :
  Forall (fun b => (oct b < 128)%N) t -> decode_replace t = oct <$> t.
Proof.
  intros H. unfold decode_replace. rewrite utf8_units_ascii by done.
  by rewrite <- list_fmap_compose.
Qed.

Lemma unquote_bytes_plain (t : bytes) : "%"%char ∉ t -> unquote_bytes t = t.
Proof.
  induction t as [|b t IH]; intros H; [done|]. apply not_elem_of_cons in H as [Hb Ht].
  cbn. destruct (ascii_dec b "%"); [congruence|]. by rewrite IH.
Qed.

Lemma unquote_runs_ascii (t run : bytes) :
  Forall (fun b => (oct b < 128)%N) t ->
  unquote_runs run (oct <$> t) = decode_replace (unquote_bytes (run ++ t)).
Proof.
  intros H. revert run. induction H as [|b t Hb Ht IH]; intros run.
  - cbn. by rewrite app_nil_r.
  - cbn [fmap list_fmap unquote_runs]. unfold is_ascii. apply N.ltb_lt in Hb. rewrite Hb.
    rewrite octet_oct. fold (fmap (M:=list) oct t). rewrite IH, <- app_assoc. done.
Qed.

Lemma oct_inj (a b : ascii) : oct a = oct b -> a = b.
Proof. intros H. rewrite <- (octet_oct a), <- (octet_oct b). by rewrite H. Qed.

Lemma unquote_ascii (t : bytes) :
  Forall (fun b => (oct b < 128)%N) t ->
  unquote (oct <$> t) = decode_replace (unquote_bytes t).
Proof.
  intros H. unfold unquote. destruct (has PERCENT _) eqn:E.
  - by rewrite unquote_runs_ascii.
  - apply has_false in E. rewrite unquote_bytes_plain.
    + by rewrite decode_replace_ascii.
    + intros Hin. apply E. apply list_elem_of_fmap. by exists "%"%char.
Qed.

(** Quoting loses nothing: [unquote] gives back what [quote] was given. *)
Lemma unquote_quote (safe : bytes) (s : str) :
  "%"%char ∉ safe -> Forall (fun b => (oct b < 128)%N) safe -> Forall scalar s ->
  unquote (quote safe s) = s.
Proof.
  intros Hp Ha Hs. unfold quote. rewrite unquote_ascii.
  - rewrite unquote_quote_bytes by done. by apply decode_replace_encode.
  - eapply Forall_impl; [apply quote_bytes_octets|]. cbn. intros b Hb.
    unfold quoted_octet in Hb. apply orb_true_iff in Hb as [Hb|Hb].
    + apply orb_true_iff in Hb as [Hb|Hb].
      * revert Hb. destruct b as [[] [] [] [] [] [] [] []]; vm_compute; done.
      * apply has_true in Hb. rewrite Forall_forall in Ha. by apply Ha.
    + apply bool_decide_eq_true in Hb as ->. vm_compute. done.
Qed.

Lemma unquote_quote_plus (s : str) :
  Forall scalar s -> unquote (replace_cp PLUS SPACE (quote_plus s)) = s.
Proof.
  intros Hs. pose proof (plus_octets s) as Ho. rewrite quote_plus_eq.
  assert (PLUS ∉ oct <$> quote_bytes (plus_safe s) (encode s)) as Hplus.
  { eapply oct_not_in; [exact Ho|]. intros b Hb. apply quoted_octet_plain in Hb; tauto. }
  assert (replace_cp PLUS SPACE
    ((if has SPACE s then replace_cp SPACE PLUS else id)
       (oct <$> quote_bytes (plus_safe s) (encode s)))
    = oct <$> quote_bytes (plus_safe s) (encode s)) as ->.
  { destruct (has SPACE s); [by apply replace_cp_undo|by apply replace_cp_absent]. }
  rewrite unquote_ascii.
  - rewrite unquote_quote_bytes; [by apply decode_replace_encode|].
    unfold plus_safe. destruct (has SPACE s); apply has_false; vm_compute; reflexivity.
  - eapply Forall_impl; [exact Ho|]. cbn. intros b Hb. apply quoted_octet_plain in Hb; tauto.
Qed.

(** What [quote_plus] writes never delimits a query string. *)
Lemma quote_plus_plain (s : str) :
  Forall (fun c => (c < 128)%N /\ c <> AMP /\ c <> EQUALS /\ c <> HASH /\ c <> SPACE
                   /\ c <> 9%N /\ c <> 10%N /\ c <> 13%N) (quote_plus s).
Proof.
  rewrite quote_plus_eq. pose proof (quote_bytes_octets (plus_safe s) (encode s)) as Ho.
  unfold plus_safe in *. destruct (has SPACE s).
  - unfold replace_cp. rewrite !Forall_fmap. eapply Forall_impl; [exact Ho|]. cbn. intros b.
    destruct b as [[] [] [] [] [] [] [] []]; vm_compute; intros H; try discriminate H;
      repeat split; discriminate.
  - unfold id. rewrite Forall_fmap. eapply Forall_impl; [exact Ho|]. cbn. intros b.
    destruct b as [[] [] [] [] [] [] [] []]; vm_compute; intros H; try discriminate H;
      repeat split; discriminate.
Qed.

Definition scalar_pair (p : str * str) : Prop := Forall scalar p.1 /\ Forall scalar p.2.

Definition write_field (p : str * str) : str :=
  let '(k, v) := p in quote_plus k ++ [EQUALS] ++ quote_plus v.

Lemma quote_plus_without (n : N) (s : str) :
  n = AMP \/ n = EQUALS \/ n = HASH -> n ∉ quote_plus s.
Proof.
  intros Hn Hin. pose proof (quote_plus_plain s) as H. rewrite Forall_forall in H.
  apply H in Hin. naive_solver.
Qed.

Lemma parse_write_field (p : str * str) :
  scalar_pair p -> parse_field (write_field p) = [p].
Proof.
  destruct p as [k v]. intros [Hk Hv]. cbn in Hk, Hv. unfold parse_field, write_field.
  destruct (quote_plus k ++ [EQUALS] ++ quote_plus v) as [|c r] eqn:E.
  { apply app_eq_nil in E as [_ E]. discriminate. }
  rewrite <- E. cbn [app].
  rewrite partition_app by (apply quote_plus_without; auto).
  by rewrite !unquote_quote_plus.
Qed.

(** [parse_qsl] reads back exactly the pairs [urlencode] wrote, in order and
    with repeats. *)
Lemma parse_urlencode (pairs : list (str * str)) :
  Forall scalar_pair pairs -> parse_qsl (urlencode pairs) = pairs.
Proof.
  intros Hs. unfold parse_qsl. change (urlencode pairs) with (join_with [AMP] (write_field <$> pairs)).
  destruct (decide (pairs = [])) as [->|Hne]; [done|].
  rewrite split_join.
  - clear Hne. induction Hs as [|p ps Hp Hps IH]; [done|]. cbn.
    rewrite parse_write_field by done. cbn. f_equal. exact IH.
  - intros E. apply fmap_nil_inv in E. done.
  - apply Forall_fmap, Forall_true. intros [k v]. cbn.
    rewrite not_elem_of_app, not_elem_of_cons.
    split_and!; [apply quote_plus_without; auto|done|apply quote_plus_without; auto].
Qed.

(** ** Taking a URL apart *)

Record split_result := mk_split {
  sr_scheme : str;
  sr_netloc : str;
  sr_path : str;
  sr_query : str;
  sr_fragment : str;
}.

#[export] Instance split_result_eq_dec : EqDecision split_result.
Proof. solve_decision. Defined.

Definition c0_or_space (c : N) : bool := (c <=? 32)%N.
Definition unsafe_url_cps : list N := [9; 13; 10]%N.
Definition scheme_char (c : N) : bool := is_ascii_alnum c || has c (#"+-.").

(** [url[:i].lower(), url[i+1:]] when what precedes the first colon is a
    scheme; the default scheme and the whole URL otherwise. *)
Definition split_scheme (url dflt : str) : str * str :=
  let '(pre, found, rest) := partition COLON url in
  match pre with
  | c :: _ =>
      if found && is_ascii_alpha c && forallb scheme_char pre
      then (lower pre, rest) else (dflt, url)
  | [] => (dflt, url)
  end.

(** [_splitnetloc(url, 2)] after the two slashes. *)
Fixpoint split_netloc (url : str) : str * str :=
  match url with
  | [] => ([], [])
  | c :: r =>
      if has c [SLASH; QUESTION; HASH] then ([], url)
      else let '(n, rest) := split_netloc r in (c :: n, rest)
  end.

(** *** Literal addresses in brackets *)

Definition is_hex (c : N) : bool :=
  is_ascii_digit c || in_range 65 70 c || in_range 97 102 c.

(** [re.match(r"\Av[a-fA-F0-9]+\..+\Z", host)], the text being free of line feeds. *)
Definition ipvfuture_ok (host : str) : bool :=
  match host with
  | v :: r =>
      let '(version, found, rest) := partition 46%N r in
      found && negb (bool_decide (version = [])) && forallb is_hex version
      && negb (bool_decide (rest = []))
  | [] => false
  end.

(** One decimal octet of an IPv4 address. *)
Definition ipv4_octet_ok (s : str) : bool :=
  negb (bool_decide (s = [])) && forallb is_ascii_digit s && (length s <=? 3)
  && (bool_decide (s = #"0") || negb (bool_decide (head s = Some 48%N)))
  && (digits_value 0 s <=? 255)%N.

Definition ipv4_ok (s : str) : bool :=
  let parts := split_on 46%N s in
  (length parts =? 4) && forallb ipv4_octet_ok parts.

Definition hextet_ok (s : str) : bool := forallb is_hex s && (length s <=? 4).

(** The indices [1 <= i < len - 1] whose part is empty: the places of a
    double colon. *)
Definition inner_empty (parts : list str) : list nat :=
  keep (fun i => bool_decide (parts !! i = Some [])) (seq 1 (length parts - 2)).

(** [ipaddress.IPv6Address(s)] accepts [s] (without a scope identifier). *)
Definition ipv6_body_ok (s : str) : bool :=
  let parts0 := split_on COLON s in
  if length parts0 <? 3 then false
  else
    let last_part := default [] (last parts0) in
    let dotted := has 46%N last_part in
    if dotted && negb (ipv4_ok last_part) then false
    else
      let parts := if dotted
                   then take (length parts0 - 1) parts0 ++ [ #"0"; #"0" ] else parts0 in
      let n := length parts in
      let first_empty := bool_decide (head parts = Some []) in
      let last_empty := bool_decide (last parts = Some []) in
      if 9 <? n then false
      else match inner_empty parts with
      | [] => (n =? 8) && negb first_empty && negb last_empty && forallb hextet_ok parts
      | [skip] =>
          let hi := skip in
          let lo := n - skip - 1 in
          let hi' := if first_empty then hi - 1 else hi in
          let lo' := if last_empty then lo - 1 else lo in
          negb (first_empty && negb (hi' =? 0)) && negb (last_empty && negb (lo' =? 0))
          && (hi' + lo' <=? 7)
          && forallb hextet_ok parts
      | _ => false
      end.

Definition ipv6_ok (s : str) : bool :=
  let '(addr, scoped, scope) := partition PERCENT s in
  negb (scoped && (bool_decide (scope = []) || has PERCENT scope))
  && negb (has SLASH addr) && negb (bool_decide (addr = [])) && ipv6_body_ok addr.

Definition check_bracketed_host (host : str) : res url_error unit :=
  match host with
  | 118%N :: _ => if ipvfuture_ok host then Ok tt else Raise InvalidBracketedHost
  | _ => if ipv6_ok host then Ok tt else Raise InvalidBracketedHost
  end.

Definition check_bracketed_netloc (netloc : str) : res url_error unit :=
  let '(_, _, hostport) := rpartition AT netloc in
  let '(before, have_open, bracketed) := partition LBRACKET hostport in
  if have_open : bool then
    if bool_decide (before = []) then
      let '(host, _, port) := partition RBRACKET bracketed in
      if bool_decide (port = []) || starts [COLON] port
      then check_bracketed_host host else Raise InvalidIPv6Url
    else Raise InvalidIPv6Url
  else let '(host, _, _) := partition COLON hostport in check_bracketed_host host.

Definition check_netloc (netloc : str) : res url_error unit :=
  let opening := has LBRACKET netloc in
  let closing := has RBRACKET netloc in
  if negb (Bool.eqb opening closing) then Raise InvalidIPv6Url
  else
    _ ← (if opening then check_bracketed_netloc netloc else Ok tt);
    if existsb (fun c => has c nfkc_delimiters) netloc
    then Raise NetlocChangesUnderNFKC else Ok tt.

(** [urllib.parse.urlsplit(url, dflt)] *)
Definition urlsplit_default (dflt url : str) : res url_error split_result :=
  let url := remove_cps unsafe_url_cps (lstrip c0_or_space url) in
  let '(scheme, rest) := split_scheme url dflt in
  let '(netloc, rest) :=
    if starts [SLASH; SLASH] rest then split_netloc (drop 2 rest) else ([], rest) in
  _ ← check_netloc netloc;
  let '(rest, _, fragment) := partition HASH rest in
  let '(path, _, query) := partition QUESTION rest in
  Ok (mk_split scheme netloc path query fragment).

Definition urlsplit (url : str) : res url_error split_result := urlsplit_default [] url.

(** *** The accessors of a split URL *)

(** [username], [None] when there is no userinfo. *)
Definition sr_username (p : split_result) : option str :=
  let '(userinfo, have_info, _) := rpartition AT (sr_netloc p) in
  if have_info : bool then Some (partition COLON userinfo).1.1 else None.

Definition sr_password (p : split_result) : option str :=
  let '(userinfo, have_info, _) := rpartition AT (sr_netloc p) in
  if have_info : bool then
    let '(_, have_password, password) := partition COLON userinfo in
    if have_password : bool then Some password else None
  else None.

(** [_hostinfo]: host and port text, the port [None] when empty. *)
Definition sr_hostinfo (p : split_result) : str * option str :=
  let '(_, _, hostinfo) := rpartition AT (sr_netloc p) in
  let '(_, have_open, bracketed) := partition LBRACKET hostinfo in
  let '(host, port) :=
    if have_open : bool then
      let '(host, _, rest) := partition RBRACKET bracketed in
      (host, (partition COLON rest).2)
    else let '(host, _, port) := partition COLON hostinfo in (host, port) in
  (host, if bool_decide (port = []) then None else Some port).

Definition sr_hostname (p : split_result) : option str :=
  let '(host, _) := sr_hostinfo p in
  if bool_decide (host = []) then None
  else
    let '(name, percent, zone) := partition PERCENT host in
    Some (lower name ++ (if percent : bool then [PERCENT] else []) ++ zone).

Definition sr_port (p : split_result) : res url_error (option N) :=
  match (sr_hostinfo p).2 with
  | None => Ok None
  | Some port =>
      if forallb is_ascii_digit port then
        if (digits_value 0 port <=? 65535)%N then Ok (Some (digits_value 0 port))
        else Raise PortOutOfRange
      else Raise (PortNotAnInteger port)
  end.

(** ** Putting a URL together *)

Definition uses_relative : list str :=
  [ #""; #"ftp"; #"http"; #"gopher"; #"nntp"; #"imap"; #"wais"; #"file"; #"https";
   #"shttp"; #"mms"; #"prospero"; #"rtsp"; #"rtspu"; #"sftp"; #"svn"; #"svn+ssh";
   #"ws"; #"wss"].

Definition uses_netloc : list str :=
  [ #""; #"ftp"; #"http"; #"gopher"; #"nntp"; #"telnet"; #"imap"; #"wais"; #"file";
   #"mms"; #"https"; #"shttp"; #"snews"; #"prospero"; #"rtsp"; #"rtspu"; #"rsync";
   #"svn"; #"svn+ssh"; #"sftp"; #"nfs"; #"git"; #"git+ssh"; #"ws"; #"wss"].

Definition uses_params : list str :=
  [ #""; #"ftp"; #"hdl"; #"prospero"; #"http"; #"imap"; #"https"; #"shttp"; #"rtsp";
   #"rtspu"; #"sip"; #"sips"; #"mms"; #"sftp"; #"tel"].

Definition nonempty {A} (l : list A) : bool := match l with [] => false | _ => true end.

Lemma nonempty_true {A} (l : list A) : nonempty l = true <-> l <> [].
Proof. by destruct l. Qed.

Lemma nonempty_false {A} (l : list A) : nonempty l = false <-> l = [].
Proof. by destruct l. Qed.

Definition prefixed (mark : str) (s : str) : str := if nonempty s then mark ++ s else [].

Definition urlunsplit (p : split_result) : str :=
  let url := sr_path p in
  let url :=
    if nonempty (sr_netloc p)
       || (nonempty (sr_scheme p) && bool_decide (sr_scheme p ∈ uses_netloc)
           && negb (starts [SLASH; SLASH] url))
    then [SLASH; SLASH] ++ sr_netloc p
         ++ (if nonempty url && negb (starts [SLASH] url) then [SLASH] else []) ++ url
    else url in
  (if nonempty (sr_scheme p) then sr_scheme p ++ [COLON] else []) ++ url
  ++ prefixed [QUESTION] (sr_query p) ++ prefixed [HASH] (sr_fragment p).

(** [_splitparams]: the parameters of the last path segment. *)
Definition split_params (url : str) : str * str :=
  if has SLASH url then
    let '(dir, _, seg) := rpartition SLASH url in
    let '(seg, found, params) := partition SEMICOLON seg in
    if found then (dir ++ [SLASH] ++ seg, params) else (url, [])
  else
    let '(seg, _, params) := partition SEMICOLON url in (seg, params).

Definition with_params (path params : str) : str := path ++ prefixed [SEMICOLON] params.

(** The dot segments of a relative reference, resolved. *)
Fixpoint resolve_segments (acc : list str) (segs : list str) : list str :=
  match segs with
  | [] => reverse acc
  | seg :: segs =>
      if bool_decide (seg = #"..") then resolve_segments (tail acc) segs
      else if bool_decide (seg = #".") then resolve_segments acc segs
      else resolve_segments (seg :: acc) segs
  end.

(** [segments[1:-1] = filter(None, segments[1:-1])] *)
Definition drop_empty_inner (segs : list str) : list str :=
  match segs with
  | first :: (_ :: _) as rest =>
      first :: keep nonempty (take (length rest - 1) rest) ++ drop (length rest - 1) rest
  | _ => segs
  end.

Definition join_paths (bpath path : str) : str :=
  let base_parts := split_on SLASH bpath in
  let base_parts :=
    if bool_decide (last base_parts = Some []) then base_parts
    else take (length base_parts - 1) base_parts in
  let segments :=
    if starts [SLASH] path then split_on SLASH path
    else drop_empty_inner (base_parts ++ split_on SLASH path) in
  let resolved := resolve_segments [] segments in
  let resolved :=
    if bool_decide (last segments ∈ [Some (#"."); Some (#"..")])
    then resolved ++ [[]] else resolved in
  let joined := join_with [SLASH] resolved in
  if nonempty joined then joined else [SLASH].

(** [urllib.parse.urljoin(base, url)] *)
Definition urljoin (base url : str) : res url_error str :=
  if negb (nonempty base) then Ok url
  else if negb (nonempty url) then Ok base
  else
    b ← urlsplit base;
    u ← urlsplit_default (sr_scheme b) url;
    let scheme := sr_scheme u in
    let '(bpath, bparams) :=
      if bool_decide (sr_scheme b ∈ uses_params) then split_params (sr_path b)
      else (sr_path b, []) in
    let '(path, params) :=
      if bool_decide (scheme ∈ uses_params) then split_params (sr_path u)
      else (sr_path u, []) in
    if negb (bool_decide (scheme = sr_scheme b))
       || negb (bool_decide (scheme ∈ uses_relative))
    then Ok url
    else if bool_decide (scheme ∈ uses_netloc) && nonempty (sr_netloc u)
    then Ok (urlunsplit (mk_split scheme (sr_netloc u) (with_params path params)
                                  (sr_query u) (sr_fragment u)))
    else
      let netloc := if bool_decide (scheme ∈ uses_netloc) then sr_netloc b else sr_netloc u in
      if negb (nonempty path) && negb (nonempty params)
      then Ok (urlunsplit (mk_split scheme netloc (with_params bpath bparams)
                 (if nonempty (sr_query u) then sr_query u else sr_query b) (sr_fragment u)))
      else Ok (urlunsplit (mk_split scheme netloc (with_params (join_paths bpath path) params)
                 (sr_query u) (sr_fragment u))).

(** ** [urlsplit] and [urlunsplit] are inverse on the URLs the program requests *)

Definition delims : list N := [SLASH; QUESTION; HASH].
Definition clean (s : str) : Prop := Forall (fun c => c ∉ unsafe_url_cps) s.

Definition scheme_ok (s : str) : Prop :=
  (exists c r, s = c :: r /\ is_ascii_alpha c = true)
  /\ forallb scheme_char s = true /\ lower s = s.

Record wf_split (p : split_result) : Prop := {
  wf_scheme : scheme_ok (sr_scheme p);
  wf_netloc : sr_netloc p <> [] /\ Forall (fun c => c ∉ delims) (sr_netloc p);
  wf_netloc_checked : check_netloc (sr_netloc p) = Ok tt;
  wf_path : (sr_path p = [] \/ head (sr_path p) = Some SLASH)
            /\ (QUESTION ∉ sr_path p) /\ (HASH ∉ sr_path p);
  wf_query : HASH ∉ sr_query p;
  wf_clean : clean (sr_netloc p) /\ clean (sr_path p) /\ clean (sr_query p)
             /\ clean (sr_fragment p);
}.

Lemma split_netloc_app (netloc rest : str) :
  Forall (fun c => c ∉ delims) netloc ->
  (rest = [] \/ exists c r, rest = c :: r /\ c ∈ delims) ->
  split_netloc (netloc ++ rest) = (netloc, rest).
Proof.
  intros Hn Hr. induction Hn as [|c n Hc Hn IH]; cbn.
  - destruct Hr as [->|(c & r & -> & Hc)]; [done|]. cbn.
    by rewrite (proj2 (has_true c [SLASH; QUESTION; HASH])) by done.
  - rewrite (proj2 (has_false c [SLASH; QUESTION; HASH])) by done. by rewrite IH.
Qed.

Lemma split_netloc_spec (url n r : str) :
  split_netloc url = (n, r) ->
  url = n ++ r /\ Forall (fun c => c ∉ delims) n
  /\ (r = [] \/ exists c r', r = c :: r' /\ c ∈ delims).
Proof.
  revert n. induction url as [|c url IH]; cbn; intros n H.
  - injection H as <- <-. auto.
  - destruct (has c _) eqn:E.
    + injection H as <- <-. split_and!; [done|constructor|]. right. exists c, url.
      split; [done|]. by apply has_true in E.
    + destruct (split_netloc url) as [n' r'] eqn:E'. injection H as <- <-.
      destruct (IH _ eq_refl) as (-> & Hn & Hr). split_and!; [done| |done].
      constructor; [|done]. by apply has_false in E.
Qed.

Lemma scheme_char_plain (c : N) :
  scheme_char c = true -> c <> COLON /\ (c ∉ unsafe_url_cps) /\ (32 < c)%N.
Proof.
  intros H. assert (c ∈ unsafe_url_cps \/ (c <= 32)%N \/ c = COLON ->
    scheme_char c = false) as Hf.
  { unfold scheme_char, is_ascii_alnum, is_ascii_alpha, is_ascii_upper, is_ascii_lower,
      is_ascii_digit. intros Hc.
    assert (c <= 32 \/ c = COLON)%N as Hc'.
    { destruct Hc as [Hc|?]; [|done]. left. revert Hc. unfold unsafe_url_cps.
      rewrite !elem_of_cons, elem_of_nil. lia. }
    apply orb_false_iff. split.
    - destruct Hc' as [Hc'| ->]; [|reflexivity].
      rewrite !(proj2 (N.leb_gt _ c)) by lia. done.
    - apply has_false. intros Hin. change (#"+-.") with [43; 45; 46]%N in Hin.
      rewrite !elem_of_cons, elem_of_nil in Hin. unfold COLON in Hc'. lia. }
  split_and!.
  - intros ->. by rewrite Hf in H by auto.
  - intros Hc. by rewrite Hf in H by auto.
  - destruct (N.ltb_spec 32 c); [done|]. by rewrite Hf in H by auto.
Qed.

Lemma remove_cps_clean (s : str) : clean s -> remove_cps unsafe_url_cps s = s.
Proof.
  intros H. apply keep_all. eapply Forall_impl; [exact H|]. cbn. intros c Hc.
  apply negb_true_iff. by apply has_false.
Qed.

Lemma clean_remove_cps (s : str) : clean (remove_cps unsafe_url_cps s).
Proof.
  apply Forall_forall. intros c Hc. apply elem_of_keep in Hc as [Hc _].
  apply negb_true_iff, has_false in Hc. done.
Qed.

Lemma clean_app (s t : str) : clean (s ++ t) <-> clean s /\ clean t.
Proof. apply Forall_app. Qed.

Lemma prefixed_cases (m : N) (s : str) :
  (s = [] /\ prefixed [m] s = []) \/ prefixed [m] s = m :: s.
Proof. destruct s; [left|right]; done. Qed.

Lemma urlunsplit_eq (p : split_result) :
  scheme_ok (sr_scheme p) -> sr_netloc p <> [] ->
  sr_path p = [] \/ head (sr_path p) = Some SLASH ->
  urlunsplit p = sr_scheme p ++ COLON :: SLASH :: SLASH :: sr_netloc p ++ sr_path p
                 ++ prefixed [QUESTION] (sr_query p) ++ prefixed [HASH] (sr_fragment p).
Proof.
  intros ((c & r & Hs & _) & _) Hn Hp. unfold urlunsplit.
  assert (nonempty (sr_scheme p) = true) as -> by (by rewrite Hs).
  assert (nonempty (sr_netloc p) = true) as -> by (by destruct (sr_netloc p)).
  assert (nonempty (sr_path p) && negb (starts [SLASH] (sr_path p)) = false) as ->.
  { destruct Hp as [->|Hp]; [done|]. destruct (sr_path p) as [|x path]; [done|].
    injection Hp as ->. cbn [nonempty andb]. apply negb_false_iff. by apply (starts_app [SLASH]). }
  cbn. rewrite <- !app_assoc. done.
Qed.

Lemma rest_delim (p : split_result) :
  sr_path p = [] \/ head (sr_path p) = Some SLASH ->
  let rest := sr_path p ++ prefixed [QUESTION] (sr_query p) ++ prefixed [HASH] (sr_fragment p) in
  rest = [] \/ exists c r, rest = c :: r /\ c ∈ delims.
Proof.
  intros Hp rest. subst rest. destruct (sr_path p) as [|x path].
  - destruct (prefixed_cases QUESTION (sr_query p)) as [[_ ->]| ->].
    + destruct (prefixed_cases HASH (sr_fragment p)) as [[_ ->]| ->]; [by left|].
      right. eexists HASH, _. split; [done|]. unfold delims. set_solver.
    + right. eexists QUESTION, _. split; [done|]. unfold delims. set_solver.
  - destruct Hp as [|Hp]; [done|]. injection Hp as ->. right. eexists SLASH, _.
    split; [done|]. unfold delims. set_solver.
Qed.

Lemma scheme_ok_facts (s : str) :
  scheme_ok s ->
  (COLON ∉ s) /\ clean s /\ exists c r, s = c :: r /\ is_ascii_alpha c = true /\ (32 < c)%N.
Proof.
  intros ((c & r & -> & Ha) & Hf & _).
  assert (Forall (fun c => scheme_char c = true) (c :: r)) as Hall.
  { apply Forall_forall. intros x Hx. rewrite forallb_forall in Hf. apply Hf.
    by apply list_elem_of_In. }
  split_and!.
  - intros Hin. rewrite Forall_forall in Hall. by apply Hall, scheme_char_plain in Hin as [? _].
  - eapply Forall_impl; [exact Hall|]. cbn. intros x Hx. by apply scheme_char_plain in Hx as (_ & ? & _).
  - exists c, r. split_and!; [done|done|]. apply Forall_cons in Hall as [Hc _].
    by apply scheme_char_plain in Hc as (_ & _ & ?).
Qed.

Lemma split_scheme_app (s rest dflt : str) :
  scheme_ok s -> split_scheme (s ++ COLON :: rest) dflt = (s, rest).
Proof.
  intros Hs. pose proof (scheme_ok_facts s Hs) as (Hc & _ & c & r & -> & Ha & _).
  destruct Hs as (_ & Hf & Hl). unfold split_scheme. rewrite partition_app by done.
  rewrite Ha, Hf, Hl. done.
Qed.

Lemma partition_prefixed (m : N) (s t : str) :
  m ∉ s -> (partition m (s ++ prefixed [m] t)).1.1 = s
           /\ (partition m (s ++ prefixed [m] t)).2 = t.
Proof.
  intros H. destruct (prefixed_cases m t) as [[-> ->]| ->].
  - rewrite app_nil_r, partition_absent by done. done.
  - rewrite partition_app by done. done.
Qed.

(** Reading back what [urlunsplit] wrote gives the same five parts. *)
Lemma urlsplit_urlunsplit (p : split_result) :
  wf_split p -> urlsplit (urlunsplit p) = Ok p.
Proof.
  intros [Hs [Hn Hd] Hchk (Hp & Hq & Hh) Hqh (Cn & Cp & Cq & Cf)].
  rewrite urlunsplit_eq by done. unfold urlsplit, urlsplit_default.
  pose proof (scheme_ok_facts _ Hs) as (_ & Cs & c & r & Es & _ & Hc32).
  set (rest := sr_path p ++ prefixed [QUESTION] (sr_query p)
               ++ prefixed [HASH] (sr_fragment p)).
  set (url := sr_scheme p ++ COLON :: SLASH :: SLASH :: sr_netloc p ++ rest).
  assert (lstrip c0_or_space url = url) as ->.
  { subst url. rewrite Es. cbn. unfold c0_or_space. by rewrite (proj2 (N.leb_gt c 32)). }
  assert (remove_cps unsafe_url_cps url = url) as ->.
  { apply remove_cps_clean. subst url rest. apply clean_app. split; [done|].
    repeat (apply Forall_cons; split; [unfold unsafe_url_cps; set_solver|]).
    rewrite !clean_app. split_and!; [done..| |].
    - destruct (prefixed_cases QUESTION (sr_query p)) as [[_ ->]| ->]; [constructor|].
      apply Forall_cons. split; [unfold unsafe_url_cps; set_solver|done].
    - destruct (prefixed_cases HASH (sr_fragment p)) as [[_ ->]| ->]; [constructor|].
      apply Forall_cons. split; [unfold unsafe_url_cps; set_solver|done]. }
  subst url. rewrite split_scheme_app by done.
  rewrite (starts_app [SLASH; SLASH] (sr_netloc p ++ rest)). cbn [drop]. rewrite drop_0.
  rewrite split_netloc_app; [|done|by apply rest_delim].
  rewrite Hchk. cbn [mbind res_bind]. subst rest. rewrite app_assoc.
  assert (HASH ∉ sr_path p ++ prefixed [QUESTION] (sr_query p)) as Hh'.
  { rewrite not_elem_of_app. split; [done|].
    destruct (prefixed_cases QUESTION (sr_query p)) as [[_ ->]| ->]; set_solver. }
  pose proof (partition_prefixed HASH _ (sr_fragment p) Hh') as [E1 E2].
  destruct (partition HASH _) as [[a f] b]. cbn in E1, E2. subst a b.
  pose proof (partition_prefixed QUESTION _ (sr_query p) Hq) as [E1 E2].
  destruct (partition QUESTION _) as [[a f'] b]. cbn in E1, E2. subst a b.
  by destruct p.
Qed.

Lemma clean_sub (s t u : str) : clean (s ++ t ++ u) -> clean t.
Proof. rewrite !clean_app. tauto. Qed.

Lemma partition_parts (c : N) (s a b : str) (f : bool) :
  partition c s = (a, f, b) ->
  (c ∉ a) /\ (s = a ++ (if f then c :: b else []))
  /\ (f = false -> b = []).
Proof.
  intros H. destruct f.
  - apply partition_found in H as [-> H]. by split_and!.
  - apply partition_missing in H as (-> & -> & H). rewrite app_nil_r. by split_and!.
Qed.

(** The parts [urlsplit] returns are well formed whenever the URL has an
    http-like scheme and a network location. *)
Lemma urlsplit_wf (url : str) (p : split_result) :
  urlsplit url = Ok p -> scheme_ok (sr_scheme p) -> sr_netloc p <> [] -> wf_split p.
Proof.
  unfold urlsplit, urlsplit_default. set (u := remove_cps _ _).
  assert (clean u) as Cu by apply clean_remove_cps.
  unfold split_scheme. destruct (partition COLON u) as [[pre found] rest0] eqn:Ec.
  apply partition_parts in Ec as (_ & Eu & _).
  set (sr := match pre with [] => _ | _ => _ end).
  assert (clean sr.2) as Cr.
  { subst sr. destruct pre as [|c pre]; cbn; [done|].
    destruct (found && _ && _) eqn:E; cbn; [|done].
    destruct found; [|done]. rewrite Eu in Cu. apply clean_app in Cu as [_ Cu].
    apply Forall_cons in Cu. tauto. }
  destruct sr as [scheme rest]. cbn in Cr.
  destruct (starts [SLASH; SLASH] rest) eqn:Est.
  - apply starts_true in Est as [rest' ->]. cbn [drop app]. rewrite drop_0.
    destruct (split_netloc rest') as [n r] eqn:En.
    apply split_netloc_spec in En as (-> & Hn & Hr).
    cbn [app] in Cr. do 2 (apply Forall_cons in Cr as [_ Cr]).
    destruct (check_netloc n) as [[]|] eqn:Hchk; cbn [mbind res_bind]; [|discriminate].
    destruct (partition HASH r) as [[a f] frag] eqn:Eh.
    destruct (partition QUESTION a) as [[path f'] q] eqn:Eq. intros [= <-] Hs Hnn.
    cbn in *. apply partition_parts in Eh as (Hh & -> & Hf).
    apply partition_parts in Eq as (Hq & -> & Hf').
    apply clean_app in Cr as [Cn Cr]. apply clean_app in Cr as [Ca Cf].
    apply clean_app in Ca as [Cp Cq]. apply not_elem_of_app in Hh as [Hh1 Hh2].
    constructor; cbn; try done.
    + split; [|done]. destruct path as [|x path]; [by left|right]. cbn in Hr.
      destruct Hr as [|(c & r' & [= -> <-] & Hc)]; [done|].
      unfold delims in Hc. rewrite !elem_of_cons, elem_of_nil in Hc.
      destruct Hc as [-> | [-> | [-> |[]]]]; [done|set_solver|set_solver].
    + destruct f'; [set_solver|]. rewrite Hf' by done. set_solver.
    + split_and!; try done.
      * destruct f'; [apply Forall_cons in Cq; tauto|]. rewrite Hf' by done. constructor.
      * destruct f; [apply Forall_cons in Cf; tauto|]. rewrite Hf by done. constructor.
  - cbn [check_netloc]. destruct (check_netloc []) as [[]|]; cbn [mbind res_bind]; [|discriminate].
    destruct (partition HASH rest) as [[a f] frag]. destruct (partition QUESTION a) as [[path f'] q].
    intros [= <-] _ Hn. done.
Qed.

(** *** Scalar text stays scalar *)

Lemma Forall_split_on {P : N -> Prop} (c : N) (s : str) :
  Forall P s -> Forall (Forall P) (split_on c s).
Proof.
  induction 1 as [|x s Hx Hs IH]; cbn; [by repeat constructor|].
  destruct (decide (x = c)); [by constructor|].
  destruct (split_on c s) as [|p ps]; [by repeat constructor|].
  apply Forall_cons in IH as [Hp Hps]. by repeat constructor.
Qed.

Lemma Forall_partition {P : N -> Prop} (c : N) (s a b : str) (f : bool) :
  partition c s = (a, f, b) -> Forall P s -> Forall P a /\ Forall P b.
Proof.
  intros E H. apply partition_parts in E as (_ & -> & Hb). apply Forall_app in H as [Ha H].
  split; [done|]. destruct f; [apply Forall_cons in H; tauto|].
  rewrite Hb by done. constructor.
Qed.

Lemma unquote_scalar (s : str) : Forall scalar s -> Forall scalar (unquote s).
Proof.
  intros H. unfold unquote. destruct (has PERCENT s); [|done].
  generalize (@nil ascii) as run. induction H as [|c s Hc Hs IH]; intros run; cbn.
  - apply decode_replace_scalar.
  - destruct (is_ascii c); [apply IH|]. apply Forall_app. split; [apply decode_replace_scalar|].
    constructor; [done|apply IH].
Qed.

Lemma replace_cp_scalar (old new : N) (s : str) :
  scalar new -> Forall scalar s -> Forall scalar (replace_cp old new s).
Proof.
  intros Hn H. unfold replace_cp. apply Forall_fmap. eapply Forall_impl; [exact H|].
  cbn. intros c Hc. by destruct (c =? old)%N.
Qed.

Lemma parse_qsl_scalar (qs : str) : Forall scalar qs -> Forall scalar_pair (parse_qsl qs).
Proof.
  intros H. apply (Forall_split_on AMP) in H. unfold parse_qsl.
  apply Forall_bind. eapply Forall_impl; [exact H|]. cbn. intros f Hf. unfold parse_field.
  destruct f as [|c f]; [constructor|]. destruct (partition EQUALS (c :: f)) as [[a b] v] eqn:E.
  destruct (Forall_partition _ _ _ _ _ E Hf) as [Ha Hv].
  constructor; [|constructor].
  split; cbn; apply unquote_scalar, replace_cp_scalar; try done; unfold scalar, SPACE; lia.
Qed.

Lemma urlencode_no_hash (pairs : list (str * str)) : HASH ∉ urlencode pairs.
Proof.
  change (urlencode pairs) with (join_with [AMP] (write_field <$> pairs)).
  assert (Forall (fun f => HASH ∉ f) (write_field <$> pairs)) as H.
  { apply Forall_fmap, Forall_true. intros [k v]. cbn. rewrite not_elem_of_app, not_elem_of_cons.
    split_and!; [apply quote_plus_without; auto|done|apply quote_plus_without; auto]. }
  induction H as [|f fs Hf Hfs IH]; [apply not_elem_of_nil|].
  destruct fs as [|g fs]; [done|].
  change (join_with [AMP] (f :: g :: fs)) with (f ++ [AMP] ++ join_with [AMP] (g :: fs)).
  rewrite !not_elem_of_app. split_and!; [done| |exact IH].
  apply not_elem_of_cons. split; [done|apply not_elem_of_nil].
Qed.

Lemma urlencode_clean (pairs : list (str * str)) : clean (urlencode pairs).
Proof.
  change (urlencode pairs) with (join_with [AMP] (write_field <$> pairs)).
  assert (forall s, clean (quote_plus s)) as Hq.
  { intros s. eapply Forall_impl; [apply quote_plus_plain|]. cbn. unfold unsafe_url_cps.
    intros c Hc. rewrite !elem_of_cons, elem_of_nil. tauto. }
  assert (Forall clean (write_field <$> pairs)) as H.
  { apply Forall_fmap, Forall_true. intros [k v]. cbn. apply clean_app. split; [done|].
    apply Forall_cons. split; [unfold unsafe_url_cps, EQUALS; set_solver|apply Hq]. }
  induction H as [|f fs Hf Hfs IH]; [constructor|]. destruct fs as [|g fs]; [done|].
  change (join_with [AMP] (f :: g :: fs)) with (f ++ AMP :: join_with [AMP] (g :: fs)).
  apply clean_app. split; [done|]. apply Forall_cons.
  split; [unfold unsafe_url_cps, AMP; set_solver|exact IH].
Qed.

(** *** Parts of a URL are made of its characters *)

Lemma Forall_lstrip {P : N -> Prop} (f : N -> bool) (s : str) : Forall P s -> Forall P (lstrip f s).
Proof. induction 1 as [|c s Hc Hs IH]; cbn; [done|]. destruct (f c); [done|by constructor]. Qed.

Lemma Forall_keep {P : N -> Prop} (f : N -> bool) (s : str) : Forall P s -> Forall P (keep f s).
Proof. induction 1 as [|c s Hc Hs IH]; cbn; [done|]. destruct (f c); [by constructor|done]. Qed.

Lemma split_scheme_rest {P : N -> Prop} (url d : str) :
  Forall P url -> Forall P (split_scheme url d).2.
Proof.
  intros H. unfold split_scheme. destruct (partition COLON url) as [[pre f] rest] eqn:E.
  destruct (Forall_partition _ _ _ _ _ E H) as [_ Hr].
  destruct pre as [|c pre]; [done|]. by destruct (_ && _).
Qed.

Lemma split_netloc_rest {P : N -> Prop} (s n r : str) :
  split_netloc s = (n, r) -> Forall P s -> Forall P r.
Proof.
  intros E H. apply split_netloc_spec in E as (-> & _ & _). by apply Forall_app in H as [_ H].
Qed.

Lemma urlsplit_query_all {P : N -> Prop} (url : str) (p : split_result) :
  urlsplit url = Ok p -> Forall P url -> Forall P (sr_query p).
Proof.
  intros E H. unfold urlsplit, urlsplit_default in E. revert E.
  set (u := remove_cps _ _).
  assert (Forall P u) as Hu by (apply Forall_keep, Forall_lstrip, H). clearbody u.
  apply (split_scheme_rest u []) in Hu. destruct (split_scheme u []) as [scheme rest]. cbn in Hu.
  assert (Forall P (if starts [SLASH; SLASH] rest then split_netloc (drop 2 rest) else ([], rest)).2)
    as Hr.
  { destruct (starts [SLASH; SLASH] rest); [|done].
    destruct (split_netloc (drop 2 rest)) as [n r] eqn:En. cbn.
    eapply split_netloc_rest; [exact En|]. by apply Forall_drop. }
  destruct (if starts _ rest then _ else _) as [n r]. cbn [snd] in Hr.
  destruct (check_netloc n) as [[]|]; cbn [mbind res_bind]; [|done].
  destruct (partition HASH r) as [[a f] frag] eqn:Eh.
  destruct (Forall_partition _ _ _ _ _ Eh Hr) as [Ha _].
  destruct (partition QUESTION a) as [[path f'] q] eqn:Eq.
  destruct (Forall_partition _ _ _ _ _ Eq Ha) as [_ Hq]. by intros [= <-].
Qed.

(** *** URLs that are a scheme and an authority *)

(** ASCII characters that neither end an authority nor bracket it. *)
Definition plain_cp (c : N) : bool :=
  (c <? 128)%N && negb (has c [9; 10; 13; SLASH; QUESTION; HASH; LBRACKET; RBRACKET]%N).

Lemma nfkc_not_ascii (c : N) : (c < 128)%N -> has c nfkc_delimiters = false.
Proof.
  intros H. apply has_false. intros Hin.
  assert (forallb (fun d => 128 <=? d)%N nfkc_delimiters = true) as Hall by (vm_compute; reflexivity).
  rewrite forallb_forall in Hall. apply list_elem_of_In, Hall, N.leb_le in Hin. lia.
Qed.

Lemma plain_facts (c : N) :
  plain_cp c = true ->
  (c < 128)%N /\ (c ∉ delims) /\ (c ∉ unsafe_url_cps) /\ c <> LBRACKET /\ c <> RBRACKET.
Proof.
  unfold plain_cp. rewrite andb_true_iff, negb_true_iff, has_false, N.ltb_lt.
  unfold delims, unsafe_url_cps. rewrite !not_elem_of_cons. intros [H ?].
  split_and!; try tauto; apply not_elem_of_nil.
Qed.

Lemma authority_split (scheme netloc : str) :
  scheme_ok scheme -> netloc <> [] -> Forall (fun c => plain_cp c = true) netloc ->
  urlsplit (scheme ++ #"://" ++ netloc) = Ok (mk_split scheme netloc [] [] []).
Proof.
  intros Hs Hn Hp. rewrite Forall_forall in Hp.
  assert (forall b, b = LBRACKET \/ b = RBRACKET -> has b netloc = false) as Hb.
  { intros b Hb. apply has_false. intros Hin. apply Hp, plain_facts in Hin. intuition congruence. }
  assert (wf_split (mk_split scheme netloc [] [] [])) as Hwf.
  { constructor; cbn; try done.
    - split; [done|]. apply Forall_forall. intros c Hc.
      apply Hp, plain_facts in Hc. tauto.
    - unfold check_netloc. rewrite !Hb by auto. cbn.
      destruct (existsb _ netloc) eqn:E; [|done]. apply existsb_exists in E as (c & Hc & E).
      apply list_elem_of_In, Hp, plain_facts in Hc as (Hc & _).
      cbn beta in E. rewrite (nfkc_not_ascii c Hc) in E. discriminate.
    - split_and!; [by left|apply not_elem_of_nil|apply not_elem_of_nil].
    - apply not_elem_of_nil.
    - split_and!; try by constructor. apply Forall_forall. intros c Hc.
      apply Hp, plain_facts in Hc. tauto. }
  apply urlsplit_urlunsplit in Hwf as <-. rewrite urlunsplit_eq; [|done|done|by left].
  cbn. by rewrite !app_nil_r.
Qed.

(** A host name of lower-case letters, digits, dots and dashes. *)
Definition host_cp (c : N) : bool := is_ascii_lower c || is_ascii_digit c || has c (#".-").

Lemma ascii_cases (P : N -> Prop) :
  Forall P (N.of_nat <$> seq 0 128) -> forall c, (c < 128)%N -> P c.
Proof.
  intros H c Hc. rewrite Forall_forall in H. apply H, list_elem_of_fmap.
  exists (N.to_nat c). rewrite N2Nat.id, elem_of_seq. split; [done|lia].
Qed.

Lemma host_cp_facts (c : N) :
  host_cp c = true ->
  plain_cp c = true /\ c <> AT /\ c <> COLON /\ c <> PERCENT /\ lower [c] = [c].
Proof.
  intros H. assert (c < 128)%N as Hc.
  { revert H. unfold host_cp, is_ascii_lower, is_ascii_digit, has.
    rewrite !orb_true_iff, !andb_true_iff, !N.leb_le, bool_decide_eq_true.
    intros [[?|?]|Hin]; [lia|lia|]. revert Hin. generalize c. apply Forall_forall.
    by repeat constructor. }
  revert H. pattern c. apply ascii_cases; [|done]. clear.
  assert (forallb (fun c => negb (host_cp c) || (plain_cp c && negb (has c [AT; COLON; PERCENT])
            && bool_decide (lower [c] = [c]))) (N.of_nat <$> seq 0 128) = true) as Hall
    by (vm_compute; reflexivity).
  rewrite forallb_forall in Hall. apply Forall_forall. intros c Hc H.
  apply list_elem_of_In, Hall in Hc. rewrite H in Hc. cbn in Hc.
  apply andb_true_iff in Hc as [Hc Hl]. apply andb_true_iff in Hc as [Hp Hn].
  apply negb_true_iff, has_false in Hn. rewrite !not_elem_of_cons in Hn.
  apply bool_decide_eq_true in Hl. tauto.
Qed.

(** The authority [host] or [host:port]. *)
Definition host_port (host : str) (port : option N) : str :=
  host ++ match port with Some n => COLON :: str_of_Z (Z.of_N n) | None => [] end.

Definition is_host (h : str) : Prop := h <> [] /\ Forall (fun c => host_cp c = true) h.

Lemma is_host_without (c : N) (h : str) :
  c = AT \/ c = COLON \/ c = PERCENT \/ c = LBRACKET -> is_host h -> c ∉ h.
Proof.
  intros Hc [_ H] Hin. rewrite Forall_forall in H. apply H, host_cp_facts in Hin as (Hp & ? & ? & ? & _).
  apply plain_facts in Hp. intuition congruence.
Qed.

Lemma is_host_lower (h : str) : is_host h -> lower h = h.
Proof.
  intros [_ H]. induction H as [|c h Hc Hh IH]; [done|].
  change (c :: h) with ([c] ++ h). rewrite lower_app, IH. f_equal. by apply host_cp_facts.
Qed.

Lemma port_text_plain (n : N) (c : N) :
  c ∈ str_of_Z (Z.of_N n) -> plain_cp c = true /\ c <> AT /\ c <> LBRACKET.
Proof.
  destruct (str_of_N_digits n) as [H _]. rewrite Forall_forall in H. intros Hin.
  apply H in Hin. unfold is_digit_cp in Hin.
  assert (has c [9; 10; 13; SLASH; QUESTION; HASH; LBRACKET; RBRACKET; AT]%N = false) as Hc.
  { apply has_false. rewrite !not_elem_of_cons. unfold SLASH, QUESTION, HASH, LBRACKET, RBRACKET, AT.
    split_and!; try lia. apply not_elem_of_nil. }
  apply has_false in Hc. rewrite !not_elem_of_cons in Hc. split_and!; try tauto.
  unfold plain_cp. rewrite andb_true_iff, negb_true_iff, has_false, N.ltb_lt, !not_elem_of_cons.
  split; [lia|]. split_and!; tauto.
Qed.

Lemma host_port_plain (h : str) (port : option N) :
  is_host h -> Forall (fun c => plain_cp c = true) (host_port h port)
    /\ (AT ∉ host_port h port) /\ (LBRACKET ∉ host_port h port).
Proof.
  intros Hh. pose proof Hh as [_ Hc]. unfold host_port.
  assert (Forall (fun c => plain_cp c = true) h) as Hp
    by (eapply Forall_impl; [exact Hc|]; intros c H; by apply host_cp_facts).
  assert ((AT ∉ h) /\ (LBRACKET ∉ h)) as [Ha Hb] by (split; apply is_host_without; auto).
  destruct port as [n|]; [|rewrite app_nil_r; by split_and!].
  rewrite !not_elem_of_app, !not_elem_of_cons. split_and!; try done.
  - apply Forall_app. split; [done|]. constructor; [done|]. apply Forall_forall. intros c H.
    by apply (port_text_plain n).
  - intros H. by apply (port_text_plain n) in H as (_ & H & _).
  - intros H. by apply (port_text_plain n) in H as (_ & _ & H).
Qed.

(** What the accessors read off [info@host:port], and off [host:port]. *)
Section accessors.
Context (scheme host path : str) (port : option N).
Hypothesis Hhost : is_host host.
Hypothesis Hport : forall n, port = Some n -> (n <= 65535)%N.

Lemma hostinfo_of (info : option str) (p : split_result) :
  sr_netloc p = match info with Some i => i ++ AT :: host_port host port
                           | None => host_port host port end ->
  sr_hostinfo p = (host, (fun n => str_of_Z (Z.of_N n)) <$> port).
Proof.
  intros Hn. destruct (host_port_plain host port Hhost) as (_ & Ha & Hb). unfold sr_hostinfo.
  assert ((rpartition AT (sr_netloc p)).2 = host_port host port) as E.
  { rewrite Hn. destruct info; [by rewrite rpartition_app|by rewrite rpartition_absent]. }
  destruct (rpartition AT (sr_netloc p)) as [[a f] hp]. cbn in E. subst hp.
  rewrite (partition_absent LBRACKET) by done. unfold host_port.
  assert (COLON ∉ host) as Hc by (apply is_host_without; auto).
  destruct port as [n|].
  - rewrite partition_app by done. destruct (str_of_N_digits n) as [_ Hne].
    by rewrite bool_decide_eq_false_2.
  - by rewrite app_nil_r, partition_absent.
Qed.

Lemma hostname_port_of (p : split_result) :
  sr_hostinfo p = (host, (fun n => str_of_Z (Z.of_N n)) <$> port) ->
  sr_hostname p = Some host /\ sr_port p = Ok port.
Proof.
  intros E. unfold sr_hostname, sr_port. rewrite E. cbn [snd]. split.
  - rewrite bool_decide_eq_false_2 by (by destruct Hhost).
    rewrite partition_absent by (apply is_host_without; auto).
    by rewrite is_host_lower, !app_nil_r.
  - destruct port as [n|]; cbn [fmap option_fmap option_map]; [|done].
    destruct (str_of_N_digits n) as [Hd _]. rewrite str_of_N_value.
    assert (forallb is_ascii_digit (str_of_Z (Z.of_N n)) = true) as ->.
    { apply forallb_forall. intros c Hc. apply list_elem_of_In in Hc.
      rewrite Forall_forall in Hd. apply Hd in Hc. unfold is_digit_cp in Hc.
      unfold is_ascii_digit. apply andb_true_iff. rewrite !N.leb_le. lia. }
    by rewrite (proj2 (N.leb_le n 65535)) by (by apply Hport).
Qed.
End accessors.
