(* ===== verification/Headers.v ===== *)
(** * Headers: the ordered, case-insensitive header mapping (headers.py).

    A [Headers] value is the tuple of pairs in wire order; every lookup folds
    case.  [with_defaults] is the operation that decides the order in which a
    request's headers reach the wire. *)

From S2P Require Import Prelude Unicode PyText.

Abbreviation header_pairs := (list (str * str)).

(** What a caller may pass as headers.  A mapping or a list can be traversed
    any number of times; an iterator (a generator, say) only once. *)
Inductive HeaderSource :=
| HeadersNone
| HeadersRepeatable (pairs : header_pairs)
| HeadersIterator (pairs : header_pairs).

(** One traversal of a source, and the source as the traversal leaves it. *)
Definition source_pairs (src : HeaderSource) : header_pairs :=
  match src with
  | HeadersNone => []
  | HeadersRepeatable pairs | HeadersIterator pairs => pairs
  end.

Definition source_after (src : HeaderSource) : HeaderSource :=
  match src with
  | HeadersIterator _ => HeadersIterator []
  | _ => src
  end.

Record Headers := mkHeaders { items : header_pairs }.

#[export] Instance Headers_eq_dec : EqDecision Headers.
Proof. solve_decision. Defined.

(** [Headers(headers)] *)
Definition Headers_init (src : HeaderSource) : Headers := mkHeaders (source_pairs src).

Definition folded (p : str * str) : str := lower p.1.

Definition named (f : str) (p : str * str) : bool := bool_decide (folded p = f).

(** The set comprehension [{name.lower() for name, _ in self._pairs}]. *)
Definition names (ps : header_pairs) : gset str := list_to_set (folded <$> ps).

Definition get_list (h : Headers) (name : str) : list str :=
  snd <$> keep (named (lower name)) (items h).

(** [self[name]], [None] being the KeyError. *)
Definition getitem (h : Headers) (name : str) : option str :=
  let values := get_list h name in
  if bool_decide (values = []) then None else Some (join_with (#", ") values).

(** [self.get(name, default)], inherited from Mapping. *)
Definition get (h : Headers) (name : str) : option str := getitem h name.

Fixpoint iter_go (seen : gset str) (ps : header_pairs) : list str :=
  match ps with
  | [] => []
  | p :: ps =>
      if decide (folded p ∈ seen) then iter_go seen ps
      else p.1 :: iter_go ({[folded p]} ∪ seen) ps
  end.

Definition iter (h : Headers) : list str := iter_go ∅ (items h).

Definition len (h : Headers) : nat := size (names (items h)).

Definition contains (h : Headers) (name : str) : bool :=
  existsb (named (lower name)) (items h).

(** One round of the loop over [defaults.items()], on [(emitted, result)]. *)
Definition overlay_step (self : header_pairs) (st : gset str * header_pairs) (p : str * str)
  : gset str * header_pairs :=
  let '(emitted, result) := st in
  if decide (folded p ∈ names self) then
    if decide (folded p ∈ emitted) then (emitted, result)
    else ({[folded p]} ∪ emitted, result ++ keep (named (folded p)) self)
  else (emitted, result ++ [p]).

Definition with_defaults (self defaults : Headers) : Headers :=
  let '(emitted, result) := foldl (overlay_step (items self)) (∅, []) (items defaults) in
  mkHeaders (result ++ keep (fun p => negb (bool_decide (folded p ∈ emitted))) (items self)).

(** ** Lemmas *)

Lemma elem_of_names (f : str) (ps : header_pairs) :
  f ∈ names ps <-> exists p, p ∈ ps /\ folded p = f.
Proof.
  unfold names. rewrite elem_of_list_to_set, list_elem_of_fmap. naive_solver.
Qed.

Lemma names_app (l1 l2 : header_pairs) : names (l1 ++ l2) = names l1 ∪ names l2.
Proof. unfold names. by rewrite fmap_app, list_to_set_app_L. Qed.

Lemma contains_names (h : Headers) (name : str) :
  contains h name = true <-> lower name ∈ names (items h).
Proof.
  unfold contains. rewrite existsb_exists, elem_of_names. unfold named.
  split; intros (p & Hp & Hf); exists p; rewrite ?list_elem_of_In in *;
    rewrite ?bool_decide_eq_true in *; auto.
Qed.

Lemma keep_named_nil (f : str) (ps : header_pairs) :
  keep (named f) ps = [] <-> f ∉ names ps.
Proof.
  rewrite elem_of_names. split.
  - intros H (p & Hp & Hf). assert (p ∈ keep (named f) ps) as Hin.
    { apply elem_of_keep. unfold named. by rewrite bool_decide_eq_true. }
    rewrite H in Hin. by apply elem_of_nil in Hin.
  - intros H. apply keep_none. apply Forall_forall. intros p Hp. unfold named.
    apply bool_decide_eq_false. intros Hf. apply H. eauto.
Qed.

Lemma names_keep_named (f : str) (ps : header_pairs) :
  f ∈ names ps -> names (keep (named f) ps) = {[f]}.
Proof.
  intros H. apply set_eq. intros g. rewrite elem_of_singleton, elem_of_names.
  apply elem_of_names in H as (p & Hp & Hf). split.
  - intros (q & Hq & <-). apply elem_of_keep in Hq as [Hq _]. by apply bool_decide_eq_true in Hq.
  - intros ->. exists p. split; [|done]. apply elem_of_keep. unfold named.
    by rewrite bool_decide_eq_true.
Qed.

Lemma keep_named_one (f : str) (p : str * str) :
  keep (named f) [p] = if decide (f = folded p) then [p] else [].
Proof.
  cbn. unfold named. destruct (decide (f = folded p)) as [->|H].
  - by rewrite bool_decide_eq_true_2.
  - by rewrite bool_decide_eq_false_2 by congruence.
Qed.

Lemma keep_named_named (f g : str) (ps : header_pairs) :
  keep (named f) (keep (named g) ps) = if decide (f = g) then keep (named f) ps else [].
Proof.
  rewrite keep_keep. destruct (decide (f = g)) as [->|H].
  - apply keep_ext. intros p _. apply andb_diag.
  - apply keep_none, Forall_true. intros p. unfold named. apply andb_false_iff.
    rewrite !bool_decide_eq_false. destruct (decide (folded p = f)); [right|left]; congruence.
Qed.

Lemma names_one (p : str * str) : names [p] = {[folded p]}.
Proof. unfold names. cbn. set_solver. Qed.

Ltac split_decide :=
  repeat match goal with
  | |- context [decide ?P] => destruct (decide P)
  end;
  repeat match goal with
  | H : context [_ ∈ _ ∪ _] |- _ => rewrite elem_of_union in H
  | H : context [_ ∈ _ ∩ _] |- _ => rewrite elem_of_intersection in H
  | H : context [_ ∈ {[_]}] |- _ => rewrite elem_of_singleton in H
  end; subst; rewrite ?app_nil_r; try done;
  try (exfalso; intuition (subst; tauto)).

(** What the loop has established after the defaults [done]. *)
Record overlay_inv (self done : header_pairs) (st : gset str * header_pairs) : Prop := {
  inv_emitted : st.1 = names self ∩ names done;
  inv_values : forall f, keep (named f) st.2 =
    if decide (f ∈ names self)
    then (if decide (f ∈ names done) then keep (named f) self else [])
    else keep (named f) done;
}.

Lemma overlay_inv_step (self done : header_pairs) (st : gset str * header_pairs) (p : str * str) :
  overlay_inv self done st -> overlay_inv self (done ++ [p]) (overlay_step self st p).
Proof.
  destruct st as [em res]. intros [He Hv]. cbn in He, Hv. unfold overlay_step. subst em.
  assert (names (done ++ [p]) = names done ∪ {[folded p]}) as Hn
    by (by rewrite names_app, names_one).
  destruct (decide (folded p ∈ names self)) as [Hs|Hs];
    [destruct (decide (folded p ∈ names self ∩ names done)) as [Hm|Hm]|]; constructor; cbn.
  - rewrite Hn. apply set_eq. intros x.
    rewrite ?elem_of_union, !elem_of_intersection, elem_of_union, elem_of_singleton in *.
    split; [tauto|]. intros [Hx [?| ->]]; tauto.
  - intros f. rewrite Hv, Hn, keep_app, keep_named_one. split_decide.
  - rewrite Hn. apply set_eq. intros x.
    rewrite !elem_of_union, !elem_of_intersection, elem_of_union, elem_of_singleton in *.
    split; [intros [ ->|?]|]; tauto.
  - intros f. rewrite keep_app, Hv, Hn, keep_app, keep_named_one, keep_named_named.
    split_decide.
  - rewrite Hn. apply set_eq. intros x.
    rewrite !elem_of_intersection, elem_of_union, elem_of_singleton. split; [tauto|].
    intros [Hx [?| ->]]; tauto.
  - intros f. rewrite !keep_app, Hv, Hn, keep_named_one. split_decide.
Qed.

Lemma overlay_invariant (self done : header_pairs) :
  overlay_inv self done (foldl (overlay_step self) (∅, []) done).
Proof.
  induction done as [|p done IH] using rev_ind.
  - constructor; cbn; [set_solver|]. intros f. destruct (decide (f ∈ names self)); [|done].
    by rewrite decide_False by (apply not_elem_of_empty).
  - rewrite foldl_app. cbn. by apply overlay_inv_step.
Qed.

Lemma with_defaults_items (h d : Headers) :
  exists em res, foldl (overlay_step (items h)) (∅, []) (items d) = (em, res)
    /\ em = names (items h) ∩ names (items d)
    /\ items (with_defaults h d)
       = res ++ keep (fun p => negb (bool_decide (folded p ∈ em))) (items h).
Proof.
  unfold with_defaults. pose proof (overlay_invariant (items h) (items d)) as [He _].
  destruct (foldl _ _ _) as [em res]. cbn in He. eauto.
Qed.

(** The first occurrence of each name, in order. *)
Fixpoint firsts (seen : gset str) (l : list str) : list str :=
  match l with
  | [] => []
  | x :: l => if decide (x ∈ seen) then firsts seen l else x :: firsts ({[x]} ∪ seen) l
  end.

Lemma iter_firsts (seen : gset str) (ps : header_pairs) :
  lower <$> iter_go seen ps = firsts seen (folded <$> ps).
Proof.
  revert seen. induction ps as [|p ps IH]; intros seen; cbn; [done|].
  destruct (decide (folded p ∈ seen)); cbn; by rewrite IH.
Qed.

Lemma firsts_app (seen : gset str) (l1 l2 : list str) :
  firsts seen (l1 ++ l2) = firsts seen l1 ++ firsts (seen ∪ list_to_set l1) l2.
Proof.
  revert seen. induction l1 as [|x l1 IH]; intros seen; cbn.
  - by rewrite union_empty_r_L.
  - destruct (decide (x ∈ seen)); cbn; rewrite IH; [|f_equal]; do 2 f_equal; set_solver.
Qed.

Lemma firsts_block (seen : gset str) (f : str) (l : list str) :
  l <> [] -> f ∉ seen -> Forall (eq f) l -> firsts seen l = [f].
Proof.
  intros Hne Hf Hl. destruct Hl as [|x l <- Hl]; [done|]. cbn. rewrite decide_False by done.
  f_equal. clear Hne Hf. generalize seen. induction Hl as [|x l <- Hl IH]; intros s; cbn; [done|].
  rewrite decide_True by set_solver. apply IH.
Qed.

Lemma firsts_keep (D seen : gset str) (l : list str) :
  firsts (D ∪ seen) l = keep (fun x => negb (bool_decide (x ∈ D))) (firsts seen l).
Proof.
  revert seen. induction l as [|x l IH]; intros seen; cbn; [done|].
  destruct (decide (x ∈ seen)).
  - rewrite decide_True by set_solver. apply IH.
  - cbn. destruct (decide (x ∈ D)) as [Hx|Hx].
    + rewrite bool_decide_eq_true_2 by done. cbn. rewrite decide_True by set_solver.
      rewrite <- IH. f_equal. set_solver.
    + rewrite bool_decide_eq_false_2 by done. cbn. rewrite decide_False by set_solver.
      f_equal. rewrite <- IH. f_equal. set_solver.
Qed.

Lemma firsts_drop_seen (D : gset str) (ps : header_pairs) :
  firsts D (folded <$> keep (fun p => negb (bool_decide (folded p ∈ D))) ps)
  = firsts D (folded <$> ps).
Proof.
  assert (forall s, D ⊆ s -> firsts s (folded <$> keep (fun p => negb (bool_decide (folded p ∈ D))) ps)
                             = firsts s (folded <$> ps)) as H; [|by apply H].
  induction ps as [|p ps IH]; intros s Hs; cbn; [done|].
  destruct (decide (folded p ∈ D)) as [Hp|Hp].
  - rewrite bool_decide_eq_true_2 by done. cbn. rewrite decide_True by set_solver. by apply IH.
  - rewrite bool_decide_eq_false_2 by done. cbn.
    destruct (decide (folded p ∈ s)); [by apply IH|]. f_equal. apply IH. set_solver.
Qed.

Lemma overlay_order (self done : header_pairs) :
  let st := foldl (overlay_step self) (∅, []) done in
  firsts ∅ (folded <$> st.2) = firsts ∅ (folded <$> done) /\ names st.2 = names done.
Proof.
  induction done as [|p done IH] using rev_ind; [done|]. cbn zeta in *.
  pose proof (overlay_invariant self done) as [He _].
  rewrite foldl_app. cbn [foldl]. destruct (foldl _ _ done) as [em res]. cbn [fst snd overlay_step] in *.
  destruct IH as [IH1 IH2].
  assert (names (done ++ [p]) = names done ∪ {[folded p]}) as Hn
    by (by rewrite names_app, names_one).
  rewrite Hn, fmap_app, firsts_app, union_empty_l_L. fold (names done). cbn [fmap list_fmap firsts].
  destruct (decide (folded p ∈ names self)) as [Hs|Hs];
    [destruct (decide (folded p ∈ em)) as [Hm|Hm]|]; cbn [snd].
  - rewrite decide_True by set_solver. rewrite app_nil_r. split; [done|]. set_solver.
  - rewrite decide_False by set_solver. rewrite fmap_app, firsts_app, IH1, union_empty_l_L.
    fold (names res). rewrite IH2, names_app, names_keep_named, IH2 by done. split; [|done].
    f_equal. apply firsts_block; [|set_solver|].
    + intros H. apply fmap_nil_inv, keep_named_nil in H. done.
    + apply Forall_fmap, Forall_forall. intros q Hq. apply elem_of_keep in Hq as [Hq _].
      by apply bool_decide_eq_true in Hq.
  - rewrite fmap_app, firsts_app, IH1, union_empty_l_L. fold (names res).
    rewrite IH2, names_app, names_one, IH2. done.
Qed.

Lemma keep_named_unmerged (em : gset str) (f : str) (ps : header_pairs) :
  keep (named f) (keep (fun p => negb (bool_decide (folded p ∈ em))) ps)
  = if decide (f ∈ em) then [] else keep (named f) ps.
Proof.
  rewrite keep_keep. destruct (decide (f ∈ em)) as [Hf|Hf].
  - apply keep_none, Forall_true. intros p. unfold named.
    destruct (decide (folded p = f)) as [->|H].
    + rewrite (bool_decide_eq_true_2 (f ∈ em)) by done. by rewrite andb_false_r.
    + by rewrite bool_decide_eq_false_2.
  - apply keep_ext. intros p _. unfold named. destruct (decide (folded p = f)) as [->|H].
    + rewrite (bool_decide_eq_false_2 (f ∈ em)) by done. by rewrite andb_true_r.
    + by rewrite bool_decide_eq_false_2.
Qed.

Lemma merged_pairs (h d : Headers) (f : str) :
  keep (named f) (items (with_defaults h d))
  = if decide (f ∈ names (items h)) then keep (named f) (items h)
    else keep (named f) (items d).
Proof.
  destruct (with_defaults_items h d) as (em & res & E & He & ->).
  pose proof (overlay_invariant (items h) (items d)) as [_ Hv]. rewrite E in Hv. cbn in Hv.
  rewrite keep_app, Hv, keep_named_unmerged. subst em.
  destruct (decide (f ∈ names (items h))) as [Hf|Hf].
  - destruct (decide (f ∈ names (items d))) as [Hd|Hd].
    + rewrite decide_True by (by apply elem_of_intersection). by rewrite app_nil_r.
    + by rewrite decide_False by (rewrite elem_of_intersection; tauto).
  - rewrite (decide_False (P := f ∈ _ ∩ _)) by (rewrite elem_of_intersection; tauto).
    rewrite (proj2 (keep_named_nil f (items h))) by done.
    by rewrite app_nil_r.
Qed.

Lemma contains_decide (h : Headers) (name : str) :
  contains h name = bool_decide (lower name ∈ names (items h)).
Proof. apply eq_bool_prop_intro. rewrite !Is_true_true, bool_decide_eq_true. apply contains_names. Qed.

Lemma merged_get_list (h d : Headers) (name : str) :
  get_list (with_defaults h d) name
  = if contains h name then get_list h name else get_list d name.
Proof.
  unfold get_list. rewrite merged_pairs, contains_decide. by case_bool_decide; case_decide.
Qed.

Lemma merged_contains (h d : Headers) (name : str) :
  contains (with_defaults h d) name = contains h name || contains d name.
Proof.
  rewrite !contains_decide. apply eq_bool_prop_intro.
  rewrite orb_True, !Is_true_true, !bool_decide_eq_true.
  assert (forall ps, lower name ∈ names ps <-> keep (named (lower name)) ps <> []) as Hk.
  { intros ps. rewrite keep_named_nil. destruct (decide (lower name ∈ names ps)); tauto. }
  rewrite !Hk, merged_pairs. destruct (decide _) as [H|H].
  - apply Hk in H. tauto.
  - rewrite <- !Hk. tauto.
Qed.

Lemma get_contains (h : Headers) (name : str) :
  get h name = None <-> contains h name = false.
Proof.
  unfold get, getitem, get_list. rewrite contains_decide, bool_decide_eq_false, <- keep_named_nil.
  destruct (keep _ _) as [|p ps]; [done|]. by rewrite bool_decide_eq_false_2.
Qed.

(** ** Properties *)

(** Laying headers over defaults decides every name by one side only: the
    pairs under a name (spelling, values, repeats and relative order) are the
    caller's when the caller sets that name in any case, and the defaults'
    otherwise.  Nothing is lost, duplicated or mixed. *)
Theorem with_defaults_pairs (h d : Headers) (f : str) :
  keep (named f) (items (with_defaults h d))
  = (if decide (f ∈ names (items h)) then keep (named f) (items h)
     else keep (named f) (items d))
  /\ forall name, get_list (with_defaults h d) name
     = if contains h name then get_list h name else get_list d name.
Proof. split; [apply merged_pairs|]. intros name. apply merged_get_list. Qed.

(** Overriding a header never moves it.  The distinct names of the merged
    headers are the defaults' names in the defaults' order, followed by the
    caller's new names in the caller's order. *)
Theorem with_defaults_order (h d : Headers) :
  lower <$> iter (with_defaults h d)
  = (lower <$> iter d)
    ++ keep (fun f => negb (bool_decide (f ∈ names (items d)))) (lower <$> iter h).
Proof.
  unfold iter. rewrite !iter_firsts.
  destruct (with_defaults_items h d) as (em & res & E & -> & ->).
  pose proof (overlay_order (items h) (items d)) as Ho. rewrite E in Ho. destruct Ho as [H1 H2].
  cbn [snd] in H1, H2. rewrite fmap_app, firsts_app, H1, union_empty_l_L. fold (names res).
  rewrite H2. f_equal.
  rewrite (keep_ext _ (fun p => negb (bool_decide (folded p ∈ names (items d))))).
  - rewrite firsts_drop_seen, <- firsts_keep. f_equal. by rewrite union_empty_r_L.
  - intros p Hp. f_equal. apply bool_decide_ext. rewrite elem_of_intersection, !elem_of_names.
    naive_solver.
Qed.

Lemma firsts_NoDup (seen : gset str) (l : list str) :
  NoDup (firsts seen l) /\ (forall x, x ∈ firsts seen l <-> x ∈ l /\ x ∉ seen).
Proof.
  revert seen. induction l as [|x l IH]; intros seen; cbn.
  - split; [constructor|]. intros x. rewrite elem_of_nil. tauto.
  - destruct (decide (x ∈ seen)) as [Hx|Hx].
    + destruct (IH seen) as [Hn He]. split; [done|]. intros y. rewrite He, elem_of_cons.
      split; [tauto|]. intros [[ ->|?] ?]; tauto.
    + destruct (IH ({[x]} ∪ seen)) as [Hn He]. split.
      * constructor; [|done]. rewrite He. set_solver.
      * intros y. rewrite !elem_of_cons, He, not_elem_of_union, not_elem_of_singleton.
        split; [intros [ ->|?]; tauto|]. destruct (decide (y = x)); tauto.
Qed.

(** The mapping is coherent.  [in], indexing, iteration and [len] agree:
    a name is present exactly when indexing it returns, iteration yields each
    case-folded name once, and [len] counts what iteration yields. *)
Theorem headers_coherent (h : Headers) :
  (forall name, contains h name = true <-> is_Some (getitem h name))
  /\ (forall name, contains h name = true <-> lower name ∈ lower <$> iter h)
  /\ NoDup (lower <$> iter h)
  /\ len h = length (iter h).
Proof.
  pose proof (firsts_NoDup ∅ (folded <$> items h)) as [Hn He].
  unfold iter. rewrite iter_firsts. split_and!; [| |done|].
  - intros name. pose proof (get_contains h name) as H. unfold get in H.
    destruct (contains h name), (getitem h name); split; try done; intros Hc.
    + destruct H as [H _]. discriminate (H eq_refl).
    + destruct H as [_ H]. discriminate (H eq_refl).
  - intros name. rewrite contains_names, He. unfold names. rewrite elem_of_list_to_set.
    set_solver.
  - unfold len. rewrite <- (length_fmap lower), iter_firsts.
    rewrite <- (size_list_to_set (C := gset str) (firsts ∅ (folded <$> items h))) by done.
    f_equal. apply set_eq. intros x. unfold names. rewrite !elem_of_list_to_set, He. set_solver.
Qed.
