(* ===== verification/Types.v ===== *)
(** * Types: the plain records that cross module boundaries.

    [Metrics] and [RawResponse] are what the bridge copies out of native
    memory (_bridge.py); [Response] is what a caller receives (response.py).
    They live below the errors, because two of those carry a response. *)

From S2P Require Import Prelude PyText Headers.

(** [NO_TIME], the timing of a phase that did not happen. *)
Definition NO_TIME : Z := -1.

Record Metrics := mkMetrics {
  request_start_us : Z;
  dns_start_us : Z;
  dns_end_us : Z;
  connect_start_us : Z;
  connect_end_us : Z;
  ssl_start_us : Z;
  ssl_end_us : Z;
  send_start_us : Z;
  send_end_us : Z;
  response_start_us : Z;
  request_end_us : Z;
  sent_bytes : Z;
  received_bytes : Z;
  socket_reused : bool;
}.

#[export] Instance Metrics_eq_dec : EqDecision Metrics.
Proof. solve_decision. Defined.

(** [cronet_metrics], the struct of the C ABI. *)
Record NativeMetrics := mkNativeMetrics {
  nm_request_start_us : Z;
  nm_dns_start_us : Z;
  nm_dns_end_us : Z;
  nm_connect_start_us : Z;
  nm_connect_end_us : Z;
  nm_ssl_start_us : Z;
  nm_ssl_end_us : Z;
  nm_send_start_us : Z;
  nm_send_end_us : Z;
  nm_response_start_us : Z;
  nm_request_end_us : Z;
  nm_sent_bytes : Z;
  nm_received_bytes : Z;
  nm_socket_reused : Z;
}.

(** [Metrics.from_native(metrics)] *)
Definition from_native (m : NativeMetrics) : Metrics :=
  {| request_start_us := nm_request_start_us m;
     dns_start_us := nm_dns_start_us m;
     dns_end_us := nm_dns_end_us m;
     connect_start_us := nm_connect_start_us m;
     connect_end_us := nm_connect_end_us m;
     ssl_start_us := nm_ssl_start_us m;
     ssl_end_us := nm_ssl_end_us m;
     send_start_us := nm_send_start_us m;
     send_end_us := nm_send_end_us m;
     response_start_us := nm_response_start_us m;
     request_end_us := nm_request_end_us m;
     sent_bytes := nm_sent_bytes m;
     received_bytes := nm_received_bytes m;
     socket_reused := negb (nm_socket_reused m =? 0)%Z |}.

(** [Metrics.total_us] *)
Definition total_us (m : Metrics) : Z :=
  if (request_start_us m =? NO_TIME)%Z || (request_end_us m =? NO_TIME)%Z
  then NO_TIME
  else (request_end_us m - request_start_us m)%Z.

Record RawResponse := mkRaw {
  raw_status_code : Z;
  raw_reason : str;
  raw_headers : header_pairs;
  raw_url : str;
  raw_http_version : str;
  raw_redirect_count : Z;
  raw_from_cache : bool;
  raw_proxy : str;
  raw_metrics : Metrics;
}.

#[export] Instance RawResponse_eq_dec : EqDecision RawResponse.
Proof. solve_decision. Defined.

(** The generator [Call.iter_body] returns, seen by its consumer: the pieces
    it has still to yield, and whether it then raises TimeoutError instead of
    ending. *)
Record BodyStream := mkStream {
  pieces : list bytes;
  stalls : bool;
}.

Inductive Response := mkResponse {
  status_code : Z;
  reason : str;
  headers : Headers;
  content : bytes;
  url : str;
  http_version : str;
  redirect_count : Z;
  from_cache : bool;
  proxy : str;
  metrics : Metrics;
  history : list Response;
  stream : option BodyStream;
}.

(** The attribute assignments the program makes on a response. *)
Definition set_history (r : Response) (h : list Response) : Response :=
  mkResponse (status_code r) (reason r) (headers r) (content r) (url r) (http_version r)
    (redirect_count r) (from_cache r) (proxy r) (metrics r) h (stream r).

Definition set_stream (r : Response) (s : option BodyStream) : Response :=
  mkResponse (status_code r) (reason r) (headers r) (content r) (url r) (http_version r)
    (redirect_count r) (from_cache r) (proxy r) (metrics r) (history r) s.

Definition set_content (r : Response) (c : bytes) : Response :=
  mkResponse (status_code r) (reason r) (headers r) c (url r) (http_version r)
    (redirect_count r) (from_cache r) (proxy r) (metrics r) (history r) (stream r).

(** [Response.from_raw(raw, content)] *)
Definition from_raw (raw : RawResponse) (content : bytes) : Response :=
  {| status_code := raw_status_code raw;
     reason := raw_reason raw;
     headers := Headers_init (HeadersRepeatable (raw_headers raw));
     content := content;
     url := raw_url raw;
     http_version := raw_http_version raw;
     redirect_count := raw_redirect_count raw;
     from_cache := raw_from_cache raw;
     proxy := raw_proxy raw;
     metrics := raw_metrics raw;
     history := [];
     stream := None |}.

(** Sample values for the witnesses of the development. *)
Definition native_no_metrics : NativeMetrics :=
  mkNativeMetrics (-1) (-1) (-1) (-1) (-1) (-1) (-1) (-1) (-1) (-1) (-1) 0 0 0.
Definition no_metrics : Metrics :=
  mkMetrics (-1) (-1) (-1) (-1) (-1) (-1) (-1) (-1) (-1) (-1) (-1) 0 0 false.

Definition sample_raw (status : Z) (hs : header_pairs) : RawResponse :=
  mkRaw status (#"") hs (#"https://example.com/") (#"h2") 0 false (#"direct") no_metrics.

Definition sample_response (status : Z) (hs : header_pairs) : Response :=
  from_raw (sample_raw status hs) [].
