(* ===== verification/Errors.v ===== *)
(** * Errors: everything the package raises, and the sorting of Chromium's
    network errors into it (errors.py).

    An exception is a value of [exn]: its class, and the data its message is
    made of.  Python's own TypeError, ValueError and so on carry a complaint
    naming the raise site and what it interpolates. *)

From S2P Require Import Prelude PyText PyUrl Headers Types.

Inductive type_complaint :=
| UnknownOptions (names : list str)
| NoScheme (url guess : str)
| UnsupportedScheme (url scheme : str)
| NoHost (url : str)
| TwoCredentials
| TwoBodies (given : list str)
| FilesWithBody (given : str).

Inductive value_complaint :=
| StackOwned (name source instead : str)
| Http3SwitchedOff
| Http3Unreachable
| UrlError (e : url_error)
| BadVersion (field value : str)
| BadAlpn (unknown : list str)
| Unorderable (extensions : list Z)
| RepeatedExtension
| NotAMember (enum value : str)
| NotEncodable (text : str)
| NotDecodable (octets : bytes)
| NotANumber
| UnknownUrlType (url : str).

(** The subclasses of RequestError, and RequestError itself. *)
Inductive request_class :=
| PlainRequestError
| ConnectionFailed
| Timeout
| Cancelled
| TooManyRedirects
| ProxyFailed
| CertificateError.

Inductive exn :=
| TypeError (why : type_complaint)
| ValueError (why : value_complaint)
| RuntimeError (message : str)
| OverflowError
| AttributeError
| TimeoutError
| OSError
| Interrupted            (* asyncio.CancelledError, KeyboardInterrupt *)
| LibraryError (message : str)
| SessionClosed
| RequestError (class : request_class) (message : str) (net_error : Z) (url : str)
| HTTPStatusError (message : str) (response : Response)
| ProtocolDowngraded (message : str) (response : Response).

#[export] Instance type_complaint_eq_dec : EqDecision type_complaint.
Proof. solve_decision. Defined.
#[export] Instance value_complaint_eq_dec : EqDecision value_complaint.
Proof. solve_decision. Defined.
#[export] Instance request_class_eq_dec : EqDecision request_class.
Proof. solve_decision. Defined.

(** [isinstance(e, CronetError)] *)
Definition is_cronet_error (e : exn) : bool :=
  match e with
  | LibraryError _ | SessionClosed | RequestError _ _ _ _
  | HTTPStatusError _ _ | ProtocolDowngraded _ _ => true
  | _ => false
  end.

(** The ValueErrors urllib raises, as exceptions of the program. *)
Definition lift_url {A} (r : res url_error A) : res exn A :=
  match r with
  | Ok a => Ok a
  | Raise e => Raise (ValueError (UrlError e))
  end.

(** [s.encode()], which refuses a lone surrogate. *)
Definition encode_strict (s : str) : res exn bytes :=
  if forallb is_scalar s then Ok (encode s) else Raise (ValueError (NotEncodable s)).

Lemma encode_strict_ok (s : str) (b : bytes) :
  encode_strict s = Ok b <-> Forall scalar s /\ b = encode s.
Proof.
  unfold encode_strict. destruct (forallb is_scalar s) eqn:E.
  - assert (Forall scalar s) as Hs.
    { apply Forall_forall. intros c Hc. apply is_scalar_spec.
      eapply forallb_forall; [exact E|]. by apply list_elem_of_In. }
    split; [by intros [= <-]|by intros [_ ->]].
  - split; [done|]. intros [Hs _]. exfalso.
    assert (forallb is_scalar s = true); [|congruence].
    apply forallb_forall. intros c Hc. apply is_scalar_spec.
    rewrite Forall_forall in Hs. apply Hs. by apply list_elem_of_In.
Qed.

Lemma encode_strict_is_ok (s : str) : is_ok (encode_strict s) = true <-> Forall scalar s.
Proof.
  pose proof (encode_strict_ok s) as H. destruct (encode_strict s) as [b|e].
  - split; [|done]. intros _. by apply (H b).
  - split; [done|]. intros Hs. destruct (H (encode s)) as [_ H']. by specialize (H' (conj Hs eq_refl)).
Qed.

Lemma encode_scalars (s : str) : Forall scalar s -> encode_strict s = Ok (encode s).
Proof. intros H. by apply encode_strict_ok. Qed.

Section error_for.
Local Open Scope Z_scope.

Definition PROXY_ERRORS : list Z := [-115; -127; -130; -131; -136; -144; -336].
Definition SSL_ERRORS : list Z := [-107; -113; -117; -122; -126; -141; -164].
Definition TIMEOUT_ERRORS : list Z := [-7; -118].
Definition CANCELLED : Z := -3.
Definition REDIRECT_LIMIT : Z := -31.

Definition class_for (net_error : Z) : request_class :=
  if bool_decide (net_error ∈ TIMEOUT_ERRORS) then Timeout
  else if net_error =? CANCELLED then Cancelled
  else if net_error =? REDIRECT_LIMIT then TooManyRedirects
  else if bool_decide (net_error ∈ PROXY_ERRORS) then ProxyFailed
  else if bool_decide (net_error ∈ SSL_ERRORS)
          || ((-300 <? net_error) && (net_error <=? -200)) then CertificateError
  else if (-200 <? net_error) && (net_error <=? -100) then ConnectionFailed
  else PlainRequestError.

Definition error_text (net_error : Z) (message url : str) : str :=
  if nonempty url
  then (if nonempty message then message else #"network error " ++ str_of_Z net_error)
       ++ #" for " ++ url
  else message.

(** [error_for(net_error, message, url)] *)
Definition error_for (net_error : Z) (message url : str) : exn :=
  RequestError (class_for net_error) (error_text net_error message url) net_error url.

(** The bands the module's comment describes: -100..-199 is the connection,
    -200..-299 the certificate; everything else is plain.  The named codes
    are taken out of their band. *)
Definition band (n : Z) : request_class :=
  if (-299 <=? n) && (n <=? -200) then CertificateError
  else if (-199 <=? n) && (n <=? -100) then ConnectionFailed
  else PlainRequestError.

Definition named_codes : list (Z * request_class) :=
  [(-7, Timeout); (-118, Timeout); (-3, Cancelled); (-31, TooManyRedirects)]
  ++ ((fun n => (n, ProxyFailed)) <$> PROXY_ERRORS)
  ++ ((fun n => (n, CertificateError)) <$> SSL_ERRORS).

Lemma bool_decide_cons (n x : Z) (l : list Z) :
  bool_decide (n ∈ x :: l) = (n =? x) || bool_decide (n ∈ l).
Proof.
  apply eq_bool_prop_intro. rewrite orb_True, !bool_decide_spec, elem_of_cons.
  by rewrite Is_true_true, Z.eqb_eq.
Qed.

(** Errors are sorted by band with the named codes taken out: a code
    listed by name gets its own class whatever its band, and any other code
    the class of its band.  The exception always carries the code and the
    URL it was given. *)
Theorem error_for_classifies (n : Z) (message url : str) :
  class_for n = default (band n) (snd <$> find_first (fun e => e.1 =? n) named_codes)
  /\ error_for n message url
     = RequestError (class_for n) (error_text n message url) n url
  /\ is_cronet_error (error_for n message url) = true.
Proof.
  split; [|done]. unfold class_for, band, named_codes, TIMEOUT_ERRORS, PROXY_ERRORS,
    SSL_ERRORS, CANCELLED, REDIRECT_LIMIT.
  rewrite !bool_decide_cons. rewrite bool_decide_false by (apply not_elem_of_nil).
  cbn [fmap list_fmap app find_first fst snd].
  rewrite !(Z.eqb_sym n).
  repeat match goal with
  | |- context [Z.eqb ?k n] => destruct (Z.eqb_spec k n); [subst n; reflexivity|]
  end.
  cbn. destruct (Z.ltb_spec (-300) n), (Z.leb_spec (-299) n); try lia; cbn;
    destruct (n <=? -200); try done;
    destruct (Z.ltb_spec (-200) n), (Z.leb_spec (-199) n); try lia; done.
Qed.
End error_for.
