(* ===== verification/Engine.v ===== *)
(** * Engine: the bookkeeping that makes closing a session safe
    (_bridge.py, [Engine]).

    Any number of threads share one engine.  An entry of [threads] is one use
    of it: a call from [start] to [close()], a net log, or a [close].  A thread
    that holds a call while it does something else, closing the session
    included, has two entries; one that drops a call unclosed leaves its entry
    [Running] for good.  Here the entries take their steps in any order;
    [Stack.turn] adds which of them one thread can take.  A step is what is done
    between two points where another may run: the body of a [with self._lock]
    block, one call into the library, or waking from the condition.  The
    library's side is reduced to what can go wrong: whether the engine has been
    destroyed and which calls are allocated. *)

From S2P Require Import Prelude PyText Types Errors.

(** ** State *)

Inductive native_use := StartCall | NetLog.

Inductive pc :=
| Ready                        (* outside the engine *)
| Claimed (use : native_use)   (* the engine is reserved, the library about to be called *)
| Started (call : nat)         (* cronet_call_start returned it *)
| Running (call : nat)         (* the caller holds the Call *)
| Discarded (call : nat)       (* close(): out of the live set, not yet freed *)
| Releasing                    (* the library has returned *)
| Closing                      (* close(): awake in the wait loop, about to test *)
| Waiting                      (* close(): asleep on the condition *)
| Destroying.                  (* close(): about to run the finalizer *)

#[export] Instance native_use_eq_dec : EqDecision native_use.
Proof. solve_decision. Defined.
#[export] Instance pc_eq_dec : EqDecision pc.
Proof. solve_decision. Defined.

Record engine := mkEngine {
  handle : bool;                  (* whether [_handle] is still there *)
  live_calls : gset nat;
  calls_in_flight : nat;
  finalizer_alive : bool;
  threads : list pc;              (* where each use is *)
  (* the library *)
  destroyed : bool;
  allocated : gset nat;           (* the calls started and not yet freed *)
  cancelled : gset nat;
  fault : bool;                   (* it was used after being freed *)
}.

Definition with_threads (e : engine) (l : list pc) : engine :=
  mkEngine (handle e) (live_calls e) (calls_in_flight e) (finalizer_alive e) l
    (destroyed e) (allocated e) (cancelled e) (fault e).
Definition with_handle (e : engine) (h : bool) : engine :=
  mkEngine h (live_calls e) (calls_in_flight e) (finalizer_alive e) (threads e)
    (destroyed e) (allocated e) (cancelled e) (fault e).
Definition with_live (e : engine) (c : gset nat) : engine :=
  mkEngine (handle e) c (calls_in_flight e) (finalizer_alive e) (threads e)
    (destroyed e) (allocated e) (cancelled e) (fault e).
Definition with_count (e : engine) (n : nat) : engine :=
  mkEngine (handle e) (live_calls e) n (finalizer_alive e) (threads e)
    (destroyed e) (allocated e) (cancelled e) (fault e).
Definition with_library (e : engine) (d : bool) (a c : gset nat) (f : bool) : engine :=
  mkEngine (handle e) (live_calls e) (calls_in_flight e) (finalizer_alive e) (threads e) d a c f.

(** ** The library *)

(** A call into the library that needs the engine alive. *)
Definition use_engine (e : engine) : engine :=
  with_library e (destroyed e) (allocated e) (cancelled e) (fault e || destroyed e).

(** [cronet_call_start] giving the handle [c]: any the allocator has free. *)
Definition native_start (c : nat) (e : engine) : engine :=
  let e := use_engine e in
  with_library e (destroyed e) ({[c]} ∪ allocated e) (cancelled e ∖ {[c]}) (fault e).

(** [cronet_call_cancel] and [cronet_call_free] on a call that must be there. *)
Definition native_cancel (c : nat) (e : engine) : engine :=
  with_library e (destroyed e) (allocated e) ({[c]} ∪ cancelled e)
    (fault e || negb (bool_decide (c ∈ allocated e))).

Definition native_cancel_all (cs : gset nat) (e : engine) : engine :=
  with_library e (destroyed e) (allocated e) (cs ∪ cancelled e)
    (fault e || negb (bool_decide (cs ⊆ allocated e))).

Definition native_free (c : nat) (e : engine) : engine :=
  with_library e (destroyed e) (allocated e ∖ {[c]}) (cancelled e)
    (fault e || destroyed e || negb (bool_decide (c ∈ allocated e))).

Definition native_destroy (e : engine) : engine :=
  with_library e true (allocated e) (cancelled e) (fault e || destroyed e).

(** ** Steps of a thread *)

(** [notify_all()] *)
Definition wake (p : pc) : pc := match p with Waiting => Closing | p => p end.

Definition move (i : nat) (p : pc) (e : engine) : engine :=
  with_threads e (<[i := p]> (threads e)).

(** [_claim()]: under the lock. *)
Definition claim (use : native_use) (i : nat) (e : engine) : engine + exn :=
  if handle e then inl (move i (Claimed use) (with_count e (S (calls_in_flight e))))
  else inr SessionClosed.

(** [_release()]: under the lock. *)
Definition release (i : nat) (e : engine) : engine :=
  let e := with_count e (calls_in_flight e - 1) in
  with_threads e (wake <$> <[i := Ready]> (threads e)).

(** The block of [start] that registers a call the library has started. *)
Definition register (i c : nat) (e : engine) : engine :=
  let e := with_live e ({[c]} ∪ live_calls e) in
  let e := if handle e then e else native_cancel c e in
  move i (Running c) e.

(** The block of [_free_call] that forgets a call. *)
Definition discard (i c : nat) (e : engine) : engine :=
  move i (Discarded c) (with_live e (live_calls e ∖ {[c]})).

(** The test of the wait loop of [close], under the lock. *)
Definition close_test (i : nat) (e : engine) : engine :=
  move i (if calls_in_flight e =? 0 then Destroying else Waiting) e.

(** [close] up to where it first lets go of the lock. *)
Definition take_handle (i : nat) (e : engine) : engine :=
  let e := with_handle e false in
  move i Closing (native_cancel_all (live_calls e) e).

Definition begin_close (i : nat) (e : engine) : engine :=
  if handle e then close_test i (take_handle i e) else e.

(** [self._finalizer()]: runs its callback at most once. *)
Definition finalize (i : nat) (e : engine) : engine :=
  let e := if finalizer_alive e then native_destroy e else e in
  move i Ready (mkEngine (handle e) (live_calls e) (calls_in_flight e) false (threads e)
                  (destroyed e) (allocated e) (cancelled e) (fault e)).

(** What a thread does next, where it has a choice or the library answers. *)
Inductive choice :=
| CallStart                   (* start(): claim *)
| CallNetLog                  (* start_net_log() or stop_net_log(): claim *)
| CallClose                   (* close() *)
| Cancel                      (* Call.cancel() *)
| Answer (call : option nat)  (* cronet_call_start returned; [None] is null, or an exception *)
| Go.                         (* the only thing there is to do *)

Definition step (i : nat) (ch : choice) (e : engine) : option engine :=
  match threads e !! i, ch with
  | Some Ready, CallStart =>
      match claim StartCall i e with inl e => Some e | inr _ => Some e end
  | Some Ready, CallNetLog =>
      match claim NetLog i e with inl e => Some e | inr _ => Some e end
  | Some Ready, CallClose => Some (begin_close i e)
  | Some (Claimed StartCall), Answer (Some c) =>
      if bool_decide (c ∈ allocated e) then None else Some (move i (Started c) (native_start c e))
  | Some (Claimed StartCall), Answer None => Some (move i Releasing (use_engine e))
  | Some (Claimed NetLog), Go => Some (move i Releasing (use_engine e))
  | Some (Started c), Go => Some (register i c e)
  | Some (Running c), Cancel => Some (native_cancel c e)
  | Some (Running c), Go => Some (discard i c e)
  | Some (Discarded c), Go => Some (move i Releasing (native_free c e))
  | Some Releasing, Go => Some (release i e)
  | Some Closing, Go => Some (close_test i e)
  | Some Destroying, Go => Some (finalize i e)
  | _, _ => None
  end.

Fixpoint run (schedule : list (nat * choice)) (e : engine) : option engine :=
  match schedule with
  | [] => Some e
  | (i, ch) :: schedule =>
      match step i ch e with Some e => run schedule e | None => None end
  end.

(** [Engine(settings)] shared by [n] threads. *)
Definition open_engine (n : nat) : engine :=
  mkEngine true ∅ 0 true (replicate n Ready) false ∅ ∅ false.

Definition reachable (n : nat) (e : engine) : Prop :=
  exists schedule, run schedule (open_engine n) = Some e.

(** ** The invariant *)

(** The threads [calls_in_flight] counts. *)
Definition holds (p : pc) : bool :=
  match p with Claimed _ | Started _ | Running _ | Discarded _ | Releasing => true | _ => false end.

Definition closes (p : pc) : bool :=
  match p with Closing | Waiting | Destroying => true | _ => false end.

(** The call a thread is responsible for freeing, and the one it has registered. *)
Definition call_of (p : pc) : option nat :=
  match p with Started c | Running c | Discarded c => Some c | _ => None end.

Definition live_of (p : pc) : option nat :=
  match p with Running c => Some c | _ => None end.

Definition count (f : pc -> bool) (l : list pc) : nat := length (keep f l).

Record inv (e : engine) : Prop := {
  inv_count : calls_in_flight e = count holds (threads e);
  inv_calls : NoDup (omap call_of (threads e));
  inv_allocated : forall c, c ∈ allocated e <-> c ∈ omap call_of (threads e);
  inv_live : forall c, c ∈ live_calls e <-> c ∈ omap live_of (threads e);
  inv_fault : fault e = false;
  inv_final : finalizer_alive e = negb (destroyed e);
  inv_closer : count closes (threads e) + Nat.b2n (destroyed e) = Nat.b2n (negb (handle e));
  inv_destroyed : destroyed e = true \/ Destroying ∈ threads e -> calls_in_flight e = 0;
  inv_waiting : Waiting ∈ threads e -> 0 < calls_in_flight e;
  inv_cancelled : handle e = false -> live_calls e ⊆ cancelled e;
}.

(** ** A thread's move, seen from the whole list *)

Lemma insert_split (l : list pc) (i : nat) (p q : pc) :
  l !! i = Some p -> exists rest, l ≡ₚ p :: rest /\ <[i := q]> l ≡ₚ q :: rest.
Proof.
  revert i. induction l as [|x l IH]; intros [|i] H; cbn in *; try done.
  - injection H as ->. by exists l.
  - destruct (IH i H) as (rest & H1 & H2). exists (x :: rest).
    split; (etrans; [by apply perm_skip|apply Permutation_swap]).
Qed.

#[export] Instance keep_perm {A} (p : A -> bool) : Proper ((≡ₚ) ==> (≡ₚ)) (keep p).
Proof.
  intros l k H. induction H as [|x l k H IH|x y l|l k m H1 IH1 H2 IH2]; cbn; [done| | |by etrans].
  - destruct (p x); [by constructor|done].
  - destruct (p x), (p y); try done. apply Permutation_swap.
Qed.

#[export] Instance count_perm (f : pc -> bool) : Proper ((≡ₚ) ==> (=)) (count f).
Proof. intros l k H. unfold count. by rewrite H. Qed.

Lemma count_cons (f : pc -> bool) (p : pc) (l : list pc) :
  count f (p :: l) = Nat.b2n (f p) + count f l.
Proof. unfold count. cbn. by destruct (f p). Qed.

Lemma count_pos (f : pc -> bool) (p : pc) (l : list pc) : p ∈ l -> f p = true -> 0 < count f l.
Proof.
  intros Hin Hf. unfold count. assert (p ∈ keep f l) as H by (by apply elem_of_keep).
  destruct (keep f l); [by apply elem_of_nil in H|cbn; lia].
Qed.

Lemma omap_cons_in {A} (f : pc -> option A) (p : pc) (l : list pc) (c : A) :
  c ∈ omap f (p :: l) <-> f p = Some c \/ c ∈ omap f l.
Proof. cbn. destruct (f p); [rewrite elem_of_cons|]; naive_solver. Qed.

(** The invariant is about the threads as a multiset. *)
Definition inv_of (e : engine) (l : list pc) : Prop := inv (with_threads e l).

Lemma inv_perm (e : engine) (l k : list pc) : l ≡ₚ k -> inv_of e l -> inv_of e k.
Proof.
  intros Hp [H1 H2 H3 H4 H5 H6 H7 H8 H9 H10].
  constructor; cbn [with_threads threads calls_in_flight allocated live_calls fault finalizer_alive
    destroyed handle cancelled] in *; rewrite <- ?Hp; try done.
  - intros c. by rewrite H3, Hp.
  - intros c. by rewrite H4, Hp.
Qed.

Lemma inv_threads (e : engine) : inv e <-> inv_of e (threads e).
Proof. unfold inv_of. by destruct e. Qed.

(** The invariant with one thread told apart from the rest. *)
Record inv1 (e : engine) (p : pc) (rest : list pc) : Prop := {
  one_count : calls_in_flight e = Nat.b2n (holds p) + count holds rest;
  one_calls : NoDup (option_list (call_of p) ++ omap call_of rest);
  one_allocated : forall c, c ∈ allocated e <-> call_of p = Some c \/ c ∈ omap call_of rest;
  one_live : forall c, c ∈ live_calls e <-> live_of p = Some c \/ c ∈ omap live_of rest;
  one_fault : fault e = false;
  one_final : finalizer_alive e = negb (destroyed e);
  one_closer : Nat.b2n (closes p) + count closes rest + Nat.b2n (destroyed e)
               = Nat.b2n (negb (handle e));
  one_destroyed : destroyed e = true \/ p = Destroying \/ Destroying ∈ rest -> calls_in_flight e = 0;
  one_waiting : p = Waiting \/ Waiting ∈ rest -> 0 < calls_in_flight e;
  one_cancelled : handle e = false -> live_calls e ⊆ cancelled e;
}.

Lemma elem_cons_sym (x p : pc) (rest : list pc) : x ∈ p :: rest <-> p = x \/ x ∈ rest.
Proof. rewrite elem_of_cons. naive_solver. Qed.

Lemma inv1_spec (e : engine) (p : pc) (rest : list pc) : inv_of e (p :: rest) <-> inv1 e p rest.
Proof.
  unfold inv_of. split.
  - intros [H1 H2 H3 H4 H5 H6 H7 H8 H9 H10].
    cbn [with_threads threads calls_in_flight allocated live_calls fault finalizer_alive
      destroyed handle cancelled] in *.
    rewrite count_cons in H1, H7. rewrite elem_cons_sym in H8, H9.
    constructor; try done.
    + revert H2. cbn. by destruct (call_of p).
    + intros c. by rewrite H3, omap_cons_in.
    + intros c. by rewrite H4, omap_cons_in.
  - intros [H1 H2 H3 H4 H5 H6 H7 H8 H9 H10].
    constructor; cbn [with_threads threads calls_in_flight allocated live_calls fault finalizer_alive
      destroyed handle cancelled]; rewrite ?count_cons, ?elem_cons_sym; try done.
    + revert H2. cbn. by destruct (call_of p).
    + intros c. by rewrite H3, omap_cons_in.
    + intros c. by rewrite H4, omap_cons_in.
Qed.

(** A move keeps the invariant when it does for the thread told apart. *)
Lemma inv_move (e e' : engine) (i : nat) (p q : pc) :
  inv e -> threads e !! i = Some p -> threads e' = threads e ->
  (forall rest, inv1 e p rest -> inv1 e' q rest) -> inv (move i q e').
Proof.
  intros I Hi Ht H. destruct (insert_split _ _ _ q Hi) as (rest & H1 & H2).
  unfold move. rewrite Ht. change (inv_of e' (<[i:=q]> (threads e))).
  apply (inv_perm _ (q :: rest)); [by symmetry|]. apply inv1_spec, H, inv1_spec.
  apply (inv_perm _ (threads e)); [done|]. by apply (proj1 (inv_threads e)).
Qed.

Lemma wake_count (l : list pc) :
  count holds (wake <$> l) = count holds l /\ count closes (wake <$> l) = count closes l
  /\ omap call_of (wake <$> l) = omap call_of l /\ omap live_of (wake <$> l) = omap live_of l
  /\ (Destroying ∈ wake <$> l -> Destroying ∈ l) /\ (Waiting ∉ wake <$> l).
Proof.
  induction l as [|p l (H1 & H2 & H3 & H4 & H5 & H6)]; [cbn; split_and!; try done; apply not_elem_of_nil|].
  rewrite fmap_cons, !count_cons, H1, H2, !elem_of_cons.
  cbn [omap list_omap]. change (list_omap pc nat) with (@omap list _ pc nat). rewrite H3, H4.
  destruct p; cbn; split_and!; try done; naive_solver.
Qed.

(** The fields of the invariant a step leaves to the one before it. *)
Ltac one :=
  constructor; cbn [with_threads with_handle with_live with_count with_library threads
    calls_in_flight allocated live_calls fault finalizer_alive destroyed handle cancelled holds closes
    call_of live_of option_list app Nat.b2n negb wake use_engine native_start native_cancel
    native_cancel_all native_free native_destroy] in *;
  repeat match goal with H : handle ?e = _ |- context [handle ?e] => rewrite H end;
  try done; try lia;
  try match goal with
  | H : destroyed _ = true \/ _ -> _ = 0 |- destroyed _ = true \/ _ -> _ = 0 =>
      let Hd := fresh in
      intros Hd; apply H; destruct Hd as [?|[?|?]]; [by left|done|by right; right]
  | H : _ = Waiting \/ _ -> 0 < _ |- _ = Waiting \/ _ -> 0 < _ =>
      let Hd := fresh in intros Hd; apply H; destruct Hd as [?|?]; [done|by right]
  end.

Lemma some_inj_iff (c d : nat) : Some c = Some d <-> d = c.
Proof. split; [by intros [= ->]|by intros ->]. Qed.

Lemma step_claim (use : native_use) (e e' : engine) (i : nat) :
  inv e -> threads e !! i = Some Ready -> claim use i e = inl e' -> inv e'.
Proof.
  intros I Hi. unfold claim. destruct (handle e) eqn:Eh; [|done]. intros [= <-].
  apply (inv_move e _ i Ready); [done|done|done|]. intros rest [H1 H2 H3 H4 H5 H6 H7 H8 H9 H10].
  rewrite Eh in *. clear H8 H10. one.
  intros Hd. exfalso. destruct (destroyed e); cbn [Nat.b2n] in H7; [lia|].
  destruct Hd as [?|[?|Hd]]; try done. pose proof (count_pos closes _ _ Hd eq_refl). lia.
Qed.

Lemma step_register (e : engine) (i c : nat) :
  inv e -> threads e !! i = Some (Started c) -> inv (register i c e).
Proof.
  intros I Hi. unfold register. cbn [with_live handle].
  apply (inv_move e _ i (Started c)); [done|done|by destruct (handle e)|].
  intros rest [H1 H2 H3 H4 H5 H6 H7 H8 H9 H10].
  assert (c ∈ allocated e) as Hc by (apply H3; by left).
  assert (forall d, d ∈ {[c]} ∪ live_calls e <-> Some c = Some d \/ d ∈ omap live_of rest) as Hl.
  { intros d. rewrite elem_of_union, elem_of_singleton, H4, some_inj_iff. cbn. naive_solver. }
  destruct (handle e) eqn:Eh; one.
  - by rewrite bool_decide_eq_true_2, H5.
  - intros _. specialize (H10 eq_refl). set_solver.
Qed.

Lemma step_discard (e : engine) (i c : nat) :
  inv e -> threads e !! i = Some (Running c) -> inv (discard i c e).
Proof.
  intros I Hi. apply (inv_move e _ i (Running c)); [done|done|done|].
  intros rest [H1 H2 H3 H4 H5 H6 H7 H8 H9 H10]. one.
  - assert (c ∉ omap live_of rest) as Hc.
    { cbn in H2. apply NoDup_cons in H2 as [H2 _]. intros Hin. apply H2.
      apply list_elem_of_omap in Hin as (p & Hp & E). apply list_elem_of_omap. exists p.
      split; [done|]. by destruct p. }
    intros d. rewrite elem_of_difference, elem_of_singleton, H4, some_inj_iff. cbn.
    split; [tauto|]. intros [?|Hd]; [done|]. split; [by right|]. by intros ->.
  - intros Hh. specialize (H10 Hh). set_solver.
Qed.

Lemma holds_not_destroyed (e : engine) (p : pc) (rest : list pc) :
  inv1 e p rest -> holds p = true -> destroyed e = false.
Proof.
  intros I Hp. pose proof (one_count _ _ _ I). pose proof (one_destroyed _ _ _ I) as Hd.
  rewrite Hp in *. cbn [Nat.b2n] in *. destruct (destroyed e); [|done].
  rewrite Hd in * by (by left). lia.
Qed.

Lemma step_free (e : engine) (i c : nat) :
  inv e -> threads e !! i = Some (Discarded c) -> inv (move i Releasing (native_free c e)).
Proof.
  intros I Hi. apply (inv_move e _ i (Discarded c)); [done|done|done|].
  intros rest I1. pose proof (holds_not_destroyed _ _ _ I1 eq_refl) as Hnd.
  destruct I1 as [H1 H2 H3 H4 H5 H6 H7 H8 H9 H10].
  cbn [call_of option_list app] in H2. apply NoDup_cons in H2 as [H2 H2'].
  assert (c ∈ allocated e) as Hc by (apply H3; by left). one.
  - intros d. rewrite elem_of_difference, elem_of_singleton, H3, some_inj_iff. cbn.
    split; [tauto|]. intros [?|Hd]; [done|]. split; [by right|]. by intros ->.
  - by rewrite bool_decide_eq_true_2, H5, Hnd.
Qed.

Lemma step_native_start (e : engine) (i c : nat) :
  inv e -> threads e !! i = Some (Claimed StartCall) -> c ∉ allocated e ->
  inv (move i (Started c) (native_start c e)).
Proof.
  intros I Hi Hc. apply (inv_move e _ i (Claimed StartCall)); [done|done|done|].
  intros rest I1. pose proof (holds_not_destroyed _ _ _ I1 eq_refl) as Hnd.
  destruct I1 as [H1 H2 H3 H4 H5 H6 H7 H8 H9 H10].
  assert (c ∉ omap call_of rest) as Hn by (intros Hin; apply Hc, H3; by right).
  assert (c ∉ live_calls e) as Hl.
  { rewrite H4. intros [?|Hin]; [done|]. apply Hn.
    apply list_elem_of_omap in Hin as (p & Hp & E). apply list_elem_of_omap. exists p.
    split; [done|]. by destruct p. }
  one.
  - by constructor.
  - intros d. rewrite elem_of_union, elem_of_singleton, H3, some_inj_iff. cbn. naive_solver.
  - by rewrite H5, Hnd.
  - intros Hh. specialize (H10 Hh). set_solver.
Qed.

Lemma step_use (e : engine) (i : nat) (u : native_use) :
  inv e -> threads e !! i = Some (Claimed u) -> inv (move i Releasing (use_engine e)).
Proof.
  intros I Hi. apply (inv_move e _ i (Claimed u)); [done|done|done|].
  intros rest I1. pose proof (holds_not_destroyed _ _ _ I1 eq_refl) as Hnd.
  destruct I1 as [H1 H2 H3 H4 H5 H6 H7 H8 H9 H10]. one. by rewrite H5, Hnd.
Qed.

Lemma step_release (e : engine) (i : nat) :
  inv e -> threads e !! i = Some Releasing -> inv (release i e).
Proof.
  intros I Hi. destruct (insert_split _ _ _ Ready Hi) as (rest & P1 & P2).
  assert (inv1 e Releasing rest) as I1.
  { apply inv1_spec, (inv_perm _ (threads e)); [done|]. by apply (proj1 (inv_threads e)). }
  unfold release. cbn [with_count threads].
  change (inv_of (with_count e (calls_in_flight e - 1)) (wake <$> <[i:=Ready]> (threads e))).
  apply (inv_perm _ (Ready :: (wake <$> rest))); [by rewrite P2|]. apply inv1_spec.
  pose proof (holds_not_destroyed _ _ _ I1 eq_refl) as Hnd.
  destruct I1 as [H1 H2 H3 H4 H5 H6 H7 H8 H9 H10].
  destruct (wake_count rest) as (W1 & W2 & W3 & W4 & W5 & W6).
  one; rewrite ?W1, ?W2, ?W3, ?W4; try done; try lia.
  - intros [?|[?|Hd]]; [congruence|done|]. apply W5 in Hd. exfalso.
    assert (calls_in_flight e = 0) by (apply H8; by right; right). lia.
  - by intros [?|?].
Qed.

Lemma step_close_test (e : engine) (i : nat) :
  inv e -> threads e !! i = Some Closing -> inv (close_test i e).
Proof.
  intros I Hi. apply (inv_move e _ i Closing); [done|done|done|].
  intros rest [H1 H2 H3 H4 H5 H6 H7 H8 H9 H10].
  destruct (Nat.eqb_spec (calls_in_flight e) 0) as [E|E]; one.
Qed.

Lemma step_take_handle (e : engine) (i : nat) :
  inv e -> threads e !! i = Some Ready -> handle e = true -> inv (take_handle i e).
Proof.
  intros I Hi Eh. unfold take_handle.
  apply (inv_move e _ i Ready); [done|done|done|].
  intros rest [H1 H2 H3 H4 H5 H6 H7 H8 H9 H10]. rewrite Eh in *.
  assert (live_calls e ⊆ allocated e) as Hsub.
  { intros c Hc. apply H4 in Hc as [?|Hin]; [done|]. apply H3. right.
    apply list_elem_of_omap in Hin as (p & Hp & E). apply list_elem_of_omap. exists p.
    split; [done|]. by destruct p. }
  one.
  - by rewrite bool_decide_eq_true_2, H5.
  - intros _. apply union_subseteq_l.
Qed.

Lemma step_begin_close (e : engine) (i : nat) :
  inv e -> threads e !! i = Some Ready -> inv (begin_close i e).
Proof.
  intros I Hi. unfold begin_close. destruct (handle e) eqn:Eh; [|done].
  apply step_close_test; [by apply step_take_handle|].
  cbn. apply list_lookup_insert_eq. by apply lookup_lt_Some in Hi.
Qed.

Lemma step_cancel (e : engine) (i c : nat) :
  inv e -> threads e !! i = Some (Running c) -> inv (native_cancel c e).
Proof.
  intros I Hi. destruct (insert_split _ _ _ (Running c) Hi) as (rest & P1 & _).
  apply (proj2 (inv_threads _)). cbn [native_cancel with_library threads].
  apply (inv_perm _ (Running c :: rest)); [by symmetry|]. apply inv1_spec.
  assert (inv1 e (Running c) rest) as [H1 H2 H3 H4 H5 H6 H7 H8 H9 H10].
  { apply inv1_spec, (inv_perm _ (threads e)); [done|]. by apply (proj1 (inv_threads e)). }
  assert (c ∈ allocated e) as Hc by (apply H3; by left). one.
  - by rewrite bool_decide_eq_true_2, H5.
  - intros Hh. specialize (H10 Hh). set_solver.
Qed.

Lemma step_finalize (e : engine) (i : nat) :
  inv e -> threads e !! i = Some Destroying -> inv (finalize i e).
Proof.
  intros I Hi. unfold finalize. apply (inv_move e _ i Destroying); [done|done|by destruct (finalizer_alive e)|].
  intros rest [H1 H2 H3 H4 H5 H6 H7 H8 H9 H10].
  assert (destroyed e = false /\ count closes rest = 0) as [Hnd Hcl].
  { cbn [closes Nat.b2n] in H7. destruct (destroyed e), (handle e); cbn [Nat.b2n negb] in H7;
      split; done || lia. }
  assert (calls_in_flight e = 0) as Hz by (apply H8; by right; left).
  rewrite H6, Hnd. cbn [negb]. one.
  - by rewrite H5, Hnd.
  - rewrite Hnd in H7. cbn [Nat.b2n] in H7. lia.
Qed.

Lemma engine_inv_step (i : nat) (ch : choice) (e e' : engine) :
  inv e -> step i ch e = Some e' -> inv e'.
Proof.
  intros I. unfold step. destruct (threads e !! i) as [p|] eqn:Hi; [|done].
  destruct p as [|u|c|c|c| | | |], ch as [| | | |o|]; try done; try (destruct u; done).
  - destruct (claim StartCall i e) eqn:Ec; intros [= <-]; [by eapply step_claim|done].
  - destruct (claim NetLog i e) eqn:Ec; intros [= <-]; [by eapply step_claim|done].
  - intros [= <-]. by apply step_begin_close.
  - destruct u; [|done]. destruct o as [c|].
    + case_bool_decide; [done|]. intros [= <-]. by apply step_native_start.
    + intros [= <-]. by eapply step_use.
  - destruct u; [done|]. intros [= <-]. by eapply step_use.
  - intros [= <-]. by apply step_register.
  - intros [= <-]. by eapply step_cancel.
  - intros [= <-]. by apply step_discard.
  - intros [= <-]. by apply step_free.
  - intros [= <-]. by apply step_release.
  - intros [= <-]. by apply step_close_test.
  - intros [= <-]. by apply step_finalize.
Qed.

Lemma inv_open (n : nat) : inv (open_engine n).
Proof.
  assert (forall p, p ∈ replicate n Ready -> p = Ready) as Hr by (intros p Hp; apply elem_of_replicate in Hp; tauto).
  assert (forall f : pc -> bool, f Ready = false -> count f (replicate n Ready) = 0) as Hc.
  { intros f Hf. unfold count. rewrite keep_none; [done|]. apply Forall_forall.
    intros p Hp. by rewrite (Hr p Hp). }
  assert (forall f : pc -> option nat, f Ready = None -> omap f (replicate n Ready) = []) as Ho.
  { intros f Hf. clear Hr Hc. induction n as [|n IH]; cbn; [done|]. by rewrite Hf. }
  constructor; unfold open_engine; cbn [threads calls_in_flight allocated live_calls fault
    finalizer_alive destroyed handle cancelled]; rewrite ?Hc, ?Ho by done; try done.
  - constructor.
  - intros c. by rewrite elem_of_empty, elem_of_nil.
  - intros c. by rewrite elem_of_empty, elem_of_nil.
  - intros Hw. by apply Hr in Hw.
Qed.

Lemma engine_inv_run (schedule : list (nat * choice)) (e e' : engine) :
  inv e -> run schedule e = Some e' -> inv e'.
Proof.
  revert e. induction schedule as [|[i ch] s IH]; cbn; intros e I H; [by simplify_eq|].
  destruct (step i ch e) as [e1|] eqn:Es; [|done]. apply (IH e1); [by eapply engine_inv_step|done].
Qed.

Lemma engine_inv_reachable (n : nat) (e : engine) : reachable n e -> inv e.
Proof. intros [s H]. eapply engine_inv_run; [apply inv_open|exact H]. Qed.

(** ** What closing promises *)

Lemma holders_none (l : list pc) (p : pc) : count holds l = 0 -> p ∈ l -> holds p = false.
Proof.
  intros H Hin. destruct (holds p) eqn:E; [|done]. pose proof (count_pos holds _ _ Hin E). lia.
Qed.

Lemma call_of_holds (p : pc) (c : nat) : call_of p = Some c -> holds p = true.
Proof. by destruct p. Qed.

Lemma idle_no_calls (e : engine) : inv e -> calls_in_flight e = 0 -> allocated e = ∅.
Proof.
  intros I H. apply set_eq. intros c. rewrite (inv_allocated _ I), elem_of_empty.
  split; [|done]. intros Hin. apply list_elem_of_omap in Hin as (p & Hp & E).
  rewrite (inv_count _ I) in H. pose proof (holders_none _ _ H Hp).
  apply call_of_holds in E. congruence.
Qed.

Lemma live_allocated (e : engine) : inv e -> live_calls e ⊆ allocated e.
Proof.
  intros I c Hc. apply (inv_live _ I) in Hc. apply (inv_allocated _ I).
  apply list_elem_of_omap in Hc as (p & Hp & E). apply list_elem_of_omap. exists p.
  split; [done|]. by destruct p.
Qed.

(** C1: However many threads start, cancel and free calls, write net logs and
    close the session at once, in whatever order their steps fall, the engine
    and its calls are never used after being freed, and the engine is
    destroyed only when every call has been freed and nobody is inside the
    library. *)
Theorem engine_safe (n : nat) (e : engine) :
  reachable n e ->
  fault e = false
  /\ (destroyed e = true -> calls_in_flight e = 0 /\ allocated e = ∅ /\ live_calls e = ∅)
  /\ live_calls e ⊆ allocated e
  /\ calls_in_flight e = count holds (threads e)
  /\ count closes (threads e) <= 1.
Proof.
  intros R. pose proof (engine_inv_reachable _ _ R) as I. split_and!.
  - apply (inv_fault _ I).
  - intros Hd. assert (calls_in_flight e = 0) as Hz by (apply (inv_destroyed _ I); by left).
    pose proof (idle_no_calls e I Hz) as Ha. pose proof (live_allocated e I). split_and!; set_solver.
  - by apply live_allocated.
  - apply (inv_count _ I).
  - pose proof (inv_closer _ I) as H. destruct (negb (handle e)), (destroyed e); cbn in H; lia.
Qed.

(** [close] never sleeps through its wakeup: while it waits there is a
    thread inside the library whose [_release] will notify it. *)
Theorem close_never_forgotten (n : nat) (e : engine) :
  reachable n e -> Waiting ∈ threads e ->
  exists i p, threads e !! i = Some p /\ holds p = true.
Proof.
  intros R Hw. pose proof (engine_inv_reachable _ _ R) as I.
  pose proof (inv_waiting _ I Hw) as Hpos. rewrite (inv_count _ I) in Hpos. unfold count in Hpos.
  destruct (keep holds (threads e)) as [|p l] eqn:E; [cbn in Hpos; lia|].
  assert (p ∈ keep holds (threads e)) as Hp by (rewrite E; by left).
  apply elem_of_keep in Hp as [Hh Hp]. apply list_elem_of_lookup in Hp as [i Hi]. by exists i, p.
Qed.

Lemma handle_gone (i : nat) (ch : choice) (e e' : engine) :
  step i ch e = Some e' -> handle e = false -> handle e' = false.
Proof.
  unfold step, claim, begin_close. intros H Hh. rewrite Hh in H.
  destruct (threads e !! i) as [p|]; [|done].
  destruct p as [|[]| | | | | | |], ch as [| | | |[]|]; try done;
    repeat (case_bool_decide; try done); injection H as <-; try done.
  - unfold register. cbn. by rewrite Hh.
  - unfold finalize. by destruct (finalizer_alive e).
Qed.

(** Once [close] has taken the handle, for good: no thread can claim the
    engine, by starting a call or a net log, and every call still registered
    has been cancelled, the ones that were starting included. *)
Theorem closed_means_cancelled (n : nat) (e : engine) :
  reachable n e -> handle e = false ->
  live_calls e ⊆ cancelled e
  /\ (forall use i, claim use i e = inr SessionClosed)
  /\ (forall i ch e', step i ch e = Some e' -> handle e' = false).
Proof.
  intros R Hh. pose proof (engine_inv_reachable _ _ R) as I. split_and!.
  - by apply (inv_cancelled _ I).
  - intros use i. unfold claim. by rewrite Hh.
  - intros i ch e' H. by eapply handle_gone.
Qed.

(** *** Closing ends *)

(** The steps a thread owes once it is inside, as opposed to new requests. *)
Definition owed (ch : choice) : bool := match ch with Answer _ | Go => true | _ => false end.

(** How many of them a thread has left, at most; [_release] may give the
    closer one more. *)
Definition left_of (p : pc) : nat :=
  match p with
  | Ready => 0 | Claimed _ => 7 | Started _ => 6 | Running _ => 5 | Discarded _ => 4
  | Releasing => 3 | Closing => 2 | Waiting => 1 | Destroying => 1
  end.

Definition left (e : engine) : nat := sum_list_with left_of (threads e).

Lemma left_insert (l : list pc) (i : nat) (p q : pc) :
  l !! i = Some p -> sum_list_with left_of (<[i := q]> l) + left_of p = sum_list_with left_of l + left_of q.
Proof.
  revert i. induction l as [|x l IH]; intros [|i] H; cbn in *; try done.
  - injection H as ->. lia.
  - specialize (IH i H). unfold insert in *. lia.
Qed.

Lemma left_wake (l : list pc) :
  sum_list_with left_of (wake <$> l) <= sum_list_with left_of l + count closes l.
Proof.
  induction l as [|p l IH]; [done|]. rewrite fmap_cons, count_cons. cbn.
  destruct p; cbn [wake left_of closes Nat.b2n]; lia.
Qed.

Lemma left_move (e e' : engine) (i : nat) (p q : pc) :
  threads e !! i = Some p -> threads e' = threads e -> left_of q < left_of p ->
  left (move i q e') < left e.
Proof.
  intros Hi Ht Hlt. unfold left, move. cbn [with_threads threads]. rewrite Ht.
  pose proof (left_insert _ _ _ q Hi). lia.
Qed.

Lemma left_release (e : engine) (i : nat) :
  inv e -> threads e !! i = Some Releasing -> left (release i e) < left e.
Proof.
  intros I Hi. unfold left, release. cbn [with_threads with_count threads].
  pose proof (left_wake (<[i:=Ready]> (threads e))). pose proof (left_insert _ _ _ Ready Hi).
  destruct (insert_split _ _ _ Ready Hi) as (rest & P1 & P2).
  pose proof (inv_closer _ I) as Hc. rewrite P1, count_cons in Hc.
  rewrite P2, count_cons in *. cbn [closes left_of Nat.b2n] in *.
  destruct (negb (handle e)), (destroyed e); cbn [Nat.b2n] in Hc; lia.
Qed.

Lemma owed_decreases (i : nat) (ch : choice) (e e' : engine) :
  inv e -> owed ch = true -> step i ch e = Some e' -> left e' < left e.
Proof.
  intros I Ho. unfold step. destruct (threads e !! i) as [p|] eqn:Hi; [|done].
  destruct p as [|[]|c|c|c| | | |], ch as [| | | |[c'|]|]; try done; intros H;
    repeat (case_bool_decide; try done); simplify_eq.
  all: try (by eapply left_move; [exact Hi|reflexivity|cbn; lia]).
  - unfold register. eapply left_move; [exact Hi|by cbn; destruct (handle e)|cbn; lia].
  - by apply left_release.
  - unfold close_test. eapply left_move; [exact Hi|done|]. destruct (_ =? _); cbn; lia.
  - unfold finalize. eapply left_move; [exact Hi|by destruct (finalizer_alive e)|cbn; lia].
Qed.

Lemma owed_bounded (schedule : list (nat * choice)) (e e' : engine) :
  inv e -> Forall (fun s => owed s.2 = true) schedule -> run schedule e = Some e' ->
  length schedule <= left e.
Proof.
  revert e. induction schedule as [|[i ch] s IH]; cbn; intros e I Ho H; [lia|].
  apply Forall_cons in Ho as [Ho Hs]. destruct (step i ch e) as [e1|] eqn:Es; [|done].
  pose proof (owed_decreases _ _ _ _ I Ho Es). pose proof (IH e1 (engine_inv_step _ _ _ _ I Es) Hs H). lia.
Qed.

(** A thread inside the engine always has a step of its own to take. *)
Lemma holder_steps (e : engine) (i : nat) (p : pc) :
  threads e !! i = Some p -> holds p || (closes p && negb (bool_decide (p = Waiting))) = true ->
  exists ch e', owed ch = true /\ step i ch e = Some e'.
Proof.
  intros Hi Hp. unfold step. rewrite Hi.
  destruct p as [|[]|c|c|c| | | |]; try done;
    first [by exists (Answer None); eexists|by exists Go; eexists].
Qed.

Lemma run_closed (schedule : list (nat * choice)) (e e' : engine) :
  run schedule e = Some e' -> handle e = false -> handle e' = false.
Proof.
  revert e. induction schedule as [|[i ch] s IH]; cbn; intros e H Hh; [by simplify_eq|].
  destruct (step i ch e) as [e1|] eqn:Es; [|done]. apply (IH e1); [done|by eapply handle_gone].
Qed.

(** Until the engine is destroyed somebody inside it has a step to take. *)
Lemma someone_inside (e : engine) :
  inv e -> handle e = false -> destroyed e = false ->
  exists i p, threads e !! i = Some p /\ holds p || (closes p && negb (bool_decide (p = Waiting))) = true.
Proof.
  intros I Hh Ed. pose proof (inv_closer _ I) as Hc. rewrite Hh, Ed in Hc. cbn [negb Nat.b2n] in Hc.
  unfold count in Hc. destruct (keep closes (threads e)) as [|p l] eqn:E; [cbn in Hc; lia|].
  assert (p ∈ keep closes (threads e)) as Hp by (rewrite E; by left).
  apply elem_of_keep in Hp as [Hcl Hp]. destruct (decide (p = Waiting)) as [->|Hw].
  - pose proof (inv_waiting _ I Hp) as Hpos. rewrite (inv_count _ I) in Hpos. unfold count in Hpos.
    destruct (keep holds (threads e)) as [|q k] eqn:Eq; [cbn in Hpos; lia|].
    assert (q ∈ keep holds (threads e)) as Hq by (rewrite Eq; by left).
    apply elem_of_keep in Hq as [Hhq Hq]. apply list_elem_of_lookup in Hq as [i Hi]. exists i, q. by rewrite Hhq.
  - apply list_elem_of_lookup in Hp as [i Hi]. exists i, p. by rewrite Hcl, bool_decide_eq_false_2, orb_true_r.
Qed.

Lemma stuck_destroyed (e : engine) :
  inv e -> handle e = false ->
  (forall i ch, owed ch = true -> step i ch e = None) -> destroyed e = true.
Proof.
  intros I Hh Hs. destruct (destroyed e) eqn:Ed; [done|exfalso].
  destruct (someone_inside e I Hh Ed) as (i & p & Hi & Hp).
  destruct (holder_steps _ _ _ Hi Hp) as (ch & e' & Ho & Hst). by rewrite (Hs _ _ Ho) in Hst.
Qed.

(** [close] ends. Once it has taken the handle, whatever the scheduler
    does, the threads inside have only so many steps left to take, and when
    none is left the engine has been destroyed. *)
Theorem close_completes (n : nat) (e e' : engine) (schedule : list (nat * choice)) :
  reachable n e -> handle e = false ->
  Forall (fun s => owed s.2 = true) schedule -> run schedule e = Some e' ->
  length schedule <= left e
  /\ ((forall i ch, owed ch = true -> step i ch e' = None) -> destroyed e' = true).
Proof.
  intros R Hh Ho H. pose proof (engine_inv_reachable _ _ R) as I.
  split; [by eapply owed_bounded|]. intros Hs.
  apply stuck_destroyed; [by eapply engine_inv_run|by eapply run_closed|done].
Qed.

(** ** The finalizer of an engine that is never closed *)

(** [weakref.finalize(self, cronet_engine_destroy, handle)]: run by the garbage
    collector once nothing refers to the engine, or when the interpreter exits. *)
Definition finalizer_runs (e : engine) : engine :=
  if finalizer_alive e then
    let e := native_destroy e in
    mkEngine (handle e) (live_calls e) (calls_in_flight e) false (threads e)
      (destroyed e) (allocated e) (cancelled e) (fault e)
  else e.

(** The collector runs it when no thread is in a method of the engine or of a
    call it will go on with: at most some calls were dropped unclosed, and they
    are leaked with the engine's bookkeeping. *)
Lemma dropped_engine (n : nat) (e : engine) :
  reachable n e -> handle e = true ->
  (forall p, p ∈ threads e -> p = Ready \/ exists c, p = Running c) ->
  let e' := finalizer_runs e in
  fault e' = false /\ destroyed e' = true /\ allocated e' = allocated e /\ allocated e = live_calls e.
Proof.
  intros R Hh Hp. pose proof (engine_inv_reachable _ _ R) as I. pose proof (inv_closer _ I) as Hc.
  rewrite Hh in Hc. cbn in Hc. unfold finalizer_runs. rewrite (inv_final _ I).
  destruct (destroyed e) eqn:Ed; cbn in Hc; [lia|]. cbn. rewrite (inv_fault _ I), Ed. split_and!; try done.
  apply set_eq. intros c. rewrite (inv_allocated _ I), (inv_live _ I), !list_elem_of_omap.
  split; intros (p & Hin & E); exists p; (split; [done|]); by destruct (Hp p Hin) as [->|[d ->]].
Qed.

(** At exit it runs whatever a daemon thread is doing: one that is starting a
    call then hands the library an engine that has been freed. *)
Lemma exit_while_starting :
  exists e e', reachable 1 e /\ fault e = false
    /\ step 0 (Answer (Some 0)) (finalizer_runs e) = Some e' /\ fault e' = true.
Proof.
  do 2 eexists. split; [exists [(0, CallStart)]; vm_compute; reflexivity|].
  split_and!; [reflexivity|vm_compute; reflexivity|vm_compute; reflexivity].
Qed.

(** ** At concrete schedules *)

(** One thread starts a call, another closes while it is starting. *)
Definition race : list (nat * choice) :=
  [(0, CallStart); (1, CallClose); (0, Answer (Some 7)); (0, Go)].

Definition race_end : list (nat * choice) := [(0, Go); (0, Go); (0, Go); (1, Go); (1, Go)].

Definition after (s : list (nat * choice)) : engine :=
  match run s (open_engine 2) with Some e => e | None => open_engine 2 end.

Lemma engine_safe_witness :
  reachable 2 (after (race ++ race_end)) /\ destroyed (after (race ++ race_end)) = true
  /\ allocated (after (race ++ race_end)) = ∅.
Proof.
  assert (reachable 2 (after (race ++ race_end))) as R by (exists (race ++ race_end); vm_compute; reflexivity).
  split_and!; [exact R|vm_compute; reflexivity|].
  exact (proj1 (proj2 (proj1 (proj2 (engine_safe _ _ R)) eq_refl))).
Defined.

Lemma close_never_forgotten_witness :
  exists i p, threads (after race) !! i = Some p /\ holds p = true.
Proof.
  apply (close_never_forgotten 2); [exists race; vm_compute; reflexivity|].
  right. left.
Defined.

Lemma closed_means_cancelled_witness :
  live_calls (after race) = {[7]} /\ 7 ∈ cancelled (after race).
Proof.
  assert (reachable 2 (after race)) as R by (exists race; vm_compute; reflexivity).
  assert (handle (after race) = false) as Hh by (vm_compute; reflexivity).
  split; [vm_compute; reflexivity|].
  apply (proj1 (closed_means_cancelled 2 (after race) R Hh)).
  vm_compute. reflexivity.
Defined.

Lemma close_completes_witness :
  length race_end <= left (after race) /\ destroyed (after (race ++ race_end)) = true.
Proof.
  destruct (close_completes 2 (after race) (after (race ++ race_end)) race_end) as [H1 H2].
  - exists race. vm_compute. reflexivity.
  - reflexivity.
  - repeat constructor.
  - vm_compute. reflexivity.
  - split; [exact H1|]. apply H2. intros i ch Ho.
    destruct i as [|[|i]], ch as [| | | |o|]; try discriminate; reflexivity.
Defined.
