(* ===== verification/Teardown.v ===== *)
(** * Teardown: letting go of requests and of the engine
    (native/call.cc, native/engine.cc, [cronet_call_free]).

    The owners of calls, the thread that destroys the engine and the network
    thread meet at three places: the request pointer of a call, under its
    [lock_]; the live calls of the engine, under its own; and the queue of
    tasks posted to the network thread, which runs them in order.  A step is
    what one thread does under one lock, one task, or what lies between two
    locks.  What can go wrong is using a request or an engine that has been
    deleted, and waiting for a call that nobody is tearing down. *)

From S2P Require Import Prelude PyText Types Errors Engine.

(** A task bound to a request, as [CronetURLRequest] posts it. *)
Inductive task_kind := TStart | TRead | TFollow | TDestroy.
Record task := mkTask { target : nat; kind : task_kind }.

(** How far [StartCall] is: registered; [AttachRequest] done; started. *)
Inductive phase := Registered | Attached | Started_.

#[export] Instance task_kind_eq_dec : EqDecision task_kind.
Proof. solve_decision. Defined.
#[export] Instance phase_eq_dec : EqDecision phase.
Proof. solve_decision. Defined.

(** One call: its progress, [destroy_requested_], and whether its request has
    been released and deleted. *)
Record request := mkRequest {
  rq_phase : phase;
  rq_destroy : bool;
  rq_gone : bool;
}.

Record system := mkSystem {
  requests : gmap nat request;
  handles : gset nat;               (* returned to their owners, not yet freed *)
  live : gset nat;                  (* [live_calls_] *)
  shutting_down : bool;
  context_gone : bool;
  queue : list task;
  releasing : option nat;           (* the call whose OnDestroyed has unregistered it *)
  misused : bool;                   (* something was used after it was deleted *)
}.

Definition system_init : system := mkSystem ∅ ∅ ∅ false false [] None false.

Definition set_request (c : nat) (r : request) (s : system) : system :=
  mkSystem (<[c := r]> (requests s)) (handles s) (live s) (shutting_down s) (context_gone s) (queue s)
    (releasing s) (misused s).
Definition enqueue (t : task) (s : system) : system :=
  mkSystem (requests s) (handles s) (live s) (shutting_down s) (context_gone s) (queue s ++ [t]) (releasing s)
    (misused s).
Definition misuse (b : bool) (s : system) : system :=
  mkSystem (requests s) (handles s) (live s) (shutting_down s) (context_gone s) (queue s) (releasing s)
    (misused s || b).

(** [request_] is set and no teardown has been asked for. *)
Definition reachable_request (r : request) : bool :=
  negb (rq_destroy r) && negb (bool_decide (rq_phase r = Registered)) && negb (rq_gone r).

(** ** What is posted under a call's lock *)

(** [DestroyRequest] *)
Definition destroy_request (c : nat) (s : system) : system :=
  match requests s !! c with
  | Some r => if reachable_request r
              then enqueue (mkTask c TDestroy) (set_request c (mkRequest (rq_phase r) true (rq_gone r)) s)
              else s
  | None => s
  end.

(** [ReadData] and [FollowRedirect] *)
Definition post (c : nat) (k : task_kind) (s : system) : system :=
  match requests s !! c with
  | Some r => if reachable_request r then enqueue (mkTask c k) s else s
  | None => s
  end.

(** ** The threads *)

(** What a handler of the observer does to its own request. *)
Inductive reaction := ReactRead | ReactFollow | ReactDestroy.

Definition react (c : nat) (s : system) (x : reaction) : system :=
  match x with
  | ReactRead => post c TRead s
  | ReactFollow => post c TFollow s
  | ReactDestroy => destroy_request c s
  end.

Inductive event :=
(* a thread in [StartCall] *)
| Register (c : nat)
| Attach (c : nat)
| CallStart (c : nat)
(* the owner of a call: [Cancel], [Read] below the low-water mark, and
   [cronet_call_free] once [WaitForRelease] has returned *)
| CancelCall (c : nat)
| ResumeRead (c : nat)
| FreeCall (c : nat)
(* [Engine::Destroy], up to its wait and after it *)
| BeginDestroy
| FinishDestroy
(* the network thread: the next task, and the end of [OnDestroyed] *)
| RunTask (reactions : list reaction)
| Release.

(** [RegisterCall], for a [CallState] that is new; it locks the engine, which
    must still be there. *)
Definition register_call (c : nat) (s : system) : option system :=
  if bool_decide (is_Some (requests s !! c)) then None
  else if context_gone s then Some (misuse true s)
  else if shutting_down s then Some s
  else Some (mkSystem (<[c := mkRequest Registered false false]> (requests s)) (handles s) ({[c]} ∪ live s)
               (shutting_down s) (context_gone s) (queue s) (releasing s) (misused s)).

Definition attach_request (c : nat) (s : system) : option system :=
  r ← requests s !! c;
  if bool_decide (rq_phase r = Registered)
  then Some (set_request c (mkRequest Attached (rq_destroy r) (rq_gone r)) s) else None.

(** [request->Start()], outside the lock, and the return of the handle. *)
Definition start_request (c : nat) (s : system) : option system :=
  r ← requests s !! c;
  if bool_decide (rq_phase r = Attached)
  then
    let s := misuse (rq_gone r) (set_request c (mkRequest Started_ (rq_destroy r) (rq_gone r)) s) in
    let s := enqueue (mkTask c TStart) s in
    Some (mkSystem (requests s) ({[c]} ∪ handles s) (live s) (shutting_down s) (context_gone s) (queue s)
            (releasing s) (misused s))
  else None.

Definition free_call (c : nat) (s : system) : option system :=
  r ← requests s !! c;
  if bool_decide (c ∈ handles s) && rq_gone r
  then Some (mkSystem (requests s) (handles s ∖ {[c]}) (live s) (shutting_down s) (context_gone s) (queue s)
               (releasing s) (misused s))
  else None.

Definition begin_destroy (s : system) : option system :=
  if shutting_down s then None
  else
    let s := mkSystem (requests s) (handles s) (live s) true (context_gone s) (queue s) (releasing s) (misused s) in
    Some (foldr destroy_request s (elements (live s))).

Definition finish_destroy (s : system) : option system :=
  if shutting_down s && negb (context_gone s) && bool_decide (live s = ∅)
  then Some (mkSystem (requests s) (handles s) (live s) (shutting_down s) true (queue s) (releasing s) (misused s))
  else None.

(** The next task.  Destroy runs [OnDestroyed] up to [UnregisterCall], which
    needs the engine; the others run a handler of the observer. *)
Definition run_task (reactions : list reaction) (s : system) : option system :=
  match releasing s, queue s with
  | None, mkTask c k :: q =>
      r ← requests s !! c;
      if decide (k = TDestroy) then
        Some (mkSystem (requests s) (handles s) (live s ∖ {[c]}) (shutting_down s) (context_gone s) q (Some c)
                (misused s || rq_gone r || context_gone s))
      else
        let s := mkSystem (requests s) (handles s) (live s) (shutting_down s) (context_gone s) q None
                   (misused s || rq_gone r) in
        Some (if rq_gone r then s else foldl (react c) s reactions)
  | _, _ => None
  end.

(** [OnReleased], and the deletion of the request. *)
Definition release_call (s : system) : option system :=
  c ← releasing s;
  r ← requests s !! c;
  Some (mkSystem (<[c := mkRequest (rq_phase r) (rq_destroy r) true]> (requests s)) (handles s) (live s)
          (shutting_down s) (context_gone s) (queue s) None (misused s)).

(** Whether no thread is inside [StartCall]. *)
Definition quiet (s : system) : bool :=
  bool_decide (map_Forall (fun _ r => rq_phase r = Started_) (requests s)).

Section step.
(** Whether a call may be in the middle of being started when the engine is
    destroyed, or be started once it is gone. *)
Context (overlap : bool).

Definition teardown_step (ev : event) (s : system) : option system :=
  match ev with
  | Register c => if overlap || negb (context_gone s) then register_call c s else None
  | Attach c => attach_request c s
  | CallStart c => start_request c s
  | CancelCall c => if bool_decide (c ∈ handles s) then Some (destroy_request c s) else None
  | ResumeRead c => if bool_decide (c ∈ handles s) then Some (post c TRead s) else None
  | FreeCall c => free_call c s
  | BeginDestroy => if overlap || quiet s then begin_destroy s else None
  | FinishDestroy => finish_destroy s
  | RunTask reactions => run_task reactions s
  | Release => release_call s
  end.

Fixpoint teardown_run (schedule : list event) (s : system) : option system :=
  match schedule with
  | [] => Some s
  | ev :: schedule => s ← teardown_step ev s; teardown_run schedule s
  end.
End step.

(** ** The invariant *)

(** The tasks posted to a call, in order. *)
Fixpoint tasks (c : nat) (q : list task) : list task_kind :=
  match q with
  | [] => []
  | t :: q => if decide (target t = c) then kind t :: tasks c q else tasks c q
  end.

Lemma tasks_app (c : nat) (q q' : list task) : tasks c (q ++ q') = tasks c q ++ tasks c q'.
Proof. induction q as [|t q IH]; cbn; [done|]. rewrite IH. by destruct (decide _). Qed.

(** A call between its registration and its end, by the tasks posted to it,
    whether it is live and whether it is being released. *)
Inductive call_ok : list task_kind -> bool -> bool -> request -> Prop :=
| ok_starting p : p <> Started_ -> call_ok [] true false (mkRequest p false false)
| ok_up ts : TDestroy ∉ ts -> call_ok ts true false (mkRequest Started_ false false)
| ok_ending ts : TDestroy ∉ ts -> call_ok (ts ++ [TDestroy]) true false (mkRequest Started_ true false)
| ok_leaving : call_ok [] false true (mkRequest Started_ true false)
| ok_gone : call_ok [] false false (mkRequest Started_ true true).

Definition is_live (c : nat) (s : system) : bool := bool_decide (c ∈ live s).
Definition is_releasing (c : nat) (s : system) : bool := bool_decide (releasing s = Some c).

Definition call_at (c : nat) (s : system) : option request * list task_kind * bool * bool :=
  (requests s !! c, tasks c (queue s), is_live c s, is_releasing c s).

Definition good_at (c : nat) (s : system) : Prop :=
  match requests s !! c with
  | Some r => call_ok (tasks c (queue s)) (is_live c s) (is_releasing c s) r
  | None => tasks c (queue s) = [] /\ is_live c s = false /\ is_releasing c s = false
  end.

Record teardown_inv (s : system) : Prop := {
  ti_calls : forall c, good_at c s;
  ti_handles : forall c, c ∈ handles s -> exists r, requests s !! c = Some r /\ rq_phase r = Started_;
  ti_shutting : shutting_down s = true -> map_Forall (fun _ r => rq_destroy r = true) (requests s);
  ti_context : context_gone s = true -> live s = ∅ /\ shutting_down s = true;
  ti_misused : misused s = false;
}.

Lemma good_same (c : nat) (s s' : system) : call_at c s' = call_at c s -> good_at c s -> good_at c s'.
Proof. unfold good_at. intros [= -> -> -> ->]. done. Qed.

Lemma call_at_elim (c c' : nat) (s s' : system) :
  (c' <> c -> requests s' !! c' = requests s !! c' /\ tasks c' (queue s') = tasks c' (queue s)
     /\ is_live c' s' = is_live c' s /\ is_releasing c' s' = is_releasing c' s) ->
  c' <> c -> call_at c' s' = call_at c' s.
Proof. intros H Hne. destruct (H Hne) as (H1 & H2 & H3 & H4). unfold call_at. by rewrite H1, H2, H3, H4. Qed.

(** A step about one call leaves the others as they were. *)
Lemma good_step (c : nat) (s s' : system) :
  (forall c', c' <> c -> requests s' !! c' = requests s !! c' /\ tasks c' (queue s') = tasks c' (queue s)
     /\ is_live c' s' = is_live c' s /\ is_releasing c' s' = is_releasing c' s) ->
  good_at c s' -> (forall c', good_at c' s) -> forall c', good_at c' s'.
Proof.
  intros H Hc Hs c'. destruct (decide (c' = c)) as [->|Hne]; [done|].
  apply (good_same c' s); [|done]. by eapply call_at_elim, Hne; intros; apply H.
Qed.

Lemma tasks_other (c c' : nat) (k : task_kind) (q : list task) :
  c' <> c -> tasks c' (q ++ [mkTask c k]) = tasks c' q.
Proof. intros H. rewrite tasks_app. cbn. destruct (decide (c = c')); [congruence|]. by rewrite app_nil_r. Qed.

Lemma tasks_same (c : nat) (k : task_kind) (q : list task) : tasks c (q ++ [mkTask c k]) = tasks c q ++ [k].
Proof. rewrite tasks_app. cbn. by destruct (decide (c = c)). Qed.

(** What posting leaves alone. *)
Record frame (s s' : system) : Prop := {
  fr_handles : handles s' = handles s;
  fr_live : live s' = live s;
  fr_shutting : shutting_down s' = shutting_down s;
  fr_context : context_gone s' = context_gone s;
  fr_releasing : releasing s' = releasing s;
  fr_misused : misused s' = misused s;
  fr_phase : forall c, rq_phase <$> requests s' !! c = rq_phase <$> requests s !! c;
  fr_gone : forall c, rq_gone <$> requests s' !! c = rq_gone <$> requests s !! c;
  fr_destroy : forall c, rq_destroy <$> requests s !! c = Some true -> rq_destroy <$> requests s' !! c = Some true;
}.

#[export] Instance frame_refl : Reflexive frame.
Proof. intros s. by constructor. Qed.
#[export] Instance frame_trans : Transitive frame.
Proof. intros s1 s2 s3 [] []. constructor; eauto; congruence. Qed.

Lemma destroy_request_frame (c : nat) (s : system) : frame s (destroy_request c s).
Proof.
  unfold destroy_request. destruct (requests s !! c) as [r|] eqn:E; [|done].
  destruct (reachable_request r); [|done]. constructor; try done; cbn; intros c';
    (destruct (decide (c = c')) as [<-|]; [rewrite lookup_insert_eq, ?E|by rewrite lookup_insert_ne]; done).
Qed.

Lemma post_frame (c : nat) (k : task_kind) (s : system) : frame s (post c k s).
Proof.
  unfold post. destruct (requests s !! c) as [r|]; [|done]. by destruct (reachable_request r).
Qed.

Lemma frame_started (c : nat) (s s' : system) : frame s s' ->
  (forall r, requests s !! c = Some r -> rq_phase r = Started_) ->
  forall r, requests s' !! c = Some r -> rq_phase r = Started_.
Proof.
  intros Hf H r Hr. pose proof (fr_phase _ _ Hf c) as E. rewrite Hr in E. cbn in E.
  destruct (requests s !! c) as [r0|]; [|done]. injection E as ->. by apply H.
Qed.

(** Posting keeps the invariant when every call stays good. *)
Lemma inv_frame (s s' : system) :
  frame s s' -> (forall c, good_at c s') -> teardown_inv s -> teardown_inv s'.
Proof.
  intros Hf Hg [H1 H2 H3 H4 H5]. destruct Hf as [F1 F2 F3 F4 F5 F6 F7 _ F8].
  constructor; rewrite ?F1, ?F2, ?F3, ?F4, ?F6; try done.
  - intros c Hc. destruct (H2 c Hc) as (r & Hr & Hp). specialize (F7 c). rewrite Hr in F7. cbn in F7.
    destruct (requests s' !! c) as [r'|]; [|done]. exists r'. split; [done|]. injection F7. congruence.
  - intros Hs c r Hr. specialize (F7 c). rewrite Hr in F7. cbn in F7.
    destruct (requests s !! c) as [r0|] eqn:E; [|done].
    specialize (F8 c). rewrite E, Hr in F8. cbn in F8. specialize (H3 Hs c r0 E). cbn in H3. rewrite H3 in F8.
    specialize (F8 eq_refl). by injection F8.
Qed.

(** Case analysis on where a call is. *)
Ltac call_cases H :=
  inversion H as [? ? Ht Hl Hg|? Hts Ht Hl Hg|? Hts Ht Hl Hg|Ht Hl Hg|Ht Hl Hg]; subst; cbn [rq_phase rq_destroy rq_gone] in *;
  try done.

Lemma destroy_request_good (c : nat) (s : system) :
  (forall r, requests s !! c = Some r -> rq_phase r = Started_) ->
  (forall c', good_at c' s) -> forall c', good_at c' (destroy_request c s).
Proof.
  intros Hp Hs. unfold destroy_request. destruct (requests s !! c) as [r|] eqn:E; [|done].
  destruct (reachable_request r) eqn:Er; [|done]. specialize (Hp r eq_refl).
  apply (good_step c s); [|..|done].
  - intros c' Hne. cbn. rewrite lookup_insert_ne, tasks_other by done. done.
  - pose proof (Hs c) as Hc. unfold good_at in *. rewrite E in Hc. cbn. rewrite lookup_insert_eq, tasks_same.
    change (is_live c _) with (is_live c s). change (is_releasing c _) with (is_releasing c s).
    call_cases Hc. by apply ok_ending.
Qed.

Lemma post_good (c : nat) (k : task_kind) (s : system) :
  k <> TDestroy -> (forall r, requests s !! c = Some r -> rq_phase r = Started_) ->
  (forall c', good_at c' s) -> forall c', good_at c' (post c k s).
Proof.
  intros Hk Hp Hs. unfold post. destruct (requests s !! c) as [r|] eqn:E; [|done].
  destruct (reachable_request r) eqn:Er; [|done]. specialize (Hp r eq_refl).
  apply (good_step c s); [|..|done].
  - intros c' Hne. cbn. by rewrite tasks_other.
  - pose proof (Hs c) as Hc. unfold good_at in *. cbn. rewrite E in *. rewrite tasks_same.
    change (is_live c _) with (is_live c s). change (is_releasing c _) with (is_releasing c s).
    call_cases Hc. apply ok_up. rewrite elem_of_app, list_elem_of_singleton. naive_solver.
Qed.

Lemma reacts_frame (c : nat) (xs : list reaction) (s : system) : frame s (foldl (react c) s xs).
Proof.
  revert s. induction xs as [|x xs IH]; intros s; [done|]. cbn. etrans; [|apply IH].
  destruct x; cbn; apply post_frame || apply destroy_request_frame.
Qed.

Lemma destroys_frame (cs : list nat) (s : system) : frame s (foldr destroy_request s cs).
Proof. induction cs as [|c cs IH]; [done|]. cbn. etrans; [exact IH|apply destroy_request_frame]. Qed.

Lemma react_good (c : nat) (x : reaction) (s : system) :
  (forall r, requests s !! c = Some r -> rq_phase r = Started_) ->
  (forall c', good_at c' s) -> frame s (react c s x) /\ forall c', good_at c' (react c s x).
Proof.
  intros Hp Hs. destruct x; cbn [react]; (split; [apply post_frame || apply destroy_request_frame|]);
    by first [apply post_good|apply destroy_request_good].
Qed.

Lemma reacts_good (c : nat) (xs : list reaction) (s : system) :
  (forall r, requests s !! c = Some r -> rq_phase r = Started_) ->
  (forall c', good_at c' s) -> frame s (foldl (react c) s xs) /\ forall c', good_at c' (foldl (react c) s xs).
Proof.
  revert s. induction xs as [|x xs IH]; intros s Hp Hs; [done|]. cbn [foldl].
  destruct (react_good c x s Hp Hs) as [Hf Hg].
  destruct (IH (react c s x)) as [Hf' Hg']; [by eapply frame_started|done|]. split; [by etrans|done].
Qed.

Lemma destroy_request_asks (c : nat) (s : system) (r : request) :
  (forall r, requests s !! c = Some r -> rq_phase r = Started_) ->
  requests (destroy_request c s) !! c = Some r -> rq_gone r = false -> rq_destroy r = true.
Proof.
  intros Hp. unfold destroy_request. destruct (requests s !! c) as [r1|] eqn:E; [|congruence].
  specialize (Hp r1 eq_refl). unfold reachable_request. rewrite Hp, bool_decide_eq_false_2 by done.
  destruct (rq_destroy r1) eqn:Ed, (rq_gone r1) eqn:Eg; cbn; rewrite ?lookup_insert_eq, ?E;
    intros Hr Hg; simplify_eq; done || congruence.
Qed.

(** [Engine::Destroy] asks for the teardown of every live call. *)
Lemma destroys_good (cs : list nat) (s : system) :
  (forall c, c ∈ cs -> forall r, requests s !! c = Some r -> rq_phase r = Started_) ->
  (forall c', good_at c' s) ->
  let s' := foldr destroy_request s cs in
  frame s s' /\ (forall c', good_at c' s')
  /\ forall c r, c ∈ cs -> requests s' !! c = Some r -> rq_gone r = false -> rq_destroy r = true.
Proof.
  intros Hp Hs. induction cs as [|c cs IH]; [split_and!; [done|done|by intros c r ?%elem_of_nil]|].
  cbn [foldr]. destruct IH as (Hf & Hg & Hd); [intros c' Hc'; apply Hp; by right|].
  set (s1 := foldr destroy_request s cs) in *.
  assert (forall r, requests s1 !! c = Some r -> rq_phase r = Started_) as Hc
    by (eapply frame_started; [exact Hf|apply Hp; by left]).
  split_and!; [by etrans; [|apply destroy_request_frame]|by apply destroy_request_good|].
  intros c' r Hin Hr Hgone. destruct (decide (c' = c)) as [->|Hne].
  { by apply (destroy_request_asks c s1 r Hc). }
  apply elem_of_cons in Hin as [->|Hin]; [done|].
  pose proof (destroy_request_frame c s1) as F. pose proof (fr_gone _ _ F c') as Eg. rewrite Hr in Eg.
  destruct (requests s1 !! c') as [r1|] eqn:E; [|done]. injection Eg as Eg.
  pose proof (fr_destroy _ _ F c') as Ed. rewrite E, Hr in Ed. cbn in Ed.
  rewrite (Hd c' r1 Hin E) in Ed by congruence. specialize (Ed eq_refl). by injection Ed.
Qed.

(** ** Every step keeps the invariant *)

(** A step about one call that changes what is counted elsewhere only by it. *)
Ltac teardown_rest :=
  constructor; cbn [requests handles live shutting_down context_gone queue releasing misused set_request enqueue misuse];
  try done.

Lemma destroyed_stays (c : nat) (r r' : request) (m : gmap nat request) :
  m !! c = Some r -> rq_destroy r' = rq_destroy r ->
  map_Forall (fun _ r => rq_destroy r = true) m -> map_Forall (fun _ r => rq_destroy r = true) (<[c:=r']> m).
Proof. intros Hr E H. apply map_Forall_insert_2; [|done]. rewrite E. by apply (H c). Qed.

Lemma starting_shape (c : nat) (s : system) (r : request) :
  good_at c s -> requests s !! c = Some r -> rq_phase r <> Started_ ->
  tasks c (queue s) = [] /\ is_live c s = true /\ is_releasing c s = false
  /\ rq_destroy r = false /\ rq_gone r = false.
Proof. unfold good_at. intros H E Hp. rewrite E in H. call_cases H; by rewrite <- ?Ht, <- ?Hl, <- ?Hg. Qed.

Lemma inv_register (c : nat) (s s' : system) :
  teardown_inv s -> context_gone s = false -> register_call c s = Some s' -> teardown_inv s'.
Proof.
  intros I Ec. unfold register_call.
  case_bool_decide as Hn; [done|]. apply eq_None_not_Some in Hn. rewrite Ec.
  destruct (shutting_down s) eqn:Es; [by intros [= <-]|]. intros [= <-]. pose proof I as [H1 H2 H3 H4 H5]. teardown_rest.
  - apply (good_step c s); [|..|done].
    + intros c' Hne. cbn. unfold is_live, is_releasing. cbn. rewrite lookup_insert_ne by done.
      split_and!; try done. apply bool_decide_ext. set_solver.
    + pose proof (H1 c) as Hc. unfold good_at in *. rewrite Hn in Hc. cbn. rewrite lookup_insert_eq.
      destruct Hc as (-> & _ & Hg). unfold is_live, is_releasing in *. cbn. rewrite Hg, bool_decide_eq_true_2 by set_solver.
      by apply ok_starting.
  - intros c' Hc'. destruct (H2 c' Hc') as (r & Hr & Hp). exists r. split; [|done].
    rewrite lookup_insert_ne; [done|]. intros <-. congruence.
Qed.

Lemma inv_attach (c : nat) (s s' : system) : teardown_inv s -> attach_request c s = Some s' -> teardown_inv s'.
Proof.
  intros I. unfold attach_request. destruct (requests s !! c) as [r|] eqn:E; cbn [mbind option_bind]; [|done].
  case_bool_decide as Hp; [|done]. intros [= <-]. pose proof I as [H1 H2 H3 H4 H5].
  destruct (starting_shape c s r (H1 c) E) as (Ht & Hl & Hg & Hd & Hgone); [by rewrite Hp|]. teardown_rest.
  - apply (good_step c s); [|..|done].
    + intros c' Hne. cbn. by rewrite lookup_insert_ne.
    + unfold good_at. cbn. rewrite lookup_insert_eq. change (is_live c _) with (is_live c s).
      change (is_releasing c _) with (is_releasing c s). rewrite Ht, Hl, Hg, Hd, Hgone. by apply ok_starting.
  - intros c' Hc'. destruct (H2 c' Hc') as (r' & Hr & Hp'). destruct (decide (c = c')) as [<-|]; [congruence|].
    exists r'. by rewrite lookup_insert_ne.
  - intros Hs. by eapply destroyed_stays, H3.
Qed.

Lemma inv_start (c : nat) (s s' : system) : teardown_inv s -> start_request c s = Some s' -> teardown_inv s'.
Proof.
  intros I. unfold start_request. destruct (requests s !! c) as [r|] eqn:E; cbn [mbind option_bind]; [|done].
  case_bool_decide as Hp; [|done]. intros [= <-]. pose proof I as [H1 H2 H3 H4 H5].
  destruct (starting_shape c s r (H1 c) E) as (Ht & Hl & Hg & Hd & Hgone); [by rewrite Hp|]. teardown_rest.
  - apply (good_step c s); [|..|done].
    + intros c' Hne. cbn. by rewrite lookup_insert_ne, tasks_other.
    + unfold good_at. cbn. rewrite lookup_insert_eq, tasks_same. change (is_live c _) with (is_live c s).
      change (is_releasing c _) with (is_releasing c s). rewrite Ht, Hl, Hg, Hd, Hgone. apply ok_up. set_solver.
  - intros c' [->%elem_of_singleton|Hc']%elem_of_union; [rewrite lookup_insert_eq; by eexists|].
    destruct (H2 c' Hc') as (r' & Hr & Hp'). destruct (decide (c = c')) as [<-|]; [congruence|].
    exists r'. by rewrite lookup_insert_ne.
  - intros Hs. by eapply destroyed_stays, H3.
  - by rewrite H5, Hgone.
Qed.

Lemma inv_free (c : nat) (s s' : system) : teardown_inv s -> free_call c s = Some s' -> teardown_inv s'.
Proof.
  intros I. unfold free_call. destruct (requests s !! c) as [r|]; cbn [mbind option_bind]; [|done].
  destruct (_ && _); [|done]. intros [= <-]. destruct I as [H1 H2 H3 H4 H5]. teardown_rest.
  intros c' Hc'. apply H2. set_solver.
Qed.

Lemma handle_started (c : nat) (s : system) : teardown_inv s -> c ∈ handles s ->
  forall r, requests s !! c = Some r -> rq_phase r = Started_.
Proof. intros I Hc r Hr. destruct (ti_handles s I c Hc) as (r' & Hr' & Hp). congruence. Qed.

Lemma inv_begin_destroy (s s' : system) :
  teardown_inv s -> quiet s = true -> begin_destroy s = Some s' -> teardown_inv s'.
Proof.
  intros I Hq. unfold begin_destroy. destruct (shutting_down s) eqn:Es; [done|]. intros [= <-].
  unfold quiet in Hq. apply bool_decide_eq_true in Hq. pose proof I as [H1 H2 H3 H4 H5].
  set (s1 := mkSystem _ _ _ _ _ _ _ _). destruct (destroys_good (elements (live s)) s1) as (Hf & Hgood & Hd).
  { intros c _ r Hr. by apply (Hq c r). }
  { exact H1. }
  destruct Hf as [F1 F2 F3 F4 F5 F6 F7 F8 F9]. constructor; rewrite ?F1, ?F2, ?F3, ?F4, ?F6; cbn; try done.
  - intros c Hc. destruct (H2 c Hc) as (r & Hr & Hp). specialize (F7 c). cbn in F7. rewrite Hr in F7.
    destruct (_ !! c) as [r'|] eqn:E; [|done]. exists r'. split; [done|]. injection F7. congruence.
  - intros _ c r Hr. pose proof (Hgood c) as Hc. unfold good_at in Hc. rewrite Hr in Hc.
    unfold is_live in Hc. rewrite F2 in Hc. call_cases Hc.
    + pose proof (F7 c) as E. rewrite Hr in E. cbn in E. destruct (requests s !! c) as [r0|] eqn:E0; [|done].
      injection E as E. specialize (Hq c r0 E0). congruence.
    + symmetry in Hl. apply bool_decide_eq_true in Hl. by apply (Hd c _ (proj2 (elem_of_elements _ _) Hl) Hr).
  - intros Hc. destruct (H4 Hc) as [? ?]. congruence.
Qed.

Lemma inv_finish_destroy (s s' : system) : teardown_inv s -> finish_destroy s = Some s' -> teardown_inv s'.
Proof.
  intros [H1 H2 H3 H4 H5]. unfold finish_destroy. destruct (shutting_down s) eqn:Es, (context_gone s); cbn [andb negb]; try done.
  case_bool_decide as Hl; [|done]. intros [= <-]. by teardown_rest.
Qed.

(** The next task is for a call that is still there. *)
Lemma next_task (c : nat) (k : task_kind) (q : list task) (s : system) :
  good_at c s -> queue s = mkTask c k :: q ->
  exists r, requests s !! c = Some r /\ rq_phase r = Started_ /\ rq_gone r = false
    /\ is_live c s = true /\ is_releasing c s = false
    /\ (k = TDestroy -> tasks c q = [] /\ rq_destroy r = true)
    /\ (k <> TDestroy -> call_ok (tasks c q) true false r).
Proof.
  unfold good_at. intros H E. rewrite E in H. cbn in H. rewrite decide_True in H by done.
  destruct (requests s !! c) as [r|]; [|by destruct H]. exists r. split; [done|].
  call_cases H; split_and!; try done.
  - intros ->. exfalso. apply Hts. by left.
  - intros Hk. apply ok_up. intros Hin. apply Hts. by right.
  - intros ->. destruct ts as [|k' ts]; [by injection Ht|]. exfalso. injection Ht as E' _. apply Hts. rewrite E'. by left.
  - intros Hk. destruct ts as [|k' ts]; [by injection Ht as <-|]. injection Ht as _ <-.
    apply ok_ending. intros Hin. apply Hts. by right.
Qed.

Lemma inv_run_task (xs : list reaction) (s s' : system) :
  teardown_inv s -> run_task xs s = Some s' -> teardown_inv s'.
Proof.
  intros I. unfold run_task. destruct (releasing s) eqn:Er; [done|].
  destruct (queue s) as [|[c k] q] eqn:Eq; [done|]. pose proof I as [H1 H2 H3 H4 H5].
  destruct (next_task c k q s (H1 c) Eq) as (r & Hr & Hp & Hgone & Hl & Hg & Hd & Hn). rewrite Hr. cbn [mbind option_bind]. rewrite Hgone.
  assert (context_gone s = false) as Hc.
  { destruct (context_gone s); [|done]. destruct (H4 eq_refl) as [E _]. unfold is_live in Hl.
    rewrite E in Hl. by apply bool_decide_eq_true, elem_of_empty in Hl. }
  assert (forall c', c' <> c -> tasks c' q = tasks c' (queue s)) as Ht.
  { intros c' Hne. rewrite Eq. cbn. by rewrite decide_False. }
  destruct (decide (k = TDestroy)) as [Hk|Hk].
  - intros [= <-]. destruct (Hd Hk) as [Hq Hrd]. teardown_rest.
    + apply (good_step c s); [|..|done].
      * intros c' Hne. cbn. unfold is_live, is_releasing. cbn. rewrite Er. split_and!; [done|by apply Ht| |].
        -- apply bool_decide_ext. set_solver.
        -- apply bool_decide_ext. naive_solver.
      * unfold good_at. cbn. rewrite Hr, Hq. unfold is_live, is_releasing. cbn.
        rewrite bool_decide_eq_false_2, bool_decide_eq_true_2 by set_solver. destruct r as [p d g]. cbn in *. subst. apply ok_leaving.
    + by rewrite Hc.
    + by rewrite H5, Hc.
  - set (s1 := mkSystem _ _ _ _ _ _ _ _). intros [= <-].
    assert (forall c', good_at c' s1) as Hs1.
    { apply (good_step c s); [|..|done].
      - intros c' Hne. cbn. unfold is_live, is_releasing. cbn. rewrite Er. split_and!; [done|by apply Ht|done|done].
      - unfold good_at. cbn. rewrite Hr. change (is_live c s1) with (is_live c s). rewrite Hl.
        replace (is_releasing c s1) with false by (symmetry; apply bool_decide_eq_false_2; done). by apply Hn. }
    destruct (reacts_good c xs s1) as [Hf Hg1]; [by intros r' Hr'; cbn in Hr'; congruence|done|].
    apply (inv_frame s1); [done|done|]. subst s1. teardown_rest. by rewrite H5.
Qed.

Lemma inv_release (s s' : system) : teardown_inv s -> release_call s = Some s' -> teardown_inv s'.
Proof.
  intros I. unfold release_call. destruct (releasing s) as [c|] eqn:Er; cbn [mbind option_bind]; [|done].
  destruct (requests s !! c) as [r|] eqn:E; cbn [mbind option_bind]; [|done]. intros [= <-].
  pose proof I as [H1 H2 H3 H4 H5]. pose proof (H1 c) as Hc. unfold good_at in Hc. rewrite E in Hc.
  assert (is_releasing c s = true) as Hrel by (unfold is_releasing; by rewrite Er, bool_decide_eq_true_2).
  rewrite Hrel in Hc. call_cases Hc. teardown_rest.
  - apply (good_step c s); [|..|done].
    + intros c' Hne. cbn. unfold is_releasing. cbn. rewrite lookup_insert_ne, Er by done.
      split_and!; try done. apply bool_decide_ext. naive_solver.
    + unfold good_at. cbn. rewrite lookup_insert_eq, <- Ht. change (is_live c _) with (is_live c s). rewrite <- Hl. apply ok_gone.
  - intros c' Hc'. destruct (H2 c' Hc') as (r' & Hr' & Hp). destruct (decide (c = c')) as [<-|].
    + rewrite lookup_insert_eq. by eexists.
    + exists r'. by rewrite lookup_insert_ne.
  - intros Hs. by eapply destroyed_stays, H3.
Qed.

Lemma teardown_inv_step (ev : event) (s s' : system) :
  teardown_inv s -> teardown_step false ev s = Some s' -> teardown_inv s'.
Proof.
  intros I. destruct ev; cbn [teardown_step orb].
  - destruct (context_gone s) eqn:Ec; [done|]. by apply inv_register.
  - by apply inv_attach.
  - by apply inv_start.
  - case_bool_decide as Hc; [|done]. intros [= <-]. pose proof (handle_started c s I Hc) as Hp.
    apply (inv_frame s); [apply destroy_request_frame|apply destroy_request_good; [done|apply I]|done].
  - case_bool_decide as Hc; [|done]. intros [= <-]. pose proof (handle_started c s I Hc) as Hp.
    apply (inv_frame s); [apply post_frame|apply post_good; [done|done|apply I]|done].
  - by apply inv_free.
  - destruct (quiet s) eqn:Hq; [|done]. by apply inv_begin_destroy.
  - by apply inv_finish_destroy.
  - by apply inv_run_task.
  - by apply inv_release.
Qed.

Lemma teardown_inv_init : teardown_inv system_init.
Proof. by constructor. Qed.

Lemma teardown_inv_run (schedule : list event) (s s' : system) :
  teardown_inv s -> teardown_run false schedule s = Some s' -> teardown_inv s'.
Proof.
  revert s. induction schedule as [|ev schedule IH]; intros s I; cbn; [by intros [= <-]|].
  destruct (teardown_step false ev s) as [s1|] eqn:E; cbn; [|done]. apply IH. by eapply teardown_inv_step.
Qed.

(** ** Nothing is used after it is gone *)

Lemma tasks_target (c : nat) (q : list task) : tasks c q = [] <-> c ∉ target <$> q.
Proof.
  induction q as [|t q IH]; cbn; [split; [intros _; apply not_elem_of_nil|done]|].
  rewrite not_elem_of_cons. destruct (decide (target t = c)); [naive_solver|]. rewrite IH. naive_solver.
Qed.

(** C5: nothing is used after it is gone.  However starting, cancelling, reading
    and freeing calls, destroying the engine and the network thread's tasks
    interleave, provided the engine is not destroyed while a call is being
    started, nor a call started on an engine that is gone, no task runs on a
    deleted request and none reports to a deleted engine; a request that has
    been deleted has no task left, and once the engine is gone no call has
    one. *)
Theorem teardown_safe (schedule : list event) (s : system)
    (Hrun : teardown_run false schedule system_init = Some s) :
  misused s = false
  /\ (forall c r, requests s !! c = Some r -> rq_gone r = true -> (c ∉ live s) /\ (c ∉ target <$> queue s))
  /\ (context_gone s = true -> live s = ∅ /\ queue s = []).
Proof.
  apply teardown_inv_run in Hrun as [H1 H2 H3 H4 H5]; [|apply teardown_inv_init]. split_and!; [done| |].
  - intros c r Hr Hgone. pose proof (H1 c) as Hc. unfold good_at in Hc. rewrite Hr in Hc. call_cases Hc.
    rewrite <- tasks_target. split; [|done]. symmetry in Hl. by apply bool_decide_eq_false in Hl.
  - intros Hc. destruct (H4 Hc) as [Hl _]. split; [done|]. destruct (queue s) as [|[c k] q] eqn:Eq; [done|exfalso].
    destruct (next_task c k q s (H1 c) Eq) as (r & _ & _ & _ & Hlive & _). unfold is_live in Hlive.
    rewrite Hl in Hlive. by apply bool_decide_eq_true, elem_of_empty in Hlive.
Qed.

(** ** Destroying ends *)

Definition is_network (ev : event) : bool := match ev with RunTask _ | Release => true | _ => false end.

(** What the network thread still has to do once the engine is shutting down. *)
Definition owed_tasks (s : system) : nat :=
  2 * length (queue s) + match releasing s with Some _ => 1 | None => 0 end.

Lemma shutting_nothing_posted (c : nat) (k : task_kind) (s : system) :
  map_Forall (fun _ r => rq_destroy r = true) (requests s) -> destroy_request c s = s /\ post c k s = s.
Proof.
  intros H. unfold destroy_request, post. destruct (requests s !! c) as [r|] eqn:E; [|done].
  unfold reachable_request. by rewrite (H c r E).
Qed.

Lemma shutting_nothing_reacted (c : nat) (xs : list reaction) (s : system) :
  map_Forall (fun _ r => rq_destroy r = true) (requests s) -> foldl (react c) s xs = s.
Proof.
  intros H. induction xs as [|x xs IH]; [done|]. cbn [foldl].
  destruct (shutting_nothing_posted c TRead s H) as [E1 E2], (shutting_nothing_posted c TFollow s H) as [_ E3].
  destruct x; cbn [react]; by rewrite ?E1, ?E2, ?E3.
Qed.

Lemma shutting_started (c : nat) (s : system) (r : request) :
  teardown_inv s -> shutting_down s = true -> requests s !! c = Some r -> rq_phase r = Started_.
Proof.
  intros I Hs Hr. pose proof (ti_shutting s I Hs c r Hr) as Hd. pose proof (ti_calls s I c) as Hc.
  unfold good_at in Hc. rewrite Hr in Hc. call_cases Hc.
Qed.

(** Once the teardown of every call has been asked for, a task only leaves
    less to do. *)
Lemma settled_network_step (o : bool) (ev : event) (s s' : system) :
  map_Forall (fun _ r => rq_destroy r = true) (requests s) -> is_network ev = true ->
  teardown_step o ev s = Some s' -> owed_tasks s' + 1 <= owed_tasks s.
Proof.
  intros Hall. destruct ev as [| | | | | | | |xs|]; try done; intros _ H; cbn in H.
  - unfold run_task in H. destruct (releasing s) eqn:Er; [done|]. destruct (queue s) as [|[c k] q] eqn:Eq; [done|].
    destruct (requests s !! c) as [r|]; cbn [mbind option_bind] in H; [|done]. unfold owed_tasks. rewrite Er, Eq.
    destruct (decide (k = TDestroy)); [injection H as <-; cbn; lia|]. injection H as <-.
    destruct (rq_gone r); [cbn; lia|]. rewrite shutting_nothing_reacted by done. cbn. lia.
  - unfold release_call in H. destruct (releasing s) as [c|] eqn:Er; cbn [mbind option_bind] in H; [|done].
    destruct (requests s !! c); cbn [mbind option_bind] in H; [|done]. injection H as <-. unfold owed_tasks. rewrite Er. cbn. lia.
Qed.

Lemma network_keeps_shutting (o : bool) (ev : event) (s s' : system) :
  is_network ev = true -> teardown_step o ev s = Some s' -> shutting_down s' = shutting_down s.
Proof.
  destruct ev as [| | | | | | | |xs|]; try done; intros _; cbn; unfold run_task, release_call.
  - destruct (releasing s); [done|]. destruct (queue s) as [|[c k] q]; [done|].
    destruct (requests s !! c) as [r|]; cbn [mbind option_bind]; [|done].
    destruct (decide (k = TDestroy)); [by intros [= <-]|]. set (s1 := mkSystem _ _ _ _ _ _ _ _).
    destruct (rq_gone r); intros [= <-]; [done|]. by rewrite (fr_shutting _ _ (reacts_frame c xs s1)).
  - destruct (releasing s) as [c|]; cbn [mbind option_bind]; [|done].
    destruct (requests s !! c); cbn [mbind option_bind]; [|done]. by intros [= <-].
Qed.

Lemma shutting_step (ev : event) (s s' : system) :
  teardown_inv s -> shutting_down s = true -> teardown_step false ev s = Some s' ->
  shutting_down s' = true /\ owed_tasks s' + Nat.b2n (is_network ev) <= owed_tasks s.
Proof.
  intros I Hs H. pose proof (ti_shutting s I Hs) as Hall.
  destruct ev as [c|c|c|c|c|c| | |xs|]; cbn [teardown_step is_network Nat.b2n orb] in *; rewrite ?Nat.add_0_r.
  - destruct (context_gone s) eqn:Ec; [done|]. cbn [negb] in H. unfold register_call in H.
    destruct (bool_decide _); [done|]. rewrite Ec, Hs in H. by injection H as <-.
  - unfold attach_request in H. destruct (requests s !! c) as [r|] eqn:E; cbn in H; [|done].
    rewrite (shutting_started c s r I Hs E) in H. by case_bool_decide.
  - unfold start_request in H. destruct (requests s !! c) as [r|] eqn:E; cbn in H; [|done].
    rewrite (shutting_started c s r I Hs E) in H. by case_bool_decide.
  - case_bool_decide; [|done]. rewrite (proj1 (shutting_nothing_posted c TRead s Hall)) in H. by injection H as <-.
  - case_bool_decide; [|done]. rewrite (proj2 (shutting_nothing_posted c TRead s Hall)) in H. by injection H as <-.
  - unfold free_call in H. destruct (requests s !! c); cbn in H; [|done]. destruct (_ && _); [|done]. by injection H as <-.
  - unfold begin_destroy in H. rewrite Hs in H. by destruct (quiet s).
  - unfold finish_destroy in H. destruct (_ && _); [|done]. by injection H as <-.
  - pose proof (settled_network_step false (RunTask xs) s s' Hall eq_refl H). split; [|lia]. rewrite <- Hs. by apply (network_keeps_shutting false (RunTask xs) _ _ eq_refl H).
  - pose proof (settled_network_step false Release s s' Hall eq_refl H). split; [|lia]. rewrite <- Hs. by apply (network_keeps_shutting false Release _ _ eq_refl H).
Qed.

Lemma shutting_run (schedule : list event) (s s' : system) :
  teardown_inv s -> shutting_down s = true -> teardown_run false schedule s = Some s' ->
  shutting_down s' = true /\ owed_tasks s' + length (keep is_network schedule) <= owed_tasks s.
Proof.
  revert s. induction schedule as [|ev schedule IH]; intros s I Hs; cbn [teardown_run];
    [intros [= <-]; split; [done|]; cbn; lia|].
  destruct (teardown_step false ev s) as [s1|] eqn:E; cbn [mbind option_bind]; [|done]. intros H.
  destruct (shutting_step ev s s1 I Hs E) as [Hs1 H1].
  destruct (IH s1 (teardown_inv_step _ _ _ I E) Hs1 H) as [Hs' H2]. split; [done|].
  cbn [keep]. destruct (is_network ev); cbn [length Nat.b2n] in *; lia.
Qed.

(** With nothing left to do, the network thread has let go of every call. *)
Lemma idle_gone (s : system) :
  teardown_inv s -> shutting_down s = true -> owed_tasks s = 0 ->
  live s = ∅ /\ map_Forall (fun _ r => rq_gone r = true) (requests s).
Proof.
  intros I Hs Ho. unfold owed_tasks in Ho. destruct (releasing s) eqn:Er; [lia|].
  assert (queue s = []) as Eq by (destruct (queue s); [done|cbn in Ho; lia]).
  assert (forall c r, requests s !! c = Some r -> rq_gone r = true /\ is_live c s = false) as Hall.
  { intros c r Hr. pose proof (ti_calls s I c) as Hc. unfold good_at in Hc. rewrite Hr, Eq in Hc. cbn [tasks] in Hc.
    assert (is_releasing c s = false) as E by (unfold is_releasing; by rewrite Er, bool_decide_eq_false_2).
    pose proof (ti_shutting s I Hs c r Hr) as Hd. cbn in Hd. rewrite E in Hc. call_cases Hc. by destruct ts. }
  split; [|intros c r Hr; by apply (Hall c r)].
  apply set_eq. intros c. split; [|set_solver]. intros Hc.
  pose proof (ti_calls s I c) as Hg. unfold good_at in Hg.
  assert (is_live c s = true) as Hl by (by apply bool_decide_eq_true_2).
  destruct (requests s !! c) as [r|] eqn:Hr; [|destruct Hg as (_ & E & _); congruence].
  destruct (Hall c r Hr). congruence.
Qed.

Lemma network_can_step (s : system) :
  teardown_inv s -> 0 < owed_tasks s -> exists ev s', is_network ev = true /\ teardown_step false ev s = Some s'.
Proof.
  intros I Ho. unfold owed_tasks in Ho. destruct (releasing s) as [c|] eqn:Er.
  - exists Release. cbn. unfold release_call. rewrite Er. cbn [mbind option_bind].
    pose proof (ti_calls s I c) as Hc. unfold good_at in Hc.
    destruct (requests s !! c) as [r|]; [by eexists|]. destruct Hc as (_ & _ & E).
    unfold is_releasing in E. by apply bool_decide_eq_false in E.
  - destruct (queue s) as [|[c k] q] eqn:Eq; [cbn in Ho; lia|]. exists (RunTask []). cbn [teardown_step].
    unfold run_task. rewrite Er, Eq. destruct (next_task c k q s (ti_calls s I c) Eq) as (r & -> & _). cbn [mbind option_bind].
    destruct (decide (k = TDestroy)); by eexists.
Qed.

(** C10: destroying an engine ends, and so does freeing a call, provided the
    engine is not destroyed while a call is being started (without that
    proviso a call can be missed: [cancellation_lost]).  From the moment the
    engine is shutting down, whatever the other threads do, the network thread
    has a bounded number of tasks left, can always do the next, and when it has
    done them no call is live: [Engine::Destroy] stops waiting, and every call
    not yet freed can be. *)
Theorem destroy_completes (schedule schedule' : list event) (s s' : system)
    (Hrun : teardown_run false schedule system_init = Some s) (Hs : shutting_down s = true)
    (Hrun' : teardown_run false schedule' s = Some s') :
  length (keep is_network schedule') <= owed_tasks s
  /\ (0 < owed_tasks s' -> exists ev s'', is_network ev = true /\ teardown_step false ev s' = Some s'')
  /\ (owed_tasks s' = 0 ->
        live s' = ∅
        /\ (context_gone s' = false -> exists s'', finish_destroy s' = Some s'' /\ context_gone s'' = true)
        /\ forall c, c ∈ handles s' -> exists s'', free_call c s' = Some s'' /\ (c ∉ handles s'')).
Proof.
  pose proof (teardown_inv_run _ _ _ teardown_inv_init Hrun) as I.
  destruct (shutting_run _ _ _ I Hs Hrun') as [Hs' Hlen].
  pose proof (teardown_inv_run _ _ _ I Hrun') as I'. split_and!; [lia|by apply network_can_step|].
  intros Ho. destruct (idle_gone s' I' Hs' Ho) as [Hl Hgone]. split_and!; [done| |].
  - intros Hc. unfold finish_destroy. rewrite Hs', Hc, Hl, bool_decide_eq_true_2 by done. by eexists.
  - intros c Hc. destruct (ti_handles s' I' c Hc) as (r & Hr & _). unfold free_call. rewrite Hr. cbn [mbind option_bind].
    rewrite (Hgone c r Hr), bool_decide_eq_true_2 by done. eexists. split; [reflexivity|]. cbn. set_solver.
Qed.

(** ** From Python the engine is never destroyed while a call is started *)

Lemma python_never_overlaps (n : nat) (e : engine) (p : pc) :
  Engine.reachable n e -> Destroying ∈ threads e -> p ∈ threads e -> holds p = false.
Proof.
  intros Hr Hd Hp. apply engine_inv_reachable in Hr as [H1 _ _ _ _ _ _ H8 _ _].
  apply (holders_none (threads e)); [|done]. rewrite <- H1. apply H8. by right.
Qed.

(** ** At concrete schedules *)

(** Two calls, one cancelled while it reads, and the engine destroyed. *)
Definition two_calls : list event :=
  [Register 1; Attach 1; CallStart 1; Register 2; Attach 2; CallStart 2; RunTask [ReactRead]; CancelCall 1; RunTask []; BeginDestroy].
Definition two_calls_end : list event :=
  [RunTask [ReactRead; ReactDestroy]; RunTask []; Release; ResumeRead 2; RunTask []; Release].

Definition after_two_calls : system := default system_init (teardown_run false two_calls system_init).
Definition after_all : system := default system_init (teardown_run false two_calls_end after_two_calls).

Lemma teardown_safe_witness : misused after_all = false /\ queue after_all = [].
Proof.
  split.
  - apply (teardown_safe (two_calls ++ two_calls_end)). vm_compute. reflexivity.
  - vm_compute. reflexivity.
Defined.

Lemma destroy_completes_witness :
  shutting_down after_two_calls = true /\ length (keep is_network two_calls_end) = 5
  /\ live after_all = ∅ /\ is_Some (free_call 2 after_all).
Proof.
  destruct (destroy_completes two_calls two_calls_end after_two_calls after_all) as (_ & _ & H);
    [vm_compute; reflexivity..|].
  destruct H as (Hl & _ & Hf); [vm_compute; reflexivity|]. split; [vm_compute; reflexivity|].
  split; [vm_compute; reflexivity|]. split; [exact Hl|].
  destruct (Hf 2) as (s & Hs & _); [apply (bool_decide_unpack _); vm_compute; exact I|]. by exists s.
Defined.

(** Destroying an engine while another thread is in [cronet_call_start] can
    delete the request that thread is about to start. *)
Lemma start_after_destroy :
  misused <$> teardown_run true [Register 1; Attach 1; BeginDestroy; RunTask []; Release; CallStart 1] system_init
  = Some true.
Proof. vm_compute. reflexivity. Qed.

(** So does starting a call on an engine that is gone. *)
Lemma start_on_deleted_engine :
  misused <$> teardown_run true [BeginDestroy; FinishDestroy; Register 1] system_init = Some true.
Proof. vm_compute. reflexivity. Qed.

(** It can also miss a call that has registered and has no request yet: nothing
    asks for its teardown, and destroying waits for as long as it runs. *)
Lemma cancellation_lost :
  exists s, teardown_run true [Register 1; BeginDestroy; Attach 1; CallStart 1; RunTask []] system_init = Some s
    /\ shutting_down s = true /\ owed_tasks s = 0 /\ live s = {[1]} /\ finish_destroy s = None.
Proof. eexists. split; [vm_compute; reflexivity|]. vm_compute. by split_and!. Qed.
