(* ===== verification/Stack.v ===== *)
(** * Stack: Python's threads on top of the native engine
    (_bridge.py [Engine] over native/c_api.cc, native/call.cc, native/engine.cc).

    [Engine] models the threads of Python and reduces the library to what they
    may not do to it; [Teardown] models the library and leaves its callers
    free.  Here the two run together: a call into the library is made of the
    library's own steps, only the thread that is inside it takes them, and the
    network thread works on its own.  What the library asks of its callers is
    no longer assumed, it is what Python's bookkeeping gives.  [turn] says
    which of its uses of the engine one thread can get on with, so that a thread
    that closes the session while it holds a call, and a call that is dropped
    unclosed, are among the runs. *)

From S2P Require Import Prelude PyText Types Errors Engine Teardown.

(** ** State *)

Record stack := mkStack {
  python : Engine.engine;
  native : system;
  making : gmap nat nat;      (* a thread in [StartCall]: the [CallState] it has registered *)
  calls : gmap nat nat;       (* a [cronet_call*]: its [CallState] *)
}.

Definition stack_init (n : nat) : stack := mkStack (open_engine n) system_init ∅ ∅.

Definition phase_of (b : nat) (n : system) : option phase := rq_phase <$> requests n !! b.

(** ** Steps *)

(** What the library does of its own, within one step of a thread of Python. *)
Definition answers (i : nat) (p : pc) (ch : choice) (s : stack) : option (list event) :=
  match p, ch with
  (* [close]: every live call is cancelled *)
  | Ready, CallClose =>
      if handle (python s)
      then Some (CancelCall <$> omap (fun c => calls s !! c) (elements (live_calls (python s)))) else Some []
  (* [cronet_call_start] returns once the request has been started; null only
     if no call was registered *)
  | Claimed StartCall, Answer (Some _) =>
      b ← making s !! i; if decide (phase_of b (native s) = Some Started_) then Some [] else None
  | Claimed StartCall, Answer None => match making s !! i with Some _ => None | None => Some [] end
  (* [start]: a call that outlived the session is cancelled *)
  | Started c, Go => if handle (python s) then Some [] else b ← calls s !! c; Some [CancelCall b]
  | Running c, Cancel => b ← calls s !! c; Some [CancelCall b]
  (* the end of [cronet_call_free], and of [cronet_engine_destroy] *)
  | Discarded c, Go => b ← calls s !! c; Some [FreeCall b]
  | Destroying, Go => if finalizer_alive (python s) then Some [FinishDestroy] else Some []
  | _, _ => Some []
  end.

(** [cronet_call_start] gives its caller the handle. *)
Definition hand_over (i : nat) (p : pc) (ch : choice) (s : stack) : gmap nat nat * gmap nat nat :=
  match p, ch, making s !! i with
  | Claimed StartCall, Answer (Some c), Some b => (delete i (making s), <[c := b]> (calls s))
  | _, _, _ => (making s, calls s)
  end.

Definition python_step (i : nat) (ch : choice) (s : stack) : option stack :=
  p ← threads (python s) !! i;
  e ← step i ch (python s);
  evs ← answers i p ch s;
  n ← teardown_run true evs (native s);
  let '(m, c) := hand_over i p ch s in
  Some (mkStack e n m c).

(** What a thread does between entering the library and leaving it. *)
Definition inside (i : nat) (p : pc) (fresh : nat) (s : stack) : option event :=
  match p with
  | Claimed StartCall =>
      match making s !! i with
      | None => Some (Register fresh)
      | Some b => match phase_of b (native s) with
                  | Some Registered => Some (Attach b)
                  | Some Attached => Some (CallStart b)
                  | _ => None
                  end
      end
  (* [cronet_call_read], and the start of [cronet_call_free] *)
  | Running c => ResumeRead <$> calls s !! c
  | Discarded c => CancelCall <$> calls s !! c
  | Destroying => if finalizer_alive (python s) then Some BeginDestroy else None
  | _ => None
  end.

Definition native_step (i fresh : nat) (s : stack) : option stack :=
  p ← threads (python s) !! i;
  ev ← inside i p fresh s;
  n ← teardown_step true ev (native s);
  let m := match ev with
           | Register b => if shutting_down (native s) then making s else <[i := b]> (making s)
           | _ => making s
           end in
  Some (mkStack (python s) n m (calls s)).

Definition network_step (ev : event) (s : stack) : option stack :=
  if is_network ev then
    n ← teardown_step true ev (native s);
    Some (mkStack (python s) n (making s) (calls s))
  else None.

Inductive move :=
| Python (i : nat) (ch : choice)     (* between two points where another may run *)
| Native (i fresh : nat)             (* inside a call into the library *)
| Network (ev : event).              (* the network thread *)

Definition stack_step (m : move) (s : stack) : option stack :=
  match m with
  | Python i ch => python_step i ch s
  | Native i fresh => native_step i fresh s
  | Network ev => network_step ev s
  end.

Fixpoint stack_run (schedule : list move) (s : stack) : option stack :=
  match schedule with
  | [] => Some s
  | m :: schedule => s ← stack_step m s; stack_run schedule s
  end.

(** ** Who owns a call *)

(** What a thread has a call as: the one it is making, or a handle. *)
Definition role (p : pc) : option (unit + nat) :=
  match p with
  | Claimed StartCall => Some (inl tt)
  | Started c | Running c | Discarded c => Some (inr c)
  | _ => None
  end.

Definition owned (s : stack) (i : nat) : option nat :=
  p ← threads (python s) !! i;
  r ← role p;
  match r with inl _ => making s !! i | inr c => calls s !! c end.

(** The calls the library has and the threads that own them. *)
Record ties (own : nat -> option nat) (n : system) : Prop := {
  tie_one : forall i j b, own i = Some b -> own j = Some b -> i = j;
  tie_there : forall i b, own i = Some b -> exists p, phase_of b n = Some p /\ (p = Started_ -> b ∈ handles n);
  tie_owned : forall b p, phase_of b n = Some p -> p <> Started_ \/ b ∈ handles n -> exists i, own i = Some b;
  tie_freed : forall b r, requests n !! b = Some r -> rq_phase r = Started_ -> b ∉ handles n -> rq_gone r = true;
}.

Record stack_inv (s : stack) : Prop := {
  si_python : inv (python s);
  si_native : teardown_inv (native s);
  si_ties : ties (owned s) (native s);
  si_making : forall i, is_Some (making s !! i) -> threads (python s) !! i = Some (Claimed StartCall);
  si_calls : forall i p c, threads (python s) !! i = Some p -> role p = Some (inr c) ->
    exists b, calls s !! c = Some b /\ phase_of b (native s) = Some Started_ /\ b ∈ handles (native s);
  si_shutting : shutting_down (native s) = true -> destroyed (python s) = true \/ Destroying ∈ threads (python s);
  si_gone : context_gone (native s) = destroyed (python s);
}.

(** ** What a step of Python does to the threads *)

(** Where a thread stands after a step. *)
Definition goes_to (e : engine) (p : pc) (ch : choice) : pc :=
  let tested := if calls_in_flight e =? 0 then Destroying else Waiting in
  match p, ch with
  | Ready, Engine.CallStart => if handle e then Claimed StartCall else Ready
  | Ready, CallNetLog => if handle e then Claimed NetLog else Ready
  | Ready, CallClose => if handle e then tested else Ready
  | Claimed StartCall, Answer (Some c) => Started c
  | Claimed _, _ | Discarded _, _ => Releasing
  | Started c, _ | Running c, Cancel => Running c
  | Running c, _ => Discarded c
  | Closing, _ => tested
  | p, _ => if decide (p = Waiting) then p else Ready
  end.

Lemma step_goes (i : nat) (ch : choice) (p : pc) (e e' : engine) :
  threads e !! i = Some p -> step i ch e = Some e' ->
  threads e' !! i = Some (goes_to e p ch)
  /\ (forall j, j <> i -> threads e' !! j = threads e !! j \/ threads e' !! j = wake <$> threads e !! j).
Proof.
  intros Hi. pose proof (lookup_lt_Some _ _ _ Hi) as Hlt. unfold step, claim, begin_close. rewrite Hi.
  destruct p as [|[]|c|c|c| | | |], ch as [| | | |[c'|]|]; try done; intros H; cbn [goes_to];
    try destruct (handle e) eqn:Eh; cbn in H; repeat (case_bool_decide; try done); simplify_eq;
    try (rewrite Hi; split; [done|by left]);
    unfold register, finalize, close_test, take_handle, release; cbn;
    try (rewrite list_lookup_fmap);
    try (destruct (finalizer_alive e); cbn); rewrite ?Eh; cbn; rewrite ?list_insert_insert_eq;
    (split; [first [done|by rewrite list_lookup_insert_eq]|intros j Hj]);
    try rewrite list_lookup_fmap; rewrite ?list_lookup_insert_ne by done; first [by left|by right].
Qed.

Lemma role_wake (p : pc) : role (wake p) = role p.
Proof. by destruct p. Qed.

(** The other threads keep their parts. *)
Lemma step_roles (i j : nat) (ch : choice) (p : pc) (e e' : engine) :
  threads e !! i = Some p -> step i ch e = Some e' -> j <> i ->
  role <$> threads e' !! j = role <$> threads e !! j
  /\ (forall q, q <> Waiting -> threads e !! j = Some q -> threads e' !! j = Some q).
Proof.
  intros Hi H Hj. destruct (proj2 (step_goes _ _ _ _ _ Hi H) j Hj) as [->| ->]; [done|].
  destruct (threads e !! j) as [q|]; [|done]. cbn. rewrite role_wake. split; [done|].
  intros q' Hq [= ->]. by destruct q'.
Qed.

Lemma step_destroyed (i : nat) (ch : choice) (p : pc) (e e' : engine) :
  inv e -> threads e !! i = Some p -> step i ch e = Some e' ->
  destroyed e' = destroyed e || bool_decide (p = Destroying).
Proof.
  intros I Hi. unfold step, claim, begin_close. rewrite Hi. pose proof (inv_final e I) as Hf.
  destruct p as [|[]|c|c|c| | | |], ch as [| | | |[c'|]|]; try done; intros H;
    try destruct (handle e) eqn:Eh; cbn in H; repeat (case_bool_decide; try done); simplify_eq;
    unfold register, finalize; cbn; rewrite ?Eh, ?orb_false_r; try done.
  all: rewrite Hf; destruct (destroyed e) eqn:Ed; cbn; rewrite ?Ed; done.
Qed.

(** ** What a step of the library does to the ties *)

(** It starts nothing, frees nothing, and lets no call come back. *)
Record mild (n n' : system) : Prop := {
  mild_handles : handles n' = handles n;
  mild_phase : forall b, phase_of b n' = phase_of b n;
  mild_gone : forall b r, requests n !! b = Some r -> rq_gone r = true ->
    rq_gone <$> requests n' !! b = Some true;
  mild_destroy : forall b r, requests n !! b = Some r -> rq_destroy r = true ->
    rq_destroy <$> requests n' !! b = Some true;
}.

#[export] Instance mild_refl : Reflexive mild.
Proof. intros n. constructor; [done..|intros b r -> H; cbn; by rewrite H|intros b r -> H; cbn; by rewrite H]. Qed.

#[export] Instance mild_trans : Transitive mild.
Proof.
  intros n1 n2 n3 [H1 H2 H3 H4] [K1 K2 K3 K4]. constructor; [congruence|intros b; by rewrite K2|..]; intros b r Hr Hg.
  - specialize (H3 b r Hr Hg). destruct (requests n2 !! b) as [r2|] eqn:E; [|done]. injection H3 as H3. by apply (K3 b r2).
  - specialize (H4 b r Hr Hg). destruct (requests n2 !! b) as [r2|] eqn:E; [|done]. injection H4 as H4. by apply (K4 b r2).
Qed.

Lemma frame_mild (n n' : system) : frame n n' -> mild n n'.
Proof.
  intros [F1 F2 F3 F4 F5 F6 F7 F8 F9]. constructor; [done|exact F7|..]; intros b r Hr Hg.
  - by rewrite F8, Hr, <- Hg.
  - apply F9. by rewrite Hr, <- Hg.
Qed.

Lemma same_calls_mild (n n' : system) : requests n' = requests n -> handles n' = handles n -> mild n n'.
Proof. intros E1 E2. constructor; unfold phase_of; rewrite ?E1; [done..| |]; intros b r -> <-; done. Qed.

(** Whether an event is about the calls there are, and leaves the engine. *)
Definition on_calls (ev : event) : bool :=
  match ev with CancelCall _ | ResumeRead _ | RunTask _ | Release => true | _ => false end.

Lemma on_calls_mild (ev : event) (n n' : system) :
  on_calls ev = true -> teardown_step true ev n = Some n' ->
  mild n n' /\ shutting_down n' = shutting_down n /\ context_gone n' = context_gone n.
Proof.
  destruct ev as [c|c|c|c|c|c| | |xs|]; try done; intros _; cbn [teardown_step].
  - case_bool_decide; [|done]. intros [= <-]. pose proof (destroy_request_frame c n) as F.
    split; [by apply frame_mild|by destruct F].
  - case_bool_decide; [|done]. intros [= <-]. pose proof (post_frame c TRead n) as F.
    split; [by apply frame_mild|by destruct F].
  - unfold run_task. destruct (releasing n); [done|]. destruct (queue n) as [|[c k] q]; [done|].
    destruct (requests n !! c) as [r|]; cbn [mbind option_bind]; [|done].
    destruct (decide (k = TDestroy)); [intros [= <-]; by split; [apply same_calls_mild|]|].
    set (n1 := mkSystem _ _ _ _ _ _ _ _). assert (mild n n1) as M by by apply same_calls_mild.
    destruct (rq_gone r); intros [= <-]; [done|]. pose proof (reacts_frame c xs n1) as F.
    split; [etrans; [exact M|by apply frame_mild]|by destruct F].
  - unfold release_call. destruct (releasing n) as [c|]; cbn [mbind option_bind]; [|done].
    destruct (requests n !! c) as [r|] eqn:E; cbn [mbind option_bind]; [|done]. intros [= <-]. split; [|done].
    constructor; unfold phase_of; cbn; [done|..]; intros b; destruct (decide (c = b)) as [<-|Hne];
      rewrite ?lookup_insert_eq, ?(lookup_insert_ne _ c b) by done; rewrite ?E; try done; intros r' Hr Hg.
    + by rewrite Hr; cbn; rewrite Hg.
    + injection Hr as ->. by rewrite <- Hg.
    + by rewrite Hr; cbn; rewrite Hg.
Qed.

Lemma engine_events_mild (ev : event) (n n' : system) :
  (ev = BeginDestroy \/ ev = FinishDestroy) -> teardown_step true ev n = Some n' -> mild n n'.
Proof.
  intros [-> | ->]; cbn [teardown_step orb].
  - unfold begin_destroy. destruct (shutting_down n); [done|]. intros [= <-]. set (n1 := mkSystem _ _ _ _ _ _ _ _).
    etrans; [|apply frame_mild, destroys_frame]. by apply same_calls_mild.
  - unfold finish_destroy. destruct (_ && _); [|done]. intros [= <-]. by apply same_calls_mild.
Qed.

(** An engine that is not shutting down is still there. *)
Lemma open_context (n : system) : teardown_inv n -> shutting_down n = false -> context_gone n = false.
Proof. intros I Hs. destruct (context_gone n) eqn:E; [|done]. destruct (ti_context n I E). congruence. Qed.

Section ties.
Context (own : nat -> option nat) (n : system) (T : ties own n) (I : teardown_inv n).

Lemma ties_ext (own' : nat -> option nat) : (forall i, own' i = own i) -> ties own' n.
Proof.
  intros E. destruct T as [T1 T2 T3 T4]. constructor; try setoid_rewrite E; eauto.
Qed.

Lemma ties_mild (n' : system) : mild n n' -> ties own n'.
Proof.
  intros [M1 M2 M3 _]. destruct T as [T1 T2 T3 T4].
  constructor; setoid_rewrite M2 || idtac; rewrite ?M1; try done.
  intros b r Hr Hp Hn. assert (phase_of b n' = Some Started_) as E by (unfold phase_of; rewrite Hr; cbn; by rewrite Hp).
  rewrite M2 in E. unfold phase_of in E. destruct (requests n !! b) as [r0|] eqn:E0; [|done]. injection E as E.
  specialize (M3 b r0 E0 (T4 b r0 E0 E Hn)). rewrite Hr in M3. by injection M3.
Qed.

(** A thread registers a call. *)
Lemma ties_register (i b : nat) (n' : system) (own' : nat -> option nat) :
  shutting_down n = false -> register_call b n = Some n' -> own i = None ->
  own' i = Some b -> (forall j, j <> i -> own' j = own j) -> ties own' n'.
Proof.
  intros Hs H Hi Hi' Hj. destruct T as [T1 T2 T3 T4]. unfold register_call in H.
  case_bool_decide as Hn; [done|]. rewrite (open_context n I Hs), Hs in H.
  injection H as <-. apply eq_None_not_Some in Hn.
  assert (forall j b', own j = Some b' -> b <> b') as Hb.
  { intros j b' Hjb ->. destruct (T2 j b' Hjb) as (p & Hp & _). unfold phase_of in Hp. by rewrite Hn in Hp. }
  assert (forall j b', own' j = Some b' -> j = i /\ b' = b \/ j <> i /\ own j = Some b') as Hc.
  { intros j b' E. destruct (decide (j = i)) as [->|Hne]; [left; split; congruence|right]. by rewrite <- Hj. }
  constructor; unfold phase_of; cbn.
  - intros i1 i2 b' E1 E2. destruct (Hc _ _ E1) as [[-> ->]|[? ?]], (Hc _ _ E2) as [[-> ?]|[? ?]]; naive_solver.
  - intros j b' E. destruct (Hc _ _ E) as [[-> ->]|[? E']].
    + rewrite lookup_insert_eq. by eexists.
    + rewrite lookup_insert_ne by (by eapply Hb). by apply (T2 j).
  - intros b' p Hp Hor. destruct (decide (b' = b)) as [->|Hne]; [by exists i|].
    rewrite lookup_insert_ne in Hp by done. destruct (T3 b' p Hp Hor) as [j Hjb]. exists j.
    rewrite Hj; [done|]. intros ->. congruence.
  - intros b' r. destruct (decide (b' = b)) as [->|Hne]; [rewrite lookup_insert_eq; by intros [= <-]|].
    rewrite lookup_insert_ne by done. apply T4.
Qed.

(** It attaches the request, and starts it. *)
Lemma ties_attach (i b : nat) (n' : system) : own i = Some b -> attach_request b n = Some n' -> ties own n'.
Proof.
  intros Hi H. destruct T as [T1 T2 T3 T4]. unfold attach_request in H.
  destruct (requests n !! b) as [r|] eqn:E; cbn [mbind option_bind] in H; [|done]. case_bool_decide as Hp; [|done].
  injection H as <-. constructor; unfold phase_of; cbn; [done|..]; intros b'.
  - intros b2 Hb2. destruct (decide (b = b2)) as [<-|]; [rewrite lookup_insert_eq; by eexists|].
    rewrite lookup_insert_ne by done. by eapply T2.
  - intros p Hp' Hor. destruct (decide (b = b')) as [<-|]; [by exists i|]. rewrite lookup_insert_ne in Hp' by done. by eapply T3.
  - intros r'. destruct (decide (b = b')) as [<-|]; [rewrite lookup_insert_eq; by intros [= <-]|].
    rewrite lookup_insert_ne by done. apply T4.
Qed.

Lemma ties_start (i b : nat) (n' : system) : own i = Some b -> start_request b n = Some n' -> ties own n'.
Proof.
  intros Hi H. destruct T as [T1 T2 T3 T4]. unfold start_request in H.
  destruct (requests n !! b) as [r|] eqn:E; cbn [mbind option_bind] in H; [|done]. case_bool_decide as Hp; [|done].
  injection H as <-. constructor; unfold phase_of; cbn; [done|..]; intros b'.
  - intros b2 Hb2. destruct (decide (b = b2)) as [<-|]; [rewrite lookup_insert_eq; eexists; split; [done|set_solver]|].
    rewrite lookup_insert_ne by done. destruct (T2 b' b2 Hb2) as (p & Hp' & Hh). exists p. split; [done|set_solver].
  - intros p Hp' Hor. destruct (decide (b = b')) as [<-|]; [by exists i|]. rewrite lookup_insert_ne in Hp' by done.
    apply (T3 b' p); [done|set_solver].
  - intros r' Hr Hp' Hn. apply not_elem_of_union in Hn as [Hne Hn]. rewrite not_elem_of_singleton in Hne.
    rewrite lookup_insert_ne in Hr by done. by apply (T4 b').
Qed.

(** A thread frees its call. *)
Lemma ties_free (i b : nat) (n' : system) (own' : nat -> option nat) :
  own i = Some b -> free_call b n = Some n' -> own' i = None -> (forall j, j <> i -> own' j = own j) -> ties own' n'.
Proof.
  intros Hi H Hi' Hj. destruct T as [T1 T2 T3 T4]. unfold free_call in H.
  destruct (requests n !! b) as [r|] eqn:E; cbn [mbind option_bind] in H; [|done].
  destruct (bool_decide (b ∈ handles n) && rq_gone r) eqn:Eb; [|done]. injection H as <-.
  apply andb_true_iff in Eb as [Eh%bool_decide_eq_true Eg].
  assert (forall j b', own' j = Some b' -> own j = Some b' /\ b' <> b) as Hc.
  { intros j b' E'. assert (j <> i) as Hne by (intros ->; congruence). rewrite Hj in E' by done.
    split; [done|]. intros ->. by apply Hne, (T1 j i b). }
  constructor; unfold phase_of; cbn.
  - intros i1 i2 b' [E1 _]%Hc [E2 _]%Hc. by eapply T1.
  - intros j b' [E' Hne]%Hc. destruct (T2 j b' E') as (p & Hp & Hh). exists p. split; [done|set_solver].
  - intros b' p Hp Hor. assert (exists j, own j = Some b') as [j Hjb] by (apply (T3 b' p Hp); set_solver).
    exists j. rewrite Hj; [done|]. intros ->. assert (b' = b) as -> by congruence.
    destruct (ti_handles n I b Eh) as (r' & Hr' & Hs). unfold phase_of in Hp. rewrite Hr' in Hp. cbn in Hp. simplify_eq.
    set_solver.
  - intros b' r' Hr Hp Hn. destruct (decide (b' = b)) as [->|]; [congruence|]. apply (T4 b' r' Hr Hp). set_solver.
Qed.
End ties.

(** ** The steps of Python *)

(** What a thread keeps of a call when it moves on. *)
Definition keeps_call (i : nat) (p q : pc) (s : stack) : Prop :=
  role q = role p
  \/ (role p = None /\ role q = Some (inl tt))
  \/ (p = Claimed StartCall /\ role q = None /\ making s !! i = None).

Inductive python_case (i : nat) (ch : choice) (p : pc) (e' : engine) (s : stack) : stack -> Prop :=
| case_made c b : p = Claimed StartCall -> ch = Answer (Some c) -> making s !! i = Some b ->
    phase_of b (native s) = Some Started_ -> c ∉ allocated (python s) ->
    python_case i ch p e' s (mkStack e' (native s) (delete i (making s)) (<[c := b]> (calls s)))
| case_freed c b n' : p = Discarded c -> calls s !! c = Some b -> free_call b (native s) = Some n' ->
    python_case i ch p e' s (mkStack e' n' (making s) (calls s))
| case_destroyed n' : p = Destroying -> finish_destroy (native s) = Some n' ->
    python_case i ch p e' s (mkStack e' n' (making s) (calls s))
| case_kept bs n' : teardown_run true (CancelCall <$> bs) (native s) = Some n' ->
    keeps_call i p (goes_to (python s) p ch) s -> (p = Destroying -> finalizer_alive (python s) = false) ->
    python_case i ch p e' s (mkStack e' n' (making s) (calls s)).

Lemma python_cases (i : nat) (ch : choice) (s s' : stack) :
  python_step i ch s = Some s' ->
  exists p e', threads (python s) !! i = Some p /\ step i ch (python s) = Some e' /\ python_case i ch p e' s s'.
Proof.
  unfold python_step. destruct (threads (python s) !! i) as [p|] eqn:Hi; cbn [mbind option_bind]; [|done].
  destruct (step i ch (python s)) as [e'|] eqn:Hs; cbn [mbind option_bind]; [|done].
  destruct (answers i p ch s) as [evs|] eqn:Ha; cbn [mbind option_bind]; [|done].
  destruct (teardown_run true evs (native s)) as [n'|] eqn:Hr; cbn [mbind option_bind]; [|done].
  intros H. exists p, e'. split_and!; [done..|]. unfold step in Hs. rewrite Hi in Hs. unfold answers, hand_over in *.
  assert (forall bs, evs = CancelCall <$> bs -> keeps_call i p (goes_to (python s) p ch) s ->
    (p = Destroying -> finalizer_alive (python s) = false) -> python_case i ch p e' s (mkStack e' n' (making s) (calls s)))
    as Hkept by (intros bs -> ? ?; by eapply case_kept).
  unfold keeps_call in Hkept.
  destruct p as [|[]|c|c|c| | | |], ch as [| | | |[c'|]|]; try done; cbn [goes_to] in Hkept.
  - (* start *) injection H as <-. injection Ha as <-. apply (Hkept []); [done| |done]. destruct (handle _); [right; by left|by left].
  - injection H as <-. injection Ha as <-. apply (Hkept []); [done| |done]. destruct (handle _); by left.
  - (* close *) injection H as <-. destruct (handle (python s)).
    + injection Ha as <-. eapply Hkept; [done| |done]. left. by destruct (_ =? _).
    + injection Ha as <-. apply (Hkept []); [done|by left|done].
  - (* cronet_call_start returns *) case_bool_decide as Hc; [done|].
    destruct (making s !! i) as [b|] eqn:Hm; cbn [mbind option_bind] in Ha; [|done].
    destruct (decide _) as [Hp|]; [|done]. injection Ha as <-. cbn in Hr. injection Hr as <-. injection H as <-.
    by eapply case_made.
  - destruct (making s !! i) as [b|] eqn:Hm; [done|]. injection Ha as <-. injection H as <-.
    apply (Hkept []); [done|by right; right|done].
  - injection H as <-. injection Ha as <-. apply (Hkept []); [done|by left|done].
  - (* register *) injection H as <-. destruct (handle (python s)); [injection Ha as <-; apply (Hkept []); [done|by left|done]|].
    destruct (calls s !! c) as [b|]; cbn [mbind option_bind] in Ha; [|done]. injection Ha as <-. apply (Hkept [b]); [done|by left|done].
  - (* cancel *) injection H as <-. destruct (calls s !! c) as [b|]; cbn [mbind option_bind] in Ha; [|done].
    injection Ha as <-. apply (Hkept [b]); [done|by left|done].
  - injection H as <-. injection Ha as <-. apply (Hkept []); [done|by left|done].
  - (* free *) injection H as <-. destruct (calls s !! c) as [b|] eqn:Hb; cbn [mbind option_bind] in Ha; [|done].
    injection Ha as <-. cbn in Hr. destruct (free_call b (native s)) as [n1|] eqn:Hf; cbn in Hr; [|done].
    injection Hr as <-. by eapply case_freed.
  - injection H as <-. injection Ha as <-. apply (Hkept []); [done|by left|done].
  - injection H as <-. injection Ha as <-. apply (Hkept []); [done| |done]. left. by destruct (_ =? _).
  - (* the finalizer *) injection H as <-. destruct (finalizer_alive (python s)); injection Ha as <-.
    + cbn in Hr. destruct (finish_destroy (native s)) as [n1|] eqn:Hf; cbn in Hr; [|done]. injection Hr as <-.
      by eapply case_destroyed.
    + apply (Hkept []); [done|by left|done].
Qed.

Lemma cancels_frame (bs : list nat) (n n' : system) :
  teardown_run true (CancelCall <$> bs) n = Some n' -> frame n n' /\ teardown_run false (CancelCall <$> bs) n = Some n'.
Proof.
  revert n. induction bs as [|b bs IH]; intros n; [by intros [= <-]|]. cbn.
  case_bool_decide; cbn; [|done]. intros Hr. destruct (IH _ Hr) as [F H']. split; [|done].
  etrans; [apply destroy_request_frame|exact F].
Qed.

(** ** Owners *)

Lemma owned_role (s : stack) (i b : nat) : owned s i = Some b ->
  exists p, threads (python s) !! i = Some p /\ is_Some (role p) /\ holds p = true.
Proof.
  unfold owned. destruct (threads (python s) !! i) as [p|]; cbn [mbind option_bind]; [|done].
  intros H. exists p. split; [done|]. destruct p as [|[]|c|c|c| | | |]; by cbn in *.
Qed.

(** Once the engine may be destroyed nobody has a call. *)
Lemma nobody_owns (s : stack) (i : nat) :
  inv (python s) -> destroyed (python s) = true \/ Destroying ∈ threads (python s) -> owned s i = None.
Proof.
  intros I Hd. destruct (owned s i) as [b|] eqn:E; [|done]. apply owned_role in E as (p & Hp & _ & Hh).
  pose proof (inv_destroyed _ I Hd) as Hz. rewrite (inv_count _ I) in Hz.
  apply list_elem_of_lookup_2 in Hp. pose proof (holders_none _ _ Hz Hp). congruence.
Qed.

Lemma all_started (s : stack) :
  ties (owned s) (native s) -> teardown_inv (native s) -> (forall i, owned s i = None) ->
  quiet (native s) = true /\ handles (native s) = ∅.
Proof.
  intros T I Hn. split.
  - unfold quiet. apply bool_decide_eq_true. intros b r Hr. destruct (decide (rq_phase r = Started_)) as [|Hne]; [done|].
    destruct (tie_owned _ _ T b (rq_phase r)) as [i Hi]; [unfold phase_of; by rewrite Hr|by left|]. by rewrite Hn in Hi.
  - apply set_eq. intros b. split; [|set_solver]. intros Hb. exfalso.
    destruct (ti_handles _ I b Hb) as (r & Hr & _).
    destruct (tie_owned _ _ T b (rq_phase r)) as [i Hi]; [unfold phase_of; by rewrite Hr|by right|]. by rewrite Hn in Hi.
Qed.

(** ** Every step keeps the invariant *)

Lemma owned_move (s s' : stack) (i j : nat) (ch : choice) (p : pc) :
  threads (python s) !! i = Some p -> step i ch (python s) = Some (python s') -> j <> i ->
  making s' !! j = making s !! j ->
  (forall q c, threads (python s) !! j = Some q -> role q = Some (inr c) -> calls s' !! c = calls s !! c) ->
  owned s' j = owned s j.
Proof.
  intros Hi Hs Hj Hm Hc. unfold owned. destruct (step_roles i j ch p _ _ Hi Hs Hj) as [E _].
  destruct (threads (python s') !! j) as [q'|], (threads (python s) !! j) as [q|] eqn:Eq; try done; cbn [mbind option_bind].
  cbn in E. injection E as ->. destruct (role q) as [[[]|c]|] eqn:Er; cbn [mbind option_bind]; [done| |done].
  by eapply Hc.
Qed.

(** A thread that gains or loses no call leaves every other tie as it is. *)
Lemma python_kept (i : nat) (ch : choice) (p : pc) (s s' : stack) :
  stack_inv s -> threads (python s) !! i = Some p -> step i ch (python s) = Some (python s') ->
  making s' = making s -> calls s' = calls s -> keeps_call i p (goes_to (python s) p ch) s ->
  forall j, owned s' j = owned s j.
Proof.
  intros I Hi Hs Em Ec Hk j. destruct (decide (j = i)) as [->|Hj].
  - unfold owned. rewrite Hi, (proj1 (step_goes _ _ _ _ _ Hi Hs)), Em, Ec. cbn [mbind option_bind].
    destruct Hk as [->|[[Hp ->]|(-> & -> & Hm)]]; [done| |cbn; done]. rewrite Hp. cbn.
    destruct (making s !! i) as [b|] eqn:E; [|done]. pose proof (si_making s I i) as Hmk. rewrite E in Hmk.
    assert (Some p = Some (Claimed StartCall)) as [= ->] by (rewrite <- Hi; by apply Hmk). by cbn in Hp.
  - apply (owned_move s s' i j ch p); [done..| |]; congruence.
Qed.

(** A thread that has a handle after a step had it before, the one that was
    just given it apart. *)
Lemma handle_before (i j c : nat) (ch : choice) (p q' : pc) (s s' : stack) :
  threads (python s) !! i = Some p -> step i ch (python s) = Some (python s') ->
  (j = i -> keeps_call i p (goes_to (python s) p ch) s) ->
  threads (python s') !! j = Some q' -> role q' = Some (inr c) ->
  exists q, threads (python s) !! j = Some q /\ role q = Some (inr c).
Proof.
  intros Hi Hs Hk Hq Hr. destruct (decide (j = i)) as [->|Hj].
  - rewrite (proj1 (step_goes _ _ _ _ _ Hi Hs)) in Hq. injection Hq as <-. exists p. split; [done|].
    destruct (Hk eq_refl) as [E|[[_ E]|(_ & E & _)]]; congruence.
  - destruct (step_roles i j ch p _ _ Hi Hs Hj) as [E _]. rewrite Hq in E. cbn in E.
    destruct (threads (python s) !! j) as [q|]; [|done]. exists q. split; [done|]. cbn in E. congruence.
Qed.

Lemma making_after (i j : nat) (ch : choice) (p : pc) (s s' : stack) :
  stack_inv s -> threads (python s) !! i = Some p -> step i ch (python s) = Some (python s') ->
  (p = Claimed StartCall -> making s !! i = None) ->
  is_Some (making s !! j) -> threads (python s') !! j = Some (Claimed StartCall).
Proof.
  intros I Hi Hs Hp Hj. pose proof (si_making s I j Hj) as Ht. destruct (decide (j = i)) as [->|Hne].
  - rewrite Hi in Ht. injection Ht as ->. rewrite Hp in Hj by done. by destruct Hj.
  - by apply (step_roles i j ch p _ _ Hi Hs Hne).
Qed.

Lemma shutting_after (i : nat) (ch : choice) (p : pc) (s : stack) (e' : engine) (n' : system) :
  stack_inv s -> threads (python s) !! i = Some p -> step i ch (python s) = Some e' ->
  shutting_down n' = shutting_down (native s) ->
  shutting_down n' = true -> destroyed e' = true \/ Destroying ∈ threads e'.
Proof.
  intros I Hi Hs En Hn. rewrite En in Hn. pose proof (step_destroyed i ch p _ _ (si_python s I) Hi Hs) as Hd.
  destruct (si_shutting s I Hn) as [Hy|Hin]; [left; by rewrite Hd, Hy|]. apply list_elem_of_lookup in Hin as [j Hj].
  destruct (decide (j = i)) as [->|Hne].
  - rewrite Hi in Hj. injection Hj as ->. left. by rewrite Hd, bool_decide_eq_true_2, orb_true_r.
  - right. apply (list_elem_of_lookup_2 _ j). by apply (step_roles i j ch p _ _ Hi Hs Hne).
Qed.

Lemma phase_handle (n n' : system) (b : nat) : mild n n' ->
  phase_of b n = Some Started_ /\ b ∈ handles n -> phase_of b n' = Some Started_ /\ b ∈ handles n'.
Proof. intros [M1 M2 _ _]. by rewrite M1, M2. Qed.

Lemma kept_starting (i : nat) (p : pc) (ch : choice) (s : stack) :
  keeps_call i p (goes_to (python s) p ch) s -> p = Claimed StartCall -> making s !! i = None.
Proof. intros [E|[[E _]|(_ & _ & ?)]] ->; [by destruct ch as [| | | |[]|]|done..]. Qed.

Lemma finish_destroy_flags (n n' : system) : finish_destroy n = Some n' ->
  shutting_down n' = shutting_down n /\ context_gone n' = true.
Proof. unfold finish_destroy. destruct (_ && _); [|done]. by intros [= <-]. Qed.

Section python_step.
Context (i : nat) (ch : choice) (p : pc) (s : stack) (e' : engine).
Context (I : stack_inv s) (Hi : threads (python s) !! i = Some p) (Hs : step i ch (python s) = Some e').

Let Ie : inv e' := engine_inv_step _ _ _ _ (si_python s I) Hs.

Lemma inv_made (c b : nat) :
  p = Claimed StartCall -> ch = Answer (Some c) -> making s !! i = Some b ->
  phase_of b (native s) = Some Started_ -> c ∉ allocated (python s) ->
  stack_inv (mkStack e' (native s) (delete i (making s)) (<[c := b]> (calls s))).
Proof.
  intros -> -> Hmk Hp Hc. pose proof (step_destroyed i _ _ _ _ (si_python s I) Hi Hs) as Hd.
  pose proof (proj1 (step_goes _ _ _ _ _ Hi Hs)) as Hq. cbn in Hq. pose proof I as [_ In T Hm Hcalls _ Hg].
  assert (forall q j d, threads (python s) !! j = Some q -> role q = Some (inr d) -> d <> c) as Hdc.
  { intros q j d Hj Hr ->. apply Hc, (inv_allocated _ (si_python s I)), list_elem_of_omap. exists q.
    split; [by eapply list_elem_of_lookup_2|]. destruct q as [|[]|?|?|?| | | |]; cbn in *; congruence. }
  assert (owned s i = Some b) as Hob by (unfold owned; by rewrite Hi).
  constructor; cbn [python native making calls]; try done.
  - apply (ties_ext (owned s)); [done|]. intros j. destruct (decide (j = i)) as [->|Hj].
    + unfold owned at 1. cbn [python making calls]. rewrite Hq. cbn. rewrite lookup_insert_eq. by rewrite Hob.
    + apply (owned_move s _ i j (Answer (Some c)) (Claimed StartCall)); [done..| |]; cbn.
      * by rewrite lookup_delete_ne.
      * intros q d Hj' Hr. rewrite lookup_insert_ne; [done|]. by intros <-; eapply Hdc.
  - intros j Hj. destruct (decide (j = i)) as [->|Hne]; [rewrite lookup_delete_eq in Hj; by destruct Hj|].
    rewrite lookup_delete_ne in Hj by done. by apply (step_roles i j _ _ _ _ Hi Hs Hne), Hm.
  - intros j q d Hj Hr. destruct (decide (j = i)) as [->|Hne].
    + rewrite Hq in Hj. injection Hj as <-. cbn in Hr. injection Hr as <-. rewrite lookup_insert_eq. exists b.
      split; [done|]. destruct (tie_there _ _ T i b Hob) as (p' & Hp' & Hh). split; [done|]. apply Hh. congruence.
    + destruct (handle_before i j d (Answer (Some c)) (Claimed StartCall) q s (mkStack e' (native s) ∅ ∅)) as (q0 & Hq0 & Hr0); [done..|].
      destruct (Hcalls j q0 d Hq0 Hr0) as (b' & Hb' & Hrest). exists b'. rewrite lookup_insert_ne; [done|].
      intros <-. by eapply Hdc.
  - by eapply shutting_after.
  - by rewrite Hg, Hd, bool_decide_eq_false_2, orb_false_r.
Qed.

Lemma inv_freed (c b : nat) (n' : system) :
  p = Discarded c -> calls s !! c = Some b -> free_call b (native s) = Some n' ->
  stack_inv (mkStack e' n' (making s) (calls s)).
Proof.
  intros -> Hb Hf. pose proof (step_destroyed i _ _ _ _ (si_python s I) Hi Hs) as Hd.
  pose proof (proj1 (step_goes _ _ _ _ _ Hi Hs)) as Hq. cbn in Hq. pose proof I as [_ In T Hm Hcalls _ Hg].
  assert (owned s i = Some b) as Hob by (unfold owned; by rewrite Hi).
  assert (n' = mkSystem (requests (native s)) (handles (native s) ∖ {[b]}) (live (native s)) (shutting_down (native s))
    (context_gone (native s)) (queue (native s)) (releasing (native s)) (misused (native s))) as En.
  { unfold free_call in Hf. destruct (requests _ !! b); cbn in Hf; [|done]. destruct (_ && _); [|done]. by injection Hf. }
  constructor; cbn [python native making calls]; try done.
  - by eapply inv_free.
  - eapply (ties_free (owned s) (native s) T In i b); [done|done| |].
    + unfold owned. cbn [python]. by rewrite Hq.
    + intros j Hj. by apply (owned_move s _ i j ch (Discarded c)).
  - intros j. by apply (making_after i j ch (Discarded c) s (mkStack e' n' ∅ ∅)).
  - intros j q d Hj Hr. destruct (decide (j = i)) as [->|Hne]; [rewrite Hq in Hj; injection Hj as <-; done|].
    destruct (handle_before i j d ch (Discarded c) q s (mkStack e' n' ∅ ∅)) as (q0 & Hq0 & Hr0); [done..|].
    destruct (Hcalls j q0 d Hq0 Hr0) as (b' & Hb' & Hp' & Hh'). exists b'. split; [done|]. rewrite En. cbn.
    unfold phase_of in *. cbn. split; [done|]. apply elem_of_difference. split; [done|].
    intros ->%elem_of_singleton. apply Hne, (tie_one _ _ T j i b); [|done]. unfold owned. rewrite Hq0. cbn. by rewrite Hr0.
  - apply (shutting_after i ch (Discarded c) s e'); [done..|]. by rewrite En.
  - rewrite Hd, bool_decide_eq_false_2, orb_false_r, <- Hg by done. by rewrite En.
Qed.

(** The rest: the library does what is said about calls, or nothing. *)
Lemma inv_mildly (n' : system) :
  teardown_inv n' -> mild (native s) n' -> shutting_down n' = shutting_down (native s) ->
  context_gone n' = context_gone (native s) || bool_decide (p = Destroying) ->
  keeps_call i p (goes_to (python s) p ch) s -> stack_inv (mkStack e' n' (making s) (calls s)).
Proof.
  intros In' M Es Eg Hk. pose proof (step_destroyed i _ _ _ _ (si_python s I) Hi Hs) as Hd.
  pose proof I as [_ In T Hm Hcalls _ Hg]. constructor; cbn [python native making calls]; try done.
  - apply (ties_mild _ (native s)); [|done]. apply (ties_ext (owned s)); [done|].
    by apply (python_kept i ch p s (mkStack e' n' (making s) (calls s))).
  - intros j. apply (making_after i j ch p s (mkStack e' n' ∅ ∅)); [done..|]. by eapply kept_starting.
  - intros j q d Hj Hr. destruct (handle_before i j d ch p q s (mkStack e' n' ∅ ∅)) as (q0 & Hq0 & Hr0); [done..|].
    destruct (Hcalls j q0 d Hq0 Hr0) as (b' & Hb' & Hp'). exists b'. split; [done|]. by eapply phase_handle.
  - by apply (shutting_after i ch p s e').
  - by rewrite Eg, Hd, Hg.
Qed.
End python_step.

Lemma inv_python (i : nat) (ch : choice) (s s' : stack) :
  stack_inv s -> python_step i ch s = Some s' -> stack_inv s'.
Proof.
  intros I H. apply python_cases in H as (p & e' & Hi & Hs & Hc).
  destruct Hc as [c b ? ? ? ? ?|c b n' ? ? ?|n' -> Hf|bs n' Hr Hk Hfin].
  - by eapply inv_made.
  - by eapply inv_freed.
  - destruct (finish_destroy_flags _ _ Hf) as [Es Eg]. eapply (inv_mildly i ch Destroying); try done.
    + eapply inv_finish_destroy; [apply I|done].
    + by apply (engine_events_mild FinishDestroy); [right|].
    + by rewrite Eg, bool_decide_eq_true_2, orb_true_r.
    + by left.
  - destruct (cancels_frame _ _ _ Hr) as [F Hr']. eapply (inv_mildly i ch p); try done.
    + eapply teardown_inv_run; [apply I|done].
    + by apply frame_mild.
    + by destruct F.
    + replace (context_gone n') with (context_gone (native s)) by (symmetry; apply F).
      case_bool_decide as Hp; [|by rewrite orb_false_r]. exfalso. subst p.
      pose proof (inv_final _ (si_python s I)) as Hf. rewrite Hfin in Hf by done.
      pose proof (inv_closer _ (si_python s I)) as Hcl. destruct (destroyed (python s)); [|done].
      assert (0 < count closes (threads (python s))) by (apply (count_pos _ Destroying); [by eapply list_elem_of_lookup_2|done]).
      destruct (handle (python s)); cbn in Hcl; lia.
Qed.

(** A thread inside the library. *)
Lemma inv_mild_native (s : stack) (n' : system) :
  stack_inv s -> teardown_inv n' -> mild (native s) n' -> context_gone n' = context_gone (native s) ->
  (shutting_down n' = true -> shutting_down (native s) = true \/ Destroying ∈ threads (python s)) ->
  stack_inv (mkStack (python s) n' (making s) (calls s)).
Proof.
  intros [Ip In T Hm Hcalls Hsh Hg] In' M Eg Es. constructor; cbn [python native making calls]; try done.
  - by apply (ties_mild _ (native s)).
  - intros j q d Hj Hr. destruct (Hcalls j q d Hj Hr) as (b' & Hb' & Hp'). exists b'. split; [done|]. by eapply phase_handle.
  - intros [Hs|Hs]%Es; [by apply Hsh|by right].
  - by rewrite Eg.
Qed.

(** While some thread has a call, or is about to, nothing is shutting down. *)
Lemma open_while_held (s : stack) (i : nat) (p : pc) :
  stack_inv s -> threads (python s) !! i = Some p -> holds p = true -> shutting_down (native s) = false.
Proof.
  intros I Hi Hp. destruct (shutting_down (native s)) eqn:Es; [|done].
  pose proof (inv_destroyed _ (si_python s I) (si_shutting s I Es)) as Hz. rewrite (inv_count _ (si_python s I)) in Hz.
  pose proof (holders_none _ _ Hz (list_elem_of_lookup_2 _ _ _ Hi)). congruence.
Qed.

Lemma inv_registered (i b : nat) (s : stack) (n' : system) :
  stack_inv s -> threads (python s) !! i = Some (Claimed StartCall) -> making s !! i = None ->
  register_call b (native s) = Some n' ->
  stack_inv (mkStack (python s) n' (if shutting_down (native s) then making s else <[i := b]> (making s)) (calls s)).
Proof.
  intros I Hi Hm H. pose proof (open_while_held s i _ I Hi eq_refl) as Es. rewrite Es.
  pose proof (open_context _ (si_native s I) Es) as Ec.
  pose proof (inv_register b _ _ (si_native s I) Ec H) as In'. pose proof I as [Ip In T Hmk Hcalls Hsh Hg].
  assert (forall j, j <> i -> owned (mkStack (python s) n' (<[i := b]> (making s)) (calls s)) j = owned s j) as Ho.
  { intros j Hj. unfold owned. cbn. by rewrite lookup_insert_ne. }
  assert (shutting_down n' = false /\ context_gone n' = context_gone (native s)
    /\ (forall d, phase_of d (native s) = Some Started_ -> phase_of d n' = Some Started_) /\ handles n' = handles (native s))
    as (Es' & Eg' & Hst & Eh).
  { unfold register_call in H. case_bool_decide as Hn; [done|]. rewrite Ec, Es in H. injection H as <-. cbn. split_and!; [done|done| |done].
    intros d Hd. unfold phase_of. cbn. rewrite lookup_insert_ne; [done|]. intros <-. apply Hn. unfold phase_of in Hd.
    destruct (requests (native s) !! b); [by eexists|done]. }
  constructor; cbn [python native making calls]; try done.
  - eapply (ties_register (owned s) (native s) T In i b); [done|done| | |done].
    + unfold owned. rewrite Hi. cbn. by rewrite Hm.
    + unfold owned. cbn. rewrite Hi. cbn. by rewrite lookup_insert_eq.
  - intros j Hj. destruct (decide (j = i)) as [->|Hne]; [done|]. rewrite lookup_insert_ne in Hj by done. by apply Hmk.
  - intros j q d Hj Hr. destruct (Hcalls j q d Hj Hr) as (b' & Hb' & Hp' & Hh'). exists b'. rewrite Eh. eauto.
  - by rewrite Es'.
  - by rewrite Eg'.
Qed.

Lemma inv_starting (i b : nat) (s : stack) (ev : event) (n' : system) :
  stack_inv s -> owned s i = Some b -> (ev = Attach b /\ phase_of b (native s) = Some Registered
    \/ ev = CallStart b /\ phase_of b (native s) = Some Attached) ->
  teardown_step true ev (native s) = Some n' ->
  stack_inv (mkStack (python s) n' (making s) (calls s)).
Proof.
  intros I Ho Hev H. pose proof I as [Ip In T Hmk Hcalls Hsh Hg].
  assert (teardown_inv n' /\ ties (owned s) n') as [In' T'].
  { destruct Hev as [[-> _]|[-> _]]; cbn in H; split;
      [by eapply inv_attach|by eapply ties_attach|by eapply inv_start|by eapply ties_start]. }
  assert (shutting_down n' = shutting_down (native s) /\ context_gone n' = context_gone (native s)
    /\ forall d, phase_of d (native s) = Some Started_ /\ d ∈ handles (native s) ->
         phase_of d n' = Some Started_ /\ d ∈ handles n') as (Es' & Eg' & Hst).
  { destruct Hev as [[-> Hp]|[-> Hp]]; cbn in H; unfold attach_request, start_request in H;
      (destruct (requests (native s) !! b) as [r|] eqn:E; cbn [mbind option_bind] in H; [|done]);
      (case_bool_decide; [|done]); injection H as <-; cbn; (split_and!; [done|done|]); intros d [Hd Hh];
      (assert (b <> d) as Hne by (intros <-; congruence)); unfold phase_of in *; cbn; rewrite lookup_insert_ne by done;
      (split; [done|set_solver]). }
  constructor; cbn [python native making calls]; try done.
  - intros j q d Hj Hr. destruct (Hcalls j q d Hj Hr) as (b' & Hb' & Hp'). exists b'. split; [done|by apply Hst].
  - by rewrite Es'.
  - by rewrite Eg'.
Qed.

(** What [inside] asks of the library, and where the thread stands. *)
Lemma inside_cases (i fresh : nat) (p : pc) (s : stack) (ev : event) :
  inside i p fresh s = Some ev ->
  (p = Claimed StartCall /\ making s !! i = None /\ ev = Register fresh)
  \/ (exists b, p = Claimed StartCall /\ making s !! i = Some b
        /\ (ev = Attach b /\ phase_of b (native s) = Some Registered
            \/ ev = CallStart b /\ phase_of b (native s) = Some Attached))
  \/ (is_Some (role p) /\ on_calls ev = true)
  \/ (p = Destroying /\ ev = BeginDestroy).
Proof.
  destruct p as [|[]|c|c|c| | | |]; cbn; try done.
  - destruct (making s !! i) as [b|]; [|intros [= <-]; by left]. intros H. right. left. exists b. split_and!; [done..|].
    destruct (phase_of b (native s)) as [[]|]; try done; injection H as <-; [by left|by right].
  - destruct (calls s !! c); [|done]. intros [= <-]. right. right. left. by split.
  - destruct (calls s !! c); [|done]. intros [= <-]. right. right. left. by split.
  - destruct (finalizer_alive _); [|done]. intros [= <-]. by right; right; right.
Qed.

(** No call is being started when the engine is destroyed. *)
Lemma inv_native_false (i fresh : nat) (p : pc) (s : stack) (ev : event) (n' : system) :
  stack_inv s -> threads (python s) !! i = Some p -> inside i p fresh s = Some ev ->
  teardown_step true ev (native s) = Some n' -> teardown_step false ev (native s) = Some n'.
Proof.
  intros I Hi Hin H. destruct ev; try done; cbn [teardown_step orb] in *.
  { apply inside_cases in Hin as [(-> & _ & _)|[(b & _ & _ & [[? _]|[? _]])|[[_ ?]|[_ ?]]]]; try done.
    by rewrite (open_context _ (si_native s I) (open_while_held s i _ I Hi eq_refl)). }
  apply inside_cases in Hin as [(_ & _ & ?)|[(b & _ & _ & [[? _]|[? _]])|[[_ ?]|[-> _]]]]; try done.
  destruct (all_started s (si_ties s I) (si_native s I)) as [Hq _]; [|by rewrite Hq].
  intros j. apply nobody_owns; [apply I|]. right. by eapply list_elem_of_lookup_2.
Qed.

Lemma inv_native (i fresh : nat) (s s' : stack) :
  stack_inv s -> native_step i fresh s = Some s' -> stack_inv s'.
Proof.
  intros I. unfold native_step. destruct (threads (python s) !! i) as [p|] eqn:Hi; cbn [mbind option_bind]; [|done].
  destruct (inside i p fresh s) as [ev|] eqn:Hin; cbn [mbind option_bind]; [|done].
  destruct (teardown_step true ev (native s)) as [n'|] eqn:H; cbn [mbind option_bind]; [|done]. intros [= <-].
  pose proof (inv_native_false _ _ _ _ _ _ I Hi Hin H) as Hf.
  pose proof (teardown_inv_step _ _ _ (si_native s I) Hf) as In'.
  apply inside_cases in Hin as [(-> & Hm & ->)|[(b & -> & Hm & Hev)|[[_ Hev]|[-> ->]]]].
  - by apply inv_registered.
  - assert (owned s i = Some b) as Ho by (unfold owned; by rewrite Hi).
    pose proof (inv_starting i b s ev n' I Ho Hev H). by destruct Hev as [[-> _]|[-> _]].
  - destruct (on_calls_mild _ _ _ Hev H) as (M & Es & Eg). destruct ev; try done;
      (apply inv_mild_native; [done..|]; rewrite Es; by left).
  - apply inv_mild_native; [done|done|by apply (engine_events_mild BeginDestroy); [left|]| |].
    + cbn in H. unfold begin_destroy in H. destruct (shutting_down (native s)); [done|]. injection H as <-.
      by destruct (destroys_frame (elements (live (native s)))
        (mkSystem (requests (native s)) (handles (native s)) (live (native s)) true (context_gone (native s))
           (queue (native s)) (releasing (native s)) (misused (native s)))).
    + intros _. right. by eapply list_elem_of_lookup_2.
Qed.

Lemma inv_network (ev : event) (s s' : stack) :
  stack_inv s -> network_step ev s = Some s' -> stack_inv s'.
Proof.
  intros I. unfold network_step. destruct (is_network ev) eqn:Hn; [|done].
  destruct (teardown_step true ev (native s)) as [n'|] eqn:H; cbn [mbind option_bind]; [|done]. intros [= <-].
  assert (on_calls ev = true) as Hc by by destruct ev.
  assert (teardown_inv n') as In' by (apply (teardown_inv_step ev (native s)); [apply I|by destruct ev]).
  destruct (on_calls_mild _ _ _ Hc H) as (M & Es & Eg). apply inv_mild_native; [done..|]. rewrite Es. by left.
Qed.

Lemma stack_inv_step (m : move) (s s' : stack) : stack_inv s -> stack_step m s = Some s' -> stack_inv s'.
Proof. destruct m; cbn; [apply inv_python|apply inv_native|apply inv_network]. Qed.

Lemma stack_inv_run (schedule : list move) (s s' : stack) :
  stack_inv s -> stack_run schedule s = Some s' -> stack_inv s'.
Proof.
  revert s. induction schedule as [|m schedule IH]; intros s I; cbn; [by intros [= <-]|].
  destruct (stack_step m s) as [s1|] eqn:E; cbn; [|done]. apply IH. by eapply stack_inv_step.
Qed.

Lemma stack_inv_init (n : nat) : stack_inv (stack_init n).
Proof.
  assert (forall i p, replicate n Ready !! i = Some p -> p = Ready) as Hr by (intros i p Hp; by apply lookup_replicate in Hp as [? _]).
  constructor; cbn; try done.
  - apply inv_open.
  - assert (forall i, owned (stack_init n) i = None) as Ho.
    { intros i. unfold owned. cbn. destruct (replicate n Ready !! i) as [p|] eqn:E; [|done]. by apply Hr in E as ->. }
    constructor.
    + intros i j b Hi. by rewrite Ho in Hi.
    + intros i b Hi. by rewrite Ho in Hi.
    + intros b p Hp. unfold phase_of in Hp. cbn in Hp. by rewrite lookup_empty in Hp.
    + intros b r Hb. cbn in Hb. by rewrite lookup_empty in Hb.
  - intros i [? ?]. by rewrite lookup_empty in *.
  - intros i p c Hp. by apply Hr in Hp as ->.
Qed.

(** ** Neither side does what the other must not see *)

Lemma python_projects (m : move) (s s' : stack) :
  stack_step m s = Some s' -> exists schedule, run schedule (python s) = Some (python s').
Proof.
  destruct m as [i ch|i fresh|ev]; cbn.
  - intros H. apply python_cases in H as (p & e' & _ & Hs & Hc). exists [(i, ch)]. cbn. rewrite Hs. by destruct Hc.
  - unfold native_step. destruct (threads (python s) !! i) as [p|]; cbn [mbind option_bind]; [|done].
    destruct (inside i p fresh s) as [ev|]; cbn [mbind option_bind]; [|done].
    destruct (teardown_step true ev (native s)); cbn [mbind option_bind]; [|done]. intros [= <-]. by exists [].
  - unfold network_step. destruct (is_network ev); [|done]. destruct (teardown_step _ _ _); cbn; [|done].
    intros [= <-]. by exists [].
Qed.

Lemma native_projects (m : move) (s s' : stack) :
  stack_inv s -> stack_step m s = Some s' ->
  exists schedule, teardown_run false schedule (native s) = Some (native s').
Proof.
  intros I. destruct m as [i ch|i fresh|ev]; cbn.
  - intros H. apply python_cases in H as (p & e' & _ & _ & Hc).
    destruct Hc as [c b ? ? ? ? ?|c b n' _ _ Hf|n' _ Hf|bs n' Hr _ _]; cbn [native].
    + by exists [].
    + exists [FreeCall b]. cbn. by rewrite Hf.
    + exists [FinishDestroy]. cbn. by rewrite Hf.
    + exists (CancelCall <$> bs). by apply cancels_frame.
  - unfold native_step. destruct (threads (python s) !! i) as [p|] eqn:Hi; cbn [mbind option_bind]; [|done].
    destruct (inside i p fresh s) as [ev|] eqn:Hin; cbn [mbind option_bind]; [|done].
    destruct (teardown_step true ev (native s)) as [n'|] eqn:H; cbn [mbind option_bind]; [|done]. intros [= <-].
    pose proof (inv_native_false _ _ _ _ _ _ I Hi Hin H) as Hf. exists [ev]. cbn [teardown_run]. by rewrite Hf.
  - unfold network_step. destruct (is_network ev) eqn:Hn; [|done].
    destruct (teardown_step true ev (native s)) as [n'|] eqn:H; cbn [mbind option_bind]; [|done]. intros [= <-].
    exists [ev]. cbn [teardown_run]. replace (teardown_step false ev (native s)) with (Some n') by by destruct ev. done.
Qed.

Lemma run_app (l k : list (nat * choice)) (e : engine) : run (l ++ k) e = run l e ≫= run k.
Proof. revert e. induction l as [|[i ch] l IH]; intros e; [done|]. cbn. destruct (step i ch e); [apply IH|done]. Qed.

Lemma teardown_run_app (o : bool) (l k : list event) (n : system) :
  teardown_run o (l ++ k) n = teardown_run o l n ≫= teardown_run o k.
Proof. revert n. induction l as [|ev l IH]; intros n; [done|]. cbn. destruct (teardown_step o ev n); [apply IH|done]. Qed.

(** C16: the two models fit together.  Whatever Python's threads, the steps
    they take inside the library and the network thread do, what Python sees
    is a run of its model, and what the library sees is a run of its own in
    which the engine is never destroyed while a call is being started. *)
Theorem stack_refines (n : nat) (schedule : list move) (s : stack)
    (Hrun : stack_run schedule (stack_init n) = Some s) :
  Engine.reachable n (python s)
  /\ exists events, teardown_run false events system_init = Some (native s).
Proof.
  assert (forall s0, stack_inv s0 -> stack_run schedule s0 = Some s ->
    (exists l, run l (python s0) = Some (python s)) /\ exists l, teardown_run false l (native s0) = Some (native s)) as H.
  { clear Hrun. induction schedule as [|m schedule IH]; intros s0 I; cbn; [intros [= <-]; split; by exists []|].
    destruct (stack_step m s0) as [s1|] eqn:E; cbn; [|done]. intros Hr.
    destruct (IH s1 (stack_inv_step _ _ _ I E) Hr) as [[l Hl] [k Hk]].
    destruct (python_projects _ _ _ E) as [l0 Hl0], (native_projects _ _ _ I E) as [k0 Hk0]. split.
    - exists (l0 ++ l). by rewrite run_app, Hl0.
    - exists (k0 ++ k). by rewrite teardown_run_app, Hk0. }
  exact (H _ (stack_inv_init n) Hrun).
Qed.

(** The library is idle once it is being shut down from Python. *)
Lemma shutting_idle (s : stack) :
  stack_inv s -> shutting_down (native s) = true ->
  handles (native s) = ∅ /\ live (native s) = ∅ /\ owed_tasks (native s) = 0.
Proof.
  intros I Hs. pose proof I as [Ip In T _ _ Hsh _].
  destruct (all_started s T In) as [Hq Hh]; [intros i; by apply nobody_owns, Hsh|].
  unfold quiet in Hq. apply bool_decide_eq_true in Hq.
  assert (forall b, tasks b (queue (native s)) = [] /\ is_live b (native s) = false /\ is_releasing b (native s) = false) as Hall.
  { intros b. pose proof (ti_calls _ In b) as Hb. unfold good_at in Hb. destruct (requests (native s) !! b) as [r|] eqn:E; [|done].
    assert (rq_gone r = true) as Hgone by (apply (tie_freed _ _ T b r E); [by apply (Hq b r)|by rewrite Hh]).
    inversion Hb as [? ? Ht Hl Hr|? ? Ht Hl Hr|? ? Ht Hl Hr|Ht Hl Hr|Ht Hl Hr]; subst; by cbn in *. }
  split_and!; [done| |].
  - apply set_eq. intros b. split; [|set_solver]. intros Hb. destruct (Hall b) as (_ & Hl & _).
    by apply bool_decide_eq_false in Hl.
  - unfold owed_tasks. destruct (releasing (native s)) as [b|] eqn:Er.
    { destruct (Hall b) as (_ & _ & Hr). by apply bool_decide_eq_false in Hr. }
    destruct (queue (native s)) as [|[b k] q] eqn:Eq; [done|]. destruct (Hall b) as (Ht & _ & _).
    cbn in Ht. by rewrite decide_True in Ht.
Qed.

(** C2: nothing is used after it is gone, on either side of the interface.  In
    every state the two reach together no freed call or engine has been used
    by Python and no deleted request or engine by the library; the engine is
    gone for both or for neither; while a thread is starting, using or freeing
    a call the library is not shutting down, so it never refuses a call for
    that; and when it does shut down there is nothing left to wait for. *)
Theorem stack_safe (n : nat) (schedule : list move) (s : stack)
    (Hrun : stack_run schedule (stack_init n) = Some s) :
  fault (python s) = false /\ misused (native s) = false
  /\ context_gone (native s) = destroyed (python s)
  /\ (forall i p, threads (python s) !! i = Some p -> holds p = true -> shutting_down (native s) = false)
  /\ (shutting_down (native s) = true ->
        handles (native s) = ∅ /\ live (native s) = ∅ /\ owed_tasks (native s) = 0).
Proof.
  pose proof (stack_inv_run _ _ _ (stack_inv_init n) Hrun) as I. split_and!.
  - apply (inv_fault _ (si_python s I)).
  - apply (ti_misused _ (si_native s I)).
  - apply I.
  - intros i p. by apply open_while_held.
  - by apply shutting_idle.
Qed.

(** ** Closing ends, with the library's work *)

(** What a thread inside the library has left to do there. *)
Definition inner (s : stack) (i : nat) (p : pc) : nat :=
  match p with
  | Claimed StartCall =>
      match making s !! i with
      | None => 3
      | Some b => match phase_of b (native s) with Some Registered => 2 | Some Attached => 1 | _ => 0 end
      end
  | Discarded c =>
      match calls s !! c ≫= fun b => requests (native s) !! b with
      | Some r => if rq_destroy r then 0 else 1
      | None => 1
      end
  | Destroying => if shutting_down (native s) then 0 else 1
  | _ => 0
  end.

(** The moves that get a closing session on: what threads owe, inside the
    library or not.  Reading, cancelling and asking for more are not among them. *)
Definition due (m : move) (s : stack) : bool :=
  match m with
  | Python _ ch => owed ch
  | Native i _ => match threads (python s) !! i with Some p => 0 <? inner s i p | None => false end
  | Network _ => false
  end.

Definition is_network_move (m : move) : bool := match m with Network _ => true | _ => false end.

(** An entry of [threads] is one use of the engine.  A thread may have several:
    the block of a [stream] holds its call while the same thread makes other
    requests or closes the session.  It is inside one method at a time, so a
    use gets on while the others of its thread hold their calls at most. *)
Definition at_rest (p : pc) : bool := match p with Ready | Running _ => true | _ => false end.

Section turns.
Context (owner : nat -> nat)      (* the thread each use is made by *)
        (dropped : nat -> bool).  (* the uses whose call nobody will close any more *)

Definition turn (i : nat) (s : stack) : bool :=
  match threads (python s) !! i with Some (Running _) => negb (dropped i) | _ => true end
  && forallb (fun j => (j =? i) || negb (owner j =? owner i) || from_option at_rest true (threads (python s) !! j))
       (seq 0 (length (threads (python s)))).

Definition allowed (m : move) (s : stack) : bool :=
  match m with Python i _ | Native i _ => turn i s | Network _ => true end.

Fixpoint scheduled (schedule : list move) (s : stack) : option stack :=
  match schedule with
  | [] => Some s
  | m :: schedule => if allowed m s then s ← stack_step m s; scheduled schedule s else None
  end.

(** Only the moves that are due, and the network thread's. *)
Fixpoint collect (schedule : list move) (s : stack) : option stack :=
  match schedule with
  | [] => Some s
  | m :: schedule =>
      if allowed m s && (due m s || is_network_move m) then s ← stack_step m s; collect schedule s else None
  end.

Definition advances (s : stack) : Prop :=
  exists m s', allowed m s = true /\ due m s = true /\ stack_step m s = Some s'.

(** A call that is held for good: its thread dropped it unclosed, or is inside
    [close] itself. *)
Definition stranded (s : stack) (i : nat) : Prop :=
  exists c, threads (python s) !! i = Some (Running c)
    /\ (dropped i = true
        \/ exists j q, owner j = owner i /\ threads (python s) !! j = Some q /\ closes q = true).
End turns.

(** No thread is inside two methods. *)
Definition disciplined (owner : nat -> nat) (s : stack) : Prop :=
  forall i j p q, i <> j -> owner i = owner j -> threads (python s) !! i = Some p -> threads (python s) !! j = Some q ->
    at_rest p = true \/ at_rest q = true.

(** How many there can be. *)
Definition inner_sum (s : stack) (l : list pc) : nat := sum_list (imap (inner s) l).
Definition stack_left (s : stack) : nat := 4 * left (python s) + inner_sum s (threads (python s)).

Lemma sum_imap_le (f g : nat -> pc -> nat) (l k : list pc) :
  (forall i p q, l !! i = Some p -> k !! i = Some q -> f i p <= g i q) -> length l = length k ->
  sum_list (imap f l) <= sum_list (imap g k).
Proof.
  revert f g k. induction l as [|p l IH]; intros f g [|q k] H E; cbn in *; try lia.
  pose proof (H 0 p q eq_refl eq_refl). assert (sum_list (imap (f ∘ S) l) <= sum_list (imap (g ∘ S) k)); [|lia].
  apply IH; [|lia]. intros i. apply (H (S i)).
Qed.

Lemma sum_imap_at (f g : nat -> pc -> nat) (l k : list pc) (i d d' : nat) (p q : pc) :
  l !! i = Some p -> k !! i = Some q -> length l = length k ->
  (forall j p q, j <> i -> l !! j = Some p -> k !! j = Some q -> f j p <= g j q) ->
  f i p + d <= g i q + d' -> sum_list (imap f l) + d <= sum_list (imap g k) + d'.
Proof.
  revert f g k i. induction l as [|x l IH]; intros f g [|y k] [|i] Hi Hk E H Hd; cbn in *; try done.
  - injection Hi as ->. injection Hk as ->. assert (sum_list (imap (f ∘ S) l) <= sum_list (imap (g ∘ S) k)); [|lia].
    apply sum_imap_le; [|lia]. intros j p' q' Hp' Hq'. by apply (H (S j)).
  - pose proof (H 0 x y ltac:(lia) eq_refl eq_refl).
    assert (sum_list (imap (f ∘ S) l) + d <= sum_list (imap (g ∘ S) k) + d'); [|lia].
    apply (IH (f ∘ S) (g ∘ S) k i); [done|done|lia| |done]. intros j p' q' Hne. apply (H (S j)). lia.
Qed.

(** The library's answers leave no thread more to do. *)
Lemma inner_mild (s : stack) (n' : system) (j : nat) (p : pc) :
  mild (native s) n' -> (shutting_down (native s) = true -> shutting_down n' = true) ->
  inner (mkStack (python s) n' (making s) (calls s)) j p <= inner s j p.
Proof.
  intros [M1 M2 M3 M4] Hs. destruct p as [|[]|c|c|c| | | |]; cbn; try lia.
  - destruct (making s !! j); [|lia]. by rewrite M2.
  - destruct (calls s !! c) as [b|]; cbn [mbind option_bind]; [|lia].
    destruct (requests (native s) !! b) as [r|] eqn:E; [|by destruct (requests n' !! b) as [r'|]; [destruct (rq_destroy r')|]; lia].
    destruct (rq_destroy r) eqn:Ed.
    + specialize (M4 b r E Ed). destruct (requests n' !! b) as [r'|]; [|done]. injection M4 as ->. lia.
    + destruct (requests n' !! b) as [r'|]; [destruct (rq_destroy r')|]; lia.
  - destruct (shutting_down (native s)); [by rewrite Hs|]. destruct (shutting_down n'); lia.
Qed.

Lemma inner_at_most (s : stack) (i : nat) (p : pc) : inner s i p <= 3.
Proof. unfold inner. repeat case_match; lia. Qed.

Lemma inner_wake (s : stack) (i : nat) (p : pc) : inner s i (wake p) = inner s i p.
Proof. by destruct p. Qed.

Lemma threads_length (i : nat) (ch : choice) (e e' : engine) :
  step i ch e = Some e' -> length (threads e') = length (threads e).
Proof.
  unfold step, claim, begin_close. destruct (threads e !! i) as [p|] eqn:Hi; [|done].
  destruct p as [|[]|c|c|c| | | |], ch as [| | | |[c'|]|]; try done; intros H;
    try destruct (handle e); cbn in H; repeat (case_bool_decide; try done); simplify_eq; try done;
    unfold register, finalize, close_test, take_handle, release; cbn; try (destruct (handle e)); try (destruct (finalizer_alive e)); cbn;
    by rewrite ?length_fmap, ?length_insert.
Qed.

(** The network thread. *)
Lemma left_network (ev : event) (s s' : stack) : network_step ev s = Some s' -> stack_left s' <= stack_left s.
Proof.
  unfold network_step. destruct (is_network ev) eqn:Hn; [|done].
  destruct (teardown_step true ev (native s)) as [n'|] eqn:H; cbn [mbind option_bind]; [|done]. intros [= <-].
  assert (on_calls ev = true) as Hc by by destruct ev. destruct (on_calls_mild _ _ _ Hc H) as (M & Es & _).
  unfold stack_left, inner_sum. cbn [python]. apply Nat.add_le_mono_l, sum_imap_le; [|done].
  intros j p q Hp Hq. rewrite Hp in Hq. injection Hq as <-. apply inner_mild; [done|]. by rewrite Es.
Qed.

(** A thread of Python that moves on. *)
Lemma inner_python (i j : nat) (ch : choice) (p q : pc) (e' : engine) (s s' : stack) :
  threads (python s) !! i = Some p -> python_case i ch p e' s s' -> stack_inv s -> j <> i ->
  threads (python s) !! j = Some q -> inner s' j q <= inner s j q.
Proof.
  intros Hi Hc I Hne Hj. destruct Hc as [c b -> -> Hm Hp Hc|c b n' -> Hb Hf|n' -> Hf|bs n' Hr Hk Hfin].
  - destruct q as [|[]|d|d|d| | | |]; cbn; try lia; [by rewrite lookup_delete_ne|]. rewrite lookup_insert_ne; [lia|].
    intros <-. apply Hc, (inv_allocated _ (si_python s I)), list_elem_of_omap. eexists. split; [by eapply list_elem_of_lookup_2|done].
  - unfold free_call in Hf. destruct (requests (native s) !! b); cbn in Hf; [|done]. destruct (_ && _); [|done]. by injection Hf as <-.
  - pose proof (finish_destroy_flags _ _ Hf) as [Es _].
    apply (inner_mild s n' j q); [by apply (engine_events_mild FinishDestroy); [right|]|by rewrite Es].
  - destruct (cancels_frame _ _ _ Hr) as [F _]. apply (inner_mild s n' j q); [by apply frame_mild|by destruct F as [_ _ -> _]].
Qed.

Lemma left_python (i : nat) (ch : choice) (s s' : stack) :
  stack_inv s -> owed ch = true -> python_step i ch s = Some s' -> stack_left s' < stack_left s.
Proof.
  intros I Ho H. apply python_cases in H as (p & e' & Hi & Hs & Hc).
  assert (python s' = e') as E by by destruct Hc. rewrite <- E in Hs.
  pose proof (owed_decreases _ _ _ _ (si_python s I) Ho Hs) as Hl. unfold stack_left.
  assert (inner_sum s' (threads (python s')) + 0 <= inner_sum s (threads (python s)) + 3); [|lia].
  destruct (step_goes _ _ _ _ _ Hi Hs) as [Hq Hothers]. unfold inner_sum.
  eapply sum_imap_at; [exact Hq|exact Hi|by eapply threads_length| |].
  - intros j q' q Hne Hq' Hj. assert (inner s' j q' = inner s' j q) as ->.
    { destruct (Hothers j Hne) as [Ej|Ej]; rewrite Hq', Hj in Ej; cbn in Ej; injection Ej as ->; [done|apply inner_wake]. }
    exact (inner_python i j ch p q e' s s' Hi Hc I Hne Hj).
  - pose proof (inner_at_most s' i (goes_to (python s) p ch)). lia.
Qed.

(** A thread inside the library that moves on. *)
Lemma phase_other (own : nat -> option nat) (n n' : system) (b d : nat) (ev : event) :
  (ev = Register b \/ ev = Attach b \/ ev = CallStart b) -> teardown_step true ev n = Some n' -> d <> b ->
  requests n' !! d = requests n !! d /\ shutting_down n' = shutting_down n.
Proof.
  intros Hev H Hne. destruct Hev as [-> | [-> | ->]]; cbn in H.
  - unfold register_call in H. destruct (bool_decide _); [done|]. destruct (context_gone n); [by injection H as <-|].
    destruct (shutting_down n) eqn:E; injection H as <-; [done|]. cbn. by rewrite lookup_insert_ne.
  - unfold attach_request in H. destruct (requests n !! b); cbn in H; [|done]. case_bool_decide; [|done].
    injection H as <-. cbn. by rewrite lookup_insert_ne.
  - unfold start_request in H. destruct (requests n !! b); cbn in H; [|done]. case_bool_decide; [|done].
    injection H as <-. cbn. by rewrite lookup_insert_ne.
Qed.

Lemma inner_starting (i j b : nat) (q : pc) (ev : event) (n' : system) (m : gmap nat nat) (s : stack) :
  stack_inv s -> (ev = Register b \/ ev = Attach b \/ ev = CallStart b) ->
  (forall k d, k <> i -> owned s k = Some d -> d <> b) ->
  teardown_step true ev (native s) = Some n' -> j <> i -> m !! j = making s !! j ->
  threads (python s) !! j = Some q -> inner (mkStack (python s) n' m (calls s)) j q <= inner s j q.
Proof.
  intros I Hev Hb H Hne Em Hj.
  assert (forall d, owned s j = Some d -> requests n' !! d = requests (native s) !! d) as Ho.
  { intros d Hd. by apply (phase_other (owned s) (native s) n' b d ev Hev H), (Hb j). }
  assert (shutting_down n' = shutting_down (native s)) as Es.
  { apply (phase_other (owned s) (native s) n' b (S b) ev Hev H). lia. }
  destruct q as [|[]|c|c|c| | | |]; cbn; try lia.
  - rewrite Em. destruct (making s !! j) as [d|] eqn:E; [|lia]. unfold phase_of.
    rewrite Ho; [lia|]. unfold owned. by rewrite Hj.
  - destruct (calls s !! c) as [d|] eqn:E; cbn [mbind option_bind]; [|lia].
    rewrite Ho; [lia|]. unfold owned. by rewrite Hj.
  - by rewrite Es.
Qed.

(** Cancelling a call whose teardown nobody has asked for asks for it. *)
Lemma cancel_asks (b : nat) (n : system) (r : request) :
  teardown_inv n -> requests n !! b = Some r -> rq_phase r = Started_ -> rq_destroy r = false ->
  rq_destroy <$> requests (destroy_request b n) !! b = Some true.
Proof.
  intros I Hr Hp Hd. pose proof (ti_calls _ I b) as Hb. unfold good_at in Hb. rewrite Hr in Hb.
  assert (rq_gone r = false) as Hg by (inversion Hb; subst; done).
  unfold destroy_request. rewrite Hr. unfold reachable_request. rewrite Hd, Hp, Hg, bool_decide_eq_false_2 by done.
  cbn. by rewrite lookup_insert_eq.
Qed.

(** The thread has less to do, the others no more. *)
Definition drops (i : nat) (s : stack) (n' : system) (m : gmap nat nat) : Prop :=
  forall j q, threads (python s) !! j = Some q ->
    inner (mkStack (python s) n' m (calls s)) j q + Nat.b2n (bool_decide (j = i)) <= inner s j q.

Lemma drops_intro (i : nat) (p : pc) (s : stack) (n' : system) (m : gmap nat nat) :
  threads (python s) !! i = Some p ->
  inner (mkStack (python s) n' m (calls s)) i p + 1 <= inner s i p ->
  (forall j q, j <> i -> threads (python s) !! j = Some q ->
     inner (mkStack (python s) n' m (calls s)) j q <= inner s j q) -> drops i s n' m.
Proof.
  intros Hi H1 H2 j q Hj. case_bool_decide as E; cbn [Nat.b2n]; [|rewrite Nat.add_0_r; by apply H2].
  subst j. rewrite Hi in Hj. by injection Hj as <-.
Qed.

Lemma drops_register (i b : nat) (s : stack) (n' : system) :
  stack_inv s -> threads (python s) !! i = Some (Claimed StartCall) -> making s !! i = None ->
  teardown_step true (Register b) (native s) = Some n' ->
  drops i s n' (if shutting_down (native s) then making s else <[i := b]> (making s)).
Proof.
  intros I Hi Hm H. pose proof H as H'. cbn in H'. unfold register_call in H'. destruct (bool_decide _) eqn:E; [done|].
  apply bool_decide_eq_false in E. pose proof (open_while_held s i _ I Hi eq_refl) as Es.
  rewrite (open_context _ (si_native s I) Es) in H'. rewrite Es in *. injection H' as H'.
  apply (drops_intro i (Claimed StartCall)); [done| |].
  - cbn. rewrite lookup_insert_eq, Hm. unfold phase_of. rewrite <- H'. cbn. rewrite lookup_insert_eq. cbn. lia.
  - intros j q Hne Hj. apply (inner_starting i j b q (Register b)); [done|by left| |done|done| |done].
    + intros k d _ Hd ->. destruct (tie_there _ _ (si_ties s I) k b Hd) as (ph & Hp & _). apply E. unfold phase_of in Hp.
      by destruct (requests (native s) !! b).
    + by rewrite lookup_insert_ne.
Qed.

Lemma drops_starting (i b : nat) (ev : event) (s : stack) (n' : system) :
  stack_inv s -> threads (python s) !! i = Some (Claimed StartCall) -> making s !! i = Some b ->
  (ev = Attach b /\ phase_of b (native s) = Some Registered \/ ev = CallStart b /\ phase_of b (native s) = Some Attached) ->
  teardown_step true ev (native s) = Some n' -> drops i s n' (making s).
Proof.
  intros I Hi Hm Hev H. assert (owned s i = Some b) as Ho by (unfold owned; by rewrite Hi).
  apply (drops_intro i (Claimed StartCall)); [done| |].
  - cbn. rewrite Hm. destruct Hev as [[-> Hp]|[-> Hp]]; rewrite Hp; cbn in H; unfold attach_request, start_request in H;
      (destruct (requests (native s) !! b); cbn [mbind option_bind] in H; [|done]); (case_bool_decide; [|done]);
      injection H as <-; unfold phase_of; cbn; rewrite lookup_insert_eq; cbn; lia.
  - intros j q Hne Hj. apply (inner_starting i j b q ev); [done|naive_solver| |done|done|done|done].
    intros k d Hk Hd ->. by apply Hk, (tie_one _ _ (si_ties s I) k i b).
Qed.

Lemma drops_cancel (i c b : nat) (s : stack) (n' : system) :
  stack_inv s -> threads (python s) !! i = Some (Discarded c) -> calls s !! c = Some b ->
  0 < inner s i (Discarded c) -> teardown_step true (CancelCall b) (native s) = Some n' -> drops i s n' (making s).
Proof.
  intros I Hi Hb Hpos H. destruct (on_calls_mild (CancelCall b) _ _ eq_refl H) as (M & Es & _).
  apply (drops_intro i (Discarded c)); [done| |].
  - destruct (si_calls s I i (Discarded c) c Hi eq_refl) as (b' & Hb' & Hp & Hh). assert (b' = b) as -> by congruence.
    unfold phase_of in Hp. destruct (requests (native s) !! b) as [r|] eqn:Er; [|done]. injection Hp as Hp.
    cbn in H. case_bool_decide; [|done]. injection H as <-. revert Hpos. cbn. rewrite Hb. cbn [mbind option_bind]. rewrite Er.
    destruct (rq_destroy r) eqn:Ed; [lia|]. intros _. pose proof (cancel_asks b _ r (si_native s I) Er Hp Ed) as Ha.
    destruct (requests (destroy_request b (native s)) !! b) as [r'|]; [|done]. injection Ha as ->. lia.
  - intros j q _ _. apply inner_mild; [done|]. by rewrite Es.
Qed.

Lemma drops_destroy (i : nat) (s : stack) (n' : system) :
  threads (python s) !! i = Some Destroying -> teardown_step true BeginDestroy (native s) = Some n' ->
  drops i s n' (making s).
Proof.
  intros Hi H. pose proof (engine_events_mild BeginDestroy _ _ (or_introl eq_refl) H) as M.
  cbn in H. unfold begin_destroy in H. destruct (shutting_down (native s)) eqn:Es; [done|].
  assert (shutting_down n' = true) as Es' by (injection H as <-; by rewrite (fr_shutting _ _ (destroys_frame _ _))).
  apply (drops_intro i Destroying); [done|cbn; by rewrite Es, Es'|]. intros j q _ _. by apply inner_mild.
Qed.

Lemma left_native (i fresh : nat) (s s' : stack) :
  stack_inv s -> due (Native i fresh) s = true -> native_step i fresh s = Some s' -> stack_left s' < stack_left s.
Proof.
  intros I Hdue. unfold due, native_step in *. destruct (threads (python s) !! i) as [p|] eqn:Hi; cbn [mbind option_bind]; [|done].
  apply Nat.ltb_lt in Hdue.
  destruct (inside i p fresh s) as [ev|] eqn:Hin; cbn [mbind option_bind]; [|done].
  destruct (teardown_step true ev (native s)) as [n'|] eqn:H; cbn [mbind option_bind]; [|done]. intros [= <-].
  set (m' := match ev with Register b => _ | _ => _ end). assert (drops i s n' m') as Hd.
  { pose proof (inside_cases _ _ _ _ _ Hin) as [(-> & Hm & ->)|[(b & -> & Hm & Hev)|[[Hr Hev]|[-> ->]]]].
    - by apply drops_register.
    - subst m'. destruct Hev as [[-> ?]|[-> ?]]; (eapply drops_starting; [done|done|done| |exact H]); naive_solver.
    - destruct p as [|[]|c|c|c| | | |]; try done; try (by destruct Hr); try (cbn in Hdue; lia).
      + cbn in Hin. destruct (making s !! i) as [b|]; [|by injection Hin as <-].
        destruct (phase_of b (native s)) as [[]|]; by simplify_eq.
      + cbn in Hin. revert Hdue. destruct (calls s !! c) as [b|] eqn:Hb; [|done]. injection Hin as <-. intros Hdue. by eapply drops_cancel.
    - by apply drops_destroy. }
  unfold stack_left, inner_sum. cbn [python].
  enough (sum_list (imap (inner (mkStack (python s) n' m' (calls s))) (threads (python s))) + 1
    <= sum_list (imap (inner s) (threads (python s))) + 0) by lia.
  eapply sum_imap_at; [exact Hi|exact Hi|done| |].
  - intros j q q' Hne Hq Hq'. rewrite Hq in Hq'. injection Hq' as <-. pose proof (Hd j q Hq). lia.
  - pose proof (Hd i p Hi) as Hdi. rewrite bool_decide_eq_true_2 in Hdi by done. cbn in Hdi. lia.
Qed.

(** ** What a closed session has told the library *)

(** A call whose teardown has been asked for. *)
Definition asked (n : system) (b : nat) : Prop := rq_destroy <$> requests n !! b = Some true.

Lemma mild_asked (n n' : system) (b : nat) : mild n n' -> asked n b -> asked n' b.
Proof.
  unfold asked. intros M H. destruct (requests n !! b) as [r|] eqn:E; [|done]. injection H as H.
  by apply (mild_destroy _ _ M b r).
Qed.

(** It is never taken back. *)
Lemma asked_stays (ev : event) (n n' : system) (b : nat) :
  teardown_step true ev n = Some n' -> asked n b -> asked n' b.
Proof.
  intros H. destruct (on_calls ev) eqn:Hc; [by apply mild_asked, (on_calls_mild ev)|].
  destruct ev as [c|c|c|c|c|c| | |xs|]; try done; try by (eapply mild_asked, engine_events_mild; [|exact H]; naive_solver).
  all: unfold asked; cbn in H; unfold register_call, attach_request, start_request, free_call in H.
  - case_bool_decide as Hn; [done|]. destruct (context_gone n); [by injection H as <-|].
    destruct (shutting_down n); injection H as <-; [done|]. cbn. destruct (decide (c = b)) as [->|Hne];
      [|by rewrite lookup_insert_ne]. destruct (requests n !! b); [|done]. by destruct Hn.
  - destruct (requests n !! c) as [r|] eqn:E; cbn [mbind option_bind] in H; [|done]. case_bool_decide; [|done].
    injection H as <-. cbn. destruct (decide (c = b)) as [->|Hne]; [by rewrite lookup_insert_eq, E|by rewrite lookup_insert_ne].
  - destruct (requests n !! c) as [r|] eqn:E; cbn [mbind option_bind] in H; [|done]. case_bool_decide; [|done].
    injection H as <-. cbn. destruct (decide (c = b)) as [->|Hne]; [by rewrite lookup_insert_eq, E|by rewrite lookup_insert_ne].
  - destruct (requests n !! c); cbn in H; [|done]. destruct (_ && _); [|done]. by injection H as <-.
Qed.

Lemma asked_run (evs : list event) (n n' : system) (b : nat) :
  teardown_run true evs n = Some n' -> asked n b -> asked n' b.
Proof.
  revert n. induction evs as [|ev evs IH]; intros n; cbn; [by intros [= <-]|].
  destruct (teardown_step true ev n) as [n1|] eqn:E; cbn; [|done]. intros Hr Ha. by eapply IH, asked_stays.
Qed.

(** Cancelling a running call asks for its teardown, if nobody has. *)
Lemma cancel_asked (b : nat) (n : system) :
  teardown_inv n -> phase_of b n = Some Started_ -> asked (destroy_request b n) b.
Proof.
  intros I Hp. unfold phase_of in Hp. destruct (requests n !! b) as [r|] eqn:E; [|done]. injection Hp as Hp.
  destruct (rq_destroy r) eqn:Ed; [|by eapply cancel_asks].
  eapply mild_asked; [apply frame_mild, destroy_request_frame|]. unfold asked. rewrite E. cbn. by rewrite Ed.
Qed.

Lemma cancels_asked (bs : list nat) (n n' : system) (b : nat) :
  teardown_inv n -> teardown_run true (CancelCall <$> bs) n = Some n' -> b ∈ bs -> phase_of b n = Some Started_ -> asked n' b.
Proof.
  revert n. induction bs as [|d bs IH]; intros n I; [by intros _ ?%elem_of_nil|]. rewrite fmap_cons. cbn [teardown_run].
  destruct (teardown_step true (CancelCall d) n) as [n1|] eqn:E; cbn [mbind option_bind]; [|done].
  destruct (on_calls_mild (CancelCall d) _ _ eq_refl E) as (M & _). intros Hr [->|Hin]%elem_of_cons Hp.
  - eapply asked_run; [exact Hr|]. cbn in E. case_bool_decide; [|done]. injection E as <-. by apply cancel_asked.
  - eapply IH; [|exact Hr|done|by rewrite (mild_phase _ _ M)]. by apply (teardown_inv_step (CancelCall d) n).
Qed.

(** Once [close] has the handle, the teardown of every call somebody holds has
    been asked for: by [close], or by [start] for one that was starting. *)
Definition told (s : stack) : Prop :=
  handle (python s) = false -> forall i c b,
    threads (python s) !! i = Some (Running c) -> calls s !! c = Some b -> asked (native s) b.

Lemma running_before (i j c : nat) (ch : choice) (p : pc) (e e' : engine) :
  threads e !! i = Some p -> step i ch e = Some e' -> j <> i ->
  threads e' !! j = Some (Running c) -> threads e !! j = Some (Running c).
Proof.
  intros Hi Hs Hj H. destruct (proj2 (step_goes _ _ _ _ _ Hi Hs) j Hj) as [E|E]; rewrite E in H; [done|].
  destruct (threads e !! j) as [q|]; [|done]. injection H as H. by destruct q; cbn in H; simplify_eq.
Qed.

(** The step that takes the handle. *)
Lemma closing_step (i : nat) (ch : choice) (p : pc) (e e' : engine) :
  threads e !! i = Some p -> step i ch e = Some e' -> handle e = true -> handle e' = false -> p = Ready /\ ch = CallClose.
Proof.
  intros Hi. unfold step, claim, begin_close. rewrite Hi.
  destruct p as [|[]|c|c|c| | | |], ch as [| | | |[c'|]|]; try done; intros H Hh Hh'; rewrite ?Hh in H;
    repeat (case_bool_decide; try done); simplify_eq; try (by cbn in Hh'; congruence).
  - revert Hh'. unfold register. cbn. rewrite Hh. cbn. congruence.
  - unfold finalize in Hh'. destruct (finalizer_alive e); cbn in Hh'; congruence.
Qed.

Lemma told_python (i : nat) (ch : choice) (s s' : stack) :
  stack_inv s -> told s -> python_step i ch s = Some s' -> told s'.
Proof.
  intros I T H Hh' j c b Hj Hb. pose proof H as Hst. apply python_cases in H as (p & e' & Hi & Hs & Hc).
  assert (python s' = e') as E by by destruct Hc. rewrite E in *.
  unfold python_step in Hst. rewrite Hi in Hst. cbn [mbind option_bind] in Hst. rewrite Hs in Hst. cbn [mbind option_bind] in Hst.
  destruct (answers i p ch s) as [evs|] eqn:Ha; cbn [mbind option_bind] in Hst; [|done].
  destruct (teardown_run true evs (native s)) as [n'|] eqn:Hr; cbn [mbind option_bind] in Hst; [|done].
  assert (native s' = n') as -> by (destruct (hand_over i p ch s); by injection Hst as <-).
  assert (calls s !! c = Some b -> threads (python s) !! j = Some (Running c) -> handle (python s) = false -> asked n' b) as Hold.
  { intros Hb0 Hj0 Hh0. eapply asked_run; [exact Hr|]. by apply (T Hh0 j c b). }
  assert (threads (python s) !! j = Some (Running c) -> calls s !! c = Some b) as Hcb.
  { intros Hj0. destruct (si_calls s I j _ c Hj0 eq_refl) as (b' & Hb' & _). rewrite Hb'. rewrite <- Hb, <- Hb'.
    destruct Hc as [c' b0 -> -> _ _ Hn| | |]; cbn; [|done..]. rewrite lookup_insert_ne; [done|]. intros ->. apply Hn.
    apply (inv_allocated _ (si_python s I)), list_elem_of_omap. eexists. split; [by eapply list_elem_of_lookup_2|done]. }
  destruct (decide (j = i)) as [->|Hne].
  - rewrite (proj1 (step_goes _ _ _ _ _ Hi Hs)) in Hj. injection Hj as Hj.
    pose proof (closing_step _ _ _ _ _ Hi Hs) as Hcl. unfold step in Hs. rewrite Hi in Hs.
    destruct p as [|[]|d|d|d| | | |], ch as [| | | |[d'|]|]; try done; cbn in Hj;
      repeat (case_match; try done); simplify_eq.
    + (* register *) destruct (handle (python s)) eqn:Eh; [by destruct (Hcl eq_refl Hh')|].
      destruct (si_calls s I i _ c Hi eq_refl) as (b' & Hb' & Hp' & _). assert (calls s' = calls s) as Ec by (rewrite <- Hst; cbn in *; congruence).
      assert (b' = b) as -> by congruence. cbn in Ha. rewrite Eh, Hb' in Ha. injection Ha as <-.
      eapply (cancels_asked [b]); [apply I|exact Hr|by left|done].
    + (* cancel *) apply Hold; [by apply Hcb|done|]. destruct (handle (python s)) eqn:Eh; [|done].
      by destruct (Hcl eq_refl Hh').
  - pose proof (running_before i j c ch p _ _ Hi Hs Hne Hj) as Hj0. pose proof (Hcb Hj0) as Hb0.
    destruct (handle (python s)) eqn:Eh; [|by apply Hold].
    destruct (closing_step _ _ _ _ _ Hi Hs Eh Hh') as [-> ->]. cbn in Ha. rewrite Eh in Ha. injection Ha as <-.
    destruct (si_calls s I j _ c Hj0 eq_refl) as (b' & Hb' & Hp' & _). assert (b' = b) as -> by congruence.
    eapply cancels_asked; [apply I|exact Hr| |done]. apply list_elem_of_omap. exists c. split; [|done]. apply elem_of_elements.
    apply (inv_live _ (si_python s I)), list_elem_of_omap. eexists. split; [by eapply list_elem_of_lookup_2|done].
Qed.

Lemma told_step (m : move) (s s' : stack) : stack_inv s -> told s -> stack_step m s = Some s' -> told s'.
Proof.
  intros I T. destruct m as [i ch|i f|ev]; cbn; [by apply told_python|..].
  - unfold native_step. destruct (threads (python s) !! i) as [p|]; cbn [mbind option_bind]; [|done].
    destruct (inside i p f s) as [ev|]; cbn [mbind option_bind]; [|done].
    destruct (teardown_step true ev (native s)) as [n'|] eqn:H; cbn [mbind option_bind]; [|done]. intros [= <-] Hh j c b Hj Hb.
    cbn [python native calls] in *. eapply asked_stays; [exact H|]. by eapply T.
  - unfold network_step. destruct (is_network ev); [|done].
    destruct (teardown_step true ev (native s)) as [n'|] eqn:H; cbn [mbind option_bind]; [|done]. intros [= <-] Hh j c b Hj Hb.
    cbn [python native calls] in *. eapply asked_stays; [exact H|]. by eapply T.
Qed.

(** ** Nobody waits for nothing *)

Lemma destroying_final (s : stack) (i : nat) :
  stack_inv s -> threads (python s) !! i = Some Destroying ->
  finalizer_alive (python s) = true /\ destroyed (python s) = false.
Proof.
  intros I Hi. assert (0 < count closes (threads (python s))) as Hc
    by (apply (count_pos _ Destroying); [by eapply list_elem_of_lookup_2|done]).
  pose proof (inv_closer _ (si_python s I)) as H. pose proof (inv_final _ (si_python s I)) as ->.
  destruct (destroyed (python s)), (handle (python s)); cbn in H; try lia; done.
Qed.

(** A use that can get on, were it its turn. *)
Definition moves_on (i : nat) (s : stack) : Prop :=
  exists m s', (forall owner dropped, allowed owner dropped m s = turn owner dropped i s)
    /\ due m s = true /\ stack_step m s = Some s'.

Lemma go_python (i : nat) (ch : choice) (p : pc) (e' : engine) (evs : list event) (n' : system) (s : stack) :
  threads (python s) !! i = Some p -> owed ch = true -> step i ch (python s) = Some e' ->
  answers i p ch s = Some evs -> teardown_run true evs (native s) = Some n' -> moves_on i s.
Proof.
  intros Hi Ho Hs Ha Hr. exists (Python i ch). cbn [due stack_step]. unfold python_step. rewrite Hi. cbn [mbind option_bind].
  rewrite Hs. cbn [mbind option_bind]. rewrite Ha. cbn [mbind option_bind]. rewrite Hr. cbn [mbind option_bind].
  destruct (hand_over i p ch s) as [m c]. by eexists.
Qed.

Lemma go_native (i fresh : nat) (p : pc) (ev : event) (n' : system) (s : stack) :
  threads (python s) !! i = Some p -> 0 < inner s i p -> inside i p fresh s = Some ev ->
  teardown_step true ev (native s) = Some n' -> moves_on i s.
Proof.
  intros Hi Hp Hin H. exists (Native i fresh). cbn [due stack_step]. unfold native_step. rewrite Hi. cbn [mbind option_bind].
  rewrite Hin. cbn [mbind option_bind]. rewrite H. cbn [mbind option_bind]. eexists. split_and!; [done|by apply Nat.ltb_lt|done].
Qed.

(** A thread making a call. *)
Lemma go_starting (i : nat) (s : stack) :
  stack_inv s -> threads (python s) !! i = Some (Claimed StartCall) -> moves_on i s.
Proof.
  intros I Hi. destruct (making s !! i) as [b|] eqn:Hm.
  - destruct (tie_there _ _ (si_ties s I) i b) as (ph & Hp & _); [unfold owned; by rewrite Hi|].
    pose proof Hp as Hr. unfold phase_of in Hr. destruct (requests (native s) !! b) as [r|] eqn:Er; [|done]. injection Hr as Hr.
    destruct ph.
    + eapply (go_native i 0); [exact Hi|cbn; rewrite Hm, Hp; lia|cbn; by rewrite Hm, Hp|].
      cbn. unfold attach_request. rewrite Er. cbn [mbind option_bind]. by rewrite bool_decide_eq_true_2.
    + eapply (go_native i 0); [exact Hi|cbn; rewrite Hm, Hp; lia|cbn; by rewrite Hm, Hp|].
      cbn. unfold start_request. rewrite Er. cbn [mbind option_bind]. by rewrite bool_decide_eq_true_2.
    + eapply (go_python i (Answer (Some (fresh (allocated (python s))))) _ _ []); [exact Hi|done| | |done].
      * unfold step. rewrite Hi, bool_decide_eq_false_2 by apply is_fresh. done.
      * cbn. rewrite Hm. cbn. by rewrite decide_True.
  - eapply (go_python i (Answer None)); [exact Hi|done|unfold step; by rewrite Hi|cbn; by rewrite Hm|done].
Qed.

(** A thread with a handle it can do something with. *)
Lemma go_holding (i c : nat) (p : pc) (s : stack) :
  stack_inv s -> threads (python s) !! i = Some p -> role p = Some (inr c) ->
  moves_on i s \/ exists b r, p = Discarded c /\ calls s !! c = Some b /\ requests (native s) !! b = Some r
                  /\ rq_destroy r = true /\ rq_gone r = false.
Proof.
  intros I Hi Hr. destruct (si_calls s I i p c Hi Hr) as (b & Hb & Hp & Hh).
  destruct p as [|[]|d|d|d| | | |]; try done; cbn in Hr; injection Hr as ->.
  - left. destruct (handle (python s)) eqn:Eh.
    + eapply (go_python i Go); [exact Hi|done|unfold step; by rewrite Hi|cbn; by rewrite Eh|done].
    + eapply (go_python i Go); [exact Hi|done|unfold step; by rewrite Hi|cbn; rewrite Eh, Hb; reflexivity|].
      cbn. by rewrite bool_decide_eq_true_2.
  - left. by eapply (go_python i Go); [exact Hi|done|unfold step; by rewrite Hi|..].
  - unfold phase_of in Hp. destruct (requests (native s) !! b) as [r|] eqn:Er; [|done]. injection Hp as Hp.
    destruct (rq_gone r) eqn:Eg; [left|destruct (rq_destroy r) eqn:Ed; [right; by exists b, r|left]].
    + eapply (go_python i Go); [exact Hi|done|unfold step; by rewrite Hi|cbn; rewrite Hb; reflexivity|].
      cbn. unfold free_call. rewrite Er. cbn [mbind option_bind]. rewrite Eg, bool_decide_eq_true_2 by done. done.
    + eapply (go_native i 0); [exact Hi| |cbn; rewrite Hb; reflexivity|cbn; by rewrite bool_decide_eq_true_2].
      cbn. rewrite Hb. cbn [mbind option_bind]. rewrite Er, Ed. lia.
Qed.

(** The thread that destroys the engine. *)
Lemma go_destroying (i : nat) (s : stack) :
  stack_inv s -> threads (python s) !! i = Some Destroying -> moves_on i s.
Proof.
  intros I Hi. destruct (destroying_final s i I Hi) as [Hf Hd]. destruct (shutting_down (native s)) eqn:Es.
  - destruct (shutting_idle s I Es) as (_ & Hl & _).
    eapply (go_python i Go); [exact Hi|done|unfold step; by rewrite Hi|cbn; rewrite Hf; reflexivity|].
    cbn. unfold finish_destroy. rewrite Es, (si_gone s I), Hd, Hl, bool_decide_eq_true_2 by done. done.
  - eapply (go_native i 0); [exact Hi|cbn; rewrite Es; lia|cbn; by rewrite Hf|].
    cbn. unfold begin_destroy. by rewrite Es.
Qed.

(** A call that is being torn down keeps the network thread busy. *)
Lemma ending_owed (b : nat) (n : system) (r : request) :
  teardown_inv n -> requests n !! b = Some r -> rq_destroy r = true -> rq_gone r = false -> 0 < owed_tasks n.
Proof.
  intros I Hr Hd Hg. pose proof (ti_calls _ I b) as Hb. unfold good_at in Hb. rewrite Hr in Hb. unfold owed_tasks.
  inversion Hb as [? ? Ht Hl Hr'|? ? Ht Hl Hr'|ts ? Ht Hl Hr'|Ht Hl Hr'|Ht Hl Hr']; subst; try done.
  - destruct (queue n) as [|t q]; [by destruct ts|]. cbn. lia.
  - symmetry in Hr'. apply bool_decide_eq_true in Hr'. rewrite Hr'. lia.
Qed.

Lemma inside_advances (i : nat) (p : pc) (s : stack) :
  stack_inv s -> threads (python s) !! i = Some p ->
  holds p || (closes p && negb (bool_decide (p = Waiting))) = true ->
  moves_on i s \/ 0 < owed_tasks (native s).
Proof.
  intros I Hi Hp. destruct p as [|[]|c|c|c| | | |]; try done.
  - left. by eapply go_starting.
  - left. by eapply (go_python i Go); [exact Hi|done|unfold step; by rewrite Hi|..].
  - left. by destruct (go_holding i c _ s I Hi eq_refl) as [?|(? & ? & ? & _)].
  - left. by destruct (go_holding i c _ s I Hi eq_refl) as [?|(? & ? & ? & _)].
  - destruct (go_holding i c _ s I Hi eq_refl) as [?|(b & r & _ & _ & Hr & Hd & Hg)]; [by left|right].
    by eapply ending_owed; [apply I|..].
  - left. by eapply (go_python i Go); [exact Hi|done|unfold step; by rewrite Hi|..].
  - left. by eapply (go_python i Go); [exact Hi|done|unfold step; by rewrite Hi|..].
  - left. by eapply go_destroying.
Qed.

(** ** Turns *)

Lemma forallb_false_exists {A} (f : A -> bool) (l : list A) : forallb f l = false -> exists x, x ∈ l /\ f x = false.
Proof.
  induction l as [|x l IH]; [done|]. cbn. intros [H|H]%andb_false_iff; [exists x; split; [by left|done]|].
  destruct (IH H) as (y & Hy & E). exists y. split; [by right|done].
Qed.

Section discipline.
Context (owner : nat -> nat) (dropped : nat -> bool).

Lemma turn_spec (i : nat) (s : stack) :
  turn owner dropped i s = true <->
  (forall c, threads (python s) !! i = Some (Running c) -> dropped i = false)
  /\ (forall j q, j <> i -> owner j = owner i -> threads (python s) !! j = Some q -> at_rest q = true).
Proof.
  unfold turn. rewrite andb_true_iff, forallb_forall. split; intros [H1 H2]; split.
  - intros c Hc. rewrite Hc in H1. by apply negb_true_iff.
  - intros j q Hne Ho Hq. assert (In j (seq 0 (length (threads (python s))))) as Hin
      by (apply in_seq; split; [lia|by eapply lookup_lt_Some]).
    specialize (H2 j Hin). rewrite (proj2 (Nat.eqb_neq j i) Hne), Ho, Nat.eqb_refl, Hq in H2. exact H2.
  - destruct (threads (python s) !! i) as [[]|]; try done. apply negb_true_iff. by eapply H1.
  - intros j _. destruct (Nat.eqb_spec j i); [done|]. destruct (Nat.eqb_spec (owner j) (owner i)); [|done].
    destruct (threads (python s) !! j) as [q|] eqn:Eq; [|done]. by apply (H2 j q).
Qed.

Lemma scheduled_run (schedule : list move) (s s' : stack) :
  scheduled owner dropped schedule s = Some s' -> stack_run schedule s = Some s'.
Proof.
  revert s. induction schedule as [|m schedule IH]; intros s; [done|]. cbn. destruct (allowed owner dropped m s); [|done].
  destruct (stack_step m s) as [s1|]; [apply IH|done].
Qed.

Lemma collect_scheduled (schedule : list move) (s s' : stack) :
  collect owner dropped schedule s = Some s' -> scheduled owner dropped schedule s = Some s'.
Proof.
  revert s. induction schedule as [|m schedule IH]; intros s; [done|]. cbn. destruct (allowed owner dropped m s); [|done].
  destruct (due m s || is_network_move m); [|done]. cbn. destruct (stack_step m s) as [s1|]; [apply IH|done].
Qed.

Lemma at_rest_wake (p : pc) : at_rest (wake p) = at_rest p.
Proof. by destruct p. Qed.

(** Inside the library nothing of Python changes. *)
Lemma library_step (m : move) (s s' : stack) :
  stack_step m s = Some s' -> (forall i ch, m <> Python i ch) -> python s' = python s.
Proof.
  intros H Hm. destruct m as [i ch|i f|ev]; [by destruct (Hm i ch)|..]; cbn in H.
  - unfold native_step in H. destruct (threads (python s) !! i) as [p|]; cbn [mbind option_bind] in H; [|done].
    destruct (inside i p f s) as [ev|]; cbn [mbind option_bind] in H; [|done].
    destruct (teardown_step true ev (native s)) as [n'|]; cbn [mbind option_bind] in H; [|done]. by injection H as <-.
  - unfold network_step in H. destruct (is_network ev); [|done].
    destruct (teardown_step true ev (native s)) as [n'|]; cbn [mbind option_bind] in H; [|done]. by injection H as <-.
Qed.

(** What a move leaves of the threads it does not move. *)
Lemma others_step (m : move) (s s' : stack) (j : nat) (q' : pc) :
  stack_step m s = Some s' -> (forall ch, m <> Python j ch) -> threads (python s') !! j = Some q' ->
  exists q, threads (python s) !! j = Some q /\ (q' = q \/ q' = wake q).
Proof.
  intros H Hm Hq. destruct m as [i ch|i f|ev].
  - cbn in H. apply python_cases in H as (p & e' & Hi & Hs & Hc). assert (python s' = e') as E by by destruct Hc. rewrite E in Hq.
    destruct (proj2 (step_goes _ _ _ _ _ Hi Hs) j) as [Ej|Ej]; [intros ->; by apply (Hm ch)|..]; rewrite Ej in Hq.
    + exists q'. by split; [|left].
    + destruct (threads (python s) !! j) as [q|]; [|done]. injection Hq as <-. exists q. by split; [|right].
  - exists q'. split; [|by left]. by rewrite <- (library_step _ _ _ H).
  - exists q'. split; [|by left]. by rewrite <- (library_step _ _ _ H).
Qed.

Lemma moves_it (m : move) (j : nat) : (exists ch, m = Python j ch) \/ (forall ch, m <> Python j ch).
Proof.
  destruct m as [i ch|i f|ev]; [|by right..]. destruct (decide (i = j)) as [->|Hne]; [left; by exists ch|right; by intros ? [= ?]].
Qed.

Lemma disciplined_step (m : move) (s s' : stack) :
  allowed owner dropped m s = true -> disciplined owner s -> stack_step m s = Some s' -> disciplined owner s'.
Proof.
  intros Ha D H. assert (forall i j p q, i <> j -> owner i = owner j -> (forall ch, m <> Python i ch) ->
    threads (python s') !! i = Some p -> threads (python s') !! j = Some q -> at_rest p = true \/ at_rest q = true) as Hone.
  { intros i j p q Hij Ho Hm Hi Hj. destruct (others_step m s s' i p H Hm Hi) as (p0 & Hp0 & Hp).
    assert (at_rest p = at_rest p0) as -> by (destruct Hp as [->| ->]; [done|apply at_rest_wake]).
    destruct (moves_it m j) as [[ch ->]|Hn].
    - left. cbn in Ha. apply turn_spec in Ha as [_ Ha]. by apply (Ha i p0).
    - destruct (others_step m s s' j q H Hn Hj) as (q0 & Hq0 & Hq).
      assert (at_rest q = at_rest q0) as -> by (destruct Hq as [->| ->]; [done|apply at_rest_wake]). by apply (D i j). }
  intros i j p q Hij Ho Hi Hj. destruct (moves_it m i) as [[ch ->]|Hn].
  - destruct (Hone j i q p) as [?|?]; [done|done|intros ch' [= <-]; done|done|done|by right|by left].
  - by apply (Hone i j).
Qed.

(** What every state a scheduled run reaches has. *)
Record settled_inv (s : stack) : Prop := {
  sd_stack : stack_inv s;
  sd_told : told s;
  sd_turns : disciplined owner s;
}.

Lemma scheduled_inv (schedule : list move) (s s' : stack) :
  settled_inv s -> scheduled owner dropped schedule s = Some s' -> settled_inv s'.
Proof.
  revert s. induction schedule as [|m schedule IH]; intros s I; cbn; [by intros [= <-]|].
  destruct (allowed owner dropped m s) eqn:Ha; [|done]. destruct (stack_step m s) as [s1|] eqn:E; cbn; [|done].
  apply IH. destruct I as [I T D].
  constructor; [by eapply stack_inv_step|by eapply told_step|by eapply disciplined_step].
Qed.

Lemma settled_inv_init (n : nat) : settled_inv (stack_init n).
Proof.
  constructor; [apply stack_inv_init|done|]. intros i j p q _ _ Hi _. cbn in Hi. apply lookup_replicate in Hi as [-> _]. by left.
Qed.

(** A use inside a method has the turn. *)
Lemma its_turn (i : nat) (p : pc) (s : stack) :
  disciplined owner s -> threads (python s) !! i = Some p -> at_rest p = false -> moves_on i s -> advances owner dropped s.
Proof.
  intros D Hi Hp (m & s' & Ha & Hd & Hs). exists m, s'. split_and!; [|done..]. rewrite Ha. apply turn_spec. split.
  - intros c Hc. rewrite Hi in Hc. injection Hc as ->. done.
  - intros j q Hne Ho Hj. destruct (D j i q p) as [?|?]; [done..|congruence].
Qed.

(** When no thread can move on, the teardown of every call has been asked for. *)
Lemma waiting_settled (s : stack) :
  settled_inv s -> handle (python s) = false -> ~ advances owner dropped s ->
  map_Forall (fun _ r => rq_destroy r = true) (requests (native s)).
Proof.
  intros [I Ht D] Hh Hno b r Hr. destruct (rq_destroy r) eqn:Hd; [done|exfalso]. pose proof I as [Ip In T _ _ _ _].
  assert (exists i, owned s i = Some b) as [i Hi].
  { apply (tie_owned _ _ T b (rq_phase r)); [unfold phase_of; by rewrite Hr|].
    destruct (decide (rq_phase r = Started_)) as [Hp|]; [right|by left].
    destruct (decide (b ∈ handles (native s))) as [|Hn]; [done|exfalso].
    pose proof (tie_freed _ _ T b r Hr Hp Hn) as Hg. pose proof (ti_calls _ In b) as Hb. unfold good_at in Hb.
    rewrite Hr in Hb. inversion Hb; subst; done. }
  destruct (owned_role s i b Hi) as (p & Hp & [o Ho] & _). destruct o as [[]|c].
  - apply Hno. destruct p as [|[]|?|?|?| | | |]; try done. eapply its_turn; [done|done|done|by apply go_starting].
  - assert (calls s !! c = Some b) as Hb by (unfold owned in Hi; rewrite Hp in Hi; cbn in Hi; by rewrite Ho in Hi).
    destruct (at_rest p) eqn:Er.
    + destruct p as [|[]|d|d|d| | | |]; try done. cbn in Ho. injection Ho as ->.
      pose proof (Ht Hh i c b Hp Hb) as Ha. unfold asked in Ha. rewrite Hr in Ha. cbn in Ha. congruence.
    + destruct (go_holding i c p s I Hp Ho) as [Hm|(b' & r' & _ & Hb' & Hr' & Hd' & _)]; [by eapply Hno, its_turn|congruence].
Qed.

(** A stranded call stays, and keeps the engine. *)
Lemma stranded_open (s : stack) (i : nat) : stack_inv s -> stranded owner dropped s i ->
  destroyed (python s) = false /\ Destroying ∉ threads (python s).
Proof.
  intros I (c & Hi & _). pose proof (list_elem_of_lookup_2 _ _ _ Hi) as Hin.
  assert (destroyed (python s) = true \/ Destroying ∈ threads (python s) -> False) as Hno.
  { intros Hd. pose proof (inv_destroyed _ (si_python s I) Hd) as Hz. rewrite (inv_count _ (si_python s I)) in Hz.
    by pose proof (holders_none _ _ Hz Hin). }
  split; [destruct (destroyed (python s)); [exfalso; apply Hno; by left|done]|intros H; apply Hno; by right].
Qed.

Lemma stranded_step (m : move) (s s' : stack) (i : nat) :
  stack_inv s -> allowed owner dropped m s = true -> stack_step m s = Some s' ->
  stranded owner dropped s i -> stranded owner dropped s' i.
Proof.
  intros I Ha H Hst. pose proof (stranded_open s i I Hst) as [_ Hnd]. destruct Hst as (c & Hi & Hor). destruct m as [k ch|k f|ev].
  2,3: unfold stranded; rewrite (library_step _ _ _ H) by done; by exists c.
  cbn in Ha, H. apply turn_spec in Ha as [Hd Ht]. apply python_cases in H as (p & e' & Hk & Hs & Hc).
  assert (python s' = e') as E by by destruct Hc. unfold stranded. rewrite E.
  assert (k <> i) as Hne.
  { intros ->. destruct Hor as [Hdr|(j & q & Ho & Hj & Hq)]; [specialize (Hd c Hi); congruence|].
    destruct (decide (j = i)) as [->|Hji]; [rewrite Hi in Hj; by injection Hj as <-|].
    pose proof (Ht j q Hji Ho Hj). by destruct q. }
  exists c. split; [by apply (step_roles k i ch p _ _ Hk Hs)|]. destruct Hor as [Hdr|(j & q & Ho & Hj & Hq)]; [by left|right].
  destruct (step_goes _ _ _ _ _ Hk Hs) as [Hq' Hothers]. destruct (decide (j = k)) as [->|Hjk].
  - rewrite Hk in Hj. injection Hj as ->. exists k. eexists. split_and!; [done|exact Hq'|].
    destruct q; try done; cbn; [by case_match|]. destruct Hnd. by eapply list_elem_of_lookup_2.
  - destruct (Hothers j Hjk) as [Ej|Ej]; rewrite Hj in Ej; exists j; eexists; (split_and!; [done|exact Ej|]); [done|by destruct q].
Qed.

Lemma stranded_run (schedule : list move) (s s' : stack) (i : nat) :
  stack_inv s -> scheduled owner dropped schedule s = Some s' -> stranded owner dropped s i -> destroyed (python s') = false.
Proof.
  revert s. induction schedule as [|m schedule IH]; intros s I; cbn; [intros [= <-] H; by apply (stranded_open s i)|].
  destruct (allowed owner dropped m s) eqn:Ha; [|done]. destruct (stack_step m s) as [s1|] eqn:E; cbn; [|done].
  intros Hr Hst. apply (IH s1); [by eapply stack_inv_step|done|by eapply stranded_step].
Qed.

(** While the engine is there, somebody moves on, or the network thread has
    work, or a call is stranded. *)
Lemma closing_goes_on (s : stack) :
  settled_inv s -> handle (python s) = false -> destroyed (python s) = false ->
  advances owner dropped s \/ 0 < owed_tasks (native s) \/ exists i, stranded owner dropped s i.
Proof.
  intros [I Ht D] Hh Ed.
  assert (forall i p, threads (python s) !! i = Some p -> at_rest p = false -> p <> Waiting ->
    advances owner dropped s \/ 0 < owed_tasks (native s)) as Hbusy.
  { intros i p Hi Hp Hw. destruct (inside_advances i p s I Hi) as [Hm|Ho]; [|left; by eapply its_turn|by right].
    rewrite (bool_decide_eq_false_2 _ Hw). by destruct p. }
  destruct (someone_inside _ (si_python s I) Hh Ed) as (i & p & Hi & Hp).
  destruct (at_rest p) eqn:Er; [|destruct (Hbusy i p Hi Er) as [?|?]; [|naive_solver..]; intros ->; cbn in Hp;
    by rewrite bool_decide_eq_true_2 in Hp].
  destruct p as [|[]|c|c|c| | | |]; try done.
  destruct (turn owner dropped i s) eqn:Et.
  { left. destruct (go_holding i c _ s I Hi eq_refl) as [(m & s' & Ha & Hd & Hs)|(? & ? & ? & _)]; [|done].
    exists m, s'. by rewrite Ha. }
  destruct (dropped i) eqn:Edr; [right; right; exists i, c; by split; [|left]|].
  assert (exists j q, j <> i /\ owner j = owner i /\ threads (python s) !! j = Some q /\ at_rest q = false) as (j & q & Hji & Ho & Hj & Hq).
  { unfold turn in Et. rewrite Hi, Edr in Et. cbn [negb andb] in Et. apply forallb_false_exists in Et as (j & _ & Hj).
    exists j. apply orb_false_iff in Hj as [[H1 H2]%orb_false_iff H3]. destruct (threads (python s) !! j) as [q|]; [|done].
    exists q. apply Nat.eqb_neq in H1. apply negb_false_iff, Nat.eqb_eq in H2. by split_and!. }
  destruct (decide (q = Waiting)) as [->|Hw].
  - right. right. exists i, c. split; [done|right]. by exists j, Waiting.
  - destruct (Hbusy j q Hj Hq Hw) as [?|?]; naive_solver.
Qed.
End discipline.

(** When every use is a thread of its own and no call is dropped, turns rule
    nothing out. *)
Lemma alone_scheduled (owner : nat -> nat) (schedule : list move) (n : nat) (s : stack) :
  (forall i j, owner i = owner j -> i = j) ->
  scheduled owner (fun _ => false) schedule s = stack_run schedule s.
Proof.
  intros Ho. revert s. induction schedule as [|m schedule IH]; intros s; [done|]. cbn.
  assert (allowed owner (fun _ => false) m s = true) as ->.
  { destruct m as [i ch|i f|ev]; cbn; [apply turn_spec; split; [done|intros j q Hne E; by destruct Hne; apply Ho]..|done]. }
  destruct (stack_step m s); [apply IH|done].
Qed.

Lemma mild_settled (n n' : system) : mild n n' ->
  map_Forall (fun _ r => rq_destroy r = true) (requests n) -> map_Forall (fun _ r => rq_destroy r = true) (requests n').
Proof.
  intros [_ M2 _ M4] H b r Hr. specialize (M2 b). unfold phase_of in M2. rewrite Hr in M2.
  destruct (requests n !! b) as [r0|] eqn:E; [|done]. specialize (M4 b r0 E (H b r0 E)). rewrite Hr in M4. by injection M4.
Qed.

Lemma settled_network_run (owner : nat -> nat) (dropped : nat -> bool) (evs : list event) (s s' : stack) :
  map_Forall (fun _ r => rq_destroy r = true) (requests (native s)) -> collect owner dropped (Network <$> evs) s = Some s' ->
  length evs <= owed_tasks (native s).
Proof.
  revert s. induction evs as [|ev evs IH]; intros s Hall; [cbn; lia|]. cbn. unfold network_step.
  destruct (is_network ev) eqn:Hn; [|done].
  destruct (teardown_step true ev (native s)) as [n'|] eqn:H; cbn [mbind option_bind]; [|done]. intros Hr.
  assert (on_calls ev = true) as Hc by by destruct ev. destruct (on_calls_mild _ _ _ Hc H) as (M & _).
  pose proof (settled_network_step true ev _ _ Hall Hn H). apply IH in Hr; [cbn [native] in Hr; change (S (length evs) <= owed_tasks (native s)); lia|]. by eapply mild_settled.
Qed.

Lemma collect_run (owner : nat -> nat) (dropped : nat -> bool) (schedule : list move) (s s' : stack) :
  stack_inv s -> handle (python s) = false -> collect owner dropped schedule s = Some s' ->
  stack_inv s' /\ handle (python s') = false
  /\ length (keep (fun m => negb (is_network_move m)) schedule) + stack_left s' <= stack_left s.
Proof.
  revert s. induction schedule as [|m schedule IH]; intros s I Hh; cbn [collect]; [intros [= <-]; split_and!; [done..|cbn; lia]|].
  destruct (allowed owner dropped m s && _) eqn:Had; [|done]. apply andb_true_iff in Had as [_ Hd].
  destruct (stack_step m s) as [s1|] eqn:E; cbn [mbind option_bind]; [|done]. intros Hr.
  destruct (python_projects _ _ _ E) as [l Hl]. pose proof (run_closed _ _ _ Hl Hh) as Hh1.
  destruct (IH s1 (stack_inv_step _ _ _ I E) Hh1 Hr) as (I' & Hh' & Hlen). split_and!; [done..|].
  destruct m as [i ch|i f|ev]; cbn [keep is_network_move negb length stack_step orb] in *.
  - rewrite orb_false_r in Hd. pose proof (left_python i ch s s1 I Hd E). lia.
  - rewrite orb_false_r in Hd. pose proof (left_native i f s s1 I Hd E). lia.
  - pose proof (left_network ev s s1 E). lia.
Qed.

(** C6: closing a session ends, the library's part in it included, unless it
    is the wait for a call that nobody will ever close.  Threads may each hold
    several calls while they do something else, and from some point on any of
    the calls held may have been dropped unclosed.  From the moment [close] has
    taken the handle, the threads have a bounded number of steps left, those
    they take inside the library counted; while none of them can take one, the
    network thread has a bounded number of tasks to run, the calls that are
    held being cancelled too; and when neither has any left the engine has been
    destroyed, or some call is stranded: dropped, or held by the very thread
    that is inside [close].  As long as one is stranded the engine is never
    destroyed. *)
Theorem stack_close_completes (n : nat) (owner : nat -> nat) (dropped : nat -> bool)
    (schedule schedule' : list move) (s s' : stack)
    (Hrun : scheduled owner (fun _ => false) schedule (stack_init n) = Some s)
    (Hclosed : handle (python s) = false)
    (Hrun' : collect owner dropped schedule' s = Some s') :
  length (keep (fun m => negb (is_network_move m)) schedule') <= stack_left s
  /\ (~ advances owner dropped s' -> forall evs s'',
        collect owner dropped (Network <$> evs) s' = Some s'' -> length evs <= owed_tasks (native s'))
  /\ ((forall m, allowed owner dropped m s' = true -> due m s' || is_network_move m = true -> stack_step m s' = None) ->
        destroyed (python s') = true /\ context_gone (native s') = true
        \/ exists i, stranded owner dropped s' i)
  /\ (forall i evs s'', stranded owner dropped s' i -> scheduled owner dropped evs s' = Some s'' ->
        destroyed (python s'') = false).
Proof.
  pose proof (scheduled_inv _ _ _ _ _ (settled_inv_init owner n) Hrun) as I.
  pose proof (scheduled_inv _ _ _ _ _ I (collect_scheduled _ _ _ _ _ Hrun')) as I2.
  destruct (collect_run _ _ _ _ _ (sd_stack _ _ I) Hclosed Hrun') as (I' & Hh' & Hlen). split_and!; [lia| | |].
  - intros Hno evs s''. apply settled_network_run. by apply (waiting_settled owner dropped).
  - intros Hstuck. rewrite (si_gone s' I'). destruct (destroyed (python s')) eqn:Ed; [by left|right].
    destruct (closing_goes_on owner dropped s' I2 Hh' Ed) as [(m & s2 & Ha & Hd & Hs)|[Howed|?]]; [..|done].
    + rewrite Hstuck in Hs; [done..|]. by rewrite Hd.
    + destruct (network_can_step _ (si_native s' I') Howed) as (ev & n' & Hn & Hs).
      assert (stack_step (Network ev) s' = None) as Hx by (apply Hstuck; [done|apply orb_true_r]).
      cbn in Hx. unfold network_step in Hx. rewrite Hn in Hx.
      replace (teardown_step true ev (native s')) with (Some n') in Hx by by destruct ev. done.
  - intros i evs s'' Hst Hr. by eapply stranded_run.
Qed.

(** ** At concrete schedules *)

(** A thread starts a call while another closes the session; the network
    thread tears the call down. *)
Definition close_race : list move :=
  [Python 0 Engine.CallStart; Native 0 1; Native 0 0; Python 1 CallClose; Native 0 0; Network (RunTask [ReactRead]);
   Python 0 (Answer (Some 7)); Python 0 Go; Python 0 Go].
Definition close_race_end : list move :=
  [Network (RunTask []); Network (RunTask []); Network Release; Python 0 Go; Python 0 Go; Python 1 Go; Native 1 0; Python 1 Go].

Definition mid_race : stack := default (stack_init 2) (stack_run close_race (stack_init 2)).
Definition end_race : stack := default (stack_init 2) (collect id (fun _ => false) close_race_end mid_race).

Lemma stack_refines_witness : Engine.reachable 2 (python mid_race).
Proof. apply (stack_refines 2 close_race). vm_compute. reflexivity. Defined.

Lemma stack_safe_witness : fault (python mid_race) = false /\ misused (native mid_race) = false.
Proof.
  destruct (stack_safe 2 close_race mid_race) as (H1 & H2 & _); [vm_compute; reflexivity|]. split; [exact H1|exact H2].
Defined.

(** One thread closes the session in the block of its own [stream]. *)
Definition close_in_block : list move :=
  [Python 0 Engine.CallStart; Native 0 1; Native 0 0; Native 0 0; Python 0 (Answer (Some 7)); Python 0 Go; Python 1 CallClose].
Definition in_block : stack := default (stack_init 2) (stack_run close_in_block (stack_init 2)).

Lemma stack_close_completes_witness :
  (5 <= stack_left mid_race /\ destroyed (python end_race) = true)
  /\ handle (python in_block) = false
  /\ forall evs s, scheduled (fun _ => 0) (fun _ => false) evs in_block = Some s -> destroyed (python s) = false.
Proof.
  split; [|split; [vm_compute; reflexivity|intros evs s H]].
  - destruct (stack_close_completes 2 id (fun _ => false) close_race close_race_end mid_race end_race) as (H1 & _);
      [vm_compute; reflexivity..|]. split; [exact H1|]. vm_compute. reflexivity.
  - destruct (stack_close_completes 2 (fun _ => 0) (fun _ => false) close_in_block [] in_block in_block) as (_ & _ & _ & Hs);
      [vm_compute; reflexivity..|]. apply (Hs 0 evs s); [|exact H].
    exists 7. split; [vm_compute; reflexivity|]. right. exists 1, Waiting. split; [reflexivity|]. split; vm_compute; reflexivity.
Defined.
