(* ===== verification/Creation.v ===== *)
(** * Creation: engines made at the same time (native/global_state.cc,
    native/engine.cc [Engine::Create]).

    Chromium asks one process-wide hook which proxy an engine is to use, without
    saying which engine is asking.  [ScopedPendingProxyConfig] answers for the
    engine being made: it holds a lock from before the context exists until the
    init thread has built it.  Any number of threads make one engine each; a
    step is what one of them, or the init thread, does between two points where
    another may run. *)

From S2P Require Import Prelude.

(** [CreateProxyConfigService]: the configuration that is pending, or the
    system's.  [CreateProxyResolutionService] resolves with it. *)
Inductive ProxyConfigService (P : Type) := Fixed (config : P) | SystemProxy.
Arguments Fixed {P}.
Arguments SystemProxy {P}.

Definition CreateProxyConfigService {P} (pending : option P) : ProxyConfigService P :=
  match pending with Some config => Fixed config | None => SystemProxy end.

(** [CreateDefaultUserAgent] *)
Definition CreateDefaultUserAgent (partial_user_agent : bytes) : bytes := partial_user_agent.

(** How far [Engine::Create] is. *)
Inductive stage :=
| Entering        (* about to call [EnsureInitialized] *)
| Initializing    (* running [InitializeAndCreateTaskRunner] *)
| Entered         (* the task runner exists; about to take the lock *)
| Acquired        (* inside [ScopedPendingProxyConfig]'s constructor *)
| Installed       (* the configuration is pending *)
| Posted          (* the context exists and its task has been posted *)
| Woken           (* [initialized.Wait()] has returned *)
| Cleared         (* inside the destructor *)
| Created.

#[export] Instance stage_eq_dec : EqDecision stage.
Proof. solve_decision. Defined.

Section creation.
Context {P : Type} (config : nat -> option P).
(** Whether the lock is there; without it [Acquire] never waits. *)
Context (locked : bool).

Record creation := mkCreation {
  runner : option bool;                  (* the static of [InitTaskRunner]: being made, or made *)
  inits : nat;                           (* how often it has been made *)
  lock : option nat;                     (* [PendingProxyConfigLock] *)
  pending : option P;                    (* [PendingProxyConfig] *)
  init_queue : list nat;                 (* the tasks of the init thread, by engine *)
  contexts : gmap nat (ProxyConfigService P);
  signalled : gset nat;                  (* the [initialized] events *)
  creators : list stage;
}.

Definition creation_init (n : nat) : creation := mkCreation None 0 None None [] ∅ ∅ (replicate n Entering).

Definition at_stage (i : nat) (p : stage) (s : creation) : creation :=
  mkCreation (runner s) (inits s) (lock s) (pending s) (init_queue s) (contexts s) (signalled s) (<[i := p]> (creators s)).

(** [InitTaskRunner]: the static is made by the first thread to reach it; the
    others wait. *)
Definition enter (i : nat) (s : creation) : option creation :=
  match runner s with
  | None => Some (at_stage i Initializing
      (mkCreation (Some false) (inits s) (lock s) (pending s) (init_queue s) (contexts s) (signalled s) (creators s)))
  | Some true => Some (at_stage i Entered s)
  | Some false => None
  end.

Definition initialize (i : nat) (s : creation) : creation :=
  at_stage i Entered
    (mkCreation (Some true) (S (inits s)) (lock s) (pending s) (init_queue s) (contexts s) (signalled s) (creators s)).

(** The constructor and the destructor of [ScopedPendingProxyConfig]. *)
Definition acquire (i : nat) (s : creation) : option creation :=
  match lock s with
  | Some _ => if locked then None else Some (at_stage i Acquired s)
  | None => Some (at_stage i Acquired
      (mkCreation (runner s) (inits s) (Some i) (pending s) (init_queue s) (contexts s) (signalled s) (creators s)))
  end.

Definition install (i : nat) (s : creation) : creation :=
  at_stage i Installed
    (mkCreation (runner s) (inits s) (lock s) (config i) (init_queue s) (contexts s) (signalled s) (creators s)).

Definition clear (i : nat) (s : creation) : creation :=
  at_stage i Cleared
    (mkCreation (runner s) (inits s) (lock s) None (init_queue s) (contexts s) (signalled s) (creators s)).

Definition unlock (i : nat) (s : creation) : creation :=
  at_stage i Created
    (mkCreation (runner s) (inits s) None (pending s) (init_queue s) (contexts s) (signalled s) (creators s)).

(** [PostTaskToInitThread], and the wait. *)
Definition post_init (i : nat) (s : creation) : creation :=
  at_stage i Posted
    (mkCreation (runner s) (inits s) (lock s) (pending s) (init_queue s ++ [i]) (contexts s) (signalled s) (creators s)).

Definition await (i : nat) (s : creation) : option creation :=
  if bool_decide (i ∈ signalled s) then Some (at_stage i Woken s) else None.

(** The task: [InitRequestContextOnInitThread] asks for the proxy, then
    [done->Signal()]. *)
Definition run_init (s : creation) : option creation :=
  match init_queue s with
  | [] => None
  | i :: queue =>
      Some (mkCreation (runner s) (inits s) (lock s) (pending s) queue
              (<[i := CreateProxyConfigService (pending s)]> (contexts s)) ({[i]} ∪ signalled s) (creators s))
  end.

Inductive actor := Creator (i : nat) | InitThread.

Definition create_step (a : actor) (s : creation) : option creation :=
  match a with
  | InitThread => run_init s
  | Creator i =>
      p ← creators s !! i;
      match p with
      | Entering => enter i s
      | Initializing => Some (initialize i s)
      | Entered => acquire i s
      | Acquired => Some (install i s)
      | Installed => Some (post_init i s)
      | Posted => await i s
      | Woken => Some (clear i s)
      | Cleared => Some (unlock i s)
      | Created => None
      end
  end.

Fixpoint create_run (schedule : list actor) (s : creation) : option creation :=
  match schedule with
  | [] => Some s
  | a :: schedule => s ← create_step a s; create_run schedule s
  end.
End creation.

Arguments creation : clear implicits.
Arguments creation_init {P}.

(** ** The invariant, with the lock *)

Section invariant.
Context {P : Type} (config : nat -> option P).

Definition holding (p : stage) : bool :=
  match p with Acquired | Installed | Posted | Woken | Cleared => true | _ => false end.

(** What the thread that has the lock finds: what is pending, what is posted,
    and whether its context has been built. *)
Inductive held (i : nat) : stage -> option P -> list nat -> bool -> Prop :=
| held_acquired : held i Acquired None [] false
| held_installed : held i Installed (config i) [] false
| held_posted : held i Posted (config i) [i] false
| held_built : held i Posted (config i) [] true
| held_woken : held i Woken (config i) [] true
| held_cleared : held i Cleared None [] true.

Lemma held_inv (i : nat) (p : stage) (pend : option P) (queue : list nat) (built : bool) :
  held i p pend queue built ->
  pend = match p with Acquired | Cleared => None | _ => config i end
  /\ queue = (if decide (p = Posted) then if built then [] else [i] else [])
  /\ (p <> Posted -> built = match p with Woken | Cleared => true | _ => false end).
Proof. by destruct 1. Qed.

Definition runner_ok (r : option bool) (inits : nat) (creators : list stage) : Prop :=
  match r with
  | None => inits = 0 /\ forall i p, creators !! i = Some p -> p = Entering
  | Some false => inits = 0
      /\ exists k, creators !! k = Some Initializing /\ forall i p, creators !! i = Some p -> i <> k -> p = Entering
  | Some true => inits = 1 /\ forall i p, creators !! i = Some p -> p <> Initializing
  end.

Record creation_inv (s : creation P) : Prop := {
  ci_holder : match lock s with
              | None => pending s = None /\ init_queue s = []
              | Some i => exists p, creators s !! i = Some p
                            /\ held i p (pending s) (init_queue s) (bool_decide (i ∈ signalled s))
              end;
  ci_lock : forall i p, creators s !! i = Some p -> holding p = true -> lock s = Some i;
  ci_others : forall i p, creators s !! i = Some p -> holding p = false -> i ∈ signalled s <-> p = Created;
  ci_contexts : forall i, contexts s !! i
    = if bool_decide (i ∈ signalled s) then Some (CreateProxyConfigService (config i)) else None;
  ci_runner : runner_ok (runner s) (inits s) (creators s);
}.

Lemma stage_lookup (i j : nat) (p q : stage) (s : creation P) :
  creators s !! i = Some p ->
  creators (at_stage i q s) !! j = if decide (j = i) then Some q else creators s !! j.
Proof.
  intros Hi. cbn. destruct (decide (j = i)) as [->|Hne].
  - apply list_lookup_insert_eq. by eapply lookup_lt_Some.
  - by apply list_lookup_insert_ne.
Qed.

Lemma creation_inv_init (n : nat) : creation_inv (creation_init n).
Proof.
  assert (forall i p, replicate n Entering !! i = Some p -> p = Entering) as Hr
    by (intros i p Hp; by apply lookup_replicate in Hp as [? _]).
  constructor; cbn; try done.
  - intros i p ->%Hr. done.
  - intros i p ->%Hr _. by split; [intros ?%elem_of_empty|].
Qed.

(** A move that leaves the runner alone. *)
Lemma runner_moved (i : nat) (p q : stage) (s : creation P) :
  creation_inv s -> creators s !! i = Some p -> p <> Entering -> p <> Initializing -> q <> Initializing ->
  runner_ok (runner s) (inits s) (<[i := q]> (creators s)).
Proof.
  intros I Hi H1 H2 H3. pose proof (ci_runner s I) as Hr. unfold runner_ok in *. destruct (runner s) as [[]|].
  - destruct Hr as [E Hr]. split; [done|]. intros j p' Hj. change (creators (at_stage i q s) !! j = Some p') in Hj.
    rewrite (stage_lookup i j p q s Hi) in Hj. destruct (decide (j = i)); [by simplify_eq|by eapply Hr].
  - destruct Hr as (_ & k & Hk & Hr). destruct (decide (i = k)) as [->|Hne]; [congruence|]. by rewrite (Hr i p Hi Hne) in H1.
  - destruct Hr as [_ Hr]. by rewrite (Hr i p Hi) in H1.
Qed.

(** The thread that has the lock moves on. *)
Lemma holder_moved (i : nat) (p q : stage) (s s' : creation P) :
  creation_inv s -> creators s !! i = Some p -> holding p = true -> holding q = true ->
  creators s' = <[i := q]> (creators s) -> lock s' = lock s -> signalled s' = signalled s ->
  contexts s' = contexts s -> runner s' = runner s -> inits s' = inits s ->
  held i q (pending s') (init_queue s') (bool_decide (i ∈ signalled s)) -> creation_inv s'.
Proof.
  intros I Hi Hp Hq Ec El Es Ex Er En Hh. pose proof (ci_lock s I i p Hi Hp) as Hl.
  assert (forall j, creators s' !! j = if decide (j = i) then Some q else creators s !! j) as Hc
    by (intros j; rewrite Ec; apply (stage_lookup i j p q s Hi)).
  constructor; rewrite ?El, ?Es, ?Ex, ?Er, ?En.
  - rewrite Hl, Hc. exists q. by rewrite decide_True.
  - intros j p' Hj Hp'. rewrite Hc in Hj. destruct (decide (j = i)) as [->|]; [done|by eapply ci_lock].
  - intros j p' Hj Hp'. rewrite Hc in Hj. destruct (decide (j = i)); [congruence|by apply (ci_others s I)].
  - apply I.
  - rewrite Ec. eapply runner_moved; [done..| | |]; intros ->; done.
Qed.

(** What it finds, by its stage. *)
Lemma holder_finds (i : nat) (p : stage) (s : creation P) :
  creation_inv s -> creators s !! i = Some p -> holding p = true ->
  held i p (pending s) (init_queue s) (bool_decide (i ∈ signalled s)).
Proof.
  intros I Hi Hp. pose proof (ci_holder s I) as H. rewrite (ci_lock s I i p Hi Hp) in H.
  destruct H as (p' & Hp' & H). congruence.
Qed.

(** A thread that has not taken the lock yet moves on. *)
Lemma outside_moved (i : nat) (p q : stage) (r : option bool) (n : nat) (s : creation P) :
  creation_inv s -> creators s !! i = Some p -> holding p = false -> p <> Created -> holding q = false -> q <> Created ->
  runner_ok r n (<[i := q]> (creators s)) ->
  creation_inv (at_stage i q (mkCreation r n (lock s) (pending s) (init_queue s) (contexts s) (signalled s) (creators s))).
Proof.
  intros I Hi Hp Hpc Hq Hqc Hr. pose proof (fun j => stage_lookup i j p q s Hi) as Hc. cbn [at_stage creators] in Hc.
  constructor; cbn [runner inits lock pending init_queue contexts signalled creators at_stage]; try apply I; [..|done].
  - pose proof (ci_holder s I) as H. destruct (lock s) as [k|]; [|done]. destruct H as (p' & Hp' & H). exists p'.
    rewrite Hc, decide_False; [done|]. intros ->. assert (p' = p) as -> by congruence. by inversion H; subst.
  - intros j p' Hj Hp'. rewrite Hc in Hj. destruct (decide (j = i)); [congruence|by eapply ci_lock].
  - intros j p' Hj Hp'. rewrite Hc in Hj. destruct (decide (j = i)) as [->|]; [|by apply (ci_others s I)].
    pose proof (ci_others s I i p Hi Hp). injection Hj as <-. naive_solver.
Qed.

Lemma inv_enter (i : nat) (s s' : creation P) :
  creation_inv s -> creators s !! i = Some Entering -> enter i s = Some s' -> creation_inv s'.
Proof.
  intros I Hi. unfold enter. pose proof (ci_runner s I) as Hr. destruct (runner s) as [[]|] eqn:Er; [|done|]; intros [= <-].
  - destruct Hr as [En Hr]. replace (at_stage i Entered s) with (at_stage i Entered (mkCreation (Some true) (inits s) (lock s)
      (pending s) (init_queue s) (contexts s) (signalled s) (creators s))) by (by destruct s; cbn in *; subst).
    eapply outside_moved; [done..|]. split; [done|]. intros j p Hj.
    pose proof (stage_lookup i j Entering Entered s Hi) as Hc. cbn [at_stage creators] in Hc. rewrite Hc in Hj.
    destruct (decide (j = i)); [by simplify_eq|by eapply Hr].
  - destruct Hr as [En Hr]. eapply outside_moved; [done..|]. split; [done|]. exists i.
    split; [apply list_lookup_insert_eq; by eapply lookup_lt_Some|]. intros j p Hj Hne.
    rewrite list_lookup_insert_ne in Hj by done. by eapply Hr.
Qed.

Lemma inv_initialize (i : nat) (s : creation P) :
  creation_inv s -> creators s !! i = Some Initializing -> creation_inv (initialize i s).
Proof.
  intros I Hi. pose proof (ci_runner s I) as Hr. unfold initialize. eapply outside_moved; [done..|].
  unfold runner_ok in Hr. destruct (runner s) as [[]|].
  - destruct Hr as [_ Hr]. by destruct (Hr i _ Hi).
  - destruct Hr as (-> & k & Hk & Hr). split; [done|]. intros j p Hj.
    pose proof (stage_lookup i j Initializing Entered s Hi) as Hc. cbn [at_stage creators] in Hc. rewrite Hc in Hj.
    destruct (decide (j = i)) as [->|Hne]; [by simplify_eq|]. destruct (decide (j = k)) as [->|Hnk].
    + destruct (decide (i = k)) as [|Hik]; [congruence|]. by specialize (Hr i _ Hi Hik).
    + by rewrite (Hr j p Hj Hnk).
  - destruct Hr as [_ Hr]. by specialize (Hr i _ Hi).
Qed.

Lemma inv_acquire (i : nat) (s s' : creation P) :
  creation_inv s -> creators s !! i = Some Entered -> acquire true i s = Some s' -> creation_inv s'.
Proof.
  intros I Hi. unfold acquire. destruct (lock s) as [k|] eqn:El; [done|]. intros [= <-].
  pose proof (ci_holder s I) as Hh. rewrite El in Hh. destruct Hh as [Hp Hq].
  pose proof (fun j => stage_lookup i j Entered Acquired s Hi) as Hc. cbn [at_stage creators] in Hc.
  assert (i ∉ signalled s) as Hs by (by rewrite (ci_others s I i Entered Hi)).
  constructor; cbn [runner inits lock pending init_queue contexts signalled creators at_stage]; try apply I.
  - exists Acquired. rewrite Hc, decide_True, Hp, Hq, bool_decide_eq_false_2 by done. split; [done|constructor].
  - intros j p Hj Hp'. rewrite Hc in Hj. destruct (decide (j = i)) as [->|]; [done|].
    pose proof (ci_lock s I j p Hj Hp'). congruence.
  - intros j p Hj Hp'. rewrite Hc in Hj. destruct (decide (j = i)); [by simplify_eq|by apply (ci_others s I)].
  - by eapply runner_moved.
Qed.

Lemma inv_unlock (i : nat) (s : creation P) :
  creation_inv s -> creators s !! i = Some Cleared -> creation_inv (unlock i s).
Proof.
  intros I Hi. pose proof (holder_finds i _ s I Hi eq_refl) as Hh.
  pose proof (fun j => stage_lookup i j Cleared Created s Hi) as Hc. cbn [at_stage creators] in Hc.
  apply held_inv in Hh as (Hp & Hq & Hs). specialize (Hs ltac:(done)). apply bool_decide_eq_true in Hs. rewrite decide_False in Hq by done.
  constructor; unfold unlock; cbn [runner inits lock pending init_queue contexts signalled creators at_stage]; try apply I.
  - done.
  - intros j p Hj Hp'. rewrite Hc in Hj. destruct (decide (j = i)) as [->|Hne]; [by simplify_eq|].
    pose proof (ci_lock s I j p Hj Hp'). pose proof (ci_lock s I i _ Hi eq_refl). congruence.
  - intros j p Hj Hp'. rewrite Hc in Hj. destruct (decide (j = i)) as [->|]; [by simplify_eq|by apply (ci_others s I)].
  - by eapply runner_moved.
Qed.

(** The init thread builds the context of the engine that has the lock. *)
Lemma inv_run_init (s s' : creation P) : creation_inv s -> run_init s = Some s' -> creation_inv s'.
Proof.
  intros I. unfold run_init. destruct (init_queue s) as [|i queue] eqn:Eq; [done|]. intros [= <-].
  pose proof (ci_holder s I) as Hh. destruct (lock s) as [k|] eqn:El; [|by destruct Hh; congruence].
  destruct Hh as (p & Hk & Hh). rewrite Eq in Hh.
  apply held_inv in Hh as (Hpend & Hq & Hs). destruct (decide (p = Posted)) as [->|]; [|done].
  destruct (bool_decide (k ∈ signalled s)) eqn:Eb; [done|]. injection Hq as -> ->. apply bool_decide_eq_false in Eb.
  constructor; cbn [runner inits lock pending init_queue contexts signalled creators].
  - exists Posted. rewrite Hpend, bool_decide_eq_true_2 by set_solver. split; [done|constructor].
  - rewrite <- El. apply I.
  - intros j p Hj Hp. rewrite <- (ci_others s I j p Hj Hp), elem_of_union, elem_of_singleton.
    split; [|by right]. intros [->|?]; [|done]. rewrite Hk in Hj. by simplify_eq.
  - intros j. destruct (decide (j = k)) as [->|Hne].
    + by rewrite lookup_insert_eq, bool_decide_eq_true_2, Hpend by set_solver.
    + rewrite lookup_insert_ne, (ci_contexts s I) by done. erewrite bool_decide_ext; [done|]. set_solver.
  - apply I.
Qed.

Lemma creation_inv_step (a : actor) (s s' : creation P) :
  creation_inv s -> create_step config true a s = Some s' -> creation_inv s'.
Proof.
  intros I. destruct a as [i|]; [|by apply inv_run_init]. cbn [create_step].
  destruct (creators s !! i) as [p|] eqn:Hi; cbn [mbind option_bind]; [|done].
  pose proof (fun q => runner_moved i p q s I Hi) as Hr.
  destruct p; try done.
  - by apply inv_enter.
  - intros [= <-]. by apply inv_initialize.
  - by apply inv_acquire.
  - intros [= <-]. destruct (held_inv _ _ _ _ _ (holder_finds i _ s I Hi eq_refl)) as (Hp & Hq & Hs).
    eapply (holder_moved i _ Installed); try done; cbn. rewrite Hq, Hs by done. constructor.
  - intros [= <-]. destruct (held_inv _ _ _ _ _ (holder_finds i _ s I Hi eq_refl)) as (Hp & Hq & Hs).
    eapply (holder_moved i _ Posted); try done; cbn. rewrite Hp, Hq, Hs by done. constructor.
  - unfold await. case_bool_decide as Hb; [|done]. intros [= <-].
    destruct (held_inv _ _ _ _ _ (holder_finds i _ s I Hi eq_refl)) as (Hp & Hq & Hs).
    rewrite bool_decide_eq_true_2 in Hq by done.
    eapply (holder_moved i _ Woken); try done; cbn. rewrite Hp, Hq, bool_decide_eq_true_2 by done. constructor.
  - intros [= <-]. destruct (held_inv _ _ _ _ _ (holder_finds i _ s I Hi eq_refl)) as (Hp & Hq & Hs).
    eapply (holder_moved i _ Cleared); try done; cbn. rewrite Hq, Hs by done. constructor.
  - intros [= <-]. by apply inv_unlock.
Qed.

Lemma creation_inv_run (schedule : list actor) (s s' : creation P) :
  creation_inv s -> create_run config true schedule s = Some s' -> creation_inv s'.
Proof.
  revert s. induction schedule as [|a schedule IH]; intros s I; cbn; [by intros [= <-]|].
  destruct (create_step config true a s) as [s1|] eqn:E; cbn; [|done]. apply IH. by eapply creation_inv_step.
Qed.
End invariant.

(** ** Making engines ends *)

Section completion.
Context {P : Type} (config : nat -> option P).

(** The steps a creator has left, its task on the init thread included. *)
Definition rank (p : stage) : nat :=
  match p with
  | Entering => 9 | Initializing => 8 | Entered => 7 | Acquired => 6 | Installed => 5 | Posted => 3 | Woken => 2
  | Cleared => 1 | Created => 0
  end.

Definition creation_left (s : creation P) : nat := sum_list_with rank (creators s) + length (init_queue s).

Lemma rank_insert (l : list stage) (i : nat) (p q : stage) :
  l !! i = Some p -> sum_list_with rank (<[i := q]> l) + rank p = sum_list_with rank l + rank q.
Proof.
  revert i. induction l as [|x l IH]; intros [|i] H; cbn in *; try done.
  - injection H as ->. lia.
  - specialize (IH i H). unfold insert in *. lia.
Qed.

Lemma creation_step_left (a : actor) (s s' : creation P) :
  create_step config true a s = Some s' -> creation_left s' < creation_left s.
Proof.
  unfold creation_left. destruct a as [i|]; cbn [create_step].
  - destruct (creators s !! i) as [p|] eqn:Hi; cbn [mbind option_bind]; [|done].
    pose proof (fun q => rank_insert (creators s) i p q Hi) as Hr.
    destruct p; unfold enter, acquire, await; try (destruct (runner s) as [[]|]); try (destruct (lock s));
      try case_bool_decide; intros Hst; simplify_eq; cbn; rewrite ?length_app; cbn;
      first [pose proof (Hr Initializing) as Hx; cbn in Hx; lia|pose proof (Hr Entered) as Hx; cbn in Hx; lia
        |pose proof (Hr Acquired) as Hx; cbn in Hx; lia|pose proof (Hr Installed) as Hx; cbn in Hx; lia
        |pose proof (Hr Posted) as Hx; cbn in Hx; lia|pose proof (Hr Woken) as Hx; cbn in Hx; lia
        |pose proof (Hr Cleared) as Hx; cbn in Hx; lia|pose proof (Hr Created) as Hx; cbn in Hx; lia].
  - unfold run_init. destruct (init_queue s) as [|i queue]; [done|]. intros [= <-]. cbn. lia.
Qed.

Lemma creation_run_left (schedule : list actor) (s s' : creation P) :
  create_run config true schedule s = Some s' -> length schedule + creation_left s' <= creation_left s.
Proof.
  revert s. induction schedule as [|a schedule IH]; intros s; cbn; [intros [= <-]; lia|].
  destruct (create_step config true a s) as [s1|] eqn:E; cbn; [|done]. intros Hr.
  pose proof (creation_step_left _ _ _ E). pose proof (IH s1 Hr). lia.
Qed.

Definition stuck (s : creation P) : Prop := forall a, create_step config true a s = None.

Lemma holder_not_stuck (i : nat) (p : stage) (s : creation P) :
  creation_inv config s -> creators s !! i = Some p -> holding p = true -> ~ stuck s.
Proof.
  intros I Hi Hp Hs. pose proof (Hs (Creator i)) as H. cbn [create_step] in H. rewrite Hi in H. cbn [mbind option_bind] in H.
  destruct p; try done. unfold await in H. case_bool_decide as Hb; [done|].
  destruct (held_inv _ _ _ _ _ _ (holder_finds config i _ s I Hi eq_refl)) as (_ & Hq & _).
  rewrite decide_True, bool_decide_eq_false_2 in Hq by done. pose proof (Hs InitThread) as H'. cbn in H'.
  unfold run_init in H'. by rewrite Hq in H'.
Qed.

Lemma stuck_created (i : nat) (p : stage) (s : creation P) :
  creation_inv config s -> stuck s -> creators s !! i = Some p -> p = Created.
Proof.
  intros I Hs Hi. destruct (holding p) eqn:Hp; [by destruct (holder_not_stuck i p s I Hi Hp)|].
  pose proof (ci_runner config s I) as Hr. pose proof (Hs (Creator i)) as H. cbn [create_step] in H.
  rewrite Hi in H. cbn [mbind option_bind] in H. destruct p; try done.
  - unfold enter in H. destruct (runner s) as [[]|]; try done. destruct Hr as (_ & k & Hk & _).
    pose proof (Hs (Creator k)) as H'. cbn [create_step] in H'. by rewrite Hk in H'.
  - unfold acquire in H. pose proof (ci_holder config s I) as Hh. destruct (lock s) as [k|]; [|done].
    destruct Hh as (q & Hq & Hh). destruct (holder_not_stuck k q s I Hq); [|done]. by destruct Hh.
Qed.
End completion.

(** C13: every engine is made with its own proxy.  However many threads make
    engines at once and however their steps and the init thread's fall, a
    context is built with the configuration of the engine it belongs to, never
    with another's and never with the system's in its place; one engine at a
    time is inside the lock, nothing is left pending outside it, and the task
    runner is made once, before anything is posted to it. *)
Theorem creation_isolated {P} (config : nat -> option P) (n : nat) (schedule : list actor) (s : creation P)
    (Hrun : create_run config true schedule (creation_init n) = Some s) :
  (forall i service, contexts s !! i = Some service -> service = CreateProxyConfigService (config i))
  /\ (forall i j p q, creators s !! i = Some p -> creators s !! j = Some q ->
        holding p = true -> holding q = true -> i = j)
  /\ (lock s = None -> pending s = None)
  /\ inits s <= 1
  /\ (forall i p, creators s !! i = Some p -> p <> Entering -> p <> Initializing -> runner s = Some true /\ inits s = 1).
Proof.
  pose proof (creation_inv_run config _ _ _ (creation_inv_init config n) Hrun) as I.
  pose proof (ci_runner config s I) as Hr. split_and!.
  - intros i service H. rewrite (ci_contexts config s I) in H. case_bool_decide; [|done]. by injection H.
  - intros i j p q Hi Hj Hp Hq. pose proof (ci_lock config s I i p Hi Hp). pose proof (ci_lock config s I j q Hj Hq). congruence.
  - intros Hl. pose proof (ci_holder config s I) as H. rewrite Hl in H. apply H.
  - unfold runner_ok in Hr. destruct (runner s) as [[]|]; destruct Hr as [-> _]; lia.
  - intros i p Hi H1 H2. unfold runner_ok in Hr. destruct (runner s) as [[]|].
    + by destruct Hr as [-> _].
    + destruct Hr as (_ & k & Hk & Hr). destruct (decide (i = k)) as [->|Hne]; [congruence|]. by rewrite (Hr i p Hi Hne) in H1.
    + destruct Hr as [_ Hr]. by rewrite (Hr i p Hi) in H1.
Qed.

(** C33: making engines ends.  No schedule of [n] threads is longer than nine
    steps each, the init thread's task included, and one that cannot go on has
    made every engine, each with its own proxy, and has released the lock. *)
Theorem creation_completes {P} (config : nat -> option P) (n : nat) (schedule : list actor) (s : creation P)
    (Hrun : create_run config true schedule (creation_init n) = Some s) :
  length schedule <= 9 * n
  /\ ((forall a, create_step config true a s = None) ->
        (forall i, i < length (creators s) -> creators s !! i = Some Created
           /\ contexts s !! i = Some (CreateProxyConfigService (config i)))
        /\ lock s = None /\ pending s = None /\ init_queue s = []).
Proof.
  pose proof (creation_inv_run config _ _ _ (creation_inv_init config n) Hrun) as I. split.
  - pose proof (creation_run_left config _ _ _ Hrun) as H. revert H. unfold creation_left at 2. cbn.
    assert (forall k, sum_list_with rank (replicate k Entering) = 9 * k) as E by (induction k; cbn; lia).
    rewrite E. lia.
  - intros Hs. pose proof (ci_holder config s I) as Hh. split.
    + intros i [p Hi]%lookup_lt_is_Some. pose proof (stuck_created config i p s I Hs Hi) as ->. split; [done|].
      by rewrite (ci_contexts config s I), bool_decide_eq_true_2 by by apply (ci_others config s I i Created).
    + destruct (lock s) as [k|]; [|done]. destruct Hh as (p & Hp & Hh).
      rewrite (stuck_created config k p s I Hs Hp) in Hh. by inversion Hh.
Qed.

(** ** At concrete schedules *)

Definition two_proxies (i : nat) : option nat := if i =? 0 then Some 80 else None.

(** Two threads, the second waiting for the first's initialisation and lock. *)
Definition two_engines : list actor :=
  Creator 0 :: Creator 0 :: Creator 1 :: replicate 3 (Creator 0) ++ [InitThread] ++ replicate 3 (Creator 0)
    ++ replicate 3 (Creator 1) ++ [InitThread] ++ replicate 3 (Creator 1).

Definition both_made : creation nat :=
  default (creation_init 2) (create_run two_proxies true two_engines (creation_init 2)).

Lemma creation_isolated_witness :
  contexts both_made !! 0 = Some (Fixed 80) /\ CreateProxyConfigService (two_proxies 1) = SystemProxy.
Proof.
  assert (contexts both_made !! 0 = Some (Fixed 80)) as H by (vm_compute; reflexivity).
  destruct (creation_isolated two_proxies 2 two_engines both_made) as [Hi _]; [vm_compute; reflexivity|].
  split; [|reflexivity]. rewrite H. rewrite (Hi 0 _ H). reflexivity.
Defined.

Lemma creation_completes_witness :
  length two_engines <= 18 /\ contexts both_made !! 1 = Some SystemProxy /\ lock both_made = None.
Proof.
  destruct (creation_completes two_proxies 2 two_engines both_made) as [H1 H2]; [vm_compute; reflexivity|].
  split; [exact H1|]. destruct H2 as (H2 & Hl & _).
  - intros [i|]; [|vm_compute; reflexivity]. destruct i as [|[|i]]; vm_compute; reflexivity.
  - split; [|exact Hl]. apply (H2 1). apply Nat.ltb_lt. vm_compute. reflexivity.
Defined.

(** Without the lock an engine can be built with another's proxy, or with the
    system's. *)
Lemma creation_mixed_up :
  exists s, create_run two_proxies false
      (Creator 0 :: Creator 0 :: Creator 1 :: replicate 3 (Creator 0) ++ replicate 2 (Creator 1) ++ [InitThread])
      (creation_init 2) = Some s
    /\ contexts s !! 0 = Some SystemProxy.
Proof. eexists. split; [vm_compute; reflexivity|]. vm_compute. reflexivity. Qed.
