(* ===== verification/Callbacks.v ===== *)
(** * Callbacks: what Chromium calls back on the engine (native/engine.cc).

    Stopping a NetLog waits for the network thread to say that the file has
    been flushed, which it says only when a log was running.  The engine keeps a
    flag to know that, and asks outside the lock the flag is under; any number
    of threads start and stop logs.  The two hooks of a proxy tunnel answer
    through the network thread. *)

From S2P Require Import Prelude.

(** ** NetLogs *)

(** Where a thread is in [StopNetLog]. *)
Inductive stopper :=
| Outside
| Between     (* the flag is down, the context not yet asked *)
| Waiting.    (* in [net_log_stopped_.Wait()] *)

#[export] Instance stopper_eq_dec : EqDecision stopper.
Proof. solve_decision. Defined.

Record netlog := mkNetLog {
  is_net_logging : bool;
  net_log_stopped : bool;        (* the event is signalled *)
  running : bool;                (* Chromium has a log open *)
  completions : nat;             (* [OnStopNetLogCompleted] still to come *)
  stoppers : list stopper;
}.

Definition netlog_init (n : nat) : netlog := mkNetLog false false false 0 (replicate n Outside).

Definition stands (i : nat) (p : stopper) (s : netlog) : netlog :=
  mkNetLog (is_net_logging s) (net_log_stopped s) (running s) (completions s) (<[i := p]> (stoppers s)).

(** [StartNetLog]; [opened] is what [StartNetLogToFile] answers. *)
Definition StartNetLog (opened : bool) (s : netlog) : bool * netlog :=
  if is_net_logging s || negb opened then (false, s)
  else (true, mkNetLog true (net_log_stopped s) true (completions s) (stoppers s)).

(** [StopNetLog], up to the end of its locked block. *)
Definition stop_locked (i : nat) (s : netlog) : netlog :=
  if is_net_logging s
  then stands i Between (mkNetLog false false (running s) (completions s) (stoppers s)) else s.

(** [context_->StopNetLog()]: Chromium completes a stop that had something to
    stop, and does not answer another. *)
Definition stop_requested (i : nat) (s : netlog) : netlog :=
  stands i Waiting
    (mkNetLog (is_net_logging s) (net_log_stopped s) false
       (if running s then S (completions s) else completions s) (stoppers s)).

(** [OnStopNetLogCompleted] *)
Definition OnStopNetLogCompleted (s : netlog) : netlog :=
  mkNetLog (is_net_logging s) true (running s) (completions s - 1) (stoppers s).

Inductive log_event :=
| LogStart (i : nat) (opened : bool)
| LogStop (i : nat)
| LogRequest (i : nat)
| LogWake (i : nat)
| LogCompleted.

Section step.
(** Whether a log may be started while a stop is between its two halves. *)
Context (overlap : bool).

Definition log_step (ev : log_event) (s : netlog) : option netlog :=
  match ev with
  | LogStart i opened =>
      if bool_decide (stoppers s !! i = Some Outside) && (overlap || negb (bool_decide (Between ∈ stoppers s)))
      then Some (StartNetLog opened s).2 else None
  | LogStop i => if bool_decide (stoppers s !! i = Some Outside) then Some (stop_locked i s) else None
  | LogRequest i => if bool_decide (stoppers s !! i = Some Between) then Some (stop_requested i s) else None
  | LogWake i =>
      if bool_decide (stoppers s !! i = Some Waiting) && net_log_stopped s then Some (stands i Outside s) else None
  | LogCompleted => match completions s with 0 => None | S _ => Some (OnStopNetLogCompleted s) end
  end.

Fixpoint log_run (schedule : list log_event) (s : netlog) : option netlog :=
  match schedule with
  | [] => Some s
  | ev :: schedule => s ← log_step ev s; log_run schedule s
  end.
End step.

(** The steps of a stop that has begun. *)
Definition stopping (ev : log_event) : bool :=
  match ev with LogRequest _ | LogWake _ | LogCompleted => true | _ => false end.

(** ** The invariant *)

Record log_inv (s : netlog) : Prop := {
  li_one : forall i j, stoppers s !! i = Some Between -> stoppers s !! j = Some Between -> i = j;
  li_between : Between ∈ stoppers s -> is_net_logging s = false /\ running s = true;
  li_running : Between ∉ stoppers s -> running s = is_net_logging s;
  li_waiting : Waiting ∈ stoppers s -> net_log_stopped s = true \/ 0 < completions s \/ Between ∈ stoppers s;
}.

Lemma stands_lookup (i j : nat) (p q : stopper) (l : list stopper) :
  l !! i = Some p -> <[i := q]> l !! j = if decide (j = i) then Some q else l !! j.
Proof.
  intros Hi. destruct (decide (j = i)) as [->|Hne].
  - apply list_lookup_insert_eq. by eapply lookup_lt_Some.
  - by apply list_lookup_insert_ne.
Qed.

Lemma stands_elem (i : nat) (p q x : stopper) (l : list stopper) :
  l !! i = Some p -> x ∈ <[i := q]> l <-> x = q \/ exists j, j <> i /\ l !! j = Some x.
Proof.
  intros Hi. rewrite list_elem_of_lookup. setoid_rewrite (stands_lookup i _ p q l Hi). split.
  - intros [j Hj]. destruct (decide (j = i)); [left; congruence|right; by exists j].
  - intros [->|(j & Hne & Hj)]; [exists i; by rewrite decide_True|exists j; by rewrite decide_False].
Qed.

Lemma log_inv_init (n : nat) : log_inv (netlog_init n).
Proof.
  assert (forall x, x ∈ replicate n Outside -> x = Outside) as Hr by (intros x Hx; apply elem_of_replicate in Hx; tauto).
  constructor; cbn; try done.
  - intros i j Hi. apply list_elem_of_lookup_2, Hr in Hi. done.
  - by intros ?%Hr.
  - by intros ?%Hr.
Qed.

Lemma log_inv_step (ev : log_event) (s s' : netlog) : log_inv s -> log_step false ev s = Some s' -> log_inv s'.
Proof.
  intros I. pose proof I as [H1 H2 H3 H4]. destruct ev as [i opened|i|i|i|]; cbn [log_step orb].
  - case_bool_decide as Hi; cbn [andb]; [|done]. case_bool_decide as Hb; cbn [negb]; [done|]. intros [= <-].
    unfold StartNetLog. destruct (is_net_logging s || negb opened); [done|]. by constructor.
  - case_bool_decide as Hi; [|done]. intros [= <-]. unfold stop_locked. destruct (is_net_logging s) eqn:El; [|done].
    assert (Between ∉ stoppers s) as Hb by (intros Hb; destruct (H2 Hb); done).
    assert (forall k, stoppers s !! k <> Some Between) as Hnb by (intros k Hk; apply Hb; by eapply list_elem_of_lookup_2).
    constructor; cbn.
    + intros j k. rewrite !(stands_lookup i _ Outside Between) by done.
      destruct (decide (j = i)), (decide (k = i)); subst; try done; by intros ?%Hnb || by intros _ ?%Hnb.
    + intros _. split; [done|by rewrite H3].
    + intros Hn. exfalso. apply Hn, (stands_elem i Outside); [done|by left].
    + intros _. right. right. apply (stands_elem i Outside); [done|by left].
  - case_bool_decide as Hi; [|done]. intros [= <-].
    destruct H2 as [Hl Hrun]; [by eapply list_elem_of_lookup_2|].
    assert (Between ∉ <[i := Waiting]> (stoppers s)) as Hb.
    { rewrite (stands_elem i Between) by done. intros [?|(j & Hne & Hj)]; [done|]. by apply Hne, H1. }
    constructor; cbn; rewrite ?Hrun, ?Hl; try done.
    + intros j k Hj. exfalso. apply Hb. by eapply list_elem_of_lookup_2.
    + intros _. right. left. lia.
  - case_bool_decide as Hi; cbn [andb]; [|done]. destruct (net_log_stopped s) eqn:Es; [|done]. intros [= <-].
    assert (Between ∈ <[i := Outside]> (stoppers s) <-> Between ∈ stoppers s) as Hb.
    { rewrite (stands_elem i Waiting), list_elem_of_lookup by done. split; [intros [?|(j & _ & Hj)]; [done|by exists j]|].
      intros [j Hj]. right. exists j. split; [congruence|done]. }
    constructor; cbn; rewrite ?Hb, ?Es; try done; [|by left].
    intros j k. rewrite !(stands_lookup i _ Waiting Outside) by done.
    destruct (decide (j = i)), (decide (k = i)); try done. apply H1.
  - destruct (completions s) as [|m] eqn:Ec; [done|]. intros [= <-]. constructor; cbn; try done. by left.
Qed.

Lemma log_inv_run (schedule : list log_event) (s s' : netlog) :
  log_inv s -> log_run false schedule s = Some s' -> log_inv s'.
Proof.
  revert s. induction schedule as [|ev schedule IH]; intros s I; cbn [log_run]; [by intros [= <-]|].
  destruct (log_step false ev s) as [s1|] eqn:E; cbn [mbind option_bind]; [|done]. apply IH. by eapply log_inv_step.
Qed.

(** ** Stopping ends *)

Definition stop_rank (p : stopper) : nat := match p with Between => 3 | Waiting => 1 | Outside => 0 end.

Definition log_left (s : netlog) : nat := sum_list_with stop_rank (stoppers s) + completions s.

Lemma stop_rank_insert (l : list stopper) (i : nat) (p q : stopper) :
  l !! i = Some p -> sum_list_with stop_rank (<[i := q]> l) + stop_rank p = sum_list_with stop_rank l + stop_rank q.
Proof.
  revert i. induction l as [|x l IH]; intros [|i] H; cbn in *; try done.
  - injection H as ->. lia.
  - specialize (IH i H). unfold insert in *. lia.
Qed.

Lemma stopping_left (overlap : bool) (ev : log_event) (s s' : netlog) :
  stopping ev = true -> log_step overlap ev s = Some s' -> log_left s' < log_left s.
Proof.
  unfold log_left. destruct ev as [i opened|i|i|i|]; try done; intros _; cbn [log_step].
  - case_bool_decide as Hi; [|done]. intros [= <-]. pose proof (stop_rank_insert _ i _ Waiting Hi) as Hr.
    cbn in *. destruct (running s); lia.
  - case_bool_decide as Hi; cbn [andb]; [|done]. destruct (net_log_stopped s); [|done]. intros [= <-].
    pose proof (stop_rank_insert _ i _ Outside Hi) as Hr. cbn in *. lia.
  - destruct (completions s) as [|m] eqn:E; [done|]. intros [= <-]. cbn. rewrite E. lia.
Qed.

Lemma stopping_run (overlap : bool) (schedule : list log_event) (s s' : netlog) :
  Forall (fun ev => stopping ev = true) schedule -> log_run overlap schedule s = Some s' ->
  length schedule + log_left s' <= log_left s.
Proof.
  revert s. induction schedule as [|ev schedule IH]; intros s; cbn [log_run]; [intros _ [= <-]; cbn; lia|].
  intros [Hev Hs]%Forall_cons. destruct (log_step overlap ev s) as [s1|] eqn:E; cbn [mbind option_bind]; [|done].
  intros Hr. pose proof (stopping_left _ _ _ _ Hev E). pose proof (IH s1 Hs Hr). cbn. lia.
Qed.

(** C34: stopping a NetLog returns.  Provided no log is started between the two
    halves of a stop, the flag tells whether a log is open whenever no stop is
    under way; the threads stopping one and the network thread have a bounded
    number of steps left; and when none of them can take another, every
    [StopNetLog] has returned. *)
Theorem net_log_stops (n : nat) (schedule schedule' : list log_event) (s s' : netlog)
    (Hrun : log_run false schedule (netlog_init n) = Some s)
    (Hstop : Forall (fun ev => stopping ev = true) schedule') (Hrun' : log_run false schedule' s = Some s') :
  (Between ∉ stoppers s -> running s = is_net_logging s)
  /\ length schedule' <= log_left s
  /\ ((forall ev, stopping ev = true -> log_step false ev s' = None) ->
        forall i p, stoppers s' !! i = Some p -> p = Outside).
Proof.
  pose proof (log_inv_run _ _ _ (log_inv_init n) Hrun) as I. pose proof (log_inv_run _ _ _ I Hrun') as I'.
  pose proof (stopping_run _ _ _ _ Hstop Hrun') as Hlen. split_and!; [apply I|lia|].
  intros Hstuck i p Hi. destruct p; [done|..]; exfalso.
  - specialize (Hstuck (LogRequest i) eq_refl). cbn in Hstuck. by rewrite bool_decide_eq_true_2 in Hstuck.
  - destruct (li_waiting s' I') as [Hs|[Hc|Hb]]; [by eapply list_elem_of_lookup_2|..].
    + specialize (Hstuck (LogWake i) eq_refl). cbn in Hstuck. by rewrite bool_decide_eq_true_2, Hs in Hstuck.
    + specialize (Hstuck LogCompleted eq_refl). cbn in Hstuck. destruct (completions s'); [lia|done].
    + apply list_elem_of_lookup in Hb as [k Hk]. specialize (Hstuck (LogRequest k) eq_refl). cbn in Hstuck.
      by rewrite bool_decide_eq_true_2 in Hstuck.
Qed.

(** ** At concrete schedules *)

(** A log is started and stopped, and another thread does the same while the
    first is still waiting. *)
Definition two_logs : list log_event :=
  [LogStart 0 true; LogStop 0; LogRequest 0; LogStart 1 true; LogCompleted; LogStop 1].
Definition two_logs_end : list log_event := [LogRequest 1; LogCompleted; LogWake 0; LogWake 1].

Definition mid_logs : netlog := default (netlog_init 2) (log_run false two_logs (netlog_init 2)).
Definition end_logs : netlog := default (netlog_init 2) (log_run false two_logs_end mid_logs).

Lemma net_log_stops_witness : length two_logs_end <= log_left mid_logs /\ stoppers end_logs !! 1 = Some Outside.
Proof.
  destruct (net_log_stops 2 two_logs two_logs_end mid_logs end_logs) as (_ & H1 & H2);
    [vm_compute; reflexivity|repeat constructor|vm_compute; reflexivity|]. split; [exact H1|].
  destruct (stoppers end_logs !! 1) as [p|] eqn:Hp; [|vm_compute in Hp; discriminate Hp].
  rewrite (H2 ltac:(intros [| |[|[|i]]|[|[|i]]|] Hev; first [discriminate Hev|vm_compute; reflexivity]) 1 p Hp).
  reflexivity.
Defined.

(** A log started between the two halves of a stop is stopped by it, and the
    stop that is meant for it waits for an answer that never comes. *)
Lemma stop_waits_forever :
  exists s, log_run true [LogStart 0 true; LogStop 0; LogStart 1 true; LogRequest 0; LogCompleted; LogWake 0; LogStop 1; LogRequest 1]
              (netlog_init 2) = Some s
    /\ stoppers s = [Outside; Waiting] /\ net_log_stopped s = false /\ completions s = 0 /\ running s = false.
Proof. eexists. split; [vm_compute; reflexivity|]. vm_compute. by split_and!. Qed.

(** A stop can return on the answer to an earlier one, its own log not yet
    flushed. *)
Lemma stop_returns_early :
  exists s, log_run false [LogStart 0 true; LogStop 0; LogRequest 0; LogStart 1 true; LogStop 1; LogCompleted; LogRequest 1; LogWake 1]
              (netlog_init 2) = Some s
    /\ stoppers s !! 1 = Some Outside /\ completions s = 1.
Proof. eexists. split; [vm_compute; reflexivity|]. vm_compute. by split_and!. Qed.

(** ** The hooks of a proxy tunnel *)

Section tunnel.
(** A header of the tunnel request, and the callbacks //net hands over. *)
Context {Header : Type}.

Inductive tunnel_answer := RunHeaders (callback : nat) (headers : list Header) | RunCode (callback : nat) (code : Z).

Definition net_OK : Z := 0.

(** Both post their answer to the network thread, whose queue is the argument. *)
Definition OnBeforeTunnelRequest (callback : nat) (queue : list tunnel_answer) : list tunnel_answer :=
  queue ++ [RunHeaders callback []].
Definition OnTunnelHeadersReceived (callback : nat) (queue : list tunnel_answer) : list tunnel_answer :=
  queue ++ [RunCode callback net_OK].

Definition answered (a : tunnel_answer) : nat := match a with RunHeaders c _ | RunCode c _ => c end.
Definition carries_on (a : tunnel_answer) : bool :=
  match a with RunHeaders _ hs => bool_decide (length hs = 0) | RunCode _ code => bool_decide (code = net_OK) end.

Inductive tunnel_call := BeforeTunnel (callback : nat) | TunnelHeaders (callback : nat).

Definition tunnel_hook (queue : list tunnel_answer) (call : tunnel_call) : list tunnel_answer :=
  match call with
  | BeforeTunnel c => OnBeforeTunnelRequest c queue
  | TunnelHeaders c => OnTunnelHeadersReceived c queue
  end.

(** A tunnel is never held up: every callback is answered, once, in order and
    on the network thread, and told to carry on. *)
Lemma tunnel_carries_on (calls : list tunnel_call) (queue : list tunnel_answer) :
  exists answers, foldl tunnel_hook queue calls = queue ++ answers
    /\ answered <$> answers = (fun call => match call with BeforeTunnel c | TunnelHeaders c => c end) <$> calls
    /\ Forall (fun a => carries_on a = true) answers.
Proof.
  revert queue. induction calls as [|call calls IH]; intros queue; [exists []; by rewrite app_nil_r|].
  cbn [foldl]. destruct (IH (tunnel_hook queue call)) as (answers & E & Ha & Hc).
  exists ((match call with BeforeTunnel c => RunHeaders c [] | TunnelHeaders c => RunCode c net_OK end) :: answers).
  split_and!; [|by destruct call; cbn; rewrite Ha|by constructor; [destruct call|]].
  rewrite E. by destruct call; cbn; unfold OnBeforeTunnelRequest, OnTunnelHeadersReceived; rewrite <- app_assoc.
Qed.
End tunnel.
