(* ===== verification/Abi.v ===== *)
(** * Abi: the ctypes declarations of the C ABI (_abi.py).

    The constants, the six structures with the layout ctypes gives them on
    x86-64 Linux, and the signatures [bind] applies to the loaded library. *)

From S2P Require Import Prelude PyText.

Definition ABI_VERSION : Z := 3.
Definition NO_TIME : Z := -1.
Definition ERROR_ABORTED : Z := -3.
Definition ERROR_TIMED_OUT : Z := -7.
Definition ERROR_TOO_MANY_REDIRECTS : Z := -31.
Definition EOF : Z := -1.

Definition CACHE_DISABLED : Z := 0.
Definition CACHE_IN_MEMORY : Z := 1.
Definition CACHE_ON_DISK : Z := 2.
Definition PRIORITY_THROTTLED : Z := 0.
Definition PRIORITY_IDLE : Z := 1.
Definition PRIORITY_LOWEST : Z := 2.
Definition PRIORITY_LOW : Z := 3.
Definition PRIORITY_MEDIUM : Z := 4.
Definition PRIORITY_HIGHEST : Z := 5.
Definition CALL_STARTED : Z := 0.
Definition CALL_HEADERS : Z := 1.
Definition CALL_DONE : Z := 2.

(** ** Structures *)

Unset Elimination Schemes.
Inductive ctype :=
| c_int32
| c_int64
| c_int
| c_size_t
| c_ubyte
| c_char_p
| c_void_p
| POINTER (target : ctype)
| Structure (fields : list (str * ctype)).
Set Elimination Schemes.

Definition fields_of (t : ctype) : list (str * ctype) :=
  match t with Structure fs => fs | _ => [] end.

(** The least multiple of [a] that is at least [n]. *)
Definition align_up (n a : Z) : Z := ((n + a - 1) / a * a)%Z.

(** [ctypes.alignment] and [ctypes.sizeof] on x86-64: a structure is aligned
    like its most demanding field, each field sits at the next offset its own
    alignment allows, and the size is rounded up to the structure's. *)
Fixpoint alignment (t : ctype) : Z :=
  match t with
  | c_ubyte => 1
  | c_int32 | c_int => 4
  | c_int64 | c_size_t | c_char_p | c_void_p | POINTER _ => 8
  | Structure fs => foldr Z.max 1%Z ((fun f => alignment f.2) <$> fs)
  end.

Fixpoint sizeof (t : ctype) : Z :=
  match t with
  | c_ubyte => 1
  | c_int32 | c_int => 4
  | c_int64 | c_size_t | c_char_p | c_void_p | POINTER _ => 8
  | Structure fs =>
      align_up
        (foldl (fun at_ f => align_up at_ f.1 + f.2)%Z 0%Z
           ((fun f => (alignment f.2, sizeof f.2)) <$> fs))
        (foldr Z.max 1%Z ((fun f => alignment f.2) <$> fs))
  end.

(** The offset of each field, and the first byte past the last one. *)
Fixpoint offsets_from (at_ : Z) (fs : list (str * ctype)) : list (str * Z * ctype) :=
  match fs with
  | [] => []
  | (name, t) :: fs =>
      let off := align_up at_ (alignment t) in
      (name, off, t) :: offsets_from (off + sizeof t) fs
  end.

Definition offsets (t : ctype) : list (str * Z * ctype) := offsets_from 0 (fields_of t).

Definition CronetHeader : ctype :=
  Structure [ (#"name", c_char_p); (#"value", c_char_p)].

Definition CronetQuicHint : ctype :=
  Structure [ (#"host", c_char_p); (#"port", c_int32); (#"alternate_port", c_int32)].

Definition CronetEngineConfig : ctype :=
  Structure
    [ (#"user_agent", c_char_p);
      (#"accept_language", c_char_p);
      (#"experimental_options", c_char_p);
      (#"storage_path", c_char_p);
      (#"proxy_rules", c_char_p);
      (#"proxy_bypass_rules", c_char_p);
      (#"proxy_username", c_char_p);
      (#"proxy_password", c_char_p);
      (#"quic_hints", POINTER CronetQuicHint);
      (#"quic_hint_count", c_size_t);
      (#"enable_quic", c_int32);
      (#"enable_http2", c_int32);
      (#"enable_brotli", c_int32);
      (#"cache_mode", c_int32);
      (#"cache_max_bytes", c_int64)].

Definition CronetRequest : ctype :=
  Structure
    [ (#"method", c_char_p);
      (#"url", c_char_p);
      (#"headers", POINTER CronetHeader);
      (#"header_count", c_size_t);
      (#"body", POINTER c_ubyte);
      (#"body_size", c_size_t);
      (#"priority", c_int32);
      (#"max_redirects", c_int32);
      (#"disable_cache", c_int32)].

Definition CronetMetrics : ctype :=
  Structure
    [ (#"request_start_us", c_int64);
      (#"dns_start_us", c_int64);
      (#"dns_end_us", c_int64);
      (#"connect_start_us", c_int64);
      (#"connect_end_us", c_int64);
      (#"ssl_start_us", c_int64);
      (#"ssl_end_us", c_int64);
      (#"send_start_us", c_int64);
      (#"send_end_us", c_int64);
      (#"response_start_us", c_int64);
      (#"request_end_us", c_int64);
      (#"sent_bytes", c_int64);
      (#"received_bytes", c_int64);
      (#"socket_reused", c_int32)].

Definition CronetResponse : ctype :=
  Structure
    [ (#"status_code", c_int32);
      (#"status_text", c_char_p);
      (#"headers", POINTER CronetHeader);
      (#"header_count", c_size_t);
      (#"negotiated_protocol", c_char_p);
      (#"proxy_server", c_char_p);
      (#"final_url", c_char_p);
      (#"redirect_count", c_int32);
      (#"was_cached", c_int32);
      (#"error_code", c_int32);
      (#"error_message", c_char_p);
      (#"metrics", CronetMetrics)].

(** ** Signatures *)

Record signature := mkSig {
  sig_name : str;
  restype : option ctype;
  argtypes : list ctype;
}.

(** [bind]: what each function of the library is declared to take and give,
    in the order the assignments are made. *)
Definition bind : list signature :=
  [ mkSig (#"cronet_abi_version") (Some c_int32) [];
    mkSig (#"cronet_version") (Some c_char_p) [];
    mkSig (#"cronet_engine_config_init") None [POINTER CronetEngineConfig];
    mkSig (#"cronet_engine_create") (Some c_void_p) [POINTER CronetEngineConfig];
    mkSig (#"cronet_last_error") (Some c_char_p) [];
    mkSig (#"cronet_engine_destroy") None [c_void_p];
    mkSig (#"cronet_engine_start_net_log") (Some c_int32) [c_void_p; c_char_p; c_int32];
    mkSig (#"cronet_engine_stop_net_log") None [c_void_p];
    mkSig (#"cronet_request_init") None [POINTER CronetRequest];
    mkSig (#"cronet_call_start") (Some c_void_p) [c_void_p; POINTER CronetRequest];
    mkSig (#"cronet_call_state_of") (Some c_int32) [c_void_p];
    mkSig (#"cronet_call_fd") (Some c_int) [c_void_p];
    mkSig (#"cronet_call_wait") (Some c_int32) [c_void_p; c_int32];
    mkSig (#"cronet_call_response") (Some (POINTER CronetResponse)) [c_void_p];
    mkSig (#"cronet_call_read") (Some c_int64) [c_void_p; POINTER c_ubyte; c_size_t];
    mkSig (#"cronet_call_cancel") None [c_void_p];
    mkSig (#"cronet_call_free") None [c_void_p]].

(** [FUNCTIONS]: every function the library must export. *)
Definition FUNCTIONS : list str :=
  [ #"cronet_abi_version"; #"cronet_version"; #"cronet_engine_config_init";
    #"cronet_engine_create"; #"cronet_last_error"; #"cronet_engine_destroy";
    #"cronet_engine_start_net_log"; #"cronet_engine_stop_net_log";
    #"cronet_request_init"; #"cronet_call_start"; #"cronet_call_state_of";
    #"cronet_call_fd"; #"cronet_call_wait"; #"cronet_call_response";
    #"cronet_call_read"; #"cronet_call_cancel"; #"cronet_call_free"].

(** ** Layout lemmas *)

(** A type without an empty alignment; every type here is one. *)
Lemma alignment_pos (t : ctype) : (1 <= alignment t)%Z.
Proof.
  destruct t as [ | | | | | | | |fs]; cbn; try lia.
  induction ((fun f => alignment f.2) <$> fs); cbn; lia.
Qed.

Lemma align_up_spec (n a : Z) :
  (1 <= a)%Z -> (n <= align_up n a < n + a)%Z /\ (align_up n a mod a = 0)%Z.
Proof.
  intros Ha. unfold align_up. pose proof (Z.div_mod (n + a - 1) a). 
  pose proof (Z.mod_pos_bound (n + a - 1) a). split; [lia|]. apply Z.mod_mul. lia.
Qed.

(** Where a run of fields starting at [at_] leaves off. *)
Fixpoint end_from (at_ : Z) (fs : list (str * ctype)) : Z :=
  match fs with
  | [] => at_
  | (_, t) :: fs => end_from (align_up at_ (alignment t) + sizeof t) fs
  end.

Lemma sizeof_structure (fs : list (str * ctype)) :
  sizeof (Structure fs) = align_up (end_from 0 fs) (alignment (Structure fs)).
Proof.
  cbn. f_equal. generalize 0%Z. induction fs as [|[n t] fs IH]; intros z; cbn; [done|].
  rewrite IH. done.
Qed.

Lemma alignment_field (fs : list (str * ctype)) (n : str) (t : ctype) :
  (n, t) ∈ fs -> (alignment t <= alignment (Structure fs))%Z.
Proof.
  cbn. induction fs as [|[m u] fs IH]; [by rewrite elem_of_nil|].
  rewrite elem_of_cons. cbn. intros [[= <- <-]|H]; [lia|]. apply IH in H. lia.
Qed.

Lemma sizeof_nonneg : forall t : ctype, (0 <= sizeof t)%Z.
Proof.
  fix IH 1. intros [ | | | | | | | |fs]; try (cbn; lia).
  rewrite sizeof_structure.
  assert (forall z, 0 <= z -> 0 <= end_from z fs)%Z as H.
  { induction fs as [|[n u] fs IHfs]; cbn; intros z Hz; [done|]. apply IHfs.
    pose proof (IH u). pose proof (align_up_spec z (alignment u) (alignment_pos u)). lia. }
  specialize (H 0%Z).
  pose proof (align_up_spec (end_from 0 fs) _ (alignment_pos (Structure fs))). lia.
Qed.

Lemma end_from_le (at_ : Z) (fs : list (str * ctype)) : (at_ <= end_from at_ fs)%Z.
Proof.
  revert at_. induction fs as [|[n t] fs IH]; intros at_; cbn; [lia|].
  specialize (IH (align_up at_ (alignment t) + sizeof t)%Z).
  pose proof (sizeof_nonneg t). pose proof (align_up_spec at_ _ (alignment_pos t)). lia.
Qed.

Lemma offsets_from_sound (at_ : Z) (fs : list (str * ctype)) :
  Forall (fun f => let '(n, off, t) := f in
            (n, t) ∈ fs /\ (at_ <= off)%Z /\ (off mod alignment t = 0)%Z
            /\ (off + sizeof t <= end_from at_ fs)%Z) (offsets_from at_ fs)
  /\ (forall i j n1 o1 t1 n2 o2 t2, (i < j)%nat ->
        offsets_from at_ fs !! i = Some (n1, o1, t1) ->
        offsets_from at_ fs !! j = Some (n2, o2, t2) -> (o1 + sizeof t1 <= o2)%Z).
Proof.
  revert at_. induction fs as [|[n t] fs IH]; intros at_; [by split|].
  cbn [offsets_from end_from]. set (off := align_up at_ (alignment t)).
  destruct (IH (off + sizeof t)%Z) as [IH1 IH2].
  pose proof (align_up_spec at_ _ (alignment_pos t)) as [Hr Hm]. fold off in Hr, Hm.
  pose proof (end_from_le (off + sizeof t) fs). pose proof (sizeof_nonneg t). split.
  - constructor.
    + split_and!; [by left|lia|done|lia].
    + eapply Forall_impl; [exact IH1|]. intros [[n' o'] t'] (? & ? & ? & ?).
      split_and!; [by right|lia|done|lia].
  - intros [|i] [|j] n1 o1 t1 n2 o2 t2 Hij H1 H2; cbn in H1, H2; try lia.
    + simplify_eq. rewrite Forall_lookup in IH1. specialize (IH1 j _ H2). cbn in IH1. lia.
    + apply (IH2 i j n1 o1 t1 n2 o2 t2); [lia|done|done].
Qed.

(** The layout of every structure is sound.  Each field lies inside the
    structure at an offset its type's alignment divides, no two fields
    overlap, and the structure's own alignment divides its size. *)
Theorem layout_sound (fs : list (str * ctype)) :
  Forall (fun f => let '(n, off, t) := f in
            (n, t) ∈ fs /\ (0 <= off)%Z /\ (off mod alignment t = 0)%Z
            /\ (off + sizeof t <= sizeof (Structure fs))%Z) (offsets (Structure fs))
  /\ (forall i j n1 o1 t1 n2 o2 t2, (i < j)%nat ->
        offsets (Structure fs) !! i = Some (n1, o1, t1) ->
        offsets (Structure fs) !! j = Some (n2, o2, t2) -> (o1 + sizeof t1 <= o2)%Z)
  /\ (sizeof (Structure fs) mod alignment (Structure fs) = 0)%Z.
Proof.
  unfold offsets. cbn [fields_of]. destruct (offsets_from_sound 0 fs) as [H1 H2].
  pose proof (align_up_spec (end_from 0 fs) _ (alignment_pos (Structure fs))) as [Hr Hm].
  split_and!; [|exact H2|by rewrite sizeof_structure].
  eapply Forall_impl; [exact H1|]. intros [[n o] t] (? & ? & ? & ?).
  rewrite sizeof_structure. split_and!; [done|lia|done|lia].
Qed.

(** The binding declares exactly the functions it will look for: the
    signatures [bind] applies are those of [FUNCTIONS], in its order, each
    once, 17 in all; and the structures have the sizes of the C header's. *)
Theorem bind_covers_functions :
  sig_name <$> bind = FUNCTIONS
  /\ NoDup FUNCTIONS
  /\ length FUNCTIONS = 17%nat
  /\ sizeof <$> [CronetHeader; CronetQuicHint; CronetEngineConfig; CronetRequest;
                 CronetMetrics; CronetResponse]
     = [16; 16; 104; 64; 112; 192]%Z.
Proof.
  split_and!; [reflexivity| |reflexivity|vm_compute; reflexivity].
  apply (bool_decide_unpack _). vm_compute. exact I.
Qed.
