(* ===== verification/Floats.v ===== *)
(** * Floats: the binary64 arithmetic of Python's [float].

    A float is a [spec_float] of the standard library's own specification of
    IEEE 754, at precision 53 and exponent bound 1024. *)

From S2P Require Import Prelude.
From Stdlib Require Export SpecFloat.

Definition float := spec_float.
Definition PREC : Z := 53.
Definition EMAX : Z := 1024.

(** [float(n)], rounded to nearest even; an integer beyond the range raises
    OverflowError, which is [None] here. *)
Definition float_of_Z (n : Z) : option float :=
  match binary_normalize PREC EMAX n 0 false with
  | S754_infinity _ => None
  | x => Some x
  end.

Definition float_add : float -> float -> float := SFadd PREC EMAX.
Definition float_sub : float -> float -> float := SFsub PREC EMAX.
Definition float_mul : float -> float -> float := SFmul PREC EMAX.
Definition float_div : float -> float -> float := SFdiv PREC EMAX.

(** [a / b] on integers: their quotient, rounded once; one beyond the range
    raises OverflowError, which is [None] here. *)
Definition int_div (a : Z) (b : positive) : option float :=
  let quotient sign p :=
    match SFdiv PREC EMAX (S754_finite sign p 0) (S754_finite false b 0) with
    | S754_infinity _ => None
    | x => Some x
    end in
  match a with
  | Z0 => Some (S754_zero false)
  | Zpos p => quotient false p
  | Zneg p => quotient true p
  end.

Example int_div_ex :
  int_div (10 ^ 30 + 7) 1000 = Some (S754_finite false 7275957614183426 37)
  /\ int_div (10 ^ 312) 1000 = None.
Proof. split; vm_compute; reflexivity. Qed.

(** [int(x)] truncates toward zero; [None] on an infinity or a NaN. *)
Definition truncate (x : float) : option Z :=
  match x with
  | S754_zero _ => Some 0%Z
  | S754_finite s m e =>
      let magnitude :=
        if (0 <=? e)%Z then (Z.pos m * 2 ^ e)%Z else (Z.pos m / 2 ^ (- e))%Z in
      Some (if s then (- magnitude)%Z else magnitude)
  | S754_infinity _ | S754_nan => None
  end.

Example truncate_ex :
  (x ← float_of_Z 5; y ← float_of_Z 2; z ← float_of_Z 1000; truncate (float_mul (float_div x y) z))
  = Some 2500%Z.
Proof. reflexivity. Qed.

(** ** Integers of 53 bits are exact *)

Section exact.
Local Open Scope Z_scope.

Lemma digits_lower (p : positive) : 2 ^ (Z.pos (digits2_pos p) - 1) <= Z.pos p.
Proof.
  induction p as [p IH|p IH|]; cbn [digits2_pos]; [..|done];
    replace (Z.pos (Pos.succ (digits2_pos p)) - 1) with (Z.succ (Z.pos (digits2_pos p) - 1)) by lia;
    rewrite Z.pow_succ_r by lia; lia.
Qed.

Lemma digits_small (p : positive) : Z.pos p < 2 ^ PREC -> Z.pos (digits2_pos p) <= PREC.
Proof.
  intros H. pose proof (digits_lower p) as Hl. unfold PREC in *.
  destruct (Z.le_gt_cases (Z.pos (digits2_pos p)) 53) as [|Hg]; [done|].
  assert (2 ^ 53 <= 2 ^ (Z.pos (digits2_pos p) - 1)) by (apply Z.pow_le_mono_r; lia). lia.
Qed.

Lemma iter_xO (p d : positive) :
  Z.pos (Pos.iter xO p d) = Z.pos p * 2 ^ Z.pos d
  /\ digits2_pos (Pos.iter xO p d) = (digits2_pos p + d)%positive.
Proof.
  induction d as [|d [IH1 IH2]] using Pos.peano_ind; [split; cbn; lia|].
  rewrite Pos.iter_succ. split.
  - rewrite Pos2Z.inj_xO, IH1, Pos2Z.inj_succ, Z.pow_succ_r by lia. lia.
  - cbn [digits2_pos]. rewrite IH2. lia.
Qed.

(** A mantissa of 53 bits is left alone by rounding. *)
Lemma round_full (m : positive) (e : Z) :
  Z.pos (digits2_pos m) = PREC -> -1074 <= e <= 971 ->
  binary_round_aux PREC EMAX false (Z.pos m) e loc_Exact = S754_finite false m e.
Proof.
  intros Hd He. assert (forall l, shr_fexp PREC EMAX (Z.pos m) e l = (shr_record_of_loc (Z.pos m) l, e)) as Hs.
  { intros l. unfold shr_fexp. cbn [Zdigits2]. rewrite Hd. unfold fexp, emin, PREC, EMAX in *.
    replace (Z.max _ _ - e) with 0 by lia. done. }
  unfold binary_round_aux. rewrite Hs. cbn [shr_record_of_loc loc_of_shr_record round_nearest_even shr_m].
  rewrite Hs. cbn [shr_record_of_loc shr_m]. unfold EMAX, PREC in *.
  by rewrite (proj2 (Z.leb_le e (1024 - 53))) by lia.
Qed.

Lemma float_of_Z_exact (n : Z) :
  0 <= n < 2 ^ PREC -> exists x, float_of_Z n = Some x /\ truncate x = Some n.
Proof.
  intros [H0 Hn]. destruct n as [|p|]; [by exists (S754_zero false)| |lia].
  apply digits_small in Hn. unfold float_of_Z, binary_normalize, binary_round, shl_align.
  set (D := Z.pos (digits2_pos p)) in *. assert (1 <= D) by (unfold D; lia).
  replace (fexp PREC EMAX (D + 0) - 0) with (D - PREC) by (unfold fexp, emin, PREC, EMAX in *; lia).
  replace (fexp PREC EMAX (D + 0)) with (D - PREC) by (unfold fexp, emin, PREC, EMAX in *; lia).
  destruct (D - PREC) as [|d|d] eqn:Ed; [|lia|].
  - rewrite round_full by (unfold D, PREC in *; lia). exists (S754_finite false p 0). split; [done|].
    cbn. f_equal. lia.
  - destruct (iter_xO p d) as [Hv Hd].
    rewrite round_full by (unfold D, PREC in *; lia). eexists. split; [done|].
    unfold truncate. rewrite (proj2 (Z.leb_gt 0 (Z.neg d))) by lia. rewrite Hv.
    change (- Z.neg d) with (Z.pos d). by rewrite Z.div_mul by lia.
Qed.
End exact.
