(* ===== verification/Native.v ===== *)
(** * Native: the state of one call inside libcronet.so (native/call.cc).

    [CallState] is what the network thread and the owner of a call share.  The
    operations here are the sections the code makes atomic: what runs under
    [body_lock_], one atomic store, one write to or read from the eventfd. *)

From S2P Require Import Prelude PyText Headers Types Abi.

Definition kReadBufferSize : N := 65536.
Definition kHighWaterBytes : N := 262144.
Definition kLowWaterBytes : N := 65536.

(** [cronet_response], as the C ABI hands it out. *)
Record NativeResponse := mkNative {
  nr_status_code : Z;
  nr_status_text : bytes;
  nr_headers : list (bytes * bytes);
  nr_negotiated_protocol : bytes;
  nr_proxy_server : bytes;
  nr_final_url : bytes;
  nr_redirect_count : Z;
  nr_was_cached : Z;
  nr_error_code : Z;
  nr_error_message : bytes;
  nr_metrics : NativeMetrics;
}.

Record CallState := mkState {
  body_ : bytes;
  body_offset_ : nat;
  body_complete_ : bool;
  read_paused_ : bool;
  outcome_claimed_ : bool;
  state_ : Z;
  finished_ : bool;
  completion_fd_ : N;              (* the eventfd's counter *)
  view_ : NativeResponse;
  destroy_requested_ : bool;
}.

Definition is_finished (s : CallState) : bool := (state_ s =? CALL_DONE)%Z.

(** [body_.size() - body_offset_] *)
Definition available (s : CallState) : nat := length (body_ s) - body_offset_ s.
Definition size_N (n : nat) : N := N.of_nat n.

(** ** Owner side *)

(** [Read]: the octets copied out, [None] being CRONET_EOF, and whether the
    network read is to be resumed. *)
Definition Read (capacity : N) (s : CallState) : option bytes * bool * CallState :=
  if (capacity =? 0)%N then (Some [], false, s)
  else if available s =? 0 then
    ((if body_complete_ s then None else Some []), false, s)
  else
    let copied := N.to_nat (N.min capacity (size_N (available s))) in
    let out := take copied (drop (body_offset_ s) (body_ s)) in
    let offset := body_offset_ s + copied in
    let '(body, offset) :=
      if length (body_ s) - offset <? offset then (drop offset (body_ s), 0)
      else (body_ s, offset) in
    let resume := read_paused_ s && (size_N (length body - offset) <=? kLowWaterBytes)%N in
    (Some out, resume,
     mkState body offset (body_complete_ s) (read_paused_ s && negb resume) (outcome_claimed_ s)
       (state_ s) (finished_ s) (completion_fd_ s) (view_ s) (destroy_requested_ s)).

(** [response()]: null until the headers have arrived. *)
Definition response (s : CallState) : option NativeResponse :=
  if (state_ s =? CALL_STARTED)%Z then None else Some (view_ s).

(** [os.read(fd, 8)] on the non-blocking eventfd: the counter falls to zero,
    and an empty one is the EAGAIN the caller suppresses. *)
Definition drain_fd (s : CallState) : CallState :=
  mkState (body_ s) (body_offset_ s) (body_complete_ s) (read_paused_ s) (outcome_claimed_ s)
    (state_ s) (finished_ s) 0 (view_ s) (destroy_requested_ s).

Definition readable (s : CallState) : bool := (0 <? completion_fd_ s)%N.

(** [Cancel] and [DestroyWithoutCancel], the part under the request lock. *)
Definition DestroyRequest (s : CallState) : CallState :=
  mkState (body_ s) (body_offset_ s) (body_complete_ s) (read_paused_ s) (outcome_claimed_ s)
    (state_ s) (finished_ s) (completion_fd_ s) (view_ s) true.

(** [ReadData]: whether a read was posted. *)
Definition ReadData (s : CallState) : bool := negb (destroy_requested_ s).

(** ** Network side *)

(** The counter of an eventfd stops one short of overflowing. *)
Definition EVENTFD_MAX : N := 18446744073709551614.

Definition SignalProgress (s : CallState) : CallState :=
  mkState (body_ s) (body_offset_ s) (body_complete_ s) (read_paused_ s) (outcome_claimed_ s)
    (state_ s) (finished_ s)
    (if (completion_fd_ s <? EVENTFD_MAX)%N then completion_fd_ s + 1 else completion_fd_ s)%N
    (view_ s) (destroy_requested_ s).

(** [OnResponse] up to its signal: the view is published, then the state. *)
Definition OnResponse (v : NativeResponse) (s : CallState) : CallState :=
  mkState (body_ s) (body_offset_ s) (body_complete_ s) (read_paused_ s) (outcome_claimed_ s)
    CALL_HEADERS (finished_ s) (completion_fd_ s) v (destroy_requested_ s).

(** [OnData] under its lock: whether the network should keep reading. *)
Definition OnData (data : bytes) (s : CallState) : bool * CallState :=
  let body := body_ s ++ data in
  let keep_reading := (size_N (length body - body_offset_ s) <? kHighWaterBytes)%N in
  (keep_reading,
   mkState body (body_offset_ s) (body_complete_ s) (negb keep_reading) (outcome_claimed_ s)
     (state_ s) (finished_ s) (completion_fd_ s) (view_ s) (destroy_requested_ s)).

(** [Finish], in the order its effects become visible: the outcome is claimed
    and the body marked complete; the error is written; the state is stored
    and the waiters released.  The signal comes last. *)
Definition Finish_complete (s : CallState) : CallState :=
  mkState (body_ s) (body_offset_ s) true false true
    (state_ s) (finished_ s) (completion_fd_ s) (view_ s) (destroy_requested_ s).

Definition set_error (code : Z) (message : bytes) (v : NativeResponse) : NativeResponse :=
  mkNative (nr_status_code v) (nr_status_text v) (nr_headers v) (nr_negotiated_protocol v)
    (nr_proxy_server v) (nr_final_url v) (nr_redirect_count v) (nr_was_cached v) code message
    (nr_metrics v).

Definition Finish_error (code : Z) (message : bytes) (s : CallState) : CallState :=
  mkState (body_ s) (body_offset_ s) (body_complete_ s) (read_paused_ s) (outcome_claimed_ s)
    (state_ s) (finished_ s) (completion_fd_ s) (set_error code message (view_ s))
    (destroy_requested_ s).

Definition Finish_store (s : CallState) : CallState :=
  mkState (body_ s) (body_offset_ s) (body_complete_ s) (read_paused_ s) (outcome_claimed_ s)
    CALL_DONE true (completion_fd_ s) (view_ s) (destroy_requested_ s).

(** The whole of [Finish] but its signal, when nothing runs between. *)
Definition Finish (code : Z) (message : bytes) (s : CallState) : CallState :=
  if outcome_claimed_ s then s
  else Finish_store (Finish_error code message (Finish_complete s)).

Definition no_view : NativeResponse :=
  mkNative 0 [] [] [] [] [] 0 0 0 []
    (mkNativeMetrics 0 0 0 0 0 0 0 0 0 0 0 0 0 0).

(** A call that has just started. *)
Definition CallState_init : CallState :=
  mkState [] 0 false false false CALL_STARTED false 0 no_view false.

(** ** Lemmas *)

(** What is buffered and not yet handed out. *)
Definition buffered (s : CallState) : bytes := drop (body_offset_ s) (body_ s).

Record wf_call (s : CallState) : Prop := {
  wf_offset : body_offset_ s <= length (body_ s);
  wf_reclaimed : body_offset_ s <= length (body_ s) - body_offset_ s;
  wf_paused : read_paused_ s = true ->
    (kLowWaterBytes < size_N (available s))%N /\ body_complete_ s = false;
}.

Lemma available_buffered (s : CallState) : available s = length (buffered s).
Proof. unfold available, buffered. by rewrite length_drop. Qed.

(** What one read does, on every branch. *)
Lemma Read_spec (capacity : N) (s : CallState) (out : option bytes) (resume : bool) (s' : CallState) :
  wf_call s -> (0 < capacity)%N -> Read capacity s = (out, resume, s') ->
  wf_call s'
  /\ completion_fd_ s' = completion_fd_ s /\ state_ s' = state_ s /\ view_ s' = view_ s
  /\ body_complete_ s' = body_complete_ s
  /\ match out with
     | None => buffered s = [] /\ body_complete_ s = true /\ s' = s /\ resume = false
     | Some [] => buffered s = [] /\ body_complete_ s = false /\ s' = s /\ resume = false
     | Some data => buffered s = data ++ buffered s'
                    /\ (size_N (length data) <= capacity)%N
                    /\ read_paused_ s = read_paused_ s' || resume
                    /\ (resume = true -> read_paused_ s' = false
                          /\ (size_N (available s') <= kLowWaterBytes)%N)
     end.
Proof.
  intros Hwf Hcap. pose proof Hwf as [H1 H2 H3]. unfold Read. destruct (N.eqb_spec capacity 0) as [?|_]; [lia|].
  destruct (Nat.eqb_spec (available s) 0) as [Ha|Ha].
  { intros [= <- <- <-]. rewrite available_buffered in Ha. apply nil_length_inv in Ha.
    destruct (body_complete_ s) eqn:Ec; by split_and!. }
  set (n := N.to_nat (N.min capacity (size_N (available s)))).
  assert (0 < n <= available s /\ (size_N n <= capacity)%N) as [Hn Hnc]
    by (subst n; unfold size_N; lia).
  assert (forall body offset, (body, offset) =
            (if length (body_ s) - (body_offset_ s + n) <? body_offset_ s + n
             then (drop (body_offset_ s + n) (body_ s), 0) else (body_ s, body_offset_ s + n)) ->
          offset <= length body /\ offset <= length body - offset
          /\ drop offset body = drop (body_offset_ s + n) (body_ s)) as Hb.
  { intros body offset. unfold available in Hn. case_match eqn:E; intros [= -> ->].
    - rewrite drop_0. split_and!; [lia|lia|done].
    - apply Nat.ltb_ge in E. split_and!; [lia|lia|done]. }
  destruct (if _ <? _ then _ else _) as [body offset] eqn:Eb. specialize (Hb _ _ eq_refl).
  destruct Hb as (Hb1 & Hb2 & Hb3). clear Eb. intros [= <- <- <-]. cbn [completion_fd_ state_ view_
    body_complete_ read_paused_]. split_and!; try done.
  - constructor; cbn [body_ body_offset_ read_paused_ body_complete_]; try done.
    unfold available. cbn [body_ body_offset_]. rewrite andb_true_iff, negb_true_iff, andb_false_iff.
    intros [Hp [Hp'|Hle]]; [congruence|]. apply N.leb_gt in Hle. split; [done|]. by apply H3.
  - assert (take n (drop (body_offset_ s) (body_ s)) <> []) as Hne.
    { intros E. apply (f_equal length) in E. unfold available in Hn.
      rewrite length_take, length_drop in E. cbn in E. lia. }
    destruct (take n _) as [|c out] eqn:Et; [done|]. split_and!.
    + unfold buffered. cbn [body_ body_offset_]. rewrite Hb3, <- Et, <- drop_drop. symmetry.
      apply take_drop.
    + apply (f_equal length) in Et. rewrite length_take, length_drop in Et.
      unfold available in Hn. rewrite <- Et. unfold size_N in *. lia.
    + by destruct (read_paused_ s), (_ <=? kLowWaterBytes)%N.
    + intros Hr. rewrite Hr, andb_false_r. split; [done|].
      apply andb_true_iff in Hr as [_ Hr]. by apply N.leb_le in Hr.
Qed.

Lemma OnData_spec (data : bytes) (s : CallState) (keep : bool) (s' : CallState) :
  wf_call s -> body_complete_ s = false -> OnData data s = (keep, s') ->
  wf_call s' /\ buffered s' = buffered s ++ data
  /\ completion_fd_ s' = completion_fd_ s /\ state_ s' = state_ s /\ view_ s' = view_ s
  /\ body_complete_ s' = false
  /\ read_paused_ s' = negb keep
  /\ (keep = true -> (size_N (available s') < kHighWaterBytes)%N).
Proof.
  intros [H1 H2 H3] Hc. unfold OnData. intros [= <- <-]. split_and!; try done.
  - constructor; cbn [body_ body_offset_ read_paused_ body_complete_]; rewrite ?length_app; [lia|lia|].
    unfold available. cbn [body_ body_offset_]. rewrite negb_true_iff, N.ltb_ge, length_app.
    unfold kHighWaterBytes, kLowWaterBytes. intros Hle. split; [lia|done].
  - unfold buffered. cbn. by rewrite drop_app_le.
  - by intros Hlt%N.ltb_lt.
Qed.
