(* ===== verification/Call.v ===== *)
(** * Call: waiting for one request and reading its body (_bridge.py, [Call]),
    against the network thread filling the same state (native/call.cc).

    [step] is one atomic action of one of the two threads; a schedule is a list
    of [event]s, so every interleaving of the consumer's loop with the network
    thread's callbacks is a list. *)

From S2P Require Import Prelude PyText Headers Types Errors Abi Floats Native.

(** [Call.CHUNK_SIZE] *)
Definition CHUNK_SIZE : N := 65536.

(** [call.read()]: [None] once the body is complete. *)
Definition call_read (s : CallState) : option bytes * bool * CallState := Read CHUNK_SIZE s.

(** [call.drain()]: the OSError of an empty descriptor is suppressed. *)
Definition call_drain (s : CallState) : CallState := drain_fd s.

(** ** The countdown

    [_countdown(timeout_ms)]: the deadline its first round computes, and what
    one round yields at a reading of the clock; [Ok None] is the end.  A limit
    too large for a float, or for its milliseconds to come back as an integer,
    is an exception of the loop that counts down. *)
Definition int_of_float (x : float) : res exn Z :=
  match truncate x with
  | Some n => Ok n
  | None => Raise (match x with S754_nan => ValueError NotANumber | _ => OverflowError end)
  end.

Definition countdown_deadline (timeout_ms : Z) (now : float) : res exn float :=
  if (timeout_ms <? 0)%Z then Ok (S754_zero false)
  else
    match int_div timeout_ms 1000 with
    | Some limit => Ok (float_add now limit)
    | None => Raise OverflowError
    end.

(** [float(1000)] *)
Definition thousand : float := Eval vm_compute in default (S754_zero false) (float_of_Z 1000).

Definition countdown (timeout_ms : Z) (deadline now : float) : res exn (option Z) :=
  if (timeout_ms <? 0)%Z then Ok (Some (-1)%Z)
  else
    remaining ← int_of_float (float_mul (float_sub deadline now) thousand);
    Ok (if (remaining <=? 0)%Z then None else Some remaining).

(** [poller.poll(ms)] raises OverflowError for more milliseconds than a C int
    holds. *)
Definition POLL_LIMIT : Z := 2147483647.
Definition poll_refuses (ms : Z) : bool := (POLL_LIMIT <? ms)%Z.

(** ** The two threads *)

(** What the network thread does once it has signalled. *)
Inductive after_signal :=
| ThenRead                                  (* issue the next read *)
| ThenWait                                  (* leave it to the consumer *)
| ThenFinish (code : Z) (message : bytes).

Inductive net_pc :=
| Idle                                      (* no callback is running *)
| Signalling (k : after_signal)
| Reissuing
| Finishing (code : Z) (message : bytes)
| WritingError (code : Z) (message : bytes) (* the body is marked complete *)
| Storing                                   (* the error is written *)
| LastSignal                                (* the state is stored *)
| Ended.

(** Where the consumer is: [wait_for_headers], then [iter_body]. *)
Inductive consumer_pc :=
| HStart
| HRound
| HDrain (remaining : Z)
| HCheck (remaining : Z)
| HPoll (remaining : Z)
| BStart
| BRound
| BDrain (remaining : Z)
| BRead (remaining : Z)
| BResume (remaining : Z)
| BPoll (remaining : Z)
| Complete
| Expired
| Failed (e : exn).        (* the countdown or poll() raised *)

Record system := mkSystem {
  native : CallState;
  net : net_pc;
  reading : nat;                (* reads posted and not yet completed *)
  consumer : consumer_pc;
  deadline : float;
  received : bytes;             (* all the octets the network brought *)
  delivered : list bytes;       (* the pieces the consumer was given *)
}.

Inductive event :=
| NetHeaders (v : NativeResponse) (k : after_signal)
| NetData (data : bytes)
| NetOutcome (code : Z) (message : bytes)
| NetStep
| Tick (now : float)          (* a reading of the clock by the consumer *)
| Consume                     (* the consumer's next action *)
| PollExpires
| Cancel.                     (* the owner asks for the request to be abandoned *)

Definition set_native (s : system) (n : CallState) : system :=
  mkSystem n (net s) (reading s) (consumer s) (deadline s) (received s) (delivered s).
Definition set_net (s : system) (p : net_pc) : system :=
  mkSystem (native s) p (reading s) (consumer s) (deadline s) (received s) (delivered s).
Definition set_reading (s : system) (r : nat) : system :=
  mkSystem (native s) (net s) r (consumer s) (deadline s) (received s) (delivered s).
Definition set_consumer (s : system) (c : consumer_pc) : system :=
  mkSystem (native s) (net s) (reading s) c (deadline s) (received s) (delivered s).
Definition set_deadline (s : system) (d : float) : system :=
  mkSystem (native s) (net s) (reading s) (consumer s) d (received s) (delivered s).
Definition receive_data (s : system) (d : bytes) : system :=
  mkSystem (native s) (net s) (reading s) (consumer s) (deadline s) (received s ++ d) (delivered s).
Definition deliver (s : system) (piece : bytes) : system :=
  mkSystem (native s) (net s) (reading s) (consumer s) (deadline s) (received s)
    (delivered s ++ [piece]).

(** [ReadData] posts a read unless the request is being destroyed. *)
Definition post_read (s : system) : system :=
  if ReadData (native s) then set_reading s (S (reading s)) else s.

(** The network thread inside a callback. *)
Definition net_step (s : system) : option system :=
  match net s with
  | Idle | Ended => None
  | Signalling k =>
      let s := set_native s (SignalProgress (native s)) in
      Some (set_net s (match k with
                       | ThenRead => Reissuing
                       | ThenWait => Idle
                       | ThenFinish c m => Finishing c m
                       end))
  | Reissuing => Some (set_net (post_read s) Idle)
  | Finishing c m =>
      if outcome_claimed_ (native s) then Some (set_net s Ended)
      else Some (set_net (set_native s (Finish_complete (native s))) (WritingError c m))
  | WritingError c m => Some (set_net (set_native s (Finish_error c m (native s))) Storing)
  | Storing => Some (set_net (set_native s (Finish_store (native s))) LastSignal)
  | LastSignal => Some (set_net (set_native s (SignalProgress (native s))) Ended)
  end.

Section call.
Context (timeout_ms : Z).

(** The consumer's next action that needs no clock. *)
Definition consume (s : system) : option system :=
  match consumer s with
  | HDrain r => Some (set_consumer (set_native s (call_drain (native s))) (HCheck r))
  | HCheck r =>
      Some (set_consumer s (if (state_ (native s) =? CALL_STARTED)%Z then HPoll r else BStart))
  | HPoll r =>
      if poll_refuses r then Some (set_consumer s (Failed OverflowError))
      else if readable (native s) then Some (set_consumer s HRound) else None
  | BDrain r => Some (set_consumer (set_native s (call_drain (native s))) (BRead r))
  | BRead r =>
      match call_read (native s) with
      | (None, _, n) => Some (set_consumer (set_native s n) Complete)
      | (Some [], _, n) => Some (set_consumer (set_native s n) (BPoll r))
      | (Some piece, resume, n) =>
          Some (set_consumer (deliver (set_native s n) piece) (if resume : bool then BResume r else BRead r))
      end
  | BResume r => Some (set_consumer (post_read s) (BRead r))
  | BPoll r =>
      if poll_refuses r then Some (set_consumer s (Failed OverflowError))
      else if readable (native s) then Some (set_consumer s BRound) else None
  | _ => None
  end.

(** The start of a loop computes the deadline, and each of its rounds reads
    the clock. *)
Definition begin_countdown (now : float) (round : consumer_pc) (s : system) : system :=
  match countdown_deadline timeout_ms now with
  | Ok d => set_consumer (set_deadline s d) round
  | Raise e => set_consumer s (Failed e)
  end.

Definition tick (now : float) (s : system) : option system :=
  match consumer s with
  | HStart => Some (begin_countdown now HRound s)
  | HRound =>
      Some (set_consumer s
        match countdown timeout_ms (deadline s) now with
        | Ok (Some r) => HDrain r
        | Ok None => if (state_ (native s) =? CALL_STARTED)%Z then Expired else BStart
        | Raise e => Failed e
        end)
  | BStart => Some (begin_countdown now BRound s)
  | BRound =>
      Some (set_consumer s
        match countdown timeout_ms (deadline s) now with
        | Ok (Some r) => BDrain r
        | Ok None => Expired
        | Raise e => Failed e
        end)
  | _ => None
  end.

(** [poller.poll(remaining)] gives up: never without a limit, and never while
    the descriptor is readable. *)
Definition poll_expires (s : system) : option system :=
  match consumer s with
  | HPoll r | BPoll r =>
      if (r <? 0)%Z || poll_refuses r || readable (native s) then None
      else Some (set_consumer s Expired)
  | _ => None
  end.

(** One action.  Chromium runs a request's callbacks one at a time, delivers
    data only for a read it was asked for, and nothing after the outcome. *)
Definition step (e : event) (s : system) : option system :=
  match e with
  | NetHeaders v k =>
      match net s, k with
      | Idle, ThenRead | Idle, ThenFinish _ _ =>
          if (state_ (native s) =? CALL_STARTED)%Z
          then Some (set_net (set_native s (OnResponse v (native s))) (Signalling k))
          else None
      | _, _ => None
      end
  | NetData data =>
      match net s, reading s with
      | Idle, S r =>
          if (0 <? size_N (length data))%N && (size_N (length data) <=? kReadBufferSize)%N then
            let '(keep, n) := OnData data (native s) in
            Some (set_net (receive_data (set_reading (set_native s n) r) data)
                    (Signalling (if keep : bool then ThenRead else ThenWait)))
          else None
      | _, _ => None
      end
  | NetOutcome c m => match net s with Idle => Some (set_net s (Finishing c m)) | _ => None end
  | NetStep => net_step s
  | Tick now => tick now s
  | Consume => consume s
  | PollExpires => poll_expires s
  | Cancel => Some (set_native s (DestroyRequest (native s)))
  end.

Fixpoint run (es : list event) (s : system) : option system :=
  match es with
  | [] => Some s
  | e :: es => match step e s with Some s => run es s | None => None end
  end.

Definition init : system := mkSystem CallState_init Idle 0 HStart (S754_zero false) [] [].

Definition reachable (s : system) : Prop := exists es, run es init = Some s.

(** ** The invariant *)

(** Who holds the right to post the next read: the network, having it posted
    already; the buffer, being full; the network thread, on its way to post
    it; or the consumer, on its way to. *)
Definition about_to_read (p : net_pc) : bool :=
  match p with Signalling ThenRead | Reissuing => true | _ => false end.

Definition about_to_resume (c : consumer_pc) : bool :=
  match c with BResume _ => true | _ => false end.

Definition tokens (s : system) : nat :=
  reading s + Nat.b2n (read_paused_ (native s)) + Nat.b2n (about_to_read (net s))
  + Nat.b2n (about_to_resume (consumer s)).

(** The network thread is past the point where the body is complete. *)
Definition past_complete (p : net_pc) : bool :=
  match p with WritingError _ _ | Storing | LastSignal | Ended => true | _ => false end.

Definition past_store (p : net_pc) : bool :=
  match p with LastSignal | Ended => true | _ => false end.

(** A signal is still to come from the callback that is running. *)
Definition will_signal (p : net_pc) : bool :=
  match p with
  | Signalling _ | WritingError _ _ | Storing | LastSignal => true
  | _ => false
  end.

Definition will_finish (p : net_pc) : bool :=
  match p with Signalling (ThenFinish _ _) | Finishing _ _ => true | _ => past_complete p end.

Definition awake (s : system) : Prop := readable (native s) = true \/ will_signal (net s) = true.

Record inv (s : system) : Prop := {
  inv_wf : wf_call (native s);
  inv_body : concat (delivered s) ++ buffered (native s) = received s;
  inv_pieces : Forall (fun p => p <> [] /\ (size_N (length p) <= CHUNK_SIZE)%N) (delivered s);
  inv_claimed : outcome_claimed_ (native s) = past_complete (net s);
  inv_complete : body_complete_ (native s) = past_complete (net s);
  inv_state : (state_ (native s) =? CALL_DONE)%Z = past_store (net s);
  inv_tokens : tokens s <= 1;
  inv_started : state_ (native s) = CALL_STARTED -> tokens s = 0 /\ buffered (native s) = []
                  /\ (will_signal (net s) = false \/ past_complete (net s) = true);
  inv_owed : state_ (native s) <> CALL_STARTED -> destroy_requested_ (native s) = false ->
    will_finish (net s) = false -> tokens s = 1;
  inv_room : read_paused_ (native s) = false -> tokens s = 1 ->
    (size_N (available (native s)) < kHighWaterBytes)%N;
  inv_bound : (size_N (available (native s)) < kHighWaterBytes + kReadBufferSize)%N;
  inv_hpoll : forall r, consumer s = HPoll r -> state_ (native s) <> CALL_STARTED -> awake s;
  inv_bpoll : forall r, consumer s = BPoll r ->
    buffered (native s) <> [] \/ body_complete_ (native s) = true -> awake s;
  inv_done : consumer s = Complete -> buffered (native s) = [] /\ body_complete_ (native s) = true;
}.

Lemma inv_init : inv init.
Proof.
  constructor; try done; cbn; try lia.
  intros _. split_and!; [done|done|by left].
Qed.

Ltac unfold_system :=
  unfold tokens, awake, receive_data, deliver, set_native, set_net, set_reading, set_consumer,
    set_deadline in *; cbn [native net reading consumer deadline received delivered] in *.

Ltac simpl_call :=
  unfold_system;
  cbn [body_ body_offset_ body_complete_ read_paused_ outcome_claimed_ state_ finished_
    completion_fd_ view_ destroy_requested_ past_complete past_store will_finish will_signal
    about_to_read about_to_resume Nat.b2n orb negb] in *.

(** Goals that follow from the same field of the invariant before the step. *)
Ltac same_field :=
  try done; try lia;
  try match goal with
  | H : wf_call _ |- wf_call _ => destruct H; by constructor
  | |- forall _, _ = _ -> _ -> _ \/ true = true => by right
  | H : ?P |- ?P => exact H
  | H : _ -> _ = 1 -> (_ < kHighWaterBytes)%N |- _ = false -> _ = 1 -> (_ < kHighWaterBytes)%N =>
      let P := fresh in let T := fresh in intros P T; apply H; [exact P|lia]
  end.

Lemma readable_signal (n : CallState) : readable (SignalProgress n) = true.
Proof.
  unfold readable, SignalProgress. cbn [completion_fd_]. apply N.ltb_lt.
  destruct (N.ltb_spec (completion_fd_ n) EVENTFD_MAX); [lia|]. unfold EVENTFD_MAX in *. lia.
Qed.

(** A signal changes nothing but the descriptor. *)
Ltac quiet_signal :=
  repeat match goal with
  | |- context [?f (SignalProgress ?n)] => change (f (SignalProgress n)) with (f n)
  end.

Lemma available_nil (n : CallState) : buffered n = [] -> available n = 0.
Proof. rewrite available_buffered. by intros ->. Qed.

(** The network thread's actions keep the invariant. *)
Lemma inv_net_headers (v : NativeResponse) (k : after_signal) (s s' : system) :
  inv s -> step (NetHeaders v k) s = Some s' -> inv s'.
Proof.
  intros I Hs. cbn [step] in Hs. destruct (net s) eqn:En; try done.
  assert ((state_ (native s) =? CALL_STARTED)%Z = true /\ k <> ThenWait
          /\ s' = set_net (set_native s (OnResponse v (native s))) (Signalling k)) as (Est & Hk & ->)
    by (destruct k, (_ =? _)%Z; by simplify_eq).
  clear Hs. apply Z.eqb_eq in Est. destruct I as [I1 I2 I2b I3 I4 I5 I6 I7 I8 I9 I10 I11 I12 I13].
  destruct (I7 Est) as (Ht & Hb & _). apply available_nil in Hb as Ha.
  rewrite En in *. unfold OnResponse. constructor; simpl_call; rewrite En in *; simpl_call; same_field.
  - destruct k; cbn [Nat.b2n]; lia.
  - destruct k; cbn [Nat.b2n]; [lia|done|done].
  - intros _ _. unfold available in *. cbn [body_ body_offset_]. by rewrite Ha.
Qed.

Lemma inv_net_data (data : bytes) (s s' : system) :
  inv s -> step (NetData data) s = Some s' -> inv s'.
Proof.
  intros I Hs. cbn [step] in Hs. destruct (net s) eqn:En; try done.
  destruct (reading s) as [|r] eqn:Er; [done|].
  destruct (_ && _) eqn:Elen; [|done]. apply andb_true_iff in Elen as [Hl1 Hl2].
  apply N.ltb_lt in Hl1. apply N.leb_le in Hl2.
  destruct (OnData data (native s)) as [keep n] eqn:Eo. injection Hs as <-.
  destruct I as [I1 I2 I2b I3 I4 I5 I6 I7 I8 I9 I10 I11 I12 I13].
  rewrite En in *. simpl_call. rewrite Er in *.
  pose proof (OnData_spec _ _ _ _ I1 I4 Eo) as (Hw & Hb & Hf & Hst & Hv & Hc & Hp & Hk).
  assert (read_paused_ (native s) = false /\ r = 0 /\ about_to_resume (consumer s) = false)
    as (Hnp & -> & Hnr).
  { destruct (read_paused_ (native s)), (about_to_resume (consumer s)); cbn [Nat.b2n] in I6;
      split_and!; try done; lia. }
  assert (state_ (native s) <> CALL_STARTED) as Hns by (intros E; destruct (I7 E); lia).
  rewrite Hnp, Hnr in *. cbn [Nat.b2n] in *.
  assert (outcome_claimed_ n = outcome_claimed_ (native s)) as Hoc
    by (unfold OnData in Eo; injection Eo as _ <-; reflexivity).
  assert (destroy_requested_ n = destroy_requested_ (native s)) as Hd
    by (unfold OnData in Eo; injection Eo as _ <-; reflexivity).
  assert (size_N (available n) = size_N (available (native s)) + size_N (length data))%N as Hav.
  { rewrite !available_buffered, Hb, length_app. unfold size_N. lia. }
  assert (size_N (available (native s)) < kHighWaterBytes)%N as Hroom by (apply I9; [done|lia]).
  constructor; simpl_call; rewrite ?Hnr, ?Hst, ?Hoc, ?Hp, ?Hd, ?Hc in *; simpl_call; same_field.
  - rewrite Hb, app_assoc, I2. done.
  - destruct keep; cbn [Nat.b2n negb]; lia.
  - destruct keep; cbn [Nat.b2n negb]; done.
  - intros Hkk _. apply Hk. by destruct keep.
  - intros Hcm. destruct (I13 Hcm). congruence.
Qed.

Lemma inv_net_outcome (c : Z) (m : bytes) (s s' : system) :
  inv s -> step (NetOutcome c m) s = Some s' -> inv s'.
Proof.
  intros I Hs. cbn [step] in Hs. destruct (net s) eqn:En; try done. injection Hs as <-.
  destruct I as [I1 I2 I2b I3 I4 I5 I6 I7 I8 I9 I10 I11 I12 I13].
  rewrite En in *. constructor; simpl_call; rewrite ?En in *; simpl_call; same_field.
Qed.

Lemma inv_net_step (s s' : system) : inv s -> net_step s = Some s' -> inv s'.
Proof.
  intros I Hs. unfold net_step in Hs.
  destruct I as [I1 I2 I2b I3 I4 I5 I6 I7 I8 I9 I10 I11 I12 I13].
  destruct (net s) as [|k| |c m|c m| | |] eqn:En; try done;
    simpl_call; rewrite ?En in *; simpl_call.
  - (* the signal after headers or data *)
    injection Hs as <-. constructor; simpl_call; quiet_signal; same_field;
      try (intros r _ _; left; apply readable_signal); destruct k; simpl_call; same_field;
      try (intros E; by destruct (I7 E) as (_ & _ & [?|?])).
  - (* the next read is posted *)
    injection Hs as <-. unfold post_read, ReadData. 
    destruct (destroy_requested_ (native s)) eqn:Ed; cbn [negb]; constructor; simpl_call;
      same_field; try (intros; congruence).
  - (* the outcome is claimed, the body is complete *)
    rewrite I3 in Hs. injection Hs as <-. unfold Finish_complete, buffered, available in *.
    constructor; simpl_call; same_field.
    + intros E. destruct (I7 E) as (? & ? & _). split_and!; [lia|done|by right].
    + intros _ Ht. apply I9; destruct (read_paused_ (native s)); cbn [Nat.b2n] in *; try done; lia.
    + intros E. destruct (I13 E). congruence.
  - injection Hs as <-. unfold Finish_error, buffered, available in *.
    constructor; simpl_call; same_field.
  - injection Hs as <-. unfold Finish_store, buffered, available in *.
    constructor; simpl_call; same_field.
  - injection Hs as <-. constructor; simpl_call; quiet_signal; same_field;
      try (intros r _ _; left; apply readable_signal).
    intros E. destruct (I7 E) as (? & ? & _). split_and!; [lia|done|by right].
Qed.

(** The consumer's actions keep the invariant. *)
Lemma inv_moves (s : system) (c : consumer_pc) :
  inv s -> about_to_resume (consumer s) = false -> about_to_resume c = false ->
  (forall r, c <> HPoll r) -> (forall r, c <> BPoll r) -> c <> Complete -> inv (set_consumer s c).
Proof.
  intros [I1 I2 I2b I3 I4 I5 I6 I7 I8 I9 I10 I11 I12 I13] Hs Hc H1 H2 H3.
  constructor; simpl_call; rewrite ?Hs, ?Hc in *; same_field.
  - intros r E. by destruct (H1 r).
  - intros r E. by destruct (H2 r).
Qed.

Lemma inv_deadline (s : system) (d : float) : inv s -> inv (set_deadline s d).
Proof. intros [I1 I2 I2b I3 I4 I5 I6 I7 I8 I9 I10 I11 I12 I13]. by constructor. Qed.

Lemma inv_drain (s : system) :
  inv s -> (forall r, consumer s <> HPoll r) -> (forall r, consumer s <> BPoll r) ->
  inv (set_native s (call_drain (native s))).
Proof.
  intros [I1 I2 I2b I3 I4 I5 I6 I7 I8 I9 I10 I11 I12 I13] H1 H2.
  unfold call_drain, drain_fd, buffered, available in *.
  constructor; simpl_call; same_field.
  - intros r E. by destruct (H1 r).
  - intros r E. by destruct (H2 r).
Qed.

Lemma inv_tick (now : float) (s s' : system) : inv s -> tick now s = Some s' -> inv s'.
Proof.
  intros I. unfold tick, begin_countdown. destruct (consumer s) eqn:Ec; try done; intros [= <-];
    try case_match; (apply inv_moves; [try apply inv_deadline; exact I|cbn; by rewrite Ec| | | |]);
    repeat case_match; done.
Qed.

Lemma inv_poll_expires (s s' : system) : inv s -> poll_expires s = Some s' -> inv s'.
Proof.
  intros I. unfold poll_expires.
  destruct (consumer s) eqn:Ec; try done; case_match; try done; intros [= <-];
    (apply inv_moves; [exact I|by rewrite Ec|done..]).
Qed.

Lemma inv_cancel (s : system) : inv s -> inv (set_native s (DestroyRequest (native s))).
Proof.
  intros [I1 I2 I2b I3 I4 I5 I6 I7 I8 I9 I10 I11 I12 I13].
  unfold DestroyRequest, buffered, available in *. constructor; simpl_call; same_field.
Qed.

(** A read of the consumer, in each of its three outcomes. *)
Lemma inv_read (r : Z) (s s' : system) :
  inv s -> consumer s = BRead r -> consume s = Some s' -> inv s'.
Proof.
  intros I Ec. unfold consume. rewrite Ec. unfold call_read.
  destruct (Read CHUNK_SIZE (native s)) as [[out resume] n] eqn:Er.
  destruct I as [I1 I2 I2b I3 I4 I5 I6 I7 I8 I9 I10 I11 I12 I13].
  pose proof (Read_spec _ _ _ _ _ I1 (eq_refl : (0 < CHUNK_SIZE)%N) Er) as (Hw & Hf & Hst & Hv & Hco & Hout).
  destruct out as [[|b piece]|].
  - destruct Hout as (Hb & Hcf & -> & ->). intros [= <-].
    constructor; simpl_call; rewrite ?Ec in *; simpl_call; same_field.
    intros r' _ [?|?]; congruence.
  - destruct Hout as (Hb & Hlen & Hp & Hrp). intros [= <-].
    assert (outcome_claimed_ n = outcome_claimed_ (native s)
            /\ destroy_requested_ n = destroy_requested_ (native s)) as [Hoc Hd].
    { unfold Read in Er. repeat case_match; by simplify_eq/=. }
    assert (size_N (available n) <= size_N (available (native s)))%N as Hav.
    { rewrite !available_buffered, Hb, length_app. unfold size_N. lia. }
    assert (Nat.b2n (read_paused_ n)
              + Nat.b2n (about_to_resume (if resume then BResume r else BRead r))
            = Nat.b2n (read_paused_ (native s))) as Htok.
    { rewrite Hp. destruct resume; [destruct Hrp as [-> _]; [done|]|]; [done|].
      rewrite orb_false_r. cbn. lia. }
    constructor; simpl_call; rewrite ?Hst, ?Hco, ?Hoc, ?Hd; rewrite ?Ec in *; simpl_call; same_field.
    + rewrite concat_app, <- I2, Hb. cbn. by rewrite app_nil_r, <- !app_assoc.
    + apply Forall_app. by repeat constructor.
    + intros E. destruct (I7 E) as (_ & Hn & _). by rewrite Hb in Hn.
    + intros E1 E2 E3. specialize (I8 E1 E2 E3). lia.
    + intros Hpn Ht. destruct resume.
      * destruct Hrp as [_ Hlow]; [done|]. unfold kHighWaterBytes, kLowWaterBytes in *. lia.
      * rewrite Hpn in Hp. assert (size_N (available (native s)) < kHighWaterBytes)%N; [|lia].
        apply I9; [done|lia].
    + by destruct resume.
    + by destruct resume.
    + by destruct resume.
  - destruct Hout as (Hb & Hcf & -> & ->). intros [= <-].
    constructor; simpl_call; rewrite ?Ec in *; simpl_call; same_field.
Qed.

Lemma inv_resume (r : Z) (s : system) :
  inv s -> consumer s = BResume r -> inv (set_consumer (post_read s) (BRead r)).
Proof.
  intros [I1 I2 I2b I3 I4 I5 I6 I7 I8 I9 I10 I11 I12 I13] Ec.
  unfold post_read, ReadData. destruct (destroy_requested_ (native s)) eqn:Ed; cbn [negb];
    constructor; simpl_call; rewrite ?Ec in *; simpl_call; same_field; try (intros; congruence).
Qed.

Lemma inv_hcheck (r : Z) (s s' : system) :
  inv s -> consumer s = HCheck r -> consume s = Some s' -> inv s'.
Proof.
  intros I Ec. unfold consume. rewrite Ec. intros [= <-].
  destruct (Z.eqb_spec (state_ (native s)) CALL_STARTED) as [E|E].
  - destruct I as [I1 I2 I2b I3 I4 I5 I6 I7 I8 I9 I10 I11 I12 I13].
    constructor; simpl_call; rewrite ?Ec in *; simpl_call; same_field.
  - apply inv_moves; [done|by rewrite Ec|done..].
Qed.

Lemma inv_consume (s s' : system) : inv s -> consume s = Some s' -> inv s'.
Proof.
  intros I Hs. destruct (consumer s) eqn:Ec; unfold consume in Hs; rewrite Ec in Hs; try done.
  - injection Hs as <-. apply inv_moves; [apply inv_drain; [done|by rewrite Ec..]|cbn; by rewrite Ec|done..].
  - eapply inv_hcheck; [done|exact Ec|]. unfold consume. by rewrite Ec.
  - destruct (poll_refuses remaining), (readable (native s)); try done; injection Hs as <-;
      (apply inv_moves; [done|by rewrite Ec|done..]).
  - injection Hs as <-. apply inv_moves; [apply inv_drain; [done|by rewrite Ec..]|cbn; by rewrite Ec|done..].
  - eapply inv_read; [done|exact Ec|]. unfold consume. by rewrite Ec.
  - injection Hs as <-. by apply inv_resume.
  - destruct (poll_refuses remaining), (readable (native s)); try done; injection Hs as <-;
      (apply inv_moves; [done|by rewrite Ec|done..]).
Qed.

Lemma inv_step (e : event) (s s' : system) : inv s -> step e s = Some s' -> inv s'.
Proof.
  intros I Hs. destruct e as [v k|data|c m| |now| | |].
  - by eapply inv_net_headers.
  - by eapply inv_net_data.
  - by eapply inv_net_outcome.
  - by apply (inv_net_step s).
  - by apply (inv_tick now s).
  - by apply (inv_consume s).
  - by apply (inv_poll_expires s).
  - injection Hs as <-. by apply inv_cancel.
Qed.

Lemma inv_run (es : list event) (s s' : system) : inv s -> run es s = Some s' -> inv s'.
Proof.
  revert s. induction es as [|e es IH]; cbn; intros s I H; [by simplify_eq|].
  destruct (step e s) as [s1|] eqn:Es; [|done]. apply (IH s1); [by eapply inv_step|done].
Qed.

Lemma inv_reachable (s : system) : reachable s -> inv s.
Proof. intros [es H]. eapply inv_run; [apply inv_init|exact H]. Qed.
End call.

(** ** Properties *)

(** C3: no octet of a body is lost, repeated or reordered.  Under every
    interleaving, what the consumer has been handed followed by what is still
    buffered is exactly what the network brought; every piece is non-empty and
    no larger than a chunk; and a consumer that was told the body is complete
    holds all of it. *)
Theorem body_intact (timeout_ms : Z) (s : system) (Hs : reachable timeout_ms s) :
  concat (delivered s) ++ buffered (native s) = received s
  /\ Forall (fun p => p <> [] /\ (size_N (length p) <= CHUNK_SIZE)%N) (delivered s)
  /\ (consumer s = Complete ->
        concat (delivered s) = received s /\ body_complete_ (native s) = true).
Proof.
  destruct (inv_reachable _ _ Hs) as [_ H1 H2 _ _ _ _ _ _ _ _ _ _ H3].
  split_and!; [done|done|]. intros Hc. destruct (H3 Hc) as [Hb Hcc].
  by rewrite Hb, app_nil_r in H1.
Qed.

Definition zero_clock : float := S754_zero false.

(** A request that brings three octets in two reads, no limit on time. *)
Definition small_download : list event :=
  [Tick zero_clock; Tick zero_clock; Consume; Consume;
   NetHeaders no_view ThenRead; NetStep; NetStep; Consume; Tick zero_clock; Consume; Consume;
   Tick zero_clock; Tick zero_clock; NetData (##"ab"); NetStep; NetStep; Consume; Consume; Consume;
   NetData (##"c"); NetStep; Consume; Tick zero_clock; Consume; Consume; NetStep; Consume;
   NetOutcome 0 []; NetStep; NetStep; NetStep; NetStep; Consume; Tick zero_clock; Consume; Consume].

Definition after (timeout_ms : Z) (es : list event) : system :=
  match run timeout_ms es init with Some s => s | None => init end.

Lemma body_intact_witness :
  consumer (after (-1) small_download) = Complete
  /\ delivered (after (-1) small_download) = [ ##"ab"; ##"c"]
  /\ concat (delivered (after (-1) small_download)) = received (after (-1) small_download).
Proof.
  split; [vm_compute; reflexivity|]. split; [vm_compute; reflexivity|].
  apply (body_intact (-1)); [|vm_compute; reflexivity].
  exists small_download. vm_compute. reflexivity.
Defined.

(** C11: no wakeup is lost.  Whenever the consumer is waiting on the descriptor
    and there is something for it (the headers, some body, or the end), the
    descriptor is readable, or becomes so within three actions of the network
    thread's running callback, the consumer still waiting. *)
Theorem no_lost_wakeup (timeout_ms : Z) (s : system) (r : Z) (Hs : reachable timeout_ms s)
    (Hwait : consumer s = HPoll r /\ state_ (native s) <> CALL_STARTED
             \/ consumer s = BPoll r
                /\ (buffered (native s) <> [] \/ body_complete_ (native s) = true)) :
  exists k s', k <= 3 /\ run timeout_ms (repeat NetStep k) s = Some s'
    /\ readable (native s') = true /\ consumer s' = consumer s.
Proof.
  pose proof (inv_reachable _ _ Hs) as I.
  assert (awake s) as [Hr|Hw].
  { destruct Hwait as [[Hc Hn]|[Hc Hn]]; [by eapply inv_hpoll|by eapply inv_bpoll]. }
  { exists 0, s. split_and!; [lia|done|done|done]. }
  destruct (net s) eqn:En; try done.
  - exists 1. cbn [repeat run step]. unfold net_step. rewrite En. eexists. split_and!; [lia|done| |done].
    apply readable_signal.
  - exists 3. cbn [repeat run step]. unfold net_step. rewrite En. cbn. eexists. split_and!; [lia|done| |done].
    apply readable_signal.
  - exists 2. cbn [repeat run step]. unfold net_step. rewrite En. cbn. eexists. split_and!; [lia|done| |done].
    apply readable_signal.
  - exists 1. cbn [repeat run step]. unfold net_step. rewrite En. eexists. split_and!; [lia|done| |done].
    apply readable_signal.
Qed.

(** The consumer went to sleep on an empty buffer, and data came. *)
Definition data_while_asleep : list event := take 20 small_download.

Lemma no_lost_wakeup_witness :
  exists k s', k <= 3 /\ run (-1) (repeat NetStep k) (after (-1) data_while_asleep) = Some s'
    /\ readable (native s') = true /\ consumer s' = consumer (after (-1) data_while_asleep).
Proof.
  apply (no_lost_wakeup (-1) (after (-1) data_while_asleep) (-1)).
  - exists data_while_asleep. vm_compute. reflexivity.
  - right. split; [vm_compute; reflexivity|]. left. vm_compute. discriminate.
Defined.

(** C31: a slow consumer slows the transfer instead of filling memory.  At most
    one read is ever posted to the network, and only while less than the high
    water mark is buffered; what is buffered never reaches the mark plus one
    read, and the memory the buffer occupies, its spent front included, never
    twice that. *)
Theorem backpressure (timeout_ms : Z) (s : system) (Hs : reachable timeout_ms s) :
  reading s <= 1
  /\ (reading s = 1 -> (size_N (available (native s)) < kHighWaterBytes)%N)
  /\ (size_N (available (native s)) < kHighWaterBytes + kReadBufferSize)%N
  /\ (size_N (length (body_ (native s))) < 2 * (kHighWaterBytes + kReadBufferSize))%N.
Proof.
  destruct (inv_reachable _ _ Hs) as [[W1 W2 W3] _ _ _ _ _ Ht _ _ Hroom Hbound _ _ _].
  unfold tokens in *. split_and!; [lia| |done|].
  - intros Hr. apply Hroom; [|lia]. destruct (read_paused_ (native s)); cbn [Nat.b2n] in *; [lia|done].
  - unfold available, size_N in *. lia.
Qed.

Lemma backpressure_witness :
  reading (after (-1) data_while_asleep) <= 1
  /\ (size_N (available (native (after (-1) data_while_asleep))) < kHighWaterBytes + kReadBufferSize)%N.
Proof.
  split; apply (backpressure (-1)); exists data_while_asleep; vm_compute; reflexivity.
Defined.

(** The two threads never wait for each other.  A consumer that has not
    finished can act, or it is waiting on a descriptor with nothing to report
    while the network is at work: inside a callback, yet to answer, bringing a
    read that is posted, or tearing a cancelled request down. *)
Theorem never_stuck (timeout_ms : Z) (s : system) (Hs : reachable timeout_ms s)
    (Hc : consumer s <> Complete /\ consumer s <> Expired /\ forall e, consumer s <> Failed e) :
  (exists now, is_Some (tick timeout_ms now s)) \/ is_Some (consume s)
  \/ readable (native s) = false
     /\ (is_Some (net_step s)
         \/ net s = Idle /\ (state_ (native s) = CALL_STARTED \/ reading s = 1
                              \/ destroy_requested_ (native s) = true)).
Proof.
  pose proof (inv_reachable _ _ Hs) as I.
  assert (forall x : system, is_Some (Some x)) as Hsome by (intros x; by exists x).
  destruct (readable (native s)) eqn:Er.
  { destruct (consumer s) eqn:Ec; try (by destruct Hc as (? & ? & Hf); try destruct (Hf e));
      try (left; exists zero_clock; unfold tick; rewrite Ec; apply Hsome);
      right; left; unfold consume; rewrite Ec, ?Er; try (case_match; apply Hsome); try apply Hsome.
    destruct (call_read (native s)) as [[[[|]|] ?] ?]; apply Hsome. }
  destruct (consumer s) eqn:Ec; try (by destruct Hc as (? & ? & Hf); try destruct (Hf e));
    try (left; exists zero_clock; unfold tick; rewrite Ec; apply Hsome);
    try (right; left; unfold consume; rewrite Ec; apply Hsome).
  - right; right. split; [done|]. destruct (decide (state_ (native s) = CALL_STARTED)) as [E|E].
    + destruct (net s) eqn:En; try (left; unfold net_step; rewrite En; apply Hsome || (case_match; apply Hsome)).
      * right. by split; [|left].
      * exfalso. pose proof (inv_state _ I) as Hst.
        rewrite En in Hst. cbn in Hst. apply Z.eqb_eq in Hst. by rewrite Hst in E.
    + destruct (inv_hpoll _ I _ Ec E) as [|Hw]; [congruence|].
      left. unfold net_step. destruct (net s); try done; apply Hsome.
  - right; left. unfold consume. rewrite Ec.
    destruct (call_read (native s)) as [[[[|]|] ?] ?]; apply Hsome.
  - right; right. split; [done|]. destruct (net s) eqn:En;
      try (left; unfold net_step; rewrite En; apply Hsome || (case_match; apply Hsome)).
    + right. split; [done|]. destruct (decide (state_ (native s) = CALL_STARTED)) as [|E]; [by left|].
      right. destruct (destroy_requested_ (native s)) eqn:Ed; [by right|]. left.
      assert (tokens s = 1) as Ht by (apply (inv_owed _ I); [done|done|by rewrite En]).
      assert (buffered (native s) = []) as Hb.
      { destruct (buffered (native s)) eqn:Eb; [done|].
        destruct (inv_bpoll _ I _ Ec) as [|Hw]; [left; by rewrite Eb|congruence|by rewrite En in Hw]. }
      unfold tokens in Ht. rewrite En, Ec in Ht. cbn [about_to_read about_to_resume Nat.b2n] in Ht.
      destruct (read_paused_ (native s)) eqn:Ep; cbn [Nat.b2n] in Ht; [|lia].
      destruct (wf_paused _ (inv_wf _ I) Ep) as [Hlow _].
      rewrite (available_nil _ Hb) in Hlow. by vm_compute in Hlow.
    + exfalso. destruct (inv_bpoll _ I _ Ec) as [|Hw]; [|congruence|by rewrite En in Hw].
      right. rewrite (inv_complete _ I), En. done.
Qed.

Lemma never_stuck_witness :
  let s := after (-1) data_while_asleep in
  (exists now, is_Some (tick (-1) now s)) \/ is_Some (consume s)
  \/ readable (native s) = false
     /\ (is_Some (net_step s)
         \/ net s = Idle /\ (state_ (native s) = CALL_STARTED \/ reading s = 1
                              \/ destroy_requested_ (native s) = true)).
Proof.
  apply (never_stuck (-1)).
  - exists data_while_asleep. vm_compute. reflexivity.
  - split; [|split; [|intros e]]; vm_compute; discriminate.
Defined.

(** What is left of the time when the consumer is inside a round. *)
Definition remaining_of (c : consumer_pc) : option Z :=
  match c with
  | HDrain r | HCheck r | HPoll r | BDrain r | BRead r | BResume r | BPoll r => Some r
  | _ => None
  end.

Definition given_up (c : consumer_pc) : bool :=
  match c with Expired | Failed _ => true | _ => false end.

Definition unlimited (s : system) : Prop :=
  given_up (consumer s) = false /\ forall r, remaining_of (consumer s) = Some r -> r = (-1)%Z.

Lemma unlimited_step (timeout_ms : Z) (e : event) (s s' : system) :
  (timeout_ms < 0)%Z -> unlimited s -> step timeout_ms e s = Some s' -> unlimited s'.
Proof.
  intros Ht [Hne Hr] Hs.
  assert (forall c, (forall r, remaining_of c = Some r -> r = (-1)%Z) -> given_up c = false ->
            consumer s' = c -> unlimited s') as Hto by (intros c H1 H2 <-; by split).
  assert (consumer s' = consumer s -> unlimited s') as Hsame by (intros E; by apply (Hto _ Hr Hne)).
  destruct e as [v k|data|c m| |now| | |]; cbn [step] in Hs.
  - destruct (net s), k; try done; case_match; try done; injection Hs as <-; by apply Hsame.
  - destruct (net s), (reading s); try done. case_match; [|done].
    destruct (OnData data (native s)). injection Hs as <-. by apply Hsame.
  - destruct (net s); try done. injection Hs as <-. by apply Hsame.
  - unfold net_step, post_read in Hs. repeat case_match; simplify_eq/=; by apply Hsame.
  - unfold tick, begin_countdown, countdown, countdown_deadline in Hs.
    rewrite (proj2 (Z.ltb_lt timeout_ms 0)) in Hs by done.
    destruct (consumer s) eqn:Ec; try done; injection Hs as <-; eapply Hto; try reflexivity;
      try done; by intros r [= <-].
  - unfold consume, post_read in Hs. destruct (consumer s) eqn:Ec; try done; cbn in Hr;
      try (rewrite (Hr _ eq_refl) in *; change (poll_refuses (-1)) with false in Hs);
      repeat case_match; simplify_eq/=; (eapply Hto; [..|reflexivity]; try done; intros r' [= <-];
      first [done|by apply Hr]).
  - unfold poll_expires in Hs. destruct (consumer s) as [| | | |r| | | | | |r| | |] eqn:Ec; try done;
      rewrite (Hr r eq_refl) in Hs; done.
  - injection Hs as <-. by apply Hsame.
Qed.

(** With no limit there is no time-out.  A negative number of
    milliseconds is "no limit" all the way down: under no schedule, whatever
    the clock reads, does such a wait expire, or fail on a number. *)
Theorem no_limit_never_expires (timeout_ms : Z) (s : system) (Ht : (timeout_ms < 0)%Z)
    (Hs : reachable timeout_ms s) : given_up (consumer s) = false.
Proof.
  destruct Hs as [es H]. assert (unlimited init) as Hu by (by split).
  revert Hu H. generalize init. induction es as [|e es IH]; cbn; intros s0 Hu H.
  - injection H as ->. apply Hu.
  - destruct (step timeout_ms e s0) as [s1|] eqn:Es; [|done].
    apply (IH s1); [|done]. by eapply unlimited_step.
Qed.

Lemma no_limit_never_expires_witness : given_up (consumer (after (-1) data_while_asleep)) = false.
Proof.
  apply (no_limit_never_expires (-1)); [lia|]. exists data_while_asleep. vm_compute. reflexivity.
Defined.

(** A limit of more than about twenty-four days is not waited for: the first
    round that has to wait raises OverflowError, for poll() counts in
    milliseconds of a C int. *)
Lemma long_limit_overflows (t : Z) (s : system) (r : Z) :
  consumer s = HPoll r \/ consumer s = BPoll r -> (POLL_LIMIT < r)%Z ->
  step t Consume s = Some (set_consumer s (Failed OverflowError)).
Proof.
  intros Hc Hr. cbn [step]. unfold consume.
  destruct Hc as [-> | ->]; by rewrite (proj2 (Z.ltb_lt _ _) Hr : poll_refuses r = true).
Qed.

Lemma month_long_limit :
  exists es s, run (30 * 24 * 3600 * 1000) es init = Some s /\ consumer s = Failed OverflowError.
Proof.
  eexists [Tick zero_clock; Tick zero_clock; Consume; Consume; Consume], _.
  split; vm_compute; reflexivity.
Qed.

Lemma Read_view (c : N) (s s' : CallState) (out : option bytes) (b : bool) :
  Read c s = (out, b, s') -> view_ s' = view_ s /\ state_ s' = state_ s.
Proof. unfold Read. repeat case_match; by intros [= _ _ <-]. Qed.

Lemma finished_step (timeout_ms : Z) (e : event) (s s' : system) :
  inv s -> is_finished (native s) = true -> step timeout_ms e s = Some s' ->
  view_ (native s') = view_ (native s) /\ state_ (native s') = state_ (native s).
Proof.
  intros I Hf Hs. pose proof (inv_state _ I) as Hst. unfold is_finished in Hf. rewrite Hf in Hst.
  destruct e as [v k|data|c m| |now| | |]; cbn [step] in Hs.
  - by destruct (net s).
  - by destruct (net s).
  - by destruct (net s).
  - unfold net_step in Hs. destruct (net s); try done. by injection Hs as <-.
  - unfold tick, begin_countdown in Hs.
    destruct (consumer s); try done; try case_match; by injection Hs as <-.
  - unfold consume, call_read, post_read in Hs.
    destruct (consumer s); try done; try (case_match; by simplify_eq/=); try (by simplify_eq/=);
      try (match type of Hs with context [poll_refuses ?r] =>
             destruct (poll_refuses r), (readable (native s)); by simplify_eq/= end).
    destruct (Read CHUNK_SIZE (native s)) as [[[[|b p]|] q] n] eqn:Er;
      apply Read_view in Er; by simplify_eq/=.
  - unfold poll_expires in Hs. destruct (consumer s); try done; case_match; by simplify_eq/=.
  - by injection Hs as <-.
Qed.

(** The first outcome is the only one.  Once a call is done, its response
    and its error are what they will be: no later callback, read or
    cancellation changes them, and the call stays done. *)
Theorem outcome_is_final (timeout_ms : Z) (s s' : system) (es : list event)
    (Hs : reachable timeout_ms s) (Hdone : is_finished (native s) = true)
    (Hrun : run timeout_ms es s = Some s') :
  is_finished (native s') = true /\ response (native s') = response (native s).
Proof.
  apply inv_reachable in Hs as I. clear Hs. revert s I Hdone Hrun.
  induction es as [|e es IH]; cbn; intros s I Hd H; [by simplify_eq|].
  destruct (step timeout_ms e s) as [s1|] eqn:Es; [|done].
  destruct (finished_step _ _ _ _ I Hd Es) as [Hv Hst].
  assert (is_finished (native s1) = true) as Hd1 by (unfold is_finished in *; congruence).
  destruct (IH s1) as [H1 H2]; [by eapply inv_step|done|done|].
  split; [done|]. rewrite H2. unfold response. by rewrite Hst, Hv.
Qed.

Lemma outcome_is_final_witness :
  response (native (after (-1) (small_download ++ [Cancel])))
  = response (native (after (-1) small_download)).
Proof.
  apply (outcome_is_final (-1) (after (-1) small_download)
           (after (-1) (small_download ++ [Cancel])) [Cancel]).
  - exists small_download. vm_compute. reflexivity.
  - vm_compute. reflexivity.
  - vm_compute. reflexivity.
Defined.

(** A consumer can see the end of the body before the outcome is written: the
    network thread marks the body complete first, and only then writes the
    error.  Reading the result at that moment, as the sessions do, finds a
    success with a short body where the call failed. *)
Definition failing_download : list event :=
  [Tick zero_clock; Tick zero_clock; Consume; Consume;
   NetHeaders no_view ThenRead; NetStep; NetStep; Consume; Tick zero_clock; Consume; Consume;
   Tick zero_clock; Tick zero_clock; NetData (##"ab"); NetStep; NetStep;
   NetOutcome (-101) (##"net::ERR_CONNECTION_RESET"); NetStep;
   Consume; Consume; Consume].

Lemma eof_before_outcome :
  let s := after (-1) failing_download in
  reachable (-1) s /\ consumer s = Complete
  /\ net s = WritingError (-101) (##"net::ERR_CONNECTION_RESET")
  /\ exists v, response (native s) = Some v /\ nr_error_code v = 0%Z.
Proof.
  split; [exists failing_download; vm_compute; reflexivity|].
  split; [vm_compute; reflexivity|]. split; [vm_compute; reflexivity|].
  exists no_view. split; vm_compute; reflexivity.
Qed.
