(* ===== verification/Dict.v ===== *)
(** * Dict: Python's [dict], which keeps the order its keys arrived in.

    A dict is the association list of its entries; the keys of a dict the
    operations built from an empty one are distinct. *)

From S2P Require Import Prelude.

Section dict.
Context {K V : Type} `{EqDecision K}.
Implicit Types (d : list (K * V)) (k : K) (v : V).

(** [d.get(k)] *)
Fixpoint dict_get d k : option V :=
  match d with
  | [] => None
  | (k', v) :: d => if bool_decide (k' = k) then Some v else dict_get d k
  end.

(** [d[k] = v]: a known key keeps its place. *)
Fixpoint dict_set d k v : list (K * V) :=
  match d with
  | [] => [(k, v)]
  | (k', v') :: d => if bool_decide (k' = k) then (k', v) :: d else (k', v') :: dict_set d k v
  end.

(** [del d[k]], for a key that is there, and nothing for another. *)
Fixpoint dict_del d k : list (K * V) :=
  match d with
  | [] => []
  | (k', v') :: d => if bool_decide (k' = k) then d else (k', v') :: dict_del d k
  end.

(** [d.update(entries)] and [dict(entries)] *)
Definition dict_update d (entries : list (K * V)) : list (K * V) :=
  foldl (fun d '(k, v) => dict_set d k v) d entries.

Definition dict_of (entries : list (K * V)) : list (K * V) := dict_update [] entries.

Lemma dict_set_fresh d k v : k ∉ d.*1 -> dict_set d k v = d ++ [(k, v)].
Proof.
  induction d as [|[k' v'] d IH]; cbn; intros H; [done|].
  apply not_elem_of_cons in H as [H1 H2]. rewrite bool_decide_eq_false_2 by done. by rewrite IH.
Qed.

Lemma dict_get_some d k v : dict_get d k = Some v -> (k, v) ∈ d.
Proof.
  induction d as [|[k' v'] d IH]; cbn; [done|].
  case_bool_decide as E; [intros [= ->]; subst; by left|]. right. by apply IH.
Qed.

Lemma dict_get_none d k : dict_get d k = None <-> k ∉ d.*1.
Proof.
  induction d as [|[k' v'] d IH]; cbn; [by split; [intros _; apply not_elem_of_nil|]|].
  rewrite not_elem_of_cons. case_bool_decide as E; [naive_solver|]. rewrite IH. naive_solver.
Qed.

Lemma dict_get_in d k v : NoDup d.*1 -> (k, v) ∈ d -> dict_get d k = Some v.
Proof.
  induction d as [|[k' v'] d IH]; cbn; intros Hd Hin; [by apply elem_of_nil in Hin|].
  apply NoDup_cons in Hd as [Hk Hd]. apply elem_of_cons in Hin as [[= <- <-]|Hin].
  - by rewrite bool_decide_eq_true_2.
  - rewrite bool_decide_eq_false_2; [by apply IH|]. intros ->. apply Hk.
    apply list_elem_of_fmap. by exists (k, v).
Qed.

(** The keys after a [dict_set], and the entries of one. *)
Lemma dict_get_set d k k' v :
  dict_get (dict_set d k v) k' = if bool_decide (k = k') then Some v else dict_get d k'.
Proof.
  induction d as [|[k0 v0] d IH]; cbn; [done|]. destruct (decide (k0 = k)) as [->|Hk].
  - rewrite bool_decide_eq_true_2 by done. cbn. by case_bool_decide.
  - rewrite bool_decide_eq_false_2 by done. cbn. rewrite IH. repeat case_bool_decide; congruence.
Qed.

Lemma dict_set_keys d k v : (dict_set d k v).*1 = if decide (k ∈ d.*1) then d.*1 else d.*1 ++ [k].
Proof.
  induction d as [|[k' v'] d IH]; cbn; [done|].
  case_bool_decide as E; cbn.
  - by rewrite decide_True by (subst; by left).
  - rewrite IH. destruct (decide (k ∈ d.*1)) as [H|H].
    + by rewrite decide_True by (by right).
    + rewrite decide_False; [done|]. apply not_elem_of_cons. by split; [intros ->|].
Qed.

Lemma dict_set_nodup d k v : NoDup d.*1 -> NoDup (dict_set d k v).*1.
Proof.
  intros H. rewrite dict_set_keys. case_decide as E; [done|].
  apply NoDup_app. split_and!; [done| |apply NoDup_singleton].
  intros x Hx ->%list_elem_of_singleton. done.
Qed.

Lemma elem_of_dict_set d k v k' v' :
  (k', v') ∈ dict_set d k v -> (k', v') = (k, v) \/ (k', v') ∈ d.
Proof.
  induction d as [|[k0 v0] d IH]; cbn.
  - intros [->|H]%elem_of_cons; [by left|by apply elem_of_nil in H].
  - case_bool_decide as E; rewrite !elem_of_cons; [|naive_solver].
    subst. naive_solver.
Qed.

Lemma dict_set_has d k v : (k, v) ∈ dict_set d k v.
Proof.
  induction d as [|[k' v'] d IH]; cbn; [by left|].
  case_bool_decide as E; [subst; by left|by right].
Qed.

Lemma elem_of_dict_del d k k' v' : (k', v') ∈ dict_del d k -> (k', v') ∈ d.
Proof.
  induction d as [|[k0 v0] d IH]; cbn; [done|].
  case_bool_decide; rewrite ?elem_of_cons; naive_solver.
Qed.

Lemma dict_del_nodup d k : NoDup d.*1 -> NoDup (dict_del d k).*1.
Proof.
  induction d as [|[k0 v0] d IH]; cbn; [done|]. rewrite NoDup_cons. intros [H1 H2].
  case_bool_decide; [done|]. cbn. apply NoDup_cons. split; [|by apply IH].
  intros Hi. apply list_elem_of_fmap in Hi as ([k1 v1] & ? & Hin). cbn in *; subst. apply elem_of_dict_del in Hin.
  apply H1, list_elem_of_fmap. by exists (k1, v1).
Qed.

(** Every entry of a dict built from entries came from them. *)
Lemma Forall_dict_set (P : K * V -> Prop) d k v :
  P (k, v) -> Forall P d -> (forall k' v', P (k', v') -> k' = k -> P (k', v)) ->
  Forall P (dict_set d k v).
Proof.
  intros Hp Hd Hr. induction Hd as [|[k' v'] d Hk Hd IH]; cbn; [by repeat constructor|].
  case_bool_decide; constructor; eauto.
Qed.

Lemma Forall_dict_del (P : K * V -> Prop) d k : Forall P d -> Forall P (dict_del d k).
Proof.
  rewrite !Forall_forall. intros H [k' v'] Hin. by apply H, (elem_of_dict_del _ _ _ _ Hin).
Qed.

(** A dict whose entries satisfy [P]. *)
Definition dict_ok (P : K -> V -> Prop) d : Prop := NoDup d.*1 /\ Forall (fun e => P e.1 e.2) d.

Lemma dict_ok_nil (P : K -> V -> Prop) : dict_ok P [].
Proof. split; constructor. Qed.

Lemma dict_ok_set (P : K -> V -> Prop) d k v : dict_ok P d -> P k v -> dict_ok P (dict_set d k v).
Proof.
  intros [Hn Hf] Hp. split; [by apply dict_set_nodup|].
  apply Forall_dict_set; [done|done|]. by intros k' v' _ ->.
Qed.

Lemma dict_ok_del (P : K -> V -> Prop) d k : dict_ok P d -> dict_ok P (dict_del d k).
Proof. intros [Hn Hf]. split; [by apply dict_del_nodup|by apply Forall_dict_del]. Qed.

Lemma dict_ok_get (P : K -> V -> Prop) d k v : dict_ok P d -> dict_get d k = Some v -> P k v.
Proof. intros [_ Hf] Hg%dict_get_some. rewrite Forall_forall in Hf. by apply (Hf (k, v)). Qed.

Lemma dict_ok_impl (P Q : K -> V -> Prop) d : (forall k v, P k v -> Q k v) -> dict_ok P d -> dict_ok Q d.
Proof. intros H [Hn Hf]. split; [done|]. eapply Forall_impl; [exact Hf|]. intros e. apply H. Qed.

(** ** What the values of a dict hold *)

Section contents.
Context {C : Type} (f : V -> list C).

Definition contents d : list C := d ≫= fun e => f e.2.

Lemma elem_of_contents d (c : C) : c ∈ contents d <-> exists k v, (k, v) ∈ d /\ c ∈ f v.
Proof.
  unfold contents. rewrite list_elem_of_bind. split.
  - intros ([k v] & Hc & Hd). eauto.
  - intros (k & v & Hd & Hc). by exists (k, v).
Qed.

Lemma elem_of_contents_set d k v (c : C) :
  c ∈ contents (dict_set d k v) -> c ∈ f v \/ c ∈ contents d.
Proof.
  rewrite !elem_of_contents. intros (k' & v' & [[= -> ->]|Hd]%elem_of_dict_set & Hc); [by left|].
  right. eauto.
Qed.

Lemma elem_of_contents_get d k v (c : C) :
  dict_get d k = Some v -> c ∈ f v -> c ∈ contents d.
Proof. intros H%dict_get_some Hc. apply elem_of_contents. eauto. Qed.

(** A value that lost what [q] refuses, where no other holds any of it. *)
Lemma contents_replace (q : C -> bool) d k v v' :
  NoDup d.*1 -> dict_get d k = Some v -> f v' = keep q (f v) ->
  (forall k0 v0, (k0, v0) ∈ d -> k0 <> k -> keep q (f v0) = f v0) ->
  contents (dict_set d k v') = keep q (contents d).
Proof.
  intros Hn Hg Hv Hq. induction d as [|[k0 v0] d IH]; [done|].
  rewrite fmap_cons in Hn. apply NoDup_cons in Hn as [Hk Hn]. cbn [dict_get dict_set] in *.
  case_bool_decide as E.
  - injection Hg as ->. subst k0. unfold contents. rewrite !bind_cons, keep_app. cbn [snd]. f_equal; [done|].
    fold (contents d). symmetry. assert (forall e, e ∈ d -> keep q (f e.2) = f e.2) as Ha.
    { intros [k1 v1] Hin. apply (Hq k1); [by right|]. intros ->. apply Hk, list_elem_of_fmap. by exists (k, v1). }
    clear -Ha. induction d as [|e d IH]; [done|]. unfold contents. rewrite bind_cons, keep_app.
    rewrite (Ha e) by (by left). f_equal. apply IH. intros e' He. apply Ha. by right.
  - unfold contents. rewrite !bind_cons, keep_app. cbn [snd]. rewrite (Hq k0 v0) by first [by left|done].
    f_equal. apply IH; [done|done|]. intros k1 v1 Hin. apply Hq. by right.
Qed.

(** Contents labelled so that the label tells the key are distinct. *)
Lemma contents_nodup {L} (g : C -> L) (key : L -> K) d :
  dict_ok (fun k v => NoDup (g <$> f v) /\ forall c, c ∈ f v -> key (g c) = k) d ->
  NoDup (g <$> contents d).
Proof.
  intros [Hn Hf]. induction d as [|[k v] d IH]; [constructor|].
  rewrite fmap_cons in Hn. apply NoDup_cons in Hn as [Hk Hn].
  apply Forall_cons in Hf as [[H1 H2] Hf]. cbn [fst snd] in *.
  unfold contents. rewrite bind_cons, fmap_app. apply NoDup_app. split_and!; [done| |by apply IH].
  intros l (c & -> & Hc)%list_elem_of_fmap (c' & E & Hc')%list_elem_of_fmap.
  apply Hk. apply elem_of_contents in Hc' as (k' & v' & Hd & Hc').
  rewrite Forall_forall in Hf. destruct (Hf _ Hd) as [_ H2']. cbn in H2'.
  apply list_elem_of_fmap. exists (k', v'). split; [|done]. cbn.
  rewrite <- (H2 c Hc), <- (H2' c' Hc'). by rewrite E.
Qed.
End contents.
End dict.
