(* ===== verification/Regex.v ===== *)
(** * Regex: the part of Python's [re] the binding generator and the cookie
    dates use.

    A pattern is a tree; [exec] explores it the way a backtracking matcher
    does, trying alternatives in order of priority and handing each success to
    a continuation, which may refuse it.  [matches] is the relation the
    patterns denote, and the two agree. *)

From S2P Require Import Prelude PyText.

Inductive regex :=
| Eps
| Class (p : N -> bool)               (* one character *)
| Cat (a b : regex)
| Alt (a b : regex)
| Rep (greedy : bool) (a : regex)     (* a* and a*? *)
| Group (n : nat) (a : regex)
| Backref (n : nat)                   (* \n *)
| WordEdge                            (* \b *)
| LineStart                           (* ^ under MULTILINE *)
| LineEnd                             (* $ under MULTILINE *)
| Peek (p : str -> bool).             (* (?=...), (?!...) and a plain $ *)

(** A place in a text, and the groups matched on the way there. *)
Record cursor := mkCursor {
  pos : N;
  behind : option N;                  (* the character just passed *)
  ahead : str;
  groups : list (nat * str);
}.

Definition at_start (s : str) : cursor := mkCursor 0 None s [].

Fixpoint group_text (n : nat) (gs : list (nat * str)) : str :=
  match gs with
  | [] => []
  | (m, s) :: gs => if m =? n then s else group_text n gs
  end.

Definition group (n : nat) (c : cursor) : str := group_text n (groups c).

Definition pass (x : N) (rest : str) (c : cursor) : cursor :=
  mkCursor (pos c + 1) (Some x) rest (groups c).

(** The text between two cursors, the second further on. *)
Definition between (c c' : cursor) : str := take (N.to_nat (pos c' - pos c)) (ahead c).

Definition save (n : nat) (s : str) (c : cursor) : cursor :=
  mkCursor (pos c) (behind c) (ahead c) ((n, s) :: groups c).

(** [\1]: the characters of an earlier group, again. *)
Fixpoint follow_text (s : str) (c : cursor) : option cursor :=
  match s with
  | [] => Some c
  | x :: s =>
      match ahead c with
      | y :: rest => if (x =? y)%N then follow_text s (pass y rest c) else None
      | [] => None
      end
  end.

Section classes.
(** What [str.isalnum] and [str.isdecimal] say beyond ASCII. *)
Context (wide_alnum wide_decimal : N -> bool).

(** [\w], [\d] and [\s] *)
Definition word (c : N) : bool :=
  if is_ascii c then is_ascii_alnum c || (c =? 95)%N else wide_alnum c.
Definition digit (c : N) : bool := if is_ascii c then is_ascii_digit c else wide_decimal c.
Definition space (c : N) : bool := is_space c.

Definition is_edge (c : cursor) : bool :=
  let before := match behind c with Some x => word x | None => false end in
  let after := match ahead c with x :: _ => word x | [] => false end in
  xorb before after.

Definition starts_line (c : cursor) : bool :=
  match behind c with Some x => (x =? LF)%N | None => true end.

Definition ends_line (c : cursor) : bool :=
  match ahead c with x :: _ => (x =? LF)%N | [] => true end.

Definition orelse {A} (a : option A) (b : unit -> option A) : option A :=
  match a with Some x => Some x | None => b tt end.

(** A repetition takes one more [step] or hands over to [k], in the order its
    greed says.  A step must consume something, so there are no more of them
    than characters ahead. *)
Fixpoint repeat_ {A} (greedy : bool) (step : cursor -> (cursor -> option A) -> option A)
    (n : nat) (k : cursor -> option A) (c : cursor) : option A :=
  match n with
  | O => k c
  | S n =>
      let more := fun _ : unit =>
        step c (fun c' => if (pos c <? pos c')%N then repeat_ greedy step n k c' else None) in
      if greedy then orelse (more tt) (fun _ => k c) else orelse (k c) more
  end.

Fixpoint exec {A} (r : regex) (c : cursor) (k : cursor -> option A) {struct r} : option A :=
  match r with
  | Eps => k c
  | Class p =>
      match ahead c with
      | x :: rest => if p x then k (pass x rest c) else None
      | [] => None
      end
  | Cat a b => exec a c (fun c => exec b c k)
  | Alt a b => orelse (exec a c k) (fun _ => exec b c k)
  | Rep greedy a => repeat_ greedy (exec a) (length (ahead c)) k c
  | Group n a => exec a c (fun c' => k (save n (between c c') c'))
  | Backref n => match follow_text (group n c) c with Some c => k c | None => None end
  | WordEdge => if is_edge c then k c else None
  | LineStart => if starts_line c then k c else None
  | LineEnd => if ends_line c then k c else None
  | Peek p => if p (ahead c) then k c else None
  end.

(** ** What a pattern denotes *)

Inductive matches : regex -> cursor -> cursor -> Prop :=
| m_eps c : matches Eps c c
| m_class p c x rest : ahead c = x :: rest -> p x = true -> matches (Class p) c (pass x rest c)
| m_cat a b c c1 c2 : matches a c c1 -> matches b c1 c2 -> matches (Cat a b) c c2
| m_left a b c c1 : matches a c c1 -> matches (Alt a b) c c1
| m_right a b c c1 : matches b c c1 -> matches (Alt a b) c c1
| m_none g a c : matches (Rep g a) c c
| m_more g a c c1 c2 :
    matches a c c1 -> (pos c < pos c1)%N -> matches (Rep g a) c1 c2 -> matches (Rep g a) c c2
| m_group n a c c1 : matches a c c1 -> matches (Group n a) c (save n (between c c1) c1)
| m_back n c c1 : follow_text (group n c) c = Some c1 -> matches (Backref n) c c1
| m_edge c : is_edge c = true -> matches WordEdge c c
| m_line_start c : starts_line c = true -> matches LineStart c c
| m_line_end c : ends_line c = true -> matches LineEnd c c
| m_peek p c : p (ahead c) = true -> matches (Peek p) c c.

(** ** Searching *)

(** A match: the text it took and where it left off. *)
Record found := mkFound { whole_ : str; stop : cursor }.

Definition capture (n : nat) (f : found) : str := group n (stop f).

(** The pattern tried at one place, with no group set; [must] asks for a match
    that consumes something. *)
Definition match_here (must : bool) (r : regex) (c : cursor) : option found :=
  let c := mkCursor (pos c) (behind c) (ahead c) [] in
  exec r c (fun c' =>
    if must && (pos c' =? pos c)%N then None else Some (mkFound (between c c') c')).

(** [re.finditer]: leftmost matches, each search from the end of the last; at
    the place of an empty match the next one may not be empty. *)
Fixpoint scan (fuel : nat) (must : bool) (r : regex) (c : cursor) : list (str + found) :=
  match fuel with
  | O => []
  | S fuel =>
      match match_here must r c with
      | Some f => inr f :: scan fuel (pos c =? pos (stop f))%N r (stop f)
      | None =>
          match ahead c with
          | x :: rest => inl [x] :: scan fuel false r (pass x rest c)
          | [] => []
          end
      end
  end.

(** Every round takes a character or is the only empty match at its place. *)
Definition pieces_of (r : regex) (s : str) : list (str + found) :=
  scan (S (S (2 * length s))) false r (at_start s).

Definition found_of (p : str + found) : option found := match p with inr f => Some f | inl _ => None end.

(** [re.findall(r, s)], the matches themselves. *)
Definition findall (r : regex) (s : str) : list found := omap found_of (pieces_of r s).

(** [re.sub(r, repl, s)], for a replacement with no reference in it. *)
Definition sub (r : regex) (repl s : str) : str :=
  mjoin ((fun p => match p with inl t => t | inr _ => repl end) <$> pieces_of r s).

(** [re.fullmatch(r, s)] *)
Definition fullmatch (r : regex) (s : str) : option cursor :=
  exec r (at_start s) (fun c => match ahead c with [] => Some c | _ => None end).

(** ** The matcher agrees with the denotation *)

Lemma orelse_some {A} (a : option A) (b : unit -> option A) :
  is_Some (orelse a b) <-> is_Some a \/ is_Some (b tt).
Proof. destruct a; cbn; [naive_solver eauto|]. split; [auto|intros [[? [=]]|H]; exact H]. Qed.

(** [c'] is [c] some characters later. *)
Definition later (c c' : cursor) : Prop :=
  exists s, ahead c = s ++ ahead c' /\ pos c' = (pos c + N.of_nat (length s))%N.

Lemma later_refl (c : cursor) : later c c.
Proof. exists []. cbn. split; [done|lia]. Qed.

Lemma later_trans (c1 c2 c3 : cursor) : later c1 c2 -> later c2 c3 -> later c1 c3.
Proof.
  intros (s & Hs & Hp) (t & Ht & Hq). exists (s ++ t).
  rewrite <- app_assoc, <- Ht, length_app. split; [done|lia].
Qed.

Lemma later_pass (c : cursor) (x : N) (rest : str) :
  ahead c = x :: rest -> later c (pass x rest c).
Proof. intros H. exists [x]. cbn. split; [done|lia]. Qed.

Lemma later_length (c c' : cursor) :
  later c c' -> (pos c < pos c')%N -> length (ahead c') < length (ahead c).
Proof. intros (s & Hs & Hp) H. rewrite Hs, length_app. lia. Qed.

Lemma later_between (c c' : cursor) :
  later c c' -> ahead c = between c c' ++ ahead c'.
Proof.
  intros (s & Hs & Hp). unfold between. replace (N.to_nat (pos c' - pos c)) with (length s) by lia.
  by rewrite Hs, take_app_length.
Qed.

Lemma follow_text_later (s : str) (c c' : cursor) : follow_text s c = Some c' -> later c c'.
Proof.
  revert c; induction s as [|x s IH]; intros c; cbn; [intros [= <-]; apply later_refl|].
  destruct (ahead c) as [|y rest] eqn:Hc; [discriminate|].
  case_match; [|discriminate]. intros Hf.
  eapply later_trans; [by apply later_pass|]. by apply IH.
Qed.

Lemma matches_later (r : regex) (c c' : cursor) : matches r c c' -> later c c'.
Proof.
  induction 1; eauto using later_refl, later_trans, later_pass, follow_text_later.
Qed.

Section agreement.
Context {A : Type}.

Definition agrees (r : regex) : Prop := forall (c : cursor) (k : cursor -> option A),
  (forall x, exec r c k = Some x -> exists c', matches r c c' /\ k c' = Some x) /\
  (forall c', matches r c c' -> is_Some (k c') -> is_Some (exec r c k)).

Lemma repeat_sound (g : bool) (a : regex) (k : cursor -> option A) (x : A) :
  agrees a -> forall n c, repeat_ g (exec a) n k c = Some x ->
  exists c', matches (Rep g a) c c' /\ k c' = Some x.
Proof.
  intros Ha n; induction n as [|n IH]; intros c; cbn [repeat_]; [eauto using m_none|].
  assert (forall x0, exec a c (fun c' => if (pos c <? pos c')%N
            then repeat_ g (exec a) n k c' else None) = Some x0 ->
          x0 = x -> exists c', matches (Rep g a) c c' /\ k c' = Some x) as Hmore.
  { intros x0 H ->. apply Ha in H as (c1 & H1 & H2).
    destruct (pos c <? pos c1)%N eqn:Hlt; [|discriminate].
    apply IH in H2 as (c2 & H2 & H3). exists c2. split; [|done].
    eapply m_more; eauto. by apply N.ltb_lt. }
  destruct g; unfold orelse; case_match eqn:E; intros H; simplify_eq; eauto using m_none.
Qed.

Lemma repeat_complete (g : bool) (a : regex) (k : cursor -> option A) (c c' : cursor) :
  agrees a -> matches (Rep g a) c c' -> is_Some (k c') ->
  forall n, length (ahead c) <= n -> is_Some (repeat_ g (exec a) n k c).
Proof.
  intros Ha Hm Hk. remember (Rep g a) as r eqn:Hr. revert Hr Hk.
  induction Hm as [| | | | |g' a' c|g' a' c c1 c2 H1 _ Hlt H2 IH| | | | | | ];
    intros Hr Hk; try discriminate; injection Hr as -> ->; intros n Hn.
  - destruct n; cbn [repeat_]; [done|]. destruct g; rewrite orelse_some; auto.
  - specialize (IH eq_refl Hk). apply matches_later in H1 as Hl.
    pose proof (later_length _ _ Hl Hlt) as Hlen.
    destruct n as [|n]; [lia|]. cbn [repeat_].
    assert (is_Some (exec a c (fun c' => if (pos c <? pos c')%N
              then repeat_ g (exec a) n k c' else None))) as Hmore.
    { eapply Ha; [exact H1|]. cbn. rewrite (proj2 (N.ltb_lt _ _) Hlt). apply IH. lia. }
    destruct g; rewrite orelse_some; auto.
Qed.

Lemma exec_agrees (r : regex) : agrees r.
Proof.
  induction r as [|p|a IHa b IHb|a IHa b IHb|g a IHa|n a IHa|n| | | |p]; intros c k; cbn [exec].
  - split; [eauto using m_eps|]. by inversion 1; subst.
  - split.
    + intros x H. repeat case_match; simplify_eq. eauto using m_class.
    + inversion 1 as [|? ? y rest Hy Hp| | | | | | | | | | | ]; subst. by rewrite Hy, Hp.
  - split.
    + intros x H. apply IHa in H as (c1 & H1 & H). apply IHb in H as (c2 & H2 & H).
      eauto using m_cat.
    + inversion 1; subst. intros Hk. eapply IHa; [done|]. by eapply IHb.
  - split.
    + intros x. unfold orelse. destruct (exec a c k) eqn:E; intros H; simplify_eq.
      * apply IHa in E as (? & ? & ?). eauto using m_left.
      * apply IHb in H as (? & ? & ?). eauto using m_right.
    + intros c' Hm Hk. rewrite orelse_some. inversion Hm; subst.
      * left. by eapply IHa.
      * right. by eapply IHb.
  - split; [intros x; by apply repeat_sound|].
    intros c' H Hk. by eapply repeat_complete.
  - split.
    + intros x H. apply IHa in H as (? & ? & ?). eauto using m_group.
    + inversion 1; subst. intros Hk. by eapply IHa.
  - split.
    + intros x H. case_match eqn:E; [|discriminate]. eauto using m_back.
    + inversion 1 as [| | | | | | | |? ? ? E| | | | ]; subst. by rewrite E.
  - split; [intros x H; case_match; [|discriminate]; eauto using m_edge|].
    inversion 1; subst. by case_match.
  - split; [intros x H; case_match; [|discriminate]; eauto using m_line_start|].
    inversion 1; subst. by case_match.
  - split; [intros x H; case_match; [|discriminate]; eauto using m_line_end|].
    inversion 1; subst. by case_match.
  - split; [intros x H; case_match; [|discriminate]; eauto using m_peek|].
    inversion 1; subst. by case_match.
Qed.
End agreement.

Lemma exec_sound {A} (r : regex) (c : cursor) (k : cursor -> option A) (x : A) :
  exec r c k = Some x -> exists c', matches r c c' /\ k c' = Some x.
Proof. apply exec_agrees. Qed.

(** What one step of the matcher does. *)
Lemma exec_cat {A} (a b : regex) (c : cursor) (k : cursor -> option A) :
  exec (Cat a b) c k = exec a c (fun c => exec b c k).
Proof. reflexivity. Qed.

Lemma exec_class {A} (p : N -> bool) (c : cursor) (k : cursor -> option A) :
  exec (Class p) c k = match ahead c with x :: rest => if p x then k (pass x rest c) else None | [] => None end.
Proof. reflexivity. Qed.

Lemma exec_some {A} (r : regex) (c : cursor) (k : cursor -> option A) :
  is_Some (exec r c k) <-> exists c', matches r c c' /\ is_Some (k c').
Proof.
  split.
  - intros [x H]. apply exec_sound in H as (? & ? & ?). eauto.
  - intros (c' & H & Hk). by eapply exec_agrees.
Qed.

(** [re.fullmatch] succeeds exactly on the texts the pattern takes whole. *)
Lemma fullmatch_some (r : regex) (s : str) :
  is_Some (fullmatch r s) <-> exists c, matches r (at_start s) c /\ ahead c = [].
Proof.
  unfold fullmatch. rewrite exec_some. split; intros (c & H & Hk); exists c; (split; [done|]).
  - destruct Hk as [? Hk]. by case_match.
  - by rewrite Hk.
Qed.

(** What [re.finditer] leaves and finds, put together again, is the text. *)
Definition piece_text (p : str + found) : str := match p with inl t => t | inr f => whole_ f end.

Definition fresh_at (c : cursor) : cursor := mkCursor (pos c) (behind c) (ahead c) [].

Lemma match_here_spec (must : bool) (r : regex) (c : cursor) (f : found) :
  match_here must r c = Some f ->
  matches r (fresh_at c) (stop f) /\ whole_ f = between (fresh_at c) (stop f) /\
  (must = true -> (pos c < pos (stop f))%N) /\ ahead c = whole_ f ++ ahead (stop f) /\
  later (fresh_at c) (stop f).
Proof.
  unfold match_here. intros H. apply exec_sound in H as (c' & H & Hk).
  destruct (must && _)%bool eqn:Hm; [discriminate|]. injection Hk as <-. cbn.
  pose proof (matches_later _ _ _ H) as Hl. repeat split; try done.
  - intros ->. cbn in Hm. apply N.eqb_neq in Hm. destruct Hl as (? & ? & Hp). cbn in Hp. lia.
  - by apply later_between in Hl.
Qed.

Lemma scan_text (r : regex) (fuel : nat) : forall (must : bool) (c : cursor),
  2 * length (ahead c) + (if must then 0 else 1) < fuel ->
  mjoin (piece_text <$> scan fuel must r c) = ahead c.
Proof.
  induction fuel as [|fuel IH]; intros must c Hf; [lia|]. cbn [scan].
  destruct (match_here must r c) as [f|] eqn:E.
  - apply match_here_spec in E as (_ & _ & Hm & Ha & Hl). cbn.
    rewrite IH; [done|]. destruct (pos c =? pos (stop f))%N eqn:Heq.
    + destruct must; [apply N.eqb_eq in Heq; specialize (Hm eq_refl); lia|].
      rewrite Ha, length_app in Hf. lia.
    + apply later_length in Hl; [cbn in Hl; lia|]. destruct Hl as (? & ? & Hp). cbn in *.
      apply N.eqb_neq in Heq. lia.
  - destruct (ahead c) as [|x rest] eqn:Hc; cbn; [done|]. rewrite IH; [done|]. cbn in *. lia.
Qed.

Lemma pieces_text (r : regex) (s : str) : mjoin (piece_text <$> pieces_of r s) = s.
Proof. unfold pieces_of. rewrite scan_text; [done|cbn; lia]. Qed.

(** ** Runs of one class *)

Fixpoint run_from (p : N -> bool) (s : str) (c : cursor) : cursor :=
  match s with
  | x :: rest => if p x then run_from p rest (pass x rest c) else c
  | [] => c
  end.

(** [p*] takes the longest run, if what follows can go on from there. *)
Lemma exec_run {A} (p : N -> bool) (k : cursor -> option A) (c : cursor) :
  is_Some (k (run_from p (ahead c) c)) ->
  exec (Rep true (Class p)) c k = k (run_from p (ahead c) c).
Proof.
  cbn [exec]. remember (ahead c) as s eqn:Hs. revert c Hs.
  induction s as [|x rest IH]; intros c Hs Hk; cbn [repeat_ length run_from] in *; [done|].
  cbn [exec orelse]. rewrite <- Hs. destruct (p x); [|done].
  cbn [pass pos]. rewrite (proj2 (N.ltb_lt _ _)) by lia.
  rewrite IH by done. by destruct Hk as [? ->].
Qed.

Fixpoint first_stop {A} (k : cursor -> option A) (s : str) (c : cursor) : option A :=
  match k c with
  | Some x => Some x
  | None => match s with [] => None | x :: rest => first_stop k rest (pass x rest c) end
  end.

(** [.*?] goes on from the first place where what follows can. *)
Lemma exec_lazy {A} (k : cursor -> option A) (c : cursor) :
  exec (Rep false (Class (fun _ => true))) c k = first_stop k (ahead c) c.
Proof.
  cbn [exec]. remember (ahead c) as s eqn:Hs. revert c Hs.
  induction s as [|x rest IH]; intros c Hs; cbn [repeat_ length first_stop]; unfold orelse.
  - by destruct (k c).
  - destruct (k c); [done|]. cbn [exec]. rewrite <- Hs. cbn [pass pos].
    rewrite (proj2 (N.ltb_lt _ _)) by lia. by apply IH.
Qed.

Lemma run_from_ahead (p : N -> bool) (s : str) (c : cursor) :
  s = ahead c -> ahead (run_from p s c) = lstrip p s.
Proof.
  revert c; induction s as [|x rest IH]; intros c Hs; cbn; [done|].
  destruct (p x); [by rewrite IH|done].
Qed.

(** ** Substitution, given where each match ends *)

Section substitution.
Context (r : regex) (repl : str) (rest_of : str -> option str).
Hypothesis rest_ok : forall c,
  (fun f => ahead (stop f)) <$> match_here false r c = rest_of (ahead c).
Hypothesis rest_shorter : forall s s', rest_of s = Some s' -> length s' < length s.

Fixpoint replace_from (n : nat) (s : str) : str :=
  match n with
  | O => []
  | S n =>
      match rest_of s with
      | Some s => repl ++ replace_from n s
      | None => match s with [] => [] | x :: s => x :: replace_from n s end
      end
  end.

Lemma scan_replace (fuel : nat) : forall (n : nat) (c : cursor),
  length (ahead c) < n -> length (ahead c) < fuel ->
  mjoin ((fun p => match p with inl t => t | inr _ => repl end) <$> scan fuel false r c)
  = replace_from n (ahead c).
Proof.
  induction fuel as [|fuel IH]; intros n c Hn Hf; [lia|]. destruct n as [|n]; [lia|].
  cbn [scan replace_from]. pose proof (rest_ok c) as Hr.
  destruct (match_here false r c) as [f|] eqn:E; cbn in Hr; rewrite <- Hr.
  - symmetry in Hr. pose proof (rest_shorter _ _ Hr) as Hlt.
    apply match_here_spec in E as (_ & _ & _ & _ & (s & Hs & Hp)). cbn in Hs, Hp.
    rewrite Hs, length_app in Hlt. rewrite (proj2 (N.eqb_neq _ _)) by lia. cbn.
    f_equal. apply IH; rewrite Hs, length_app in *; lia.
  - destruct (ahead c) as [|x rest] eqn:Hc; cbn; [done|]. f_equal.
    apply (IH n (pass x rest c)); cbn in *; lia.
Qed.

Lemma sub_replace (s : str) (n : nat) : length s < n -> sub r repl s = replace_from n s.
Proof. intros Hn. unfold sub, pieces_of. apply scan_replace; cbn; lia. Qed.
End substitution.
End classes.

(** Patterns in the usual notation. *)
Definition chr (x : N) : regex := Class (N.eqb x).
Fixpoint text_ (s : str) : regex :=
  match s with [] => Eps | [x] => chr x | x :: s => Cat (chr x) (text_ s) end.
Definition plus_ (a : regex) : regex := Cat a (Rep true a).
Definition opt_ (a : regex) : regex := Alt a Eps.
Fixpoint cats (l : list regex) : regex :=
  match l with [] => Eps | [r] => r | r :: l => Cat r (cats l) end.
(** [$] without MULTILINE: at the end, or before a last newline. *)
Definition at_end : regex := Peek (fun s => match s with [] => true | [x] => (x =? LF)%N | _ => false end).
Definition any_char : regex := Class (fun _ => true).              (* . under DOTALL *)
Definition not_newline : regex := Class (fun c => negb (c =? LF)%N).  (* . and [^\n] *)
