(* ===== verification/Generator.v ===== *)
(** * Generator: scripts/generate_binding.py.

    The C header's text is read with regular expressions into an [Abi], the
    [Abi] is rendered as the source of _abi.py, and [main] writes or compares
    it.  Files are a finite map from paths to bytes.  Parameters: what Unicode
    says of characters beyond ASCII, and the formatter (ruff, a program the
    script runs). *)

From S2P Require Import Prelude PyText Regex.

(** [HeaderError], by the message it carries, and what else can escape. *)
Inductive gen_error :=
| NoName (declaration : str)          (* cannot read a name out of ... *)
| NoMapping (c_type : str)            (* no ctypes mapping for ... *)
| UnreadableExport (declaration : str)
| NoFunctions
| RuffFailed
| TooManyDigits                       (* ValueError of int() *)
| FileMissing (path : str)
| NotUtf8 (path : str)
| NotEncodable (path : str).

#[export] Instance gen_error_eq_dec : EqDecision gen_error.
Proof. solve_decision. Defined.

(** ** The language: words, prefixes, titles and numbers *)

(** [s.split()], with the word being read in front. *)
Fixpoint words_go (acc : str) (s : str) : list str :=
  let flush := match acc with [] => [] | _ => [reverse acc] end in
  match s with
  | [] => flush
  | c :: s => if is_space c then flush ++ words_go [] s else words_go (c :: acc) s
  end.

Definition words (s : str) : list str := words_go [] s.

(** [s.removeprefix(p)] and [s.removesuffix(p)] *)
Definition removeprefix (p s : str) : str := if starts p s then drop (length p) s else s.
Definition removesuffix (p s : str) : str :=
  if ends p s then take (length s - length p) s else s.

(** [s.title()] on ASCII: a letter is raised after anything that is no letter. *)
Fixpoint title_go (cased : bool) (s : str) : str :=
  match s with
  | [] => []
  | c :: s =>
      (if is_ascii_lower c && negb cased then (c - 32)%N
       else if is_ascii_upper c && cased then (c + 32)%N else c)
      :: title_go (is_ascii_alpha c) s
  end.

(** Reading text, "\r\n" and "\r" become "\n". *)
Fixpoint newlines (s : str) : str :=
  match s with
  | [] => []
  | c :: t =>
      if (c =? CR)%N
      then LF :: match t with
                 | d :: t' => if (d =? LF)%N then newlines t' else newlines t
                 | [] => []
                 end
      else c :: newlines t
  end.

(** ** Data *)

(** [PRIMITIVES] *)
Definition PRIMITIVES : list (str * str) :=
  [(#"void", #"None");
   (#"int", #"ctypes.c_int");
   (#"int32_t", #"ctypes.c_int32");
   (#"int64_t", #"ctypes.c_int64");
   (#"size_t", #"ctypes.c_size_t");
   (#"char *", #"ctypes.c_char_p");
   (#"uint8_t *", #"ctypes.POINTER(ctypes.c_ubyte)")].

Definition SKIPPED_DEFINES : list str := [ #"CRONET_H_"; #"CRONET_EXPORT"].

(** [Abi]: everything the header declares, in its order. *)
Record Abi := mkAbi {
  constants : list (str * Z);
  enum_members : list (str * Z);
  opaque : list str;
  structs : list (str * list (str * str));    (* name, (field, type)s *)
  functions : list (str * str * list str);    (* name, returns, arguments *)
}.

#[export] Instance abi_eq_dec : EqDecision Abi.
Proof. solve_decision. Defined.

Definition struct_names (abi : Abi) : list str := (structs abi).*1.

(** Files, by path. *)
Abbreviation files := (gmap str bytes).

Section generator.
(** [str.isalnum], the value of a decimal digit and [str.title] beyond ASCII;
    the formatter, given the file's name and a source. *)
Context (wide_alnum : N -> bool) (wide_decimal : N -> option N) (wide_title : str -> str).
Context (ruff : str -> str -> option str).

Definition is_wide_decimal (c : N) : bool := bool_decide (is_Some (wide_decimal c)).

Abbreviation re_sub := (sub wide_alnum).
Abbreviation re_findall := (findall wide_alnum).
Abbreviation re_fullmatch := (fullmatch wide_alnum).

(** *** The patterns *)
Definition W : regex := Class (word wide_alnum).
Definition D : regex := Class (digit is_wide_decimal).
Definition sp : regex := Class space.
Definition t (s : string) : regex := text_ (lit s).

(** [/\*.*?\*/] under DOTALL, and [//[^\n]*] *)
Definition block_comment : regex := cats [t "/*"; Rep false any_char; t "*/"].
Definition line_comment : regex := Cat (t "//") (Rep true not_newline).
(** [\s+] *)
Definition blanks : regex := plus_ sp.
(** [#define\s+(CRONET_\w+)\s+(\(?-?\d+\)?)] *)
Definition define_constant : regex :=
  cats [t "#define"; plus_ sp; Group 1 (Cat (t "CRONET_") (plus_ W)); plus_ sp;
        Group 2 (cats [opt_ (t "("); opt_ (t "-"); plus_ D; opt_ (t ")")])].
(** [^[ \t]*#.*$] under MULTILINE *)
Definition directive : regex :=
  cats [LineStart; Rep true (Class (fun c => (c =? 32)%N || (c =? 9)%N)); t "#";
        Rep true not_newline; LineEnd].
(** [typedef\s+struct\s+(cronet_\w+)\s+\1\s*;] *)
Definition opaque_struct : regex :=
  cats [t "typedef"; plus_ sp; t "struct"; plus_ sp; Group 1 (Cat (t "cronet_") (plus_ W));
        plus_ sp; Backref 1; Rep true sp; t ";"].
(** [typedef\s+enum\s*\{(.*?)\}\s*(cronet_\w+)\s*;], and the same of [struct],
    under DOTALL *)
Definition braced (keyword : string) : regex :=
  cats [t "typedef"; plus_ sp; t keyword; Rep true sp; t "{"; Group 1 (Rep false any_char);
        t "}"; Rep true sp; Group 2 (Cat (t "cronet_") (plus_ W)); Rep true sp; t ";"].
(** [(CRONET_\w+)\s*=\s*(-?\d+)] *)
Definition enum_member : regex :=
  cats [Group 1 (Cat (t "CRONET_") (plus_ W)); Rep true sp; t "="; Rep true sp;
        Group 2 (Cat (opt_ (t "-")) (plus_ D))].
(** [CRONET_EXPORT\s+(.*?)\s*;] under DOTALL *)
Definition exported : regex :=
  cats [t "CRONET_EXPORT"; plus_ sp; Group 1 (Rep false any_char); Rep true sp; t ";"].
(** The pattern of an exported function, under DOTALL: its groups [returns],
    [name] and [args] are 1, 2 and 3 here. *)
Definition prototype : regex :=
  cats [Group 1 (Cat any_char (Rep false any_char)); Rep true sp; WordEdge;
        Group 2 (Cat (t "cronet_") (plus_ W)); Rep true sp; t "(";
        Group 3 (Rep true any_char); t ")"].

(** *** Reading *)

Definition strip_comments (source : str) : str :=
  let without_blocks := re_sub block_comment [32%N] source in
  re_sub line_comment [] without_blocks.

(** The words of a type: stars apart, no [const]. *)
Definition type_words (spelling : str) : list str :=
  let spaced := translate (fun c => if (c =? 42)%N then #" * " else [c]) spelling in
  keep (fun w => bool_decide (w <> #"const")) (words spaced).

Definition normalize_type (spelling : str) : str :=
  let joined := join_with [32%N] (type_words spelling) in
  strip is_space (re_sub blanks [32%N] joined).

Definition split_declarator (declaration : str) : res gen_error (str * str) :=
  let ws := words (normalize_type declaration) in
  if length ws <? 2 then Raise (NoName declaration)
  else Ok (join_with [32%N] (take (length ws - 1) ws), default [] (last ws)).

Definition title (s : str) : str :=
  if forallb is_ascii s then title_go false s else wide_title s.

Definition pascal_case (c_name : str) : str := mjoin (title <$> split_on 95%N c_name).

(** [int(s)] of what [-?\d+] matched. *)
Definition decimal_value (c : N) : N :=
  if is_ascii c then (c - 48)%N else default 0%N (wide_decimal c).

Definition int_of (s : str) : res gen_error Z :=
  let '(sign, ds) := match s with
                     | c :: ds => if (c =? 45)%N then ((-1)%Z, ds) else (1%Z, s)
                     | [] => (1%Z, []) end in
  if 4300 <? length ds then Raise TooManyDigits
  else Ok (sign * Z.of_N (foldl (fun acc c => 10 * acc + decimal_value c)%N 0%N ds))%Z.

(** One match of [define_constant], one of [enum_member]. *)
Definition constant_of (f : found) : res gen_error (option (str * Z)) :=
  if bool_decide (capture 1 f ∈ SKIPPED_DEFINES) then Ok None
  else
    v ← int_of (strip (fun c => (c =? 40)%N || (c =? 41)%N) (capture 2 f));
    Ok (Some (removeprefix #"CRONET_" (capture 1 f), v)).

Definition member_of (f : found) : res gen_error (str * Z) :=
  v ← int_of (capture 2 f); Ok (removeprefix #"CRONET_" (capture 1 f), v).

Definition members_of (f : found) : res gen_error (list (str * Z)) :=
  res_map member_of (re_findall enum_member (capture 1 f)).

(** The fields of a struct's body. *)
Definition field_of (field : str) : res gen_error (str * str) :=
  d ← split_declarator field; Ok (d.2, d.1).

Definition struct_of (f : found) : res gen_error (str * list (str * str)) :=
  let parts := strip is_space <$> split_on 59%N (capture 1 f) in
  fields ← res_map field_of (keep (fun p => bool_decide (p <> [])) parts);
  Ok (capture 2 f, fields).

Definition argument_of (arg : str) : res gen_error str :=
  d ← split_declarator arg; Ok d.1.

Definition function_of (declaration : str) : res gen_error (str * str * list str) :=
  match re_fullmatch prototype declaration with
  | None => Raise (UnreadableExport declaration)
  | Some m =>
      let raw_args := strip is_space (group 3 m) in
      arguments ←
        (if bool_decide (normalize_type raw_args = #"void") then Ok []
         else res_map argument_of (split_on 44%N raw_args));
      Ok (group 2 m, normalize_type (group 1 m), arguments)
  end.

Definition parse (source : str) : res gen_error Abi :=
  let directives := strip_comments source in
  constants ← res_map constant_of (re_findall define_constant directives);
  let text := re_sub directive [] directives in
  let opaque := capture 1 <$> re_findall opaque_struct text in
  enum_members ← res_map members_of (re_findall (braced "enum") text);
  structs ← res_map struct_of (re_findall (braced "struct") text);
  functions ← res_map function_of (capture 1 <$> re_findall exported text);
  let abi := mkAbi (omap id constants) (mjoin enum_members) opaque structs functions in
  match functions with
  | [] => Raise NoFunctions
  | _ => Ok abi
  end.

(** *** Writing *)

Definition find_assoc (k : str) (l : list (str * str)) : option str :=
  snd <$> find_first (fun p => bool_decide (p.1 = k)) l.

Definition ctypes_for (abi : Abi) (c_type : str) : res gen_error str :=
  match find_assoc c_type PRIMITIVES with
  | Some spelling => Ok spelling
  | None =>
      let pointee := strip is_space (removesuffix #" *" c_type) in
      if ends #"*" c_type then
        if bool_decide (pointee ∈ opaque abi) then Ok #"ctypes.c_void_p"
        else if bool_decide (pointee ∈ struct_names abi) then
          Ok (#"ctypes.POINTER(" ++ pascal_case pointee ++ #")")
        else Raise (NoMapping c_type)
      else if bool_decide (c_type ∈ struct_names abi) then Ok (pascal_case c_type)
      else Raise (NoMapping c_type)
  end.

Definition quoted (s : str) : str := [DQUOTE] ++ s ++ [DQUOTE].
Definition triple : str := [DQUOTE; DQUOTE; DQUOTE].

Definition banner : list str :=
  [triple ++ #"The C ABI of libcronet.so, as ctypes declarations.";
   [];
   #"Generated from native/cronet.h by scripts/generate_binding.py.";
   #"Do not edit: change the header and regenerate, or the two descriptions";
   #"of one ABI drift apart and every read lands at the wrong offset.";
   triple;
   [];
   #"import ctypes";
   []].

Definition constant_line (c : str * Z) : str := c.1 ++ #" = " ++ str_of_Z c.2.

Definition field_line (abi : Abi) (field : str * str) : res gen_error str :=
  ty ← ctypes_for abi field.2;
  Ok (#"        (" ++ quoted field.1 ++ #", " ++ ty ++ #"),").

Definition struct_lines (abi : Abi) (s : str * list (str * str)) : res gen_error (list str) :=
  fields ← res_map (field_line abi) s.2;
  Ok ([[]; #"class " ++ pascal_case s.1 ++ #"(ctypes.Structure):";
       #"    " ++ triple ++ #"Mirrors `" ++ s.1 ++ #"`." ++ triple;
       []; #"    _fields_ = ["] ++ fields ++ [ #"    ]"; []]).

Definition bind_lines (abi : Abi) : list str :=
  [[];
   #"def bind(library: ctypes.CDLL) -> None:";
   #"    " ++ triple ++ #"Apply every signature in this ABI to `library`.";
   [];
   #"    ctypes defaults to guessing an int return and unchecked arguments,";
   #"    which on a 64-bit pointer truncates silently. Declaring all "
     ++ str_of_Z (Z.of_nat (length (functions abi)));
   #"    is what makes a wrong call fail loudly at the boundary.";
   #"    " ++ triple].

Definition function_lines (abi : Abi) (f : str * str * list str) : res gen_error (list str) :=
  let '(name, returns, arguments) := f in
  mapped ← res_map (ctypes_for abi) arguments;
  restype ← ctypes_for abi returns;
  Ok [ #"    library." ++ name ++ #".restype = " ++ restype;
      #"    library." ++ name ++ #".argtypes = [" ++ join_with #", " mapped ++ #"]"].

Definition render (abi : Abi) : res gen_error str :=
  classes ← res_map (struct_lines abi) (structs abi);
  binds ← res_map (function_lines abi) (functions abi);
  let lines :=
    banner ++ (constant_line <$> constants abi) ++ [[]]
    ++ (constant_line <$> enum_members abi) ++ [[]]
    ++ mjoin classes ++ bind_lines abi ++ mjoin binds
    ++ [[]; []; #"#: Every function this ABI declares, for checking the library has them.";
        #"FUNCTIONS = ("]
    ++ ((fun f => #"    " ++ quoted f.1.1 ++ #",") <$> functions abi) ++ [ #")"] in
  Ok (join_with [LF] lines ++ [LF]).

(** The program's output is read as text. *)
Definition ruff_format (source filename : str) : res gen_error str :=
  match ruff filename source with
  | Some formatted => Ok (newlines formatted)
  | None => Raise RuffFailed
  end.

(** *** The command *)

Definition read_text (path : str) : st files gen_error str := fun fs =>
  match fs !! path with
  | None => (Raise (FileMissing path), fs)
  | Some b => match decode b with
              | None => (Raise (NotUtf8 path), fs)
              | Some s => (Ok (newlines s), fs)
              end
  end.

(** [write_text] opens, and so empties, the file before it encodes. *)
Definition write_text (path s : str) : st files gen_error unit := fun fs =>
  if bool_decide (Forall scalar s) then (Ok tt, <[path := encode s]> fs)
  else (Raise (NotEncodable path), <[path := []]> fs).

Definition exists_ (path : str) : st files gen_error bool := fun fs =>
  (Ok (bool_decide (is_Some (fs !! path))), fs).

Definition generate (header output : str) : st files gen_error str :=
  source ← read_text header;
  st_lift (abi ← parse source; rendered ← render abi; ruff_format rendered output).

Record arguments := mkArguments { check : bool; header : str; output : str }.

(** What [main] prints. *)
Inductive report :=
| Nothing
| OutOfDate (output header : str)                       (* to stderr *)
| Wrote (output : str) (functions structs constants : nat).

Definition main (a : arguments) : st files gen_error (Z * report) :=
  generated ← generate (header a) (output a);
  if check a then
    there ← exists_ (output a);
    current ← (if (there : bool) then read_text (output a) else mret []);
    mret (if bool_decide (current = generated) then (0%Z, Nothing)
          else (1%Z, OutOfDate (output a) (header a)))
  else
    source ← read_text (header a);
    abi ← st_lift (parse source);
    _ ← write_text (output a) generated;
    mret (0%Z, Wrote (output a) (length (functions abi)) (length (structs abi))
                     (length (constants abi) + length (enum_members abi))).
End generator.

(** ** Comments

    What [strip_comments] leaves, without regular expressions: a block comment
    that is closed becomes a space, and a line ends at "//". *)

(** What follows the first "*/". *)
Fixpoint close_block (s : str) : option str :=
  match s with
  | [] => None
  | x :: s' =>
      if (x =? 42)%N && starts [47%N] s' then Some (drop 1 s') else close_block s'
  end.

Definition block_rest (s : str) : option str :=
  if starts #"/*" s then close_block (drop 2 s) else None.

Definition uncomment_blocks (s : str) : str := replace_from [32%N] block_rest (S (length s)) s.

Fixpoint uncomment_lines (inside : bool) (s : str) : str :=
  match s with
  | [] => []
  | x :: s' =>
      if (x =? LF)%N then LF :: uncomment_lines false s'
      else if inside || (x =? 47)%N && starts [47%N] s' then uncomment_lines true s'
      else x :: uncomment_lines inside s'
  end.

Section comments.
Context (wide_alnum : N -> bool).

Lemma exec_pair {A} (x y : N) (c : cursor) (k : cursor -> option A) :
  exec wide_alnum (Cat (chr x) (chr y)) c k
  = match ahead c with
    | a :: b :: rest => if (x =? a)%N && (y =? b)%N then k (pass b rest (pass a (b :: rest) c)) else None
    | _ => None
    end.
Proof.
  cbn. destruct (ahead c) as [|a [|b rest]]; cbn; [done|by destruct (x =? a)%N|].
  destruct (x =? a)%N; cbn; done.
Qed.

Lemma first_stop_close (f : cursor -> found) (s : str) (c : cursor) :
  s = ahead c -> (forall c', stop (f c') = c') ->
  (fun g => ahead (stop g)) <$>
    first_stop (fun c => exec wide_alnum (Cat (chr 42) (chr 47)) c (fun c' => Some (f c'))) s c
  = close_block s.
Proof.
  intros Hs Hf. revert c Hs. induction s as [|x s IH]; intros c Hs; cbn [first_stop close_block];
    rewrite exec_pair, <- Hs; [done|].
  destruct s as [|y s]; rewrite ?starts_cons, ?starts_nil, ?andb_true_r, ?andb_false_r.
  - by rewrite <- IH with (c := pass x [] c).
  - rewrite (N.eqb_sym 42 x), (N.eqb_sym 47 y).
    destruct ((x =? 42)%N && (y =? 47)%N); [cbn; by rewrite Hf|by apply IH].
Qed.

Lemma starts_pair (x y : N) (s : str) :
  starts [x; y] s = match s with a :: b :: _ => (x =? a)%N && (y =? b)%N | _ => false end.
Proof.
  rewrite starts_cons. destruct s as [|a [|b s]]; rewrite ?starts_cons; [done|by rewrite andb_false_r|].
  by rewrite starts_nil, andb_true_r.
Qed.

Lemma block_comment_rest (c : cursor) :
  (fun f => ahead (stop f)) <$> match_here wide_alnum false block_comment c = block_rest (ahead c).
Proof.
  unfold match_here, block_rest.
  change block_comment with
    (Cat (Cat (chr 47) (chr 42)) (Cat (Rep false any_char) (Cat (chr 42) (chr 47)))).
  rewrite exec_cat, exec_pair. cbn [ahead pos andb]. change #"/*" with [47%N; 42%N].
  rewrite starts_pair. destruct (ahead c) as [|a [|b rest]]; [done..|].
  destruct ((47 =? a)%N && (42 =? b)%N); [|done].
  rewrite exec_cat. unfold any_char. rewrite exec_lazy.
  by apply (first_stop_close (fun c' => mkFound _ c')).
Qed.

Lemma close_block_shorter (s s' : str) : close_block s = Some s' -> length s' < length s.
Proof.
  induction s as [|x s IH]; cbn [close_block]; [discriminate|].
  case_match; intros Hs; [|apply IH in Hs; cbn; lia].
  injection Hs as <-. rewrite length_drop. cbn. lia.
Qed.

Lemma block_rest_shorter (s s' : str) : block_rest s = Some s' -> length s' < length s.
Proof.
  unfold block_rest. case_match; [|discriminate]. intros Hs%close_block_shorter.
  rewrite length_drop in Hs. lia.
Qed.

(** The rest after "//" and the line it starts. *)
Definition line_rest (s : str) : option str :=
  if starts #"//" s then Some (lstrip (fun c => negb (c =? LF)%N) (drop 2 s)) else None.

Lemma line_comment_rest (c : cursor) :
  (fun f => ahead (stop f)) <$> match_here wide_alnum false line_comment c = line_rest (ahead c).
Proof.
  unfold match_here, line_rest.
  change line_comment with (Cat (Cat (chr 47) (chr 47)) (Rep true not_newline)).
  rewrite exec_cat, exec_pair. cbn [ahead pos andb]. change #"//" with [47%N; 47%N].
  rewrite starts_pair. destruct (ahead c) as [|a [|b rest]]; [done..|].
  destruct ((47 =? a)%N && (47 =? b)%N); [|done].
  unfold not_newline. rewrite exec_run by eauto. cbn [fmap option_fmap option_map stop].
  by rewrite run_from_ahead.
Qed.

Lemma lstrip_length {A} (p : A -> bool) (s : list A) : length (lstrip p s) <= length s.
Proof. induction s as [|x s IH]; cbn; [lia|]. destruct (p x); cbn; lia. Qed.

Lemma line_rest_shorter (s s' : str) : line_rest s = Some s' -> length s' < length s.
Proof.
  unfold line_rest. destruct (starts _ s) eqn:E; [|discriminate]. intros [= <-].
  apply starts_true in E as [u ->]. change (#"//" ++ u) with (47%N :: 47%N :: u). cbn [length].
  change (drop 2 _) with u.
  pose proof (lstrip_length (fun c => negb (c =? LF)%N) u) as Hl. lia.
Qed.

Lemma uncomment_lines_inside (s : str) :
  uncomment_lines true s = uncomment_lines false (lstrip (fun c => negb (c =? LF)%N) s).
Proof.
  induction s as [|x s IH]; [done|]. cbn [uncomment_lines lstrip orb].
  destruct (x =? LF)%N eqn:E; cbn [negb]; [|exact IH]. cbn [uncomment_lines]. by rewrite E.
Qed.

Lemma uncomment_lines_ok (n : nat) (s : str) :
  length s < n -> replace_from [] line_rest n s = uncomment_lines false s.
Proof.
  revert s; induction n as [|n IH]; intros s Hn; [lia|]. cbn [replace_from].
  destruct (line_rest s) as [s'|] eqn:E.
  - rewrite app_nil_l, IH by (apply line_rest_shorter in E; lia).
    unfold line_rest in E. destruct (starts _ s) eqn:Hs; [|discriminate]. injection E as <-.
    apply starts_true in Hs as [u ->]. change (#"//" ++ u) with (47%N :: 47%N :: u).
    cbn [uncomment_lines drop]. change ((47 =? LF)%N) with false. cbn [orb].
    rewrite starts_cons, starts_nil. cbn. by rewrite <- uncomment_lines_inside.
  - destruct s as [|x s]; [done|]. cbn in Hn. cbn [uncomment_lines orb].
    rewrite IH by lia. destruct (x =? LF)%N eqn:Hx; [by apply N.eqb_eq in Hx as ->|].
    unfold line_rest in E. change #"//" with [47%N; 47%N] in E.
    rewrite starts_cons, (N.eqb_sym 47 x) in E. by destruct ((x =? 47)%N && _).
Qed.
End comments.

(** Stripping comments is what it says: whatever the text, closed block
    comments become one space each and then every line ends where "//" starts
    in it; an unclosed "/*" stays. *)
Theorem strip_comments_spec (wide_alnum : N -> bool) (source : str) :
  strip_comments wide_alnum source = uncomment_lines false (uncomment_blocks source).
Proof.
  unfold strip_comments, uncomment_blocks.
  rewrite (sub_replace _ _ _ _ (block_comment_rest wide_alnum) block_rest_shorter _ (S (length source)))
    by lia.
  rewrite (sub_replace _ _ _ _ (line_comment_rest wide_alnum) line_rest_shorter _ _ (Nat.lt_succ_diag_r _)).
  apply uncomment_lines_ok. lia.
Qed.

(** ** Types and declarators *)

Definition is_word (w : str) : Prop := w <> [] /\ Forall (fun c => is_space c = false) w.
Abbreviation unwords := (join_with [32%N]).

Lemma reverse_not_nil {A} (l : list A) : l <> [] -> reverse l <> [].
Proof. intros H E. apply H. by rewrite <- (reverse_involutive l), E. Qed.

Lemma words_go_word (acc w s : str) :
  Forall (fun c => is_space c = false) w -> words_go acc (w ++ s) = words_go (reverse w ++ acc) s.
Proof.
  revert acc; induction w as [|c w IH]; intros acc; [done|].
  rewrite Forall_cons. intros [Hc Hw]. cbn [app words_go]. by rewrite Hc, IH, reverse_cons, <- app_assoc.
Qed.

Lemma words_go_end (acc s : str) :
  acc <> [] -> words_go acc (32%N :: s) = reverse acc :: words s.
Proof. by destruct acc. Qed.

Lemma words_blank (s : str) : words (32%N :: s) = words s.
Proof. done. Qed.

Lemma words_cons (w s : str) : is_word w -> words (w ++ 32%N :: s) = w :: words s.
Proof.
  intros [Hne Hw]. unfold words at 1. rewrite words_go_word, app_nil_r by done.
  rewrite words_go_end, reverse_involutive; [done|by apply reverse_not_nil].
Qed.

Lemma words_one (w : str) : is_word w -> words w = [w].
Proof.
  intros [Hne Hw]. unfold words. rewrite <- (app_nil_r w) at 1. rewrite words_go_word, app_nil_r by done.
  cbn. destruct (reverse w) eqn:E; [by apply reverse_not_nil in E|].
  by rewrite <- E, reverse_involutive.
Qed.

Lemma unwords_cons (w v : str) (ws : list str) : unwords (w :: v :: ws) = w ++ 32%N :: unwords (v :: ws).
Proof. done. Qed.

Lemma words_unwords (ws : list str) : Forall is_word ws -> words (unwords ws) = ws.
Proof.
  induction 1 as [|w ws Hw Hws IH]; [done|]. destruct ws as [|v ws].
  - by apply words_one.
  - rewrite unwords_cons, words_cons by done. by rewrite IH.
Qed.

Lemma words_go_are_words (acc s : str) :
  Forall (fun c => is_space c = false) acc -> Forall is_word (words_go acc s).
Proof.
  revert acc; induction s as [|c s IH]; intros acc Ha; cbn [words_go].
  - destruct acc; constructor; [|constructor].
    split; [by apply reverse_not_nil|by apply Forall_reverse].
  - destruct (is_space c) eqn:Hc; [|by apply IH; constructor].
    apply Forall_app. split; [|by apply IH]. destruct acc; constructor; [|constructor].
    split; [by apply reverse_not_nil|by apply Forall_reverse].
Qed.

Lemma words_are_words (s : str) : Forall is_word (words s).
Proof. by apply words_go_are_words. Qed.

(** [re.sub(r"\s+", " ", ...)] *)
Definition blank_rest (s : str) : option str :=
  match s with x :: s' => if is_space x then Some (lstrip is_space s') else None | [] => None end.

Lemma blank_rest_shorter (s s' : str) : blank_rest s = Some s' -> length s' < length s.
Proof.
  destruct s as [|x s]; cbn; [discriminate|]. case_match; [|discriminate]. intros [= <-].
  pose proof (lstrip_length is_space s). lia.
Qed.

Lemma blanks_rest (wide_alnum : N -> bool) (c : cursor) :
  (fun f => ahead (stop f)) <$> match_here wide_alnum false blanks c = blank_rest (ahead c).
Proof.
  unfold match_here, blanks, plus_, sp, space. rewrite exec_cat, exec_class. cbn [ahead pos andb].
  destruct (ahead c) as [|x rest] eqn:Hc; [done|]. cbn [blank_rest]. destruct (is_space x); [|done].
  rewrite exec_run by eauto. cbn [fmap option_fmap option_map stop].
  by rewrite run_from_ahead.
Qed.

Lemma blanks_word (n : nat) (w s : str) :
  Forall (fun c => is_space c = false) w -> length w <= n ->
  replace_from [32%N] blank_rest n (w ++ s) = w ++ replace_from [32%N] blank_rest (n - length w) s.
Proof.
  revert n; induction w as [|c w IH]; intros n Hw Hn; [by rewrite Nat.sub_0_r|].
  apply Forall_cons in Hw as [Hc Hw]. destruct n as [|n]; [cbn in Hn; lia|].
  cbn [app replace_from blank_rest length Nat.sub]. rewrite Hc. rewrite IH; [done..|cbn in Hn; lia].
Qed.

Lemma lstrip_word (w s : str) : is_word w -> lstrip is_space (w ++ s) = w ++ s.
Proof.
  intros [Hne Hw]. destruct w as [|c w]; [done|]. apply Forall_cons in Hw as [Hc _]. cbn. by rewrite Hc.
Qed.

Lemma lstrip_unwords (ws : list str) : Forall is_word ws -> lstrip is_space (unwords ws) = unwords ws.
Proof.
  destruct 1 as [|w [|v ws] Hw Hws]; [done| |].
  - cbn [join_with]. rewrite <- (app_nil_r w). by apply lstrip_word.
  - rewrite unwords_cons. by apply lstrip_word.
Qed.

Lemma blanks_unwords (ws : list str) : Forall is_word ws ->
  forall n, length (unwords ws) < n -> replace_from [32%N] blank_rest n (unwords ws) = unwords ws.
Proof.
  induction 1 as [|w ws Hw Hws IH]; intros n Hn; [by destruct n|].
  destruct ws as [|v ws].
  - cbn [join_with] in *. rewrite <- (app_nil_r w) at 1. rewrite blanks_word; [|apply Hw|lia].
    rewrite <- (app_nil_r w) at 3. f_equal. by destruct (n - length w).
  - rewrite unwords_cons, length_app in *. cbn [length] in Hn.
    rewrite blanks_word; [|apply Hw|lia]. f_equal.
    destruct (n - length w) as [|n'] eqn:E; [lia|]. cbn [replace_from blank_rest].
    change (is_space 32) with true. cbn match. rewrite lstrip_unwords by done.
    cbn [app]. f_equal. apply IH. lia.
Qed.

Lemma unwords_last (ws : list str) :
  Forall is_word ws -> ws <> [] -> exists s c, unwords ws = s ++ [c] /\ is_space c = false.
Proof.
  induction 1 as [|w ws Hw Hws IH]; [done|]. intros _. destruct ws as [|v ws].
  - cbn [join_with]. destruct Hw as [Hne Hw]. revert Hne Hw.
    induction w as [|c w _] using rev_ind; [done|]. intros _ Hw.
    apply Forall_app in Hw as [_ [Hc _]%Forall_cons]. by exists w, c.
  - destruct IH as (s & c & E & Hc); [done|]. exists (w ++ 32%N :: s), c.
    rewrite unwords_cons, E, <- app_assoc. done.
Qed.

Lemma strip_unwords (ws : list str) : Forall is_word ws -> strip is_space (unwords ws) = unwords ws.
Proof.
  intros Hws. unfold strip, rstrip. rewrite lstrip_unwords by done.
  destruct (decide (ws = [])) as [->|Hne]; [done|].
  destruct (unwords_last ws Hws Hne) as (s & c & -> & Hc).
  rewrite reverse_snoc. cbn [lstrip]. by rewrite Hc, reverse_cons, reverse_involutive.
Qed.

Lemma type_words_are_words (s : str) : Forall is_word (type_words s).
Proof.
  apply Forall_forall. intros w [_ Hw]%elem_of_keep.
  pose proof (words_are_words (translate (fun c => if (c =? 42)%N then #" * " else [c]) s)) as H.
  rewrite Forall_forall in H. by apply H.
Qed.

Lemma normalize_type_words (wide_alnum : N -> bool) (s : str) :
  normalize_type wide_alnum s = unwords (type_words s).
Proof.
  unfold normalize_type. pose proof (type_words_are_words s) as Hw.
  rewrite (sub_replace _ _ _ _ (blanks_rest wide_alnum) blank_rest_shorter _ _ (Nat.lt_succ_diag_r _)).
  rewrite blanks_unwords by (try done; lia). by apply strip_unwords.
Qed.

Definition spread (c : N) : str := if (c =? 42)%N then #" * " else [c].
Definition no_star (w : str) : Prop := Forall (fun c => c <> 42%N) w.
Definition type_word (w : str) : Prop := w = #"*" \/ no_star w.

Lemma spread_no_star (w : str) : no_star w -> translate spread w = w.
Proof.
  induction 1 as [|c w Hc Hw IH]; [done|]. unfold translate in *. cbn. rewrite IH.
  unfold spread. by rewrite (proj2 (N.eqb_neq _ _) Hc).
Qed.

Lemma words_go_type_words (s : str) : forall acc,
  no_star acc -> Forall type_word (words_go acc (translate spread s)).
Proof.
  induction s as [|c s IH]; intros acc Ha; unfold translate in *; cbn [mbind list_bind].
  - destruct acc; constructor; [|constructor]. right. by apply Forall_reverse.
  - unfold spread at 1. destruct (c =? 42)%N eqn:Hc.
    + change (#" * " ++ ?r) with (32%N :: 42%N :: 32%N :: r).
      change (words_go acc (32%N :: 42%N :: 32%N :: ?r))
        with (match acc with [] => [] | _ => [reverse acc] end ++ #"*" :: words_go [] r).
      apply Forall_app. split; [|constructor; [by left|apply IH; constructor]].
      destruct acc; constructor; [|constructor]. right. by apply Forall_reverse.
    + cbn [app words_go]. apply N.eqb_neq in Hc. destruct (is_space c).
      * apply Forall_app. split; [|apply IH; constructor].
        destruct acc; constructor; [|constructor]. right. by apply Forall_reverse.
      * apply IH. by constructor.
Qed.

Lemma translate_app {A} (f : A -> list A) (s u : list A) :
  translate f (s ++ u) = translate f s ++ translate f u.
Proof. apply bind_app. Qed.

Lemma words_spread_cons (w s : str) :
  is_word w -> type_word w -> words (translate spread w ++ 32%N :: s) = w :: words s.
Proof. intros Hw [->|Hs]; [done|]. rewrite spread_no_star by done. by apply words_cons. Qed.

Lemma words_spread_unwords (ws : list str) :
  Forall is_word ws -> Forall type_word ws -> words (translate spread (unwords ws)) = ws.
Proof.
  induction 1 as [|w ws Hw Hws IH]; [done|]. intros [Ht Hts]%Forall_cons. destruct ws as [|v ws].
  - cbn [join_with]. destruct Ht as [->|Hs]; [done|]. rewrite spread_no_star by done. by apply words_one.
  - rewrite unwords_cons, translate_app. change (translate spread (32%N :: ?r)) with (32%N :: translate spread r).
    rewrite words_spread_cons by done. by rewrite IH.
Qed.

Lemma type_words_unwords (s : str) : type_words (unwords (type_words s)) = type_words s.
Proof.
  unfold type_words at 1. change (fun c => if (c =? 42)%N then #" * " else [c]) with spread.
  rewrite words_spread_unwords.
  - unfold type_words. rewrite keep_keep. apply keep_ext. intros w _. by destruct (bool_decide _).
  - apply type_words_are_words.
  - apply Forall_forall. intros w [_ Hw]%elem_of_keep.
    pose proof (words_go_type_words s [] (Forall_nil_2 _)) as H. rewrite Forall_forall in H. by apply H.
Qed.

(** A type has one spelling: what [normalize_type] writes has the words of
    what it read (stars apart, no [const]) with one space between them, so two
    spellings normalize alike exactly when their words agree, and normalizing
    twice changes nothing. *)
Theorem normalize_type_canonical (wide_alnum : N -> bool) (s s' : str) :
  words (normalize_type wide_alnum s) = type_words s
  /\ (normalize_type wide_alnum s = normalize_type wide_alnum s' <-> type_words s = type_words s')
  /\ normalize_type wide_alnum (normalize_type wide_alnum s) = normalize_type wide_alnum s.
Proof.
  rewrite !normalize_type_words. split_and!.
  - apply words_unwords, type_words_are_words.
  - split; [|by intros ->]. intros E%(f_equal words).
    by rewrite !words_unwords in E by apply type_words_are_words.
  - by rewrite type_words_unwords.
Qed.

(** A declarator is split at its last word: [split_declarator] gives the
    words before it as the type and that word as the name, and refuses exactly
    the declarations of fewer than two words. *)
Theorem split_declarator_spec (wide_alnum : N -> bool) (declaration : str) :
  (forall ty name, split_declarator wide_alnum declaration = Ok (ty, name) <->
     exists ws, ws <> [] /\ type_words declaration = ws ++ [name] /\ ty = unwords ws)
  /\ (forall e, split_declarator wide_alnum declaration = Raise e <->
       length (type_words declaration) < 2 /\ e = NoName declaration).
Proof.
  unfold split_declarator. rewrite normalize_type_words, words_unwords by apply type_words_are_words.
  destruct (type_words declaration) as [|name ws _] using rev_ind.
  { split; intros; cbn; [|naive_solver lia]. split; [discriminate|].
    intros (ws & _ & E & _). by destruct ws. }
  rewrite length_app, last_snoc. cbn [length]. rewrite Nat.add_sub, take_app_length.
  destruct (Nat.ltb_spec (length ws + 1) 2) as [Hl|Hl].
  - assert (ws = []) as -> by (by destruct ws; [|cbn in Hl; lia]).
    split; [|naive_solver lia]. intros ty n. split; [discriminate|].
    intros (ws & Hne & E & _). cbn in E. destruct ws as [|? [|]]; simplify_list_eq.
  - split; [|naive_solver lia]. intros ty n. cbn [default]. split.
    + intros [= <- <-]. exists ws. split; [|done]. intros ->. cbn in Hl. lia.
    + intros (ws' & Hne & [-> E]%app_inj_tail & ->). by rewrite E.
Qed.

(** ** Rendering *)

Definition error_of {A} (r : res gen_error A) : option gen_error :=
  match r with Ok _ => None | Raise e => Some e end.

Lemma omap_cons {A B} (f : A -> option B) (x : A) (l : list A) :
  omap f (x :: l) = match f x with Some y => y :: omap f l | None => omap f l end.
Proof. done. Qed.

Lemma error_of_map {A B} (f : A -> res gen_error B) (g : A -> option gen_error) (l : list A) :
  (forall x, error_of (f x) = g x) -> error_of (res_map f l) = head (omap g l).
Proof.
  intros Hg. induction l as [|x l IH]; [done|]. rewrite omap_cons, <- Hg. cbn [res_map].
  destruct (f x) as [y|e]; cbn; [|done]. rewrite <- IH. by destruct (res_map f l).
Qed.

Lemma error_of_bind {A B} (m : res gen_error A) (f : A -> B) :
  error_of (x ← m; Ok (f x)) = error_of m.
Proof. by destruct m. Qed.

Lemma error_of_seq {A B} (m : res gen_error A) (k : A -> res gen_error B) (e : option gen_error) :
  (forall a, m = Ok a -> error_of (k a) = e) ->
  error_of (x ← m; k x) = match error_of m with Some x => Some x | None => e end.
Proof. destruct m; cbn; auto. Qed.

Definition option_or {A} (a b : option A) : option A := match a with Some _ => a | None => b end.

Lemma head_app {A} (l k : list A) : head (l ++ k) = option_or (head l) (head k).
Proof. by destruct l. Qed.

Lemma omap_bind {A B C} (f : B -> option C) (g : A -> list B) (l : list A) :
  omap f (l ≫= g) = l ≫= (fun x => omap f (g x)).
Proof. induction l as [|x l IH]; [done|]. cbn. by rewrite omap_app, IH. Qed.

Lemma head_omap_bind {A B} (g : A -> list B) (l : list A) :
  head (omap (fun x => head (g x)) l) = head (l ≫= g).
Proof. induction l as [|x l IH]; [done|]. cbn. rewrite head_app, <- IH. by destruct (g x). Qed.

(** The types a rendering has to spell, in the order it does. *)
Definition types_used (abi : Abi) : list str :=
  (structs abi ≫= fun s => s.2.*2) ++ (functions abi ≫= fun f => f.2 ++ [f.1.2]).

Section rendering.
Context (wide_title : str -> str) (abi : Abi).

Lemma ctypes_for_error (c_type : str) (e : gen_error) :
  ctypes_for wide_title abi c_type = Raise e -> e = NoMapping c_type.
Proof. unfold ctypes_for. intros H. repeat case_match; simplify_eq; done. Qed.

Definition type_error (c_type : str) : option gen_error := error_of (ctypes_for wide_title abi c_type).

Lemma struct_lines_error (s : str * list (str * str)) :
  error_of (struct_lines wide_title abi s) = head (omap type_error s.2.*2).
Proof.
  unfold struct_lines. rewrite error_of_bind, (error_of_map _ (fun f => type_error f.2)).
  - induction s.2 as [|f fs IH]; [done|]. cbn. by destruct (type_error f.2).
  - intros f. apply error_of_bind.
Qed.

Lemma function_lines_error (f : str * str * list str) :
  error_of (function_lines wide_title abi f) = head (omap type_error (f.2 ++ [f.1.2])).
Proof.
  destruct f as [[name returns] args]. unfold function_lines. cbn [fst snd].
  rewrite omap_app, head_app. erewrite error_of_seq; [|intros a _; apply error_of_bind].
  rewrite (error_of_map _ type_error) by done.
  rewrite omap_cons. change (error_of (ctypes_for wide_title abi returns)) with (type_error returns).
  by destruct (type_error returns), (head (omap type_error args)).
Qed.

(** Rendering refuses exactly what it cannot spell: it fails with the first
    type, in the order the module is written, that has no ctypes mapping, and
    otherwise produces the module. *)
Theorem render_error :
  error_of (render wide_title abi)
  = NoMapping <$> find_first (fun c => negb (is_ok (ctypes_for wide_title abi c))) (types_used abi).
Proof.
  transitivity (head (omap type_error (types_used abi))).
  - unfold render, types_used. rewrite omap_app, head_app, !omap_bind.
    erewrite error_of_seq; [|intros a _; apply error_of_bind].
    rewrite (error_of_map _ _ _ struct_lines_error), (error_of_map _ _ _ function_lines_error).
    rewrite !head_omap_bind. unfold option_or. by case_match.
  - induction (types_used abi) as [|c l IH]; [done|]. cbn. unfold type_error at 1.
    destruct (ctypes_for wide_title abi c) as [s|e] eqn:E; cbn; [exact IH|].
    by apply ctypes_for_error in E as ->.
Qed.
End rendering.

(** ** Exported functions *)

Section reading.
Context (wide_alnum : N -> bool) (wide_decimal : N -> option N).

Definition exported_declarations (source : str) : list str :=
  capture 1 <$> findall wide_alnum exported
    (sub wide_alnum directive [] (strip_comments wide_alnum source)).

Definition argument_typed (arg c_type : str) : Prop :=
  exists ws name, ws <> [] /\ type_words arg = ws ++ [name] /\ c_type = unwords ws.

(** What a declaration has to be for a function to be declared from it. *)
Definition declares (declaration : str) (f : str * str * list str) : Prop :=
  exists m, matches wide_alnum (prototype wide_alnum) (at_start declaration) m /\ ahead m = []
  /\ f.1.1 = group 2 m
  /\ f.1.2 = unwords (type_words (group 1 m))
  /\ let raw_args := strip is_space (group 3 m) in
     if bool_decide (type_words raw_args = [ #"void"]) then f.2 = []
     else Forall2 argument_typed (split_on 44%N raw_args) f.2.

Lemma argument_of_ok (arg c_type : str) :
  argument_of wide_alnum arg = Ok c_type <-> argument_typed arg c_type.
Proof.
  unfold argument_of, argument_typed. rewrite res_bind_ok. split.
  - intros ([ty name] & H & [= <-]). apply split_declarator_spec in H as (ws & ? & ? & ?). eauto.
  - intros (ws & name & ? & ? & ->). exists (unwords ws, name). split; [|done].
    apply split_declarator_spec. eauto.
Qed.

Lemma is_void (s : str) :
  normalize_type wide_alnum s = #"void" <-> type_words s = [ #"void"].
Proof.
  rewrite normalize_type_words. split; [|by intros ->].
  intros E%(f_equal words). by rewrite words_unwords in E by apply type_words_are_words.
Qed.

Lemma function_of_declares (d : str) (f : str * str * list str) :
  function_of wide_alnum d = Ok f -> declares d f.
Proof.
  unfold function_of. destruct (fullmatch _ _ _) as [m|] eqn:Hm; [|discriminate].
  rewrite res_bind_ok. intros (args & Hargs & [= <-]).
  assert (matches wide_alnum (prototype wide_alnum) (at_start d) m /\ ahead m = []) as [H1 H2].
  { unfold fullmatch in Hm. apply exec_sound in Hm as (c & H & Hc).
    destruct (ahead c) eqn:E; [|discriminate]. injection Hc as <-. done. }
  exists m. split_and!; [done..|by rewrite normalize_type_words|]. cbn zeta beta iota delta [snd fst].
  rewrite (bool_decide_ext _ _ (is_void _)) in Hargs. case_bool_decide; [by injection Hargs|].
  apply res_map_ok in Hargs. eapply Forall2_impl; [exact Hargs|].
  intros arg ty. apply argument_of_ok.
Qed.

(** The binding is never partial: when a header is accepted, its exported
    declarations and the functions declared correspond one to one and in order
    (there is at least one), each declaration taken whole by the pattern, the
    function's name, return type and argument types those written there; a
    declaration no match takes whole is refused. *)
Theorem parse_exports (source : str) (abi : Abi) :
  parse wide_alnum wide_decimal source = Ok abi ->
  functions abi <> [] /\ Forall2 declares (exported_declarations source) (functions abi).
Proof.
  unfold parse, exported_declarations. cbv zeta. rewrite res_bind_ok. intros (cs & _ & H).
  rewrite res_bind_ok in H. destruct H as (ms & _ & H).
  rewrite res_bind_ok in H. destruct H as (ss & _ & H).
  rewrite res_bind_ok in H. destruct H as (fs & Hfs & H).
  destruct fs as [|f fs]; [discriminate|]. injection H as <-. split; [done|].
  apply res_map_ok in Hfs. eapply Forall2_impl; [exact Hfs|]. apply function_of_declares.
Qed.
End reading.

(** ** The command *)

Section command.
Context (wide_alnum : N -> bool) (wide_decimal : N -> option N) (wide_title : str -> str).
Context (ruff : str -> str -> option str).
Abbreviation run_main := (main wide_alnum wide_decimal wide_title ruff).
Abbreviation generated := (generate wide_alnum wide_decimal wide_title ruff).

Lemma newlines_no_cr (s : str) : CR ∉ newlines s.
Proof.
  assert (forall n s, length s < n -> CR ∉ newlines s) as H.
  { clear s. induction n as [|n IH]; intros s Hn; [lia|].
    destruct s as [|c s]; [apply not_elem_of_nil|]. cbn [newlines]. cbn in Hn.
    destruct (c =? CR)%N eqn:Hc; rewrite not_elem_of_cons; (split; [|]).
    - done.
    - destruct s as [|d s]; [apply not_elem_of_nil|]. cbn in Hn.
      case_match; apply IH; cbn; lia.
    - apply N.eqb_neq in Hc. congruence.
    - apply IH. lia. }
  by apply (H (S (length s))); lia.
Qed.

Lemma newlines_id (s : str) : CR ∉ s -> newlines s = s.
Proof.
  induction s as [|c s IH]; [done|]. rewrite not_elem_of_cons. intros [Hc Hs].
  cbn [newlines]. rewrite (proj2 (N.eqb_neq _ _)) by congruence. by rewrite IH.
Qed.

Lemma read_text_state (path : str) (fs : files) : (read_text path fs).2 = fs.
Proof. unfold read_text. repeat case_match; done. Qed.

Lemma generate_state (h o : str) (fs : files) : (generated h o fs).2 = fs.
Proof.
  unfold generate, mbind, st_bind, st_lift. pose proof (read_text_state h fs).
  destruct (read_text h fs) as [[s|e] fs']; done.
Qed.

(** What is generated depends on the header alone. *)
Lemma generate_header (h o : str) (fs fs' : files) :
  fs !! h = fs' !! h -> (generated h o fs).1 = (generated h o fs').1.
Proof.
  intros E. unfold generate, mbind, st_bind, st_lift, read_text. rewrite <- E.
  destruct (fs !! h) as [b|]; [|done]. by destruct (decode b).
Qed.

Lemma generate_no_cr (h o g : str) (fs : files) : (generated h o fs).1 = Ok g -> CR ∉ g.
Proof.
  unfold generate, mbind, st_bind, st_lift.
  destruct (read_text h fs) as [[s|e] fs']; cbn [fst]; [|discriminate].
  unfold res_bind. destruct (parse wide_alnum wide_decimal s) as [abi|e]; [|discriminate].
  destruct (render wide_title abi) as [source|e]; [|discriminate].
  unfold ruff_format. case_match; [|discriminate]. intros [= <-]. apply newlines_no_cr.
Qed.

Lemma read_written (path g : str) (fs : files) :
  Forall scalar g -> CR ∉ g -> read_text path (<[path := encode g]> fs) = (Ok g, <[path := encode g]> fs).
Proof.
  intros Hs Hc. unfold read_text. rewrite lookup_insert_eq, decode_encode by done.
  by rewrite newlines_id.
Qed.

(** The text of the binding, an absent one being empty. *)
Definition current_text (fs : files) (path : str) : res gen_error str :=
  match fs !! path with None => Ok [] | Some _ => (read_text path fs).1 end.

Lemma main_check (h o : str) (fs : files) :
  run_main (mkArguments true h o) fs
  = (text ← (generated h o fs).1; current ← current_text fs o;
     Ok (if bool_decide (current = text) then (0%Z, Nothing) else (1%Z, OutOfDate o h)), fs).
Proof.
  unfold main. cbn [check header output]. unfold mbind at 1, st_bind at 1.
  pose proof (generate_state h o fs) as Hg.
  destruct (generated h o fs) as [[g|e] fs']; cbn in Hg; subst fs'; [|done].
  cbn [fst]. unfold exists_, current_text, mbind, st_bind, mret, st_ret, res_bind.
  unfold read_text. destruct (fs !! o) as [b|] eqn:Eo; cbn; rewrite ?Eo; [|done].
  by destruct (decode b).
Qed.

(** --check compares and changes nothing: whatever the files are, none is
    touched, and the exit code is 0 exactly when the binding holds what the
    header generates (an absent one counting as empty), 1 when it does not. *)
Theorem check_compares (h o : str) (fs : files) :
  run_main (mkArguments true h o) fs
  = (text ← (generated h o fs).1; current ← current_text fs o;
     Ok (if bool_decide (current = text) then (0%Z, Nothing) else (1%Z, OutOfDate o h)), fs).
Proof. apply main_check. Qed.

(** Writing, then checking, finds the binding up to date, and a header that
    is refused never touches it.  Without --check, when the output is not the
    header: success leaves every other file alone, puts the generated text in
    the output, and a later --check exits 0; a failure leaves every file alone,
    unless the formatter produced what UTF-8 cannot write. *)
Theorem write_then_check (h o : str) (fs fs' : files) (r : res gen_error (Z * report)) :
  h <> o -> run_main (mkArguments false h o) fs = (r, fs') ->
  match r with
  | Ok (code, _) =>
      code = 0%Z
      /\ (exists g, (generated h o fs).1 = Ok g /\ fs' = <[o := encode g]> fs)
      /\ run_main (mkArguments true h o) fs' = (Ok (0%Z, Nothing), fs')
  | Raise e => fs' = fs \/ e = NotEncodable o
  end.
Proof.
  intros Hho. unfold main at 1. cbn [check header output]. unfold mbind at 1, st_bind at 1.
  pose proof (generate_state h o fs) as Hg.
  destruct (generated h o fs) as [[g|e] fs0] eqn:Eg; cbn in Hg; subst fs0;
    [|intros [= <- <-]; by left].
  unfold mbind, st_bind, st_lift. pose proof (read_text_state h fs) as Hr.
  destruct (read_text h fs) as [[s|e] fs0]; cbn in Hr; subst fs0; [|intros [= <- <-]; by left].
  destruct (parse wide_alnum wide_decimal s) as [abi|e]; [|intros [= <- <-]; by left].
  unfold write_text. case_bool_decide as Hs; cbn; intros [= <- <-]; [|by right].
  split_and!; [done|by exists g|].
  assert (CR ∉ g) as Hcr by (apply (generate_no_cr h o g fs); by rewrite Eg).
  etrans; [apply main_check|]. rewrite (generate_header h o _ fs) by (by rewrite lookup_insert_ne).
  unfold current_text. rewrite lookup_insert_eq, read_written, Eg by done.
  cbn. by rewrite bool_decide_eq_true_2.
Qed.
End command.

(** ** Concrete headers *)

Definition ascii_only : N -> bool := fun _ => false.
Definition no_decimal : N -> option N := fun _ => None.
Definition same_title : str -> str := fun s => s.
Definition identity_ruff : str -> str -> option str := fun _ s => Some s.

Definition small_header : str :=
  #"#define CRONET_ABI_VERSION 3" ++ [LF] ++
  #"typedef struct cronet_call cronet_call; /* opaque */" ++ [LF] ++
  #"CRONET_EXPORT int32_t cronet_wait(cronet_call* call, int32_t ms); // wait" ++ [LF].

Abbreviation small_abi :=
  (mkAbi [(#"ABI_VERSION", 3%Z)] [] [ #"cronet_call"] []
         [(#"cronet_wait", #"int32_t", [ #"cronet_call *"; #"int32_t"])]).

Lemma parse_exports_witness :
  parse ascii_only no_decimal small_header = Ok small_abi /\
  functions small_abi <> [] /\
  Forall2 (declares ascii_only) (exported_declarations ascii_only small_header) (functions small_abi).
Proof.
  assert (parse ascii_only no_decimal small_header = Ok small_abi) as H by (vm_compute; reflexivity).
  split; [exact H|]. exact (parse_exports ascii_only no_decimal small_header small_abi H).
Defined.

Lemma write_then_check_witness :
  let fs := {[ #"cronet.h" := encode small_header ]} in
  exists code rep fs',
    main ascii_only no_decimal same_title identity_ruff (mkArguments false #"cronet.h" #"_abi.py") fs
      = (Ok (code, rep), fs')
    /\ main ascii_only no_decimal same_title identity_ruff (mkArguments true #"cronet.h" #"_abi.py") fs'
      = (Ok (0%Z, Nothing), fs').
Proof.
  intros fs.
  destruct (main ascii_only no_decimal same_title identity_ruff
              (mkArguments false #"cronet.h" #"_abi.py") fs) as [r fs'] eqn:E.
  assert (#"cronet.h" <> #"_abi.py") as Hne by (intros Heq; vm_compute in Heq; discriminate).
  pose proof (write_then_check ascii_only no_decimal same_title identity_ruff
                #"cronet.h" #"_abi.py" fs fs' r Hne E) as H.
  destruct r as [[code rep]|e].
  - exists code, rep, fs'. split; [reflexivity|]. apply H.
  - exfalso. vm_compute in E. discriminate.
Defined.

(** *** Where a header is misread in silence

    "Anything in the header this does not understand is an error, never a
    silent omission", says the script. *)

Definition export_line : str := #"CRONET_EXPORT void cronet_f(void);".

(** A hexadecimal constant is read as its first digit. *)
Lemma hex_constant_truncated :
  constants <$> parse ascii_only no_decimal (#"#define CRONET_FLAG 0x10" ++ [LF] ++ export_line)
  = Ok [(#"FLAG", 0%Z)].
Proof. vm_compute. reflexivity. Qed.

(** An enum's member without a value is left out. *)
Lemma unvalued_member_dropped :
  enum_members <$> parse ascii_only no_decimal
    (#"typedef enum { CRONET_A = 0, CRONET_B } cronet_mode;" ++ [LF] ++ export_line)
  = Ok [(#"A", 0%Z)].
Proof. vm_compute. reflexivity. Qed.

(** The star of a parameter without a name is taken for its name, so a pointer
    to a structure is bound as the structure by value. *)
Lemma unnamed_pointer_by_value :
  (abi ← parse ascii_only no_decimal
     (#"typedef struct { int32_t x; } cronet_box;" ++ [LF] ++
      #"CRONET_EXPORT void cronet_f(cronet_box*);");
   res_map (ctypes_for same_title abi) (mjoin (snd <$> functions abi)))
  = Ok [ #"CronetBox"].
Proof. vm_compute. reflexivity. Qed.

(** A structure used before the one it names is declared is accepted, though
    the module then refers to a class it has not defined. *)
Lemma forward_reference_accepted :
  is_ok (abi ← parse ascii_only no_decimal
           (#"typedef struct { cronet_b x; } cronet_a;" ++ [LF] ++
            #"typedef struct { int32_t y; } cronet_b;" ++ [LF] ++ export_line);
         render same_title abi) = true.
Proof. vm_compute. reflexivity. Qed.
