(* ===== verification/Header.v ===== *)
(** * Header: native/cronet.h, and the binding the package ships.

    [cronet_h] is the header, line by line.  [read_module] reads a generated
    module back, as Python would run it: a class can be named once it is
    defined, a field is a name and a type.  The theorem runs the generator of
    Generator on the header and finds in its output the constants, structures
    and signatures of Abi, that is of _abi.py. *)

From S2P Require Import Prelude PyText Regex Generator.
From S2P Require Abi.

Definition header_lines : list str :=
  [
   #"// C ABI for a standalone build of Cronet, Chromium's network stack." ;
   #"//" ;
   #"// Every function here is safe to call from any thread, and any number of calls" ;
   #"// may be in flight on one engine at once. The only thread-local state is the" ;
   #"// cronet_last_error() buffer; the library takes no process-wide locks on the" ;
   #"// request path, and never calls back into the caller: completion is signalled" ;
   #"// by making a file descriptor readable, so an event loop can wait on it" ;
   #"// without a callback thread." ;
   #"//" ;
   #"// Ownership is deliberately flat. An engine outlives the calls made on it; a" ;
   #"// call owns its own response. Two functions free everything the library" ;
   #"// allocates: cronet_call_free() and cronet_engine_destroy()." ;
   [] ;
   #"#ifndef CRONET_H_" ;
   #"#define CRONET_H_" ;
   [] ;
   #"#include <stddef.h>" ;
   #"#include <stdint.h>" ;
   [] ;
   #"#ifdef __cplusplus" ;
   #"extern " ++ [DQUOTE] ++ #"C" ++ [DQUOTE] ++ #" {" ;
   #"#endif" ;
   [] ;
   #"#define CRONET_EXPORT __attribute__((visibility(" ++ [DQUOTE] ++ #"default" ++ [DQUOTE] ++ #")))" ;
   [] ;
   #"// Bumped whenever a struct in this header changes shape or a function changes" ;
   #"// meaning. A caller built against a different value is reading these structs at" ;
   #"// the wrong offsets, which corrupts silently rather than failing " ++ [8212%N] ++ #" so check it" ;
   #"// before the first call." ;
   #"#define CRONET_ABI_VERSION 3" ;
   [] ;
   #"CRONET_EXPORT int32_t cronet_abi_version(void);" ;
   [] ;
   #"// The Chromium version this library was built from, e.g. " ++ [DQUOTE] ++ #"150.0.7871.100" ++ [DQUOTE] ++ #"." ;
   #"CRONET_EXPORT const char* cronet_version(void);" ;
   [] ;
   #"// A header name/value pair. Request headers are sent in the order given." ;
   #"typedef struct {" ;
   #"  const char* name;" ;
   #"  const char* value;" ;
   #"} cronet_header;" ;
   [] ;
   #"// Tells the engine a host is known to speak HTTP/3, so the first request to it" ;
   #"// can go out over QUIC instead of spending a round trip on HTTP/2 discovering" ;
   #"// the Alt-Svc header that says so." ;
   #"typedef struct {" ;
   #"  const char* host;" ;
   #"  int32_t port;            // The origin's port, usually 443." ;
   #"  int32_t alternate_port;  // Where QUIC listens, usually the same." ;
   #"} cronet_quic_hint;" ;
   [] ;
   #"// ---------------------------------------------------------------------------" ;
   #"// Engine" ;
   #"// ---------------------------------------------------------------------------" ;
   [] ;
   #"typedef struct cronet_engine cronet_engine;" ;
   [] ;
   #"// Where a response body may be served from." ;
   #"typedef enum {" ;
   #"  CRONET_CACHE_DISABLED = 0," ;
   #"  CRONET_CACHE_IN_MEMORY = 1," ;
   #"  CRONET_CACHE_ON_DISK = 2," ;
   #"} cronet_cache_mode;" ;
   [] ;
   #"typedef struct {" ;
   #"  // Sent as User-Agent when a request does not set the header itself. Empty" ;
   #"  // means Chromium's own default." ;
   #"  const char* user_agent;" ;
   #"  // Sent as Accept-Language when a request does not set the header itself." ;
   #"  const char* accept_language;" ;
   #"  // Cronet experimental options, as a JSON object. Empty means " ++ [DQUOTE] ++ #"{}" ++ [DQUOTE] ++ #"." ;
   #"  const char* experimental_options;" ;
   #"  // Required by CRONET_CACHE_ON_DISK, ignored otherwise." ;
   #"  const char* storage_path;" ;
   [] ;
   #"  // Chromium proxy rules: " ++ [DQUOTE] ++ #"socks5://127.0.0.1:1080" ++ [DQUOTE] ++ #", " ++ [DQUOTE] ++ #"http://user-visible:8080" ++ [DQUOTE] ++ #"," ;
   #"  // or per-scheme " ++ [DQUOTE] ++ #"http=http://a:8080;https=socks5://b:1080" ++ [DQUOTE] ++ #". Empty means the" ;
   #"  // system proxy settings. Schemes: http, https, socks4, socks5, direct." ;
   #"  const char* proxy_rules;" ;
   #"  // Hosts that bypass the proxy, e.g. " ++ [DQUOTE] ++ #"localhost;*.internal;10.0.0.0/8" ++ [DQUOTE] ++ #"." ;
   #"  const char* proxy_bypass_rules;" ;
   #"  // Credentials for an http/https proxy, offered pre-emptively as Basic auth." ;
   #"  // Chromium's SOCKS client does not authenticate, so these do not apply to a" ;
   #"  // socks4 or socks5 proxy." ;
   #"  const char* proxy_username;" ;
   #"  const char* proxy_password;" ;
   [] ;
   #"  // Hosts already known to speak HTTP/3. Borrowed only for the duration of" ;
   #"  // cronet_engine_create." ;
   #"  const cronet_quic_hint* quic_hints;" ;
   #"  size_t quic_hint_count;" ;
   [] ;
   #"  int32_t enable_quic;   // HTTP/3. Non-zero to allow." ;
   #"  int32_t enable_http2;  // Non-zero to allow." ;
   #"  int32_t enable_brotli;" ;
   #"  int32_t cache_mode;       // A cronet_cache_mode." ;
   #"  int64_t cache_max_bytes;  // 0 lets Chromium choose." ;
   #"} cronet_engine_config;" ;
   [] ;
   #"// Fills `config` with the library defaults. Call this before setting fields, so" ;
   #"// that a config stays valid as the struct grows." ;
   #"CRONET_EXPORT void cronet_engine_config_init(cronet_engine_config* config);" ;
   [] ;
   #"// Creates an engine, or returns NULL and leaves the reason in" ;
   #"// cronet_last_error(). An engine owns one network thread and the connection" ;
   #"// pools, DNS cache and TLS session state shared by its calls." ;
   #"CRONET_EXPORT cronet_engine* cronet_engine_create(" ;
   #"    const cronet_engine_config* config);" ;
   [] ;
   #"// Why the last call on *this thread* failed, or " ++ [DQUOTE] ++ [DQUOTE] ++ #" if none has. Owned by the" ;
   #"// library and valid until the next failing call on the same thread." ;
   #"CRONET_EXPORT const char* cronet_last_error(void);" ;
   [] ;
   #"// Cancels every call still in flight, waits for them to finish unwinding, then" ;
   #"// tears the engine down. Safe to call with calls outstanding; those calls stay" ;
   #"// valid and must still be freed with cronet_call_free()." ;
   #"CRONET_EXPORT void cronet_engine_destroy(cronet_engine* engine);" ;
   [] ;
   #"// Writes a NetLog JSON trace to `path` until cronet_engine_stop_net_log()." ;
   #"// Returns non-zero on success. `log_all` includes socket bytes and cookies." ;
   #"CRONET_EXPORT int32_t cronet_engine_start_net_log(cronet_engine* engine," ;
   #"                                                  const char* path," ;
   #"                                                  int32_t log_all);" ;
   #"CRONET_EXPORT void cronet_engine_stop_net_log(cronet_engine* engine);" ;
   [] ;
   #"// ---------------------------------------------------------------------------" ;
   #"// Calls" ;
   #"// ---------------------------------------------------------------------------" ;
   [] ;
   #"typedef struct cronet_call cronet_call;" ;
   [] ;
   #"// Request priority, lowest to highest; CRONET_PRIORITY_MEDIUM is Chromium's" ;
   #"// default for a main-frame fetch." ;
   #"typedef enum {" ;
   #"  CRONET_PRIORITY_THROTTLED = 0," ;
   #"  CRONET_PRIORITY_IDLE = 1," ;
   #"  CRONET_PRIORITY_LOWEST = 2," ;
   #"  CRONET_PRIORITY_LOW = 3," ;
   #"  CRONET_PRIORITY_MEDIUM = 4," ;
   #"  CRONET_PRIORITY_HIGHEST = 5," ;
   #"} cronet_priority;" ;
   [] ;
   #"typedef struct {" ;
   #"  const char* method;  // Empty means " ++ [DQUOTE] ++ #"GET" ++ [DQUOTE] ++ #"." ;
   #"  const char* url;" ;
   #"  // Sent in this order, as one block. Chromium puts Host and Connection ahead" ;
   #"  // of the block and appends the rest of its own headers after it. Setting a" ;
   #"  // header here replaces Chromium's value in the position Chromium gave it," ;
   #"  // rather than adding a second copy." ;
   #"  const cronet_header* headers;" ;
   #"  size_t header_count;" ;
   #"  const uint8_t* body;  // Borrowed only for the duration of cronet_call_start." ;
   #"  size_t body_size;" ;
   #"  int32_t priority;  // A cronet_priority." ;
   #"  // How many redirects to follow. Negative for Chromium's default of 20. Zero" ;
   #"  // returns the first redirect itself, unfollowed, as a successful response." ;
   #"  // Running past a non-zero limit fails with CRONET_ERROR_TOO_MANY_REDIRECTS." ;
   #"  int32_t max_redirects;" ;
   #"  int32_t disable_cache;  // Non-zero to skip the engine's cache for this call." ;
   #"} cronet_request;" ;
   [] ;
   #"// Fills `request` with the library defaults, as cronet_engine_config_init does." ;
   #"CRONET_EXPORT void cronet_request_init(cronet_request* request);" ;
   [] ;
   #"// Timings, in *microseconds* since the Unix epoch " ++ [8212%N] ++ #" Cronet's own metrics are" ;
   #"// microseconds despite its comments saying otherwise, and the resolution is" ;
   #"// worth keeping. CRONET_NO_TIME when the phase did not happen, as a reused" ;
   #"// socket has no dns_start." ;
   #"#define CRONET_NO_TIME (-1)" ;
   [] ;
   #"typedef struct {" ;
   #"  int64_t request_start_us;" ;
   #"  int64_t dns_start_us;" ;
   #"  int64_t dns_end_us;" ;
   #"  int64_t connect_start_us;" ;
   #"  int64_t connect_end_us;" ;
   #"  int64_t ssl_start_us;" ;
   #"  int64_t ssl_end_us;" ;
   #"  int64_t send_start_us;" ;
   #"  int64_t send_end_us;" ;
   #"  int64_t response_start_us;" ;
   #"  int64_t request_end_us;" ;
   #"  int64_t sent_bytes;" ;
   #"  int64_t received_bytes;" ;
   #"  int32_t socket_reused;" ;
   #"} cronet_metrics;" ;
   [] ;
   #"typedef struct {" ;
   #"  int32_t status_code;  // 0 when the call failed before a response arrived." ;
   #"  const char* status_text;" ;
   #"  const cronet_header* headers;  // In the order the server sent them." ;
   #"  size_t header_count;" ;
   #"  // " ++ [DQUOTE] ++ #"http/1.1" ++ [DQUOTE] ++ #", " ++ [DQUOTE] ++ #"h2" ++ [DQUOTE] ++ #" or " ++ [DQUOTE] ++ #"h3" ++ [DQUOTE] ++ #" once ALPN has run. " ++ [DQUOTE] ++ #"unknown" ++ [DQUOTE] ++ #" when it has not, as" ;
   #"  // on any plaintext HTTP connection." ;
   #"  const char* negotiated_protocol;" ;
   #"  // Host and port of the proxy, without a scheme, as Chromium reports it." ;
   #"  // " ++ [DQUOTE] ++ #":0" ++ [DQUOTE] ++ #" when the connection went direct." ;
   #"  const char* proxy_server;" ;
   #"  const char* final_url;            // The last URL, after any redirects." ;
   #"  int32_t redirect_count;" ;
   #"  int32_t was_cached;" ;
   #"  // 0 when the call succeeded. Otherwise a Chromium net error (negative), or" ;
   #"  // CRONET_ERROR_TOO_MANY_REDIRECTS. A call has no deadline of its own, so" ;
   #"  // CRONET_ERROR_TIMED_OUT never appears here " ++ [8212%N] ++ #" it is defined for callers that" ;
   #"  // impose one with cronet_call_wait() and need a code to report it under." ;
   #"  int32_t error_code;" ;
   #"  const char* error_message;" ;
   #"  cronet_metrics metrics;" ;
   #"} cronet_response;" ;
   [] ;
   #"// Errors this library sets itself. The first two reuse the Chromium code of" ;
   #"// the same meaning. The redirect one is this library's own number because the" ;
   #"// limit is this library's own too: the observer in call.cc stops the chain and" ;
   #"// reports it, so net::ERR_TOO_MANY_REDIRECTS never reaches a caller from here." ;
   #"// -31 also sits outside the ranges a caller tests to sort connection (-100 to" ;
   #"// -199) from certificate (-200 to -299) failures, so it cannot be read as one." ;
   #"#define CRONET_ERROR_ABORTED (-3)              // net::ERR_ABORTED" ;
   #"#define CRONET_ERROR_TIMED_OUT (-7)            // net::ERR_TIMED_OUT" ;
   #"#define CRONET_ERROR_TOO_MANY_REDIRECTS (-31)  // This library's own." ;
   [] ;
   #"// Starts a call and returns immediately. Returns NULL only when `request` is" ;
   #"// malformed (no URL, or a URL Chromium cannot parse); every other failure," ;
   #"// including a connection that never opens, arrives as a response with a" ;
   #"// non-zero error_code." ;
   #"//" ;
   #"// Nothing in `request` is retained: the strings and body may be freed as soon" ;
   #"// as this returns." ;
   #"CRONET_EXPORT cronet_call* cronet_call_start(cronet_engine* engine," ;
   #"                                             const cronet_request* request);" ;
   [] ;
   #"// How far a call has got. A call only ever moves forward through these." ;
   #"typedef enum {" ;
   #"  CRONET_CALL_STARTED = 0,  // Nothing has arrived yet." ;
   #"  CRONET_CALL_HEADERS = 1,  // cronet_call_response() is readable; body may be" ;
   #"                            // arriving." ;
   #"  CRONET_CALL_DONE = 2,     // Finished, successfully or not. The body is" ;
   #"                            // complete once cronet_call_read() reports" ;
   #"                            // CRONET_EOF, which may be before this." ;
   #"} cronet_call_state;" ;
   [] ;
   #"CRONET_EXPORT int32_t cronet_call_state_of(const cronet_call* call);" ;
   [] ;
   #"// A file descriptor that becomes readable when the call makes progress: the" ;
   #"// headers arrive, body bytes become available, or the call finishes. Owned by" ;
   #"// the call; do not close it." ;
   #"//" ;
   #"// It is an eventfd counter, so a wakeup is never lost. Drain it with a single" ;
   #"// 8-byte read *before* reading the body, then read until cronet_call_read()" ;
   #"// returns 0; anything that arrives in between leaves the descriptor readable" ;
   #"// and the next wait returns at once." ;
   #"CRONET_EXPORT int cronet_call_fd(const cronet_call* call);" ;
   [] ;
   #"// Blocks until the call finishes or `timeout_ms` elapses; negative waits" ;
   #"// forever, 0 polls. Returns non-zero once the call has finished. Waits on the" ;
   #"// call's own event, so it neither consumes nor is disturbed by" ;
   #"// cronet_call_fd()." ;
   #"CRONET_EXPORT int32_t cronet_call_wait(cronet_call* call, int32_t timeout_ms);" ;
   [] ;
   #"// The status line, headers and metadata, or NULL until the headers have" ;
   #"// arrived. Carries no body: the body is streamed with cronet_call_read()." ;
   #"// Owned by the call and valid until cronet_call_free()." ;
   #"CRONET_EXPORT const cronet_response* cronet_call_response(cronet_call* call);" ;
   [] ;
   #"// Returned by cronet_call_read() once the whole body has been handed over." ;
   #"#define CRONET_EOF (-1)" ;
   [] ;
   #"// Copies at most `capacity` bytes of the response body into `buffer`." ;
   #"//" ;
   #"// Returns the number of bytes copied; 0 when none are buffered right now," ;
   #"// which is not the end " ++ [8212%N] ++ #" wait on cronet_call_fd() and read again; or" ;
   #"// CRONET_EOF once the body is complete." ;
   #"//" ;
   #"// This is the only way to read a body, and it is what applies backpressure:" ;
   #"// the library buffers a bounded amount and stops reading from the network" ;
   #"// until this drains it, so a consumer that reads slowly slows the transfer" ;
   #"// down instead of growing memory without limit. A caller that wants the whole" ;
   #"// body simply reads in a loop until CRONET_EOF." ;
   #"CRONET_EXPORT int64_t cronet_call_read(cronet_call* call," ;
   #"                                       uint8_t* buffer," ;
   #"                                       size_t capacity);" ;
   [] ;
   #"// Asks for the call to stop. It finishes with CRONET_ERROR_ABORTED unless it" ;
   #"// had already completed. Returns without waiting." ;
   #"CRONET_EXPORT void cronet_call_cancel(cronet_call* call);" ;
   [] ;
   #"// Cancels the call if it is still running, waits for the network thread to let" ;
   #"// go of it, and frees it along with its response. Every call from" ;
   #"// cronet_call_start() must be passed here exactly once." ;
   #"CRONET_EXPORT void cronet_call_free(cronet_call* call);" ;
   [] ;
   #"#ifdef __cplusplus" ;
   #"}  // extern " ++ [DQUOTE] ++ #"C" ++ [DQUOTE] ;
   #"#endif" ;
   [] ;
   #"#endif  // CRONET_H_"
  ].

Definition cronet_h : str := join_with [LF] header_lines ++ [LF].

(** ** Reading a generated module *)

Record pymodule := mkModule {
  m_constants : list (str * Z);
  m_classes : list (str * Abi.ctype);
  m_bind : list Abi.signature;
  m_functions : list str;
}.

(** The module so far, the class being read and the [restype] last set. *)
Record reading := mkReading {
  so_far : pymodule;
  in_class : option (str * list (str * Abi.ctype));
  last_restype : option (str * option Abi.ctype);
}.

Definition cut (p : string) (s : str) : option str :=
  if starts (lit p) s then Some (drop (length (lit p)) s) else None.
Definition cut_end (p : string) (s : str) : option str :=
  if ends (lit p) s then Some (take (length s - length (lit p)) s) else None.

Definition ctypes_names : list (str * Abi.ctype) :=
  [(#"ctypes.c_int", Abi.c_int); (#"ctypes.c_int32", Abi.c_int32); (#"ctypes.c_int64", Abi.c_int64);
   (#"ctypes.c_size_t", Abi.c_size_t); (#"ctypes.c_ubyte", Abi.c_ubyte);
   (#"ctypes.c_char_p", Abi.c_char_p); (#"ctypes.c_void_p", Abi.c_void_p)].

Definition find_type (k : str) (l : list (str * Abi.ctype)) : option Abi.ctype :=
  snd <$> find_first (fun p => bool_decide (p.1 = k)) l.

(** A type's spelling, in a module that has defined [classes]. *)
Definition eval_type (classes : list (str * Abi.ctype)) (s : str) : option Abi.ctype :=
  match cut "ctypes.POINTER(" s with
  | Some s => inner ← cut_end ")" s; Abi.POINTER <$> find_type inner (ctypes_names ++ classes)
  | None => find_type s (ctypes_names ++ classes)
  end.

Definition eval_restype (classes : list (str * Abi.ctype)) (s : str) : option (option Abi.ctype) :=
  if bool_decide (s = #"None") then Some None else Some <$> eval_type classes s.

Definition eval_types (classes : list (str * Abi.ctype)) (s : str) : option (list Abi.ctype) :=
  match s with [] => Some [] | _ => mapM (eval_type classes) (strip is_space <$> split_on 44%N s) end.

Definition read_constant (m : pymodule) (line : str) : option pymodule :=
  match partition 61%N line with
  | (name, true, value) =>
      match int_of (fun _ => None) (strip is_space value) with
      | Ok v => Some (mkModule (m_constants m ++ [(strip is_space name, v)])
                               (m_classes m) (m_bind m) (m_functions m))
      | Raise _ => None
      end
  | _ => Some m
  end.

Definition read_signature (r : reading) (s : str) : option reading :=
  let m := so_far r in
  let '(name, _, rest) := partition 46%N s in
  match cut "restype = " rest, cut "argtypes = [" rest with
  | Some t, _ => ty ← eval_restype (m_classes m) t; Some (mkReading m None (Some (name, ty)))
  | None, Some ts =>
      inner ← cut_end "]" ts; tys ← eval_types (m_classes m) inner;
      '(name', ty) ← last_restype r;
      if bool_decide (name = name') then
        Some (mkReading (mkModule (m_constants m) (m_classes m)
                           (m_bind m ++ [Abi.mkSig name ty tys]) (m_functions m)) None None)
      else None
  | None, None => None
  end.

Definition read_line (r : reading) (line : str) : option reading :=
  let m := so_far r in
  match in_class r with
  | Some (name, fields) =>
      match cut "        (" line with
      | Some field =>
          inner ← cut_end ")," field;
          let '(_, _, rest) := partition DQUOTE inner in
          let '(fname, _, rest) := partition DQUOTE rest in
          ty ← cut ", " rest ≫= eval_type (m_classes m);
          Some (mkReading m (Some (name, fields ++ [(fname, ty)])) None)
      | None =>
          if bool_decide (line = #"    ]") then
            Some (mkReading (mkModule (m_constants m) (m_classes m ++ [(name, Abi.Structure fields)])
                               (m_bind m) (m_functions m)) None None)
          else Some r
      end
  | None =>
      match cut "class " line, cut "    library." line with
      | Some c, _ => name ← cut_end "(ctypes.Structure):" c; Some (mkReading m (Some (name, [])) None)
      | None, Some s => read_signature r s
      | None, None =>
          match line with
          | c :: _ =>
              if is_ascii_upper c && negb (bool_decide (line = #"FUNCTIONS = (")) && has 61%N line then
                m ← read_constant m line; Some (mkReading m None None)
              else
                match cut "    " line with
                | Some (q :: rest) =>
                    if (q =? DQUOTE)%N && negb (starts [DQUOTE] rest) then
                      name ← cut_end "," rest;
                      Some (mkReading (mkModule (m_constants m) (m_classes m) (m_bind m)
                              (m_functions m ++ [fst (fst (partition DQUOTE name))])) None None)
                    else Some r
                | _ => Some r
                end
          | [] => Some r
          end
      end
  end.

Definition read_lines (lines : list str) : option reading :=
  foldl (fun r line => r ≫= fun r => read_line r line)
    (Some (mkReading (mkModule [] [] [] []) None None)) lines.

Definition read_module (source : str) : option pymodule :=
  so_far <$> read_lines (split_on LF source).

(** ** The module of Abi *)

Definition abi_constants : list (str * Z) :=
  [(#"ABI_VERSION", Abi.ABI_VERSION); (#"NO_TIME", Abi.NO_TIME);
   (#"ERROR_ABORTED", Abi.ERROR_ABORTED); (#"ERROR_TIMED_OUT", Abi.ERROR_TIMED_OUT);
   (#"ERROR_TOO_MANY_REDIRECTS", Abi.ERROR_TOO_MANY_REDIRECTS); (#"EOF", Abi.EOF);
   (#"CACHE_DISABLED", Abi.CACHE_DISABLED); (#"CACHE_IN_MEMORY", Abi.CACHE_IN_MEMORY);
   (#"CACHE_ON_DISK", Abi.CACHE_ON_DISK);
   (#"PRIORITY_THROTTLED", Abi.PRIORITY_THROTTLED); (#"PRIORITY_IDLE", Abi.PRIORITY_IDLE);
   (#"PRIORITY_LOWEST", Abi.PRIORITY_LOWEST); (#"PRIORITY_LOW", Abi.PRIORITY_LOW);
   (#"PRIORITY_MEDIUM", Abi.PRIORITY_MEDIUM); (#"PRIORITY_HIGHEST", Abi.PRIORITY_HIGHEST);
   (#"CALL_STARTED", Abi.CALL_STARTED); (#"CALL_HEADERS", Abi.CALL_HEADERS);
   (#"CALL_DONE", Abi.CALL_DONE)].

Definition abi_classes : list (str * Abi.ctype) :=
  [(#"CronetHeader", Abi.CronetHeader); (#"CronetQuicHint", Abi.CronetQuicHint);
   (#"CronetEngineConfig", Abi.CronetEngineConfig); (#"CronetRequest", Abi.CronetRequest);
   (#"CronetMetrics", Abi.CronetMetrics); (#"CronetResponse", Abi.CronetResponse)].

Definition abi_module : pymodule := mkModule abi_constants abi_classes Abi.bind Abi.FUNCTIONS.

(** The binding the package ships is the header's: generated from the text
    of native/cronet.h, whatever Unicode says beyond ASCII, the module's source
    exists and, read back, declares exactly the constants, the structures (each
    field's name and type, in order) and the signatures of _abi.py. *)
Theorem binding_is_generated (wide_alnum : N -> bool) (wide_decimal : N -> option N)
    (wide_title : str -> str) :
  exists source,
    (abi ← parse wide_alnum wide_decimal cronet_h; render wide_title abi) = Ok source
    /\ read_module source = Some abi_module.
Proof. eexists. split; [vm_compute; reflexivity|]. vm_compute. reflexivity. Qed.
