(* ===== verification/Json.v ===== *)
(** * Json: the JSON encoder the package calls (_json.py).

    [dumps] is the standard library's [json.dumps] with its default settings,
    with a float standing for its own spelling.  When msgspec is
    installed its encoder is used instead; that one is a parameter. *)

From S2P Require Import Prelude PyText.

Unset Elimination Schemes.
Inductive json :=
| JNull
| JBool (b : bool)
| JInt (n : Z)
| JFloat (spelling : str)             (* a float, by the text [dumps] gives it *)
| JStr (s : str)
| JList (l : list json)
| JObject (members : list (str * json)).
Set Elimination Schemes.

Definition hex4 (n : N) : str :=
  let d k := let v := ((n / k) mod 16)%N in if (v <? 10)%N then (48 + v)%N else (87 + v)%N in
  [d 4096; d 256; d 16; d 1]%N.

Definition BACKSLASH : N := 92.

Definition u_escape (n : N) : str := [BACKSLASH; 117%N] ++ hex4 n.

(** [py_encode_basestring_ascii], one code point at a time. *)
Definition escape_cp (c : N) : str :=
  if (c =? DQUOTE)%N || (c =? BACKSLASH)%N then [BACKSLASH; c]
  else if (32 <=? c)%N && (c <=? 126)%N then [c]
  else if (c =? 10)%N then [BACKSLASH; 110%N]
  else if (c =? 13)%N then [BACKSLASH; 114%N]
  else if (c =? 9)%N then [BACKSLASH; 116%N]
  else if (c =? 12)%N then [BACKSLASH; 102%N]
  else if (c =? 8)%N then [BACKSLASH; 98%N]
  else if (c <? 65536)%N then u_escape c
  else u_escape (55296 + (c - 65536) / 1024) ++ u_escape (56320 + (c - 65536) mod 1024).

Definition dump_str (s : str) : str := [DQUOTE] ++ (s ≫= escape_cp) ++ [DQUOTE].

Fixpoint dumps (v : json) : str :=
  match v with
  | JNull => #"null"
  | JBool true => #"true"
  | JBool false => #"false"
  | JInt n => str_of_Z n
  | JFloat spelling => spelling
  | JStr s => dump_str s
  | JList l => #"[" ++ join_with (#", ") (dumps <$> l) ++ #"]"
  | JObject ms =>
      #"{" ++ join_with (#", ") ((fun '(k, x) => dump_str k ++ #": " ++ dumps x) <$> ms)
      ++ #"}"
  end.

(** [_json.encode(value)]; [msgspec] is the accelerated encoder when it is
    installed ([ACCELERATED]). *)
Definition json_encode (msgspec : option (json -> bytes)) (v : json) : bytes :=
  match msgspec with
  | Some encode => encode v
  | None => encode (dumps v)
  end.

Example dumps_ex :
  dumps (JObject [(#"a", JList [JInt 1; JInt (-2)]); (#"b", JBool false); ([233%N], JNull)])
  = #"{" ++ [DQUOTE] ++ #"a" ++ [DQUOTE] ++ #": [1, -2], " ++ [DQUOTE] ++ #"b" ++ [DQUOTE]
    ++ #": false, " ++ [DQUOTE] ++ [BACKSLASH] ++ #"u00e9" ++ [DQUOTE] ++ #": null}".
Proof. vm_compute. reflexivity. Qed.
