(* ===== verification/JsonDecode.v ===== *)
(** * JsonDecode: reading JSON (_json.py, [decode]).

    [loads] is the standard library's [json.loads] on bytes: the encoding is
    guessed from the first octets, and the text parsed as the C scanner does.
    Every error is a ValueError, here [None].  Parameters: msgspec's decoder
    when it is installed, the UTF-16 and UTF-32 codecs, and the spelling Python
    gives the float a number stands for.  Recursion limits are not modelled. *)

From S2P Require Import Prelude PyText Dict Json.
From Stdlib Require Import DecimalString DecimalN.

(** ** Encodings *)

Inductive json_encoding := Utf8 | Utf8Sig | Utf16 | Utf16BE | Utf16LE | Utf32 | Utf32BE | Utf32LE.

Definition zero_octet (b : ascii) : bool := (oct b =? 0)%N.

(** [json.detect_encoding(b)] *)
Definition detect_encoding (b : bytes) : json_encoding :=
  let bom l := starts (octet <$> l) b in
  if bom [0; 0; 254; 255]%N || bom [255; 254; 0; 0]%N then Utf32
  else if bom [254; 255]%N || bom [255; 254]%N then Utf16
  else if bom [239; 187; 191]%N then Utf8Sig
  else
    match b with
    | b0 :: b1 :: b2 :: b3 :: _ =>
        if zero_octet b0 then (if negb (zero_octet b1) then Utf16BE else Utf32BE)
        else if zero_octet b1 then (if negb (zero_octet b2) || negb (zero_octet b3) then Utf16LE else Utf32LE)
        else Utf8
    | [b0; b1] =>
        if zero_octet b0 then Utf16BE else if zero_octet b1 then Utf16LE else Utf8
    | _ => Utf8
    end.

(** ** The scanner *)

Definition json_space (c : N) : bool := has c [32; 9; 10; 13]%N.
Definition skip_space : str -> str := lstrip json_space.

Definition hex_digit (c : N) : option N :=
  if in_range 48 57 c then Some (c - 48)%N
  else if in_range 97 102 c then Some (c - 87)%N
  else if in_range 65 70 c then Some (c - 55)%N
  else None.

Definition hex_quad (a b c d : N) : option N :=
  a ← hex_digit a; b ← hex_digit b; c ← hex_digit c; d ← hex_digit d;
  Some (((a * 16 + b) * 16 + c) * 16 + d)%N.

Definition is_high (u : N) : bool := in_range 55296 56319 u.
Definition is_low (u : N) : bool := in_range 56320 57343 u.
Definition join_surrogates (u v : N) : N := (65536 + (u - 55296) * 1024 + (v - 56320))%N.

(** What a backslash and one letter stand for. *)
Definition simple_escape (e : N) : option N :=
  if (e =? DQUOTE)%N || (e =? BACKSLASH)%N || (e =? 47)%N then Some e
  else if (e =? 98)%N then Some 8%N
  else if (e =? 102)%N then Some 12%N
  else if (e =? 110)%N then Some 10%N
  else if (e =? 114)%N then Some 13%N
  else if (e =? 116)%N then Some 9%N
  else None.

Definition put (c : N) (r : option (str * str)) : option (str * str) :=
  match r with Some (s, rest) => Some (c :: s, rest) | None => None end.

(** [scanstring]: the string after its opening quote, and what follows it. *)
Fixpoint scan_string (s : str) : option (str * str) :=
  match s with
  | [] => None
  | c :: s =>
      if (c =? DQUOTE)%N then Some ([], s)
      else if (c <? 32)%N then None
      else if negb (c =? BACKSLASH)%N then put c (scan_string s)
      else
        match s with
        | [] => None
        | e :: s =>
            if (e =? 117)%N then
              match s with
              | h1 :: h2 :: h3 :: h4 :: s =>
                  match hex_quad h1 h2 h3 h4 with
                  | None => None
                  | Some u =>
                      let alone := put u (scan_string s) in
                      match s with
                      | b :: e' :: k1 :: k2 :: k3 :: k4 :: s' =>
                          if is_high u && (b =? BACKSLASH)%N && (e' =? 117)%N then
                            match hex_quad k1 k2 k3 k4 with
                            | None => None
                            | Some v => if is_low v then put (join_surrogates u v) (scan_string s') else alone
                            end
                          else alone
                      | _ => alone
                      end
                  end
              | _ => None
              end
            else
              match simple_escape e with
              | Some c => put c (scan_string s)
              | None => None
              end
        end
  end.

(** The longest run of digits, and what follows. *)
Fixpoint digits_run (s : str) : str * str :=
  match s with
  | c :: s' => if is_ascii_digit c then let '(d, r) := digits_run s' in (c :: d, r) else ([], s)
  | [] => ([], [])
  end.

(** The fraction and the exponent of a number: what is there of them. *)
Definition fraction (s : str) : str * str :=
  match s with
  | c :: s' =>
      if (c =? 46)%N then match digits_run s' with ([], _) => ([], s) | (d, r) => (c :: d, r) end
      else ([], s)
  | [] => ([], [])
  end.

Definition exponent (s : str) : str * str :=
  match s with
  | e :: s' =>
      if has e [101; 69]%N then
        let '(sign, s'') := match s' with
                            | c :: r => if has c [43; 45]%N then ([c], r) else ([], s')
                            | [] => ([], [])
                            end in
        match digits_run s'' with ([], _) => ([], s) | (d, r) => (e :: sign ++ d, r) end
      else ([], s)
  | [] => ([], [])
  end.

(** The digits of the integer part: "0", or a run that does not start with it. *)
Definition integer_part (s : str) : option (str * str) :=
  match s with
  | c :: s' =>
      if (c =? 48)%N then Some ([c], s')
      else if is_ascii_digit c then Some (digits_run s)
      else None
  | [] => None
  end.

Definition literal (p : string) (v : json) (s : str) : option (json * str) :=
  if starts (lit p) s then Some (v, drop (length (lit p)) s) else None.

Definition first_of {A} (a b : option A) : option A := match a with Some _ => a | None => b end.

Section scanner.
(** [float(text)], as [dumps] spells it. *)
Context (float_spelling : str -> str).

(** [int(text)] refuses more than 4300 digits. *)
Definition match_number (s : str) : option (json * str) :=
  let '(sign, s1) := match s with
                     | c :: r => if (c =? 45)%N then ([c], r) else ([], s)
                     | [] => ([], []) end in
  '(i, s2) ← integer_part s1;
  let '(f, s3) := fraction s2 in
  let '(e, s4) := exponent s3 in
  match f, e with
  | [], [] =>
      if 4300 <? length i then None
      else let n := Z.of_N (digits_value 0 i) in
           Some (JInt (match sign with [] => n | _ => - n end)%Z, s4)
  | _, _ => Some (JFloat (float_spelling (sign ++ i ++ f ++ e)), s4)
  end.

(** A value that neither nests nor starts with a quote. *)
Definition scan_atom (s : str) : option (json * str) :=
  first_of (literal "null" JNull s)
 (first_of (literal "true" (JBool true) s)
 (first_of (literal "false" (JBool false) s)
 (first_of (literal "NaN" (JFloat (#"NaN")) s)
 (first_of (literal "Infinity" (JFloat (#"Infinity")) s)
 (first_of (literal "-Infinity" (JFloat (#"-Infinity")) s)
           (match_number s)))))).

(** [scan_once], and the loops of arrays and objects past their first token;
    each level of nesting and each element takes one round. *)
Fixpoint scan (n : nat) (s : str) {struct n} : option (json * str) :=
  match n with
  | O => None
  | S n =>
      match s with
      | [] => None
      | c :: r =>
          if (c =? DQUOTE)%N then '(x, r) ← scan_string r; Some (JStr x, r)
          else if (c =? 91)%N then
            match skip_space r with
            | [] => None
            | d :: r' => if (d =? 93)%N then Some (JList [], r') else elements n [] (d :: r')
            end
          else if (c =? 123)%N then
            match skip_space r with
            | [] => None
            | d :: r' => if (d =? 125)%N then Some (JObject [], r') else members n [] (d :: r')
            end
          else scan_atom s
      end
  end
with elements (n : nat) (got : list json) (s : str) {struct n} : option (json * str) :=
  match n with
  | O => None
  | S n =>
      '(v, r) ← scan n s;
      match skip_space r with
      | d :: r =>
          if (d =? 93)%N then Some (JList (got ++ [v]), r)
          else if (d =? 44)%N then elements n (got ++ [v]) (skip_space r)
          else None
      | [] => None
      end
  end
with members (n : nat) (got : list (str * json)) (s : str) {struct n} : option (json * str) :=
  match n with
  | O => None
  | S n =>
      match s with
      | q :: r =>
          if (q =? DQUOTE)%N then
            '(k, r) ← scan_string r;
            match skip_space r with
            | d :: r =>
                if (d =? 58)%N then
                  '(v, r) ← scan n (skip_space r);
                  let got := dict_set got k v in
                  match skip_space r with
                  | d :: r =>
                      if (d =? 125)%N then Some (JObject got, r)
                      else if (d =? 44)%N then members n got (skip_space r)
                      else None
                  | [] => None
                  end
                else None
            | [] => None
            end
          else None
      | [] => None
      end
  end.

(** [json.loads] of a text: one value, and blanks around it. *)
Definition loads_str (s : str) : option json :=
  '(v, r) ← scan (2 * length s + 2) (skip_space s);
  match skip_space r with [] => Some v | _ => None end.

(** The codecs, with the error handler [surrogatepass]. *)
Context (codec : json_encoding -> bytes -> option str).

Definition loads (b : bytes) : option json :=
  s ← codec (detect_encoding b) b; loads_str s.

(** [_json.decode(data)]; [msgspec] is its decoder when it is installed. *)
Definition json_decode (msgspec : option (bytes -> option json)) (data : bytes) : option json :=
  match msgspec with
  | Some decode => decode data
  | None => loads data
  end.
End scanner.

(** ** Strings *)

Definition digit_of (v : N) : N := if (v <? 10)%N then (48 + v)%N else (87 + v)%N.

Lemma hex_digit_of (v : N) : (v < 16)%N -> hex_digit (digit_of v) = Some v.
Proof.
  intros H. unfold hex_digit, digit_of. destruct (N.ltb_spec v 10).
  - rewrite in_range_true by lia. f_equal. lia.
  - rewrite in_range_false by lia. rewrite in_range_true by lia. f_equal. lia.
Qed.

Lemma hex4_quad (u : N) : (u < 65536)%N ->
  exists a b c d, hex4 u = [a; b; c; d] /\ hex_quad a b c d = Some u.
Proof.
  intros H. eexists _, _, _, _. split; [reflexivity|]. cbv zeta.
  assert (forall k, ((u / k) mod 16 < 16)%N) as Hk by (intros k; apply N.mod_lt; lia).
  unfold hex_quad.
  repeat match goal with |- context [if (?v <? 10)%N then (48 + ?v)%N else (87 + ?v)%N] =>
    change (if (v <? 10)%N then (48 + v)%N else (87 + v)%N) with (digit_of v) end.
  rewrite !hex_digit_of by apply Hk. cbn [mbind option_bind]. f_equal.
  rewrite N.div_1_r. 
  pose proof (N.div_mod u 16). pose proof (N.div_mod (u / 16) 16). pose proof (N.div_mod (u / 256) 16).
  assert (u / 16 / 16 = u / 256)%N by (rewrite N.Div0.div_div; done).
  assert (u / 256 / 16 = u / 4096)%N by (rewrite N.Div0.div_div; done).
  assert (u / 4096 < 16)%N by (apply N.Div0.div_lt_upper_bound; lia).
  rewrite (N.mod_small (u / 4096)) by done. lia.
Qed.

Lemma scan_plain (c : N) (t : str) :
  (32 <= c)%N -> c <> DQUOTE -> c <> BACKSLASH -> scan_string (c :: t) = put c (scan_string t).
Proof.
  intros H1 H2 H3. cbn [scan_string].
  by rewrite (proj2 (N.eqb_neq _ _) H2), (proj2 (N.ltb_ge _ _) H1), (proj2 (N.eqb_neq _ _) H3).
Qed.

Lemma scan_simple (e c : N) (t : str) :
  simple_escape e = Some c -> scan_string (BACKSLASH :: e :: t) = put c (scan_string t).
Proof.
  intros H. cbn [scan_string]. change ((BACKSLASH =? DQUOTE)%N) with false.
  change ((BACKSLASH <? 32)%N) with false. change (negb (BACKSLASH =? BACKSLASH)%N) with false. cbn match.
  assert ((e =? 117)%N = false) as ->; [|by rewrite H].
  apply N.eqb_neq. intros ->. discriminate H.
Qed.

(** A [\u] escape of a code point, or of the first half of one. *)
Lemma scan_unicode (u : N) (t : str) : (u < 65536)%N ->
  scan_string (u_escape u ++ t) =
    match t with
    | b :: e' :: k1 :: k2 :: k3 :: k4 :: s' =>
        if is_high u && (b =? BACKSLASH)%N && (e' =? 117)%N then
          match hex_quad k1 k2 k3 k4 with
          | None => None
          | Some v => if is_low v then put (join_surrogates u v) (scan_string s')
                      else put u (scan_string t)
          end
        else put u (scan_string t)
    | _ => put u (scan_string t)
    end.
Proof.
  intros H. destruct (hex4_quad u H) as (a & b & c & d & E & Hq).
  unfold u_escape. rewrite E. cbn [app scan_string].
  change ((BACKSLASH =? DQUOTE)%N) with false. change ((BACKSLASH <? 32)%N) with false.
  change (negb (BACKSLASH =? BACKSLASH)%N) with false. change ((117 =? 117)%N) with true. cbn match.
  rewrite Hq. reflexivity.
Qed.

Lemma scan_escape (c : N) (t : str) : scalar c -> scan_string (escape_cp c ++ t) = put c (scan_string t).
Proof.
  intros Hc. unfold escape_cp.
  destruct ((c =? DQUOTE)%N || (c =? BACKSLASH)%N) eqn:E1.
  { apply scan_simple. unfold simple_escape. by rewrite E1. }
  destruct ((32 <=? c)%N && (c <=? 126)%N) eqn:E2.
  { apply scan_plain; reflect_bools; done. }
  repeat match goal with |- context [(c =? ?k)%N] =>
    destruct (N.eqb_spec c k) as [->|]; [by apply scan_simple|] end.
  destruct (N.ltb_spec c 65536) as [Hlt|Hge].
  - rewrite scan_unicode by done. assert (is_high c = false) as Hh.
    { unfold is_high. apply in_range_false. destruct Hc; lia. }
    destruct t as [|? [|? [|? [|? [|? [|? t]]]]]]; try reflexivity. by rewrite Hh.
  - assert (c < 1114112)%N as Hmax by (destruct Hc; lia).
    assert ((c - 65536) / 1024 < 1024)%N by (apply N.Div0.div_lt_upper_bound; lia).
    pose proof (N.mod_lt (c - 65536) 1024 ltac:(lia)) as Hm.
    pose proof (N.div_mod (c - 65536) 1024 ltac:(lia)) as Hd.
    generalize dependent ((c - 65536) mod 1024)%N. intros r Hm Hd.
    generalize dependent ((c - 65536) / 1024)%N. intros q Hq0 Hd.
    rewrite <- app_assoc, scan_unicode by lia.
    destruct (hex4_quad (56320 + r)) as (k1 & k2 & k3 & k4 & E & Hq); [lia|].
    unfold u_escape. rewrite E. cbn [app].
    assert (is_high (55296 + q) = true) as -> by (apply in_range_true; lia).
    change ((BACKSLASH =? BACKSLASH)%N) with true. change ((117 =? 117)%N) with true. cbn [andb].
    rewrite Hq. assert (is_low (56320 + r) = true) as -> by (apply in_range_true; lia).
    f_equal. unfold join_surrogates. lia.
Qed.

Lemma scan_dump_str (s rest : str) : Forall scalar s ->
  scan_string ((s ≫= escape_cp) ++ DQUOTE :: rest) = Some (s, rest).
Proof.
  induction 1 as [|c s Hc Hs IH]; [done|].
  by rewrite bind_cons, <- app_assoc, scan_escape, IH by done.
Qed.

(** ** Numbers *)

Lemma str_of_Z_neg (p : positive) : str_of_Z (Zneg p) = 45%N :: str_of_Z (Zpos p).
Proof. unfold str_of_Z. cbn [Z.to_int NilZero.string_of_int]. done. Qed.

Lemma digits_run_app (ds rest : str) :
  Forall is_digit_cp ds -> (forall c r, rest = c :: r -> is_ascii_digit c = false) ->
  digits_run (ds ++ rest) = (ds, rest).
Proof.
  intros Hd Hr. induction Hd as [|c ds Hc Hd IH].
  - destruct rest as [|c r]; [done|]. cbn. by rewrite (Hr c r).
  - cbn [app digits_run]. rewrite IH. unfold is_digit_cp in Hc. unfold is_ascii_digit.
    by rewrite (proj2 (N.leb_le _ _)), (proj2 (N.leb_le _ _)) by lia.
Qed.

Lemma nzhead_no_zero (d x : Decimal.uint) : Decimal.nzhead d <> Decimal.D0 x.
Proof. induction d; cbn; congruence. Qed.

(** No numeral but zero's starts with a zero. *)
Lemma numeral_head (p : positive) : exists c ds, str_of_Z (Zpos p) = c :: ds /\ c <> 48%N.
Proof.
  unfold str_of_Z. cbn [Z.to_int NilZero.string_of_int].
  pose proof (Unsigned.of_to (Npos p)) as H1. pose proof (Unsigned.to_of (Pos.to_uint p)) as H2.
  change (N.to_uint (Npos p)) with (Pos.to_uint p) in H1. rewrite H1 in H2.
  change (N.to_uint (Npos p)) with (Pos.to_uint p) in H2.
  destruct (Pos.to_uint p) as [|d|d|d|d|d|d|d|d|d|d]; try (eexists _, _; split; [reflexivity|done]).
  exfalso. unfold Decimal.unorm in H2. cbn [Decimal.nzhead] in H2.
  destruct (Decimal.nzhead d) eqn:En; try discriminate H2.
  - injection H2 as ->. discriminate H1.
  - by apply nzhead_no_zero in En.
Qed.

(** What may follow a number and not be taken for more of it. *)
Definition stops (rest : str) : Prop :=
  match rest with c :: _ => is_ascii_digit c || has c [46; 101; 69]%N = false | [] => True end.

Lemma stops_digit (rest : str) : stops rest -> forall c r, rest = c :: r -> is_ascii_digit c = false.
Proof. intros H c r ->. cbn in H. by apply orb_false_iff in H as [? _]. Qed.

Lemma stops_fraction (rest : str) : stops rest -> fraction rest = ([], rest) /\ exponent rest = ([], rest).
Proof.
  destruct rest as [|c r]; [done|]. cbn [stops]. intros [_ H]%orb_false_iff.
  apply has_false in H. rewrite !not_elem_of_cons in H. destruct H as (H1 & H2 & H3 & _).
  unfold fraction, exponent. rewrite (proj2 (N.eqb_neq _ _) H1).
  assert (has c [101; 69]%N = false) as -> by (apply has_false; set_solver). done.
Qed.

Lemma match_natural (float_spelling : str -> str) (sign : str) (n : N) (rest : str) :
  stops rest -> length (str_of_Z (Z.of_N n)) <= 4300 ->
  exists i s2, integer_part (str_of_Z (Z.of_N n) ++ rest) = Some (i, s2)
    /\ s2 = rest /\ length i <= 4300 /\ digits_value 0 i = n
    /\ exists c t, str_of_Z (Z.of_N n) = c :: t /\ is_ascii_digit c = true.
Proof.
  intros Hs Hl. destruct n as [|p].
  - exists [48%N], rest. split_and!; [done|done|cbn; lia|done|by exists 48%N, []].
  - pose proof (str_of_N_digits (Npos p)) as [Hd _]. pose proof (str_of_N_value (Npos p)) as Hv.
    cbn [Z.of_N] in *. destruct (numeral_head p) as (c & ds & E & Hc). rewrite E in *.
    pose proof (Forall_inv Hd) as Hc'. unfold is_digit_cp in Hc'.
    assert (is_ascii_digit c = true) as Hdig.
    { unfold is_ascii_digit. by rewrite (proj2 (N.leb_le _ _)), (proj2 (N.leb_le _ _)) by lia. }
    exists (c :: ds), rest. cbn [app integer_part]. rewrite (proj2 (N.eqb_neq _ _) Hc), Hdig.
    change (c :: ds ++ rest) with ((c :: ds) ++ rest).
    rewrite (digits_run_app (c :: ds) rest Hd (stops_digit _ Hs)). split_and!; try done. by exists c, ds.
Qed.

(** An integer is read back, and is not one of the words. *)
Lemma scan_integer (float_spelling : str -> str) (z : Z) (rest : str) :
  stops rest -> length (str_of_Z z) <= 4300 ->
  match_number float_spelling (str_of_Z z ++ rest) = Some (JInt z, rest)
  /\ exists c t, str_of_Z z ++ rest = c :: t
      /\ (is_ascii_digit c = true \/ (c = 45%N /\ exists d t', t = d :: t' /\ is_ascii_digit d = true)).
Proof.
  intros Hs Hl. destruct (stops_fraction _ Hs) as [Hf He].
  assert (exists n, z = Z.of_N n \/ (z = (- Z.of_N n)%Z /\ n <> 0%N)) as (n & Hz).
  { destruct z as [|p|p]; [exists 0%N|exists (Npos p)|exists (Npos p)]; [by left|by left|by right]. }
  destruct Hz as [->|[-> Hn]].
  - destruct (match_natural float_spelling [] n rest Hs Hl) as (i & s2 & Hi & -> & Hil & Hv & c & t & E & Hd).
    rewrite E in *. cbn [app] in *. split; [|exists c, (t ++ rest); by split; [|left]].
    unfold match_number. assert ((c =? 45)%N = false) as ->.
    { apply N.eqb_neq. intros ->. discriminate Hd. }
    rewrite Hi. cbn [mbind option_bind]. rewrite Hf, He.
    rewrite (proj2 (Nat.ltb_ge _ _) Hil). by rewrite Hv.
  - destruct n as [|p]; [done|]. change (- Z.of_N (Npos p))%Z with (Zneg p) in *.
    rewrite str_of_Z_neg in *. cbn [length] in Hl.
    destruct (match_natural float_spelling [] (Npos p) rest Hs) as (i & s2 & Hi & -> & Hil & Hv & c & t & E & Hd);
      [cbn [Z.of_N]; lia|]. cbn [Z.of_N] in *. split.
    + cbn [app]. unfold match_number. change ((45 =? 45)%N) with true. cbn match. rewrite Hi.
      cbn [mbind option_bind]. rewrite Hf, He. rewrite (proj2 (Nat.ltb_ge _ _) Hil). by rewrite Hv.
    + exists 45%N, (str_of_Z (Zpos p) ++ rest). split; [done|]. right. split; [done|].
      rewrite E. by exists c, (t ++ rest).
Qed.

(** ** Documents *)

(** The values [dumps] writes and [loads] reads back: text of scalar values,
    integers Python will convert, objects whose names differ. *)
Inductive readable : json -> Prop :=
| r_null : readable JNull
| r_bool b : readable (JBool b)
| r_int n : length (str_of_Z n) <= 4300 -> readable (JInt n)
| r_str s : Forall scalar s -> readable (JStr s)
| r_list l : Forall readable l -> readable (JList l)
| r_object ms :
    NoDup ms.*1 -> Forall (fun m => Forall scalar m.1) ms -> Forall (fun m => readable m.2) ms ->
    readable (JObject ms).

Section json_induction.
Context (P : json -> Prop).
Hypotheses (Hnull : P JNull) (Hbool : forall b, P (JBool b)) (Hint : forall n, P (JInt n))
  (Hfloat : forall f, P (JFloat f)) (Hstr : forall s, P (JStr s))
  (Hlist : forall l, Forall P l -> P (JList l))
  (Hobject : forall ms, Forall (fun m => P m.2) ms -> P (JObject ms)).

Lemma json_nested_ind : forall v, P v.
Proof.
  fix IH 1. intros [|b|n|f|s|l|ms]; [done|apply Hbool|apply Hint|apply Hfloat|apply Hstr| |].
  - apply Hlist. induction l as [|x l IHl]; constructor; [apply IH|exact IHl].
  - apply Hobject. induction ms as [|m ms IHm]; constructor; [apply IH|exact IHm].
Qed.
End json_induction.

(** The rounds [scan] takes to read a value back. *)
Fixpoint rounds (v : json) : nat :=
  match v with
  | JList l => S (sum_list ((fun x => S (rounds x)) <$> l))
  | JObject ms => S (sum_list ((fun m => S (rounds m.2)) <$> ms))
  | _ => 1
  end.

Definition printable (c : N) : Prop := (32 <= c <= 126)%N.

Lemma printable_digit (v : N) : (v < 16)%N -> printable (digit_of v).
Proof. unfold printable, digit_of. intros H. destruct (N.ltb_spec v 10); lia. Qed.

Lemma printable_u_escape (u : N) : Forall printable (u_escape u).
Proof.
  unfold u_escape, hex4. cbv zeta.
  repeat match goal with |- context [if (?v <? 10)%N then (48 + ?v)%N else (87 + ?v)%N] =>
    change (if (v <? 10)%N then (48 + v)%N else (87 + v)%N) with (digit_of v) end.
  cbn [app].
  repeat (apply Forall_cons; split); try (apply printable_digit, N.mod_lt; lia);
    [unfold printable, BACKSLASH, DQUOTE; lia..|constructor].
Qed.

Lemma printable_escape (c : N) : Forall printable (escape_cp c).
Proof.
  assert (forall e, printable e -> Forall printable [BACKSLASH; e]) as Hp.
  { intros e He. repeat constructor; try apply He; unfold printable, BACKSLASH, DQUOTE; lia. }
  unfold escape_cp.
  destruct ((c =? DQUOTE)%N || (c =? BACKSLASH)%N) eqn:E.
  { apply Hp. apply orb_true_iff in E as [->%N.eqb_eq| ->%N.eqb_eq]; unfold printable, BACKSLASH, DQUOTE; lia. }
  destruct ((32 <=? c)%N && (c <=? 126)%N) eqn:E2.
  { repeat constructor; unfold printable; reflect_bools; lia. }
  repeat (case_match; [apply Hp; unfold printable; lia|]).
  case_match; [apply printable_u_escape|]. apply Forall_app. split; apply printable_u_escape.
Qed.

Lemma printable_dump_str (s : str) : Forall printable (dump_str s).
Proof.
  unfold dump_str. apply Forall_app. split; [repeat constructor; unfold printable, BACKSLASH, DQUOTE; lia|].
  apply Forall_app. split; [|repeat constructor; unfold printable, BACKSLASH, DQUOTE; lia].
  induction s as [|c s IH]; [constructor|]. rewrite bind_cons. apply Forall_app.
  split; [apply printable_escape|exact IH].
Qed.

Lemma printable_int (z : Z) : Forall printable (str_of_Z z).
Proof.
  assert (forall n, Forall printable (str_of_Z (Z.of_N n))) as Hn.
  { intros n. eapply Forall_impl; [apply str_of_N_digits|]. unfold is_digit_cp, printable. intros; lia. }
  destruct z as [|p|p]; [apply (Hn 0%N)|apply (Hn (Npos p))|].
  rewrite str_of_Z_neg. constructor; [unfold printable; lia|apply (Hn (Npos p))].
Qed.

Lemma printable_join (sep : str) (parts : list str) :
  Forall printable sep -> Forall (Forall printable) parts -> Forall printable (join_with sep parts).
Proof.
  intros Hs. induction 1 as [|p ps Hp Hps IH]; [constructor|]. destruct ps as [|q ps]; [done|].
  cbn [join_with]. apply Forall_app. split; [done|]. by apply Forall_app.
Qed.

Lemma printable_lit (s : string) : forallb (fun c => (32 <=? c)%N && (c <=? 126)%N) (lit s) = true ->
  Forall printable (lit s).
Proof.
  rewrite forallb_forall. intros H. apply Forall_forall. intros c Hc%list_elem_of_In.
  specialize (H c Hc). unfold printable. reflect_bools. lia.
Qed.

Lemma printable_dumps (v : json) : readable v -> Forall printable (dumps v).
Proof.
  induction v as [|b|n|f|s|l IH|ms IH] using json_nested_ind; intros Hr; inversion Hr; subst; cbn [dumps].
  - by apply printable_lit.
  - destruct b; by apply printable_lit.
  - apply printable_int.
  - apply printable_dump_str.
  - apply Forall_app. split; [by apply printable_lit|]. apply Forall_app. split; [|by apply printable_lit].
    apply printable_join; [by apply printable_lit|]. apply Forall_fmap.
    eapply Forall_impl; [apply Forall_and; split; [exact IH|eassumption]|]. intros x [H1 H2]. by apply H1.
  - apply Forall_app. split; [by apply printable_lit|]. apply Forall_app. split; [|by apply printable_lit].
    apply printable_join; [by apply printable_lit|]. apply Forall_fmap.
    eapply Forall_impl; [apply Forall_and; split; [exact IH|eassumption]|]. intros [k x] [Hx1 Hx2].
    apply Forall_app_2; [apply printable_dump_str|].
    apply Forall_app_2; [by apply printable_lit|by apply Hx1].
Qed.

(** ** Reading a document back *)

Lemma skip_space_ink (c : N) (s : str) : json_space c = false -> skip_space (c :: s) = c :: s.
Proof. intros H. unfold skip_space. cbn [lstrip]. by rewrite H. Qed.

Lemma literal_miss (p : string) (v : json) (x c : N) (q t : str) :
  lit p = x :: q -> x <> c -> literal p v (c :: t) = None.
Proof. intros E H. unfold literal. rewrite E, starts_cons. by rewrite (proj2 (N.eqb_neq _ _) H). Qed.

Lemma literal_hit (p : string) (v : json) (t : str) : literal p v (lit p ++ t) = Some (v, t).
Proof. unfold literal. by rewrite starts_app, drop_app_length. Qed.

(** No value starts with a blank or with a closing bracket. *)
Definition opening (c : N) : Prop := json_space c = false /\ c <> 93%N /\ c <> 125%N.

Lemma opening_digit (c : N) : is_ascii_digit c = true -> opening c.
Proof.
  unfold is_ascii_digit. intros [H1%N.leb_le H2%N.leb_le]%andb_true_iff. split; [|lia].
  unfold json_space. apply has_false. rewrite !not_elem_of_cons. split_and!; try lia. by apply not_elem_of_nil.
Qed.

Section reading.
Context (float_spelling : str -> str).

Lemma scan_atom_integer (z : Z) (rest : str) :
  stops rest -> length (str_of_Z z) <= 4300 ->
  scan_atom float_spelling (str_of_Z z ++ rest) = Some (JInt z, rest)
  /\ exists c t, str_of_Z z ++ rest = c :: t /\ opening c /\ c <> DQUOTE /\ c <> 91%N /\ c <> 123%N.
Proof.
  intros Hs Hl. destruct (scan_integer float_spelling z rest Hs Hl) as (Hm & c & t & E & Hc).
  assert (48 <= c <= 57 \/ c = 45)%N as Hr.
  { destruct Hc as [Hd|[-> _]]; [left|by right]. unfold is_ascii_digit in Hd. reflect_bools. lia. }
  split.
  - unfold scan_atom. rewrite Hm, E.
    rewrite (literal_miss "null" _ 110 c _ t eq_refl), (literal_miss "true" _ 116 c _ t eq_refl),
      (literal_miss "false" _ 102 c _ t eq_refl), (literal_miss "NaN" _ 78 c _ t eq_refl),
      (literal_miss "Infinity" _ 73 c _ t eq_refl) by lia. cbn [first_of].
    destruct Hc as [Hd|[-> (d & t' & -> & Hd)]].
    + rewrite (literal_miss "-Infinity" _ 45 c _ t eq_refl); [done|]. intros <-. discriminate Hd.
    + unfold literal. change (lit "-Infinity") with (45%N :: lit "Infinity").
      change (lit "Infinity") with (73%N :: lit "nfinity"). rewrite !starts_cons.
      assert (73 <> d)%N as Hn by (intros <-; discriminate Hd).
      by rewrite (proj2 (N.eqb_neq _ _) Hn), andb_false_r.
  - exists c, t. split; [done|]. split; [|unfold DQUOTE; lia].
    destruct Hc as [Hd|[-> _]]; [by apply opening_digit|done].
Qed.

Lemma dumps_opening (v : json) : readable v -> exists c t, dumps v = c :: t /\ opening c.
Proof.
  intros Hr. destruct Hr as [|[]|z Hz|s Hs|l Hl|ms H1 H2 H3];
    try (eexists _, _; split; [reflexivity|by split_and!]).
  destruct (scan_atom_integer z [] I Hz) as (_ & c & t & E & Ho & _). rewrite app_nil_r in E. by eauto.
Qed.

Lemma skip_space_dumps (v : json) (rest : str) : readable v -> skip_space (dumps v ++ rest) = dumps v ++ rest.
Proof.
  intros Hr. destruct (dumps_opening v Hr) as (c & t & -> & Ho & _). by apply skip_space_ink.
Qed.

(** [scan] reads back what [dumps] wrote, given the rounds. *)
Definition reads_back (v : json) : Prop := forall n rest,
  rounds v <= n -> stops rest -> scan float_spelling n (dumps v ++ rest) = Some (v, rest).

(** The first text of a joined list is the first value's. *)
Lemma skip_space_join (sep rest : str) (w : json) (l : list json) : readable w ->
  skip_space (32%N :: join_with sep (dumps <$> w :: l) ++ rest) = join_with sep (dumps <$> w :: l) ++ rest.
Proof.
  intros Hw. change (skip_space (join_with sep (dumps <$> w :: l) ++ rest) = join_with sep (dumps <$> w :: l) ++ rest).
  destruct (dumps_opening w Hw) as (c & t & E & Ho & _). rewrite fmap_cons, E.
  by destruct (dumps <$> l); apply skip_space_ink.
Qed.

Lemma elements_back (l : list json) : Forall reads_back l -> Forall readable l -> l <> [] ->
  forall n got rest, sum_list ((fun x => S (rounds x)) <$> l) <= n ->
  elements float_spelling n got (join_with (#", ") (dumps <$> l) ++ 93%N :: rest) = Some (JList (got ++ l), rest).
Proof.
  intros Hb Hr. induction Hr as [|v l Hv Hr IH]; [done|]. intros _ n got rest Hn.
  apply Forall_cons in Hb as [Hvb Hb]. rewrite fmap_cons in Hn. simpl in Hn.
  destruct n as [|n]; [lia|]. cbn [elements]. destruct l as [|w l].
  - cbn [fmap list_fmap join_with]. rewrite (Hvb n) by (done || lia). done.
  - change (join_with (#", ") (dumps <$> v :: w :: l))
      with (dumps v ++ [44; 32]%N ++ join_with (#", ") (dumps <$> w :: l)). rewrite <- !app_assoc. rewrite (Hvb n) by (done || lia).
    cbn [mbind option_bind app]. rewrite skip_space_ink by done. change ((44 =? 93)%N) with false.
    change ((44 =? 44)%N) with true. cbn match.
    rewrite (skip_space_join _ _ w l) by by inversion Hr.
    rewrite (IH Hb ltac:(done) n) by lia. by rewrite <- app_assoc.
Qed.

Definition dump_member (m : str * json) : str := dump_str m.1 ++ #": " ++ dumps m.2.

Lemma scan_dump_str_quoted (s rest : str) : Forall scalar s ->
  exists q, dump_str s ++ rest = DQUOTE :: q /\ scan_string q = Some (s, rest).
Proof.
  intros Hs. exists ((s ≫= escape_cp) ++ DQUOTE :: rest). split; [|by apply scan_dump_str].
  unfold dump_str. by rewrite <- !app_assoc.
Qed.

Lemma skip_space_members (sep rest : str) (m : str * json) (ms : list (str * json)) :
  skip_space (32%N :: join_with sep (dump_member <$> m :: ms) ++ rest) = join_with sep (dump_member <$> m :: ms) ++ rest.
Proof.
  change (skip_space (join_with sep (dump_member <$> m :: ms) ++ rest) = join_with sep (dump_member <$> m :: ms) ++ rest).
  rewrite fmap_cons. by destruct (dump_member <$> ms).
Qed.

Lemma members_back (ms : list (str * json)) :
  Forall (fun m => reads_back m.2) ms -> Forall (fun m => Forall scalar m.1) ms -> Forall (fun m => readable m.2) ms ->
  ms <> [] -> forall n got rest, NoDup (got ++ ms).*1 -> sum_list ((fun m => S (rounds m.2)) <$> ms) <= n ->
  members float_spelling n got (join_with (#", ") (dump_member <$> ms) ++ 125%N :: rest) = Some (JObject (got ++ ms), rest).
Proof.
  intros Hb Hk Hr. induction Hr as [|[k v] ms Hv Hr IH]; [done|]. intros _ n got rest Hd Hn.
  apply Forall_cons in Hb as [Hvb Hb]. apply Forall_cons in Hk as [Hkk Hk].
  rewrite fmap_cons in Hn. simpl in Hn, Hvb, Hkk, Hv. destruct n as [|n]; [lia|].
  assert (k ∉ got.*1) as Hfresh.
  { rewrite fmap_app, NoDup_app in Hd. destruct Hd as (_ & Hd & _). intros Hin. apply (Hd k Hin). by left. }
  assert (forall tail, stops tail -> members float_spelling (S n) got (dump_member (k, v) ++ tail) =
    match skip_space tail with
    | d :: r => if (d =? 125)%N then Some (JObject (got ++ [(k, v)]), r)
                else if (d =? 44)%N then members float_spelling n (got ++ [(k, v)]) (skip_space r)
                else None
    | [] => None
    end) as Hstep.
  { intros tail Ht. unfold dump_member. cbn [fst snd]. rewrite <- !app_assoc.
    destruct (scan_dump_str_quoted k (#": " ++ dumps v ++ tail) Hkk) as (q & -> & Hq).
    cbn [members]. change ((DQUOTE =? DQUOTE)%N) with true. cbn match. rewrite Hq.
    change (lit ": ") with [58; 32]%N. cbn [mbind option_bind app]. rewrite skip_space_ink by done.
    change ((58 =? 58)%N) with true. cbn match.
    change (skip_space (32%N :: dumps v ++ tail)) with (skip_space (dumps v ++ tail)).
    rewrite skip_space_dumps, (Hvb n) by (done || lia). cbn [mbind option_bind]. by rewrite dict_set_fresh. }
  destruct ms as [|m ms].
  - cbn [fmap list_fmap join_with]. by rewrite Hstep.
  - change (join_with (#", ") (dump_member <$> (k, v) :: m :: ms))
      with (dump_member (k, v) ++ [44; 32]%N ++ join_with (#", ") (dump_member <$> m :: ms)).
    rewrite <- !app_assoc. rewrite Hstep by done. cbn [app]. rewrite skip_space_ink by done.
    change ((44 =? 125)%N) with false. change ((44 =? 44)%N) with true. cbn match.
    rewrite (skip_space_members _ _ m ms). rewrite (IH Hb Hk ltac:(done) n), <- app_assoc; [done| |lia].
    by rewrite <- app_assoc.
Qed.

Lemma scan_array (n : nat) (c : N) (t : str) : json_space c = false -> c <> 93%N ->
  scan float_spelling (S n) (91%N :: c :: t) = elements float_spelling n [] (c :: t).
Proof.
  intros H1 H2. cbn [scan]. change ((91 =? DQUOTE)%N) with false. change ((91 =? 91)%N) with true. cbn match.
  rewrite skip_space_ink by done. by rewrite (proj2 (N.eqb_neq _ _) H2).
Qed.

Lemma scan_object (n : nat) (t : str) :
  scan float_spelling (S n) (123%N :: DQUOTE :: t) = members float_spelling n [] (DQUOTE :: t).
Proof. done. Qed.

Lemma scan_dumps (v : json) : readable v -> reads_back v.
Proof.
  induction v as [|b|z|f|s|l IH|ms IH] using json_nested_ind; intros Hr n rest Hn Ht;
    inversion Hr as [|?|? Hz|? Hs|? Hl|? Hd Hk Hl]; subst; (destruct n as [|n]; [cbn in Hn; lia|]).
  - done.
  - by destruct b.
  - destruct (scan_atom_integer z rest Ht Hz) as (Ha & c & t & E & _ & H1 & H2 & H3).
    cbn [dumps]. rewrite E in *. cbn [scan].
    by rewrite (proj2 (N.eqb_neq _ _) H1), (proj2 (N.eqb_neq _ _) H2), (proj2 (N.eqb_neq _ _) H3).
  - cbn [dumps]. destruct (scan_dump_str_quoted s rest Hs) as (q & -> & Hq). cbn [scan].
    change ((DQUOTE =? DQUOTE)%N) with true. cbn match. by rewrite Hq.
  - cbn [dumps]. destruct l as [|v l]; [done|].
    assert (Forall reads_back (v :: l)) as Hb
      by (eapply Forall_impl; [apply Forall_and; split; [exact IH|exact Hl]|]; naive_solver).
    pose proof (elements_back (v :: l) Hb Hl ltac:(done) n [] rest ltac:(simpl in *; lia)) as He.
    destruct (dumps_opening v) as (c & t & E & Ho & Hc & _); [by inversion Hl|].
    rewrite <- app_assoc, <- app_assoc. change ((#"]") ++ rest) with (93%N :: rest). 
    assert (exists t', join_with (#", ") (dumps <$> v :: l) ++ 93%N :: rest = c :: t') as (t' & Ej).
    { rewrite fmap_cons, E. destruct (dumps <$> l); by eexists. }
    rewrite Ej in *. change (#"[" ++ c :: t') with (91%N :: c :: t'). by rewrite scan_array.
  - cbn [dumps]. destruct ms as [|m ms]; [done|].
    assert (Forall (fun m => reads_back m.2) (m :: ms)) as Hb
      by (eapply Forall_impl; [apply Forall_and; split; [exact IH|exact Hl]|]; naive_solver).
    pose proof (members_back (m :: ms) Hb Hk Hl ltac:(done) n [] rest Hd ltac:(simpl in *; lia)) as Hm.
    rewrite (list_fmap_ext _ dump_member (m :: ms)) by by intros ? [??].
    rewrite <- app_assoc, <- app_assoc. change ((#"}") ++ rest) with (125%N :: rest).
    assert (exists t', join_with (#", ") (dump_member <$> m :: ms) ++ 125%N :: rest = DQUOTE :: t') as (t' & Ej).
    { rewrite fmap_cons. destruct (dump_member <$> ms); by eexists. }
    rewrite Ej in *. change (#"{" ++ DQUOTE :: t') with (123%N :: DQUOTE :: t'). by rewrite scan_object.
Qed.
End reading.

(** ** Enough rounds *)

Lemma join_length (sep : str) (ps : list str) : ps <> [] ->
  length (join_with sep ps) + length sep = sum_list ((fun p => length p + length sep) <$> ps).
Proof.
  induction ps as [|p [|q ps] IH]; [done|simpl; lia|]. intros _.
  change (join_with sep (p :: q :: ps)) with (p ++ sep ++ join_with sep (q :: ps)).
  rewrite fmap_cons, !length_app. specialize (IH ltac:(done)).
  change (sum_list (?x :: ?l)) with (x + sum_list l). lia.
Qed.

(** The rounds of the parts of a collection, against the text they are joined into. *)
Lemma rounds_join {A} (r : A -> nat) (text : A -> str) (l : list A) :
  l <> [] -> Forall (fun x => r x <= length (text x)) l ->
  sum_list ((fun x => S (r x)) <$> l) <= length (join_with (#", ") (text <$> l)) + 1.
Proof.
  intros Hne H. pose proof (join_length (#", ") (text <$> l)) as Hj. rewrite <- list_fmap_compose in Hj.
  assert (text <$> l <> []) as Ht by by destruct l. specialize (Hj Ht).
  assert (sum_list ((fun x => S (r x)) <$> l) + length l
    <= sum_list (((fun p : str => length p + length (#", ")) ∘ text) <$> l)) as Hs.
  { clear Hj Ht Hne. induction H as [|x l Hx Hl IH]; [done|].
    rewrite !fmap_cons. change (sum_list (?x :: ?l)) with (x + sum_list l).
    change (length (x :: l)) with (S (length l)). change (length (#", ")) with 2 in *. cbn [compose]. lia. }
  assert (1 <= length l) as Hl by (destruct l; [done|cbn; lia]).
  assert (sum_list ((fun x => S (r x)) <$> l) + length l <= length (join_with (#", ") (text <$> l)) + 2) as Hle
    by (etrans; [exact Hs|apply Nat.eq_le_incl; symmetry; exact Hj]). lia.
Qed.

(** A document has at least as many characters as it takes rounds to read. *)
Lemma rounds_length (v : json) : readable v -> rounds v <= length (dumps v).
Proof.
  induction v as [|b|z|f|s|l IH|ms IH] using json_nested_ind; intros Hr;
    inversion Hr as [|?|? Hz|? Hs|? Hl|? Hd Hk Hl]; subst.
  - cbn. lia.
  - destruct b; cbn; lia.
  - destruct (scan_atom_integer (fun s => s) z [] I Hz) as (_ & c & t & E & _). rewrite app_nil_r in E.
    cbn [dumps rounds]. rewrite E. cbn. lia.
  - cbn. lia.
  - destruct l as [|v l]; [cbn; lia|]. cbn [dumps rounds]. rewrite !length_app.
    assert (Forall (fun x => rounds x <= length (dumps x)) (v :: l)) as Hf
      by (eapply Forall_impl; [apply Forall_and; split; [exact IH|exact Hl]|]; naive_solver).
    apply (rounds_join rounds dumps) in Hf; [|done].
    change (length (#"[")) with 1. change (length (#"]")) with 1. lia.
  - destruct ms as [|m ms]; [cbn; lia|]. cbn [dumps rounds]. rewrite !length_app.
    erewrite (list_fmap_ext _ dump_member (m :: ms)) by by intros ? [??].
    assert (Forall (fun m => rounds m.2 <= length (dump_member m)) (m :: ms)) as Hf.
    { eapply Forall_impl; [apply Forall_and; split; [exact IH|exact Hl]|]. intros [k x] [H1 H2].
      specialize (H1 H2). unfold dump_member. rewrite !length_app. cbn [fst snd] in *. lia. }
    apply (rounds_join (fun m => rounds m.2) dump_member) in Hf; [|done].
    change (length (#"{")) with 1. change (length (#"}")) with 1. lia.
Qed.

Lemma loads_dumps (float_spelling : str -> str) (v : json) :
  readable v -> loads_str float_spelling (dumps v) = Some v.
Proof.
  intros Hr. unfold loads_str. pose proof (skip_space_dumps float_spelling v [] Hr) as Hs.
  pose proof (scan_dumps float_spelling v Hr (2 * length (dumps v) + 2) []) as Hb. rewrite app_nil_r in *.
  pose proof (rounds_length v Hr). by rewrite Hs, Hb by (done || lia).
Qed.

(** ** Enough fuel

    Every step consumes text, so twice the length of it is fuel enough: past
    that, more fuel changes no result, and a refusal is the scanner's own. *)

Lemma put_some (c : N) (o : option (str * str)) (x r : str) :
  put c o = Some (x, r) -> exists y, o = Some (y, r).
Proof. destruct o as [[y q]|]; cbn; [intros [= _ <-]; by exists y|done]. Qed.

Lemma scan_string_shrinks (s x r : str) : scan_string s = Some (x, r) -> length r < length s.
Proof.
  remember (length s) as n eqn:En. revert s En x r.
  induction (lt_wf n) as [n _ IH]. intros s -> x r H.
  assert (forall c t, length t < length s -> put c (scan_string t) = Some (x, r) -> length r < length s) as Hput.
  { intros c t Hl (y & Hy)%put_some. pose proof (IH (length t) Hl t eq_refl y r Hy). lia. }
  clear IH. destruct s as [|c s]; [done|]. cbn [scan_string length] in *.
  repeat (case_match; simplify_eq; try done; try lia); cbn [length] in *;
    try (eapply Hput; [|exact H]; cbn [length]; lia).
Qed.

Lemma digits_run_length (s : str) : length (digits_run s).1 + length (digits_run s).2 = length s.
Proof.
  induction s as [|c s IH]; [done|]. cbn [digits_run]. destruct (is_ascii_digit c); [|done].
  destruct (digits_run s). cbn in *. lia.
Qed.

Lemma integer_part_shrinks (s i r : str) : integer_part s = Some (i, r) -> length r < length s.
Proof.
  destruct s as [|c s]; [done|]. unfold integer_part. case_match; [intros [= _ <-]; cbn; lia|].
  destruct (is_ascii_digit c) eqn:Ec; [|done]. intros [= E]. pose proof (digits_run_length s).
  revert E. cbn [digits_run]. rewrite Ec. destruct (digits_run s). intros [= _ <-]. cbn in *. lia.
Qed.

Lemma fraction_length (s : str) : length (fraction s).2 <= length s.
Proof.
  destruct s as [|c s]; [done|]. unfold fraction. case_match; [|done].
  pose proof (digits_run_length s). destruct (digits_run s) as [[|d ds] r]; cbn in *; lia.
Qed.

Lemma exponent_length (s : str) : length (exponent s).2 <= length s.
Proof.
  destruct s as [|c s]; [done|]. unfold exponent. destruct (has c _); [|done].
  assert (length (match s with
                  | a :: r => if has a [43; 45]%N then ([a], r) else ([], s)
                  | [] => ([] : str, [] : str) end).2 <= length s) as H
    by (destruct s as [|a s]; [done|]; destruct (has a _); cbn; lia).
  destruct (match s with a :: r => if has a [43; 45]%N then ([a], r) else ([], s) | [] => ([], []) end) as [sign t].
  pose proof (digits_run_length t). destruct (digits_run t) as [[|d ds] r]; cbn in *; lia.
Qed.

Lemma skip_space_length (s : str) : length (skip_space s) <= length s.
Proof. induction s as [|c s IH]; [done|]. unfold skip_space in *. cbn [lstrip length]. case_match; cbn [length]; lia. Qed.

Lemma skip_space_cons (s r : str) (d : N) : skip_space s = d :: r -> length r < length s.
Proof. intros H. pose proof (skip_space_length s). rewrite H in *. cbn in *. lia. Qed.

Section fuel.
Context (float_spelling : str -> str).

Lemma literal_shrinks (p : string) (v w : json) (s r : str) :
  p <> ""%string -> literal p v s = Some (w, r) -> length r < length s.
Proof.
  unfold literal. destruct (starts (lit p) s) eqn:E; [|done]. intros Hp [= _ <-].
  apply starts_true in E as [t ->]. rewrite drop_app_length, length_app.
  destruct p; [done|]. cbn. lia.
Qed.

Lemma match_number_shrinks (s r : str) (v : json) :
  match_number float_spelling s = Some (v, r) -> length r < length s.
Proof.
  unfold match_number.
  assert (length (match s with c :: r => if (c =? 45)%N then ([c], r) else ([], s) | [] => ([] : str, [] : str) end).2
    <= length s) as H1 by (destruct s as [|c s]; [done|]; case_match; cbn; lia).
  destruct (match s with c :: r => if (c =? 45)%N then ([c], r) else ([], s) | [] => ([], []) end) as [sign s1].
  destruct (integer_part s1) as [[i s2]|] eqn:Ei; [|done]. apply integer_part_shrinks in Ei. cbn [mbind option_bind].
  pose proof (fraction_length s2). destruct (fraction s2) as [f s3].
  pose proof (exponent_length s3). destruct (exponent s3) as [e s4]. cbn [snd] in *.
  intros H'. assert (s4 = r) as <-; [|lia]. repeat case_match; by simplify_eq.
Qed.

Lemma scan_atom_shrinks (s r : str) (v : json) : scan_atom float_spelling s = Some (v, r) -> length r < length s.
Proof.
  unfold scan_atom. intros H.
  repeat match type of H with first_of ?a ?b = _ => destruct a eqn:?; cbn [first_of] in H; [simplify_eq; eapply literal_shrinks; [|eassumption]; done|] end.
  by eapply match_number_shrinks.
Qed.

(** What is left is shorter than what was scanned. *)
Lemma scan_shrinks (n : nat) :
  (forall s v r, scan float_spelling n s = Some (v, r) -> length r < length s)
  /\ (forall got s v r, elements float_spelling n got s = Some (v, r) -> length r < length s)
  /\ (forall got s v r, members float_spelling n got s = Some (v, r) -> length r < length s).
Proof.
  induction n as [|n (IHs & IHe & IHm)]; [done|]. split_and!.
  - intros s v r. destruct s as [|c s]; [done|]. cbn [scan length]. case_match.
    { destruct (scan_string s) as [[x q]|] eqn:E; [|done]. intros [= _ <-]. apply scan_string_shrinks in E. lia. }
    case_match.
    { destruct (skip_space s) as [|d q] eqn:E; [done|]. apply skip_space_cons in E. case_match; [intros [= _ <-]; lia|].
      intros H'%IHe. cbn in H'. lia. }
    case_match; [|by intros ?%scan_atom_shrinks].
    destruct (skip_space s) as [|d q] eqn:E; [done|]. apply skip_space_cons in E. case_match; [intros [= _ <-]; lia|].
    intros H'%IHm. cbn in H'. lia.
  - intros got s v r. cbn [elements]. destruct (scan float_spelling n s) as [[x q]|] eqn:E; [|done].
    apply IHs in E. cbn [mbind option_bind]. destruct (skip_space q) as [|d t] eqn:Eq; [done|].
    apply skip_space_cons in Eq. case_match; [intros [= _ <-]; lia|]. case_match; [|done].
    intros H'%IHe. pose proof (skip_space_length t). lia.
  - intros got s v r. destruct s as [|c s]; [done|]. cbn [members length]. case_match; [|done].
    destruct (scan_string s) as [[x q]|] eqn:E; [|done]. apply scan_string_shrinks in E. cbn [mbind option_bind].
    destruct (skip_space q) as [|d t] eqn:Eq; [done|]. apply skip_space_cons in Eq. case_match; [|done].
    destruct (scan float_spelling n (skip_space t)) as [[y u]|] eqn:Es; [|done]. apply IHs in Es.
    pose proof (skip_space_length t). cbn [mbind option_bind].
    destruct (skip_space u) as [|d' t'] eqn:Eu; [done|]. apply skip_space_cons in Eu.
    case_match; [intros [= _ <-]; lia|]. case_match; [|done]. intros H'%IHm. pose proof (skip_space_length t'). lia.
Qed.

Lemma scan_fuel (n : nat) : forall m, n <= m ->
  (forall s, 2 * length s + 1 <= n -> scan float_spelling m s = scan float_spelling n s)
  /\ (forall got s, 2 * length s + 2 <= n -> elements float_spelling m got s = elements float_spelling n got s)
  /\ (forall got s, 2 * length s + 2 <= n -> members float_spelling m got s = members float_spelling n got s).
Proof.
  induction n as [|n IH]; [intros m _; split_and!; intros; lia|]. intros [|m] Hm; [lia|].
  destruct (IH m ltac:(lia)) as (IHs & IHe & IHm). split_and!.
  - intros [|c s] Hn; [done|]. cbn [scan length] in *. case_match; [done|].
    case_match; [|case_match; [|done]];
      (destruct (skip_space s) as [|d q] eqn:E; [done|]; apply skip_space_cons in E; case_match; [done|]).
    + apply IHe. cbn [length]. lia.
    + apply IHm. cbn [length]. lia.
  - intros got s Hn. cbn [elements]. rewrite IHs by lia.
    destruct (scan float_spelling n s) as [[v q]|] eqn:E; [|done]. cbn [mbind option_bind].
    apply (proj1 (scan_shrinks n)) in E. destruct (skip_space q) as [|d t] eqn:Eq; [done|].
    apply skip_space_cons in Eq. pose proof (skip_space_length t). case_match; [done|]. case_match; [|done].
    apply IHe. lia.
  - intros got [|c s] Hn; [done|]. cbn [members length] in *. case_match; [|done].
    destruct (scan_string s) as [[x q]|] eqn:E; [|done]. apply scan_string_shrinks in E. cbn [mbind option_bind].
    destruct (skip_space q) as [|d t] eqn:Eq; [done|]. apply skip_space_cons in Eq. case_match; [|done].
    pose proof (skip_space_length t). rewrite IHs by lia.
    destruct (scan float_spelling n (skip_space t)) as [[y u]|] eqn:Es; [|done]. cbn [mbind option_bind].
    apply (proj1 (scan_shrinks n)) in Es. destruct (skip_space u) as [|d' t'] eqn:Eu; [done|].
    apply skip_space_cons in Eu. pose proof (skip_space_length t'). case_match; [done|]. case_match; [|done].
    apply IHm. lia.
Qed.

(** The fuel [loads_str] takes is enough: any larger amount gives its result. *)
Lemma loads_str_fuel (s : str) (n : nat) : 2 * length s + 2 <= n ->
  loads_str float_spelling s =
  ('(v, r) ← scan float_spelling n (skip_space s); match skip_space r with [] => Some v | _ => None end).
Proof.
  intros Hn. unfold loads_str. pose proof (skip_space_length s).
  by rewrite (proj1 (scan_fuel (2 * length s + 2) n Hn)) by lia.
Qed.
End fuel.

(** ** Encode, then decode *)

Lemma zero_octet_printable (c : N) : printable c -> zero_octet (octet c) = false.
Proof. unfold printable, zero_octet. intros H. rewrite oct_octet by lia. apply N.eqb_neq. lia. Qed.

Lemma mark_miss (m c : N) (ms : list N) (t : bytes) :
  printable c -> (m < 256)%N -> ~ printable m -> starts (octet <$> m :: ms) (octet c :: t) = false.
Proof.
  unfold printable. intros Hc Hm Hn. apply not_true_iff_false. intros [t' H]%starts_true.
  apply (f_equal (fun l => oct <$> head l)) in H. cbn in H. injection H as H.
  rewrite !oct_octet in H by lia. lia.
Qed.

Lemma detect_printable (s : str) : Forall printable s -> detect_encoding (octet <$> s) = Utf8.
Proof.
  intros Hs. destruct s as [|c0 s]; [done|]. pose proof (Forall_inv Hs) as H0.
  unfold detect_encoding. cbv zeta. change (octet <$> c0 :: s) with (octet c0 :: (octet <$> s)).
  rewrite !mark_miss by (done || lia || (unfold printable; lia)). cbn [orb].
  destruct s as [|c1 [|c2 [|c3 s]]]; try done; rewrite !fmap_cons; cbn [fmap list_fmap];
    apply Forall_cons in Hs as [_ Hs]; pose proof (Forall_inv Hs); by rewrite !zero_octet_printable.
Qed.

(** A value the standard library's encoder writes is the value its decoder
    reads: for text of scalar values, integers of at most 4300 digits (the
    conversion limit of Python) and objects whose names differ, with the UTF-8
    codec reading back what [str.encode] wrote, [decode(encode(v))] is [v],
    whatever the nesting. *)
Theorem json_roundtrip (float_spelling : str -> str) (codec : json_encoding -> bytes -> option str) (v : json)
    (Hcodec : forall s, Forall scalar s -> codec Utf8 (encode s) = Some s) (Hv : readable v) :
  json_decode float_spelling codec None (json_encode None v) = Some v.
Proof.
  unfold json_decode, json_encode, loads. pose proof (printable_dumps v Hv) as Hp.
  assert (encode (dumps v) = octet <$> dumps v) as Ha.
  { apply encode_ascii. eapply Forall_impl; [exact Hp|]. unfold printable. intros; lia. }
  rewrite Ha, detect_printable, <- Ha, Hcodec by (done || (eapply Forall_impl; [exact Hp|]; unfold printable, scalar; intros; lia)).
  apply loads_dumps, Hv.
Qed.

(** A document of every kind of value, with an escape of two halves. *)
Abbreviation sample_document :=
  (JObject [(#"a", JList [JInt 0; JInt (-120); JNull; JList []]);
            ([233; 34; 128512]%N, JObject [(#"", JStr [10; 127; 92]%N); (#"t", JBool true)])]).

Lemma json_roundtrip_witness :
  json_decode (fun s => s) (fun _ => decode) None (json_encode None sample_document) = Some sample_document.
Proof.
  apply (json_roundtrip (fun s => s) (fun _ => decode) sample_document).
  - intros s Hs. apply decode_encode, Hs.
  - assert (forall s : str, forallb (fun c => (c <? 55296) || ((57343 <? c) && (c <? 1114112)))%N s = true ->
      Forall scalar s) as Hs.
    { intros s E. apply Forall_forall. intros c Hc%list_elem_of_In. rewrite forallb_forall in E.
      specialize (E c Hc). cbv beta in E. unfold scalar. apply orb_true_iff in E as [E%N.ltb_lt|[E1%N.ltb_lt E2%N.ltb_lt]%andb_true_iff]; lia. }
    apply r_object; [vm_compute; repeat constructor; set_solver|..].
    + apply Forall_cons; split; [by apply Hs|]. apply Forall_cons; split; [by apply Hs|constructor].
    + apply Forall_cons; split; [|apply Forall_cons; split; [|constructor]]; cbn [snd].
      * apply r_list. repeat (apply Forall_cons_2; [first [apply r_null|apply r_list; constructor|apply r_int; vm_compute; lia]|]).
        constructor.
      * apply r_object; [vm_compute; repeat constructor; set_solver|..].
        -- apply Forall_cons; split; [by apply Hs|]. apply Forall_cons; split; [by apply Hs|constructor].
        -- apply Forall_cons; split; [by apply r_str, Hs|].
           apply Forall_cons; split; [apply r_bool|constructor].
Defined.

(** What the decoder does with what no encoder writes. *)
Example loads_ex :
  loads_str (fun s => s) (#" { " ++ [DQUOTE] ++ #"k" ++ [DQUOTE] ++ #" : [1.5e2 , -0] , " ++ [DQUOTE] ++ #"k"
    ++ [DQUOTE] ++ #" : NaN } ") = Some (JObject [(#"k", JFloat (#"NaN"))])
  /\ loads_str (fun s => s) (#"[1,]") = None /\ loads_str (fun s => s) (#"01") = None
  /\ loads_str (fun s => s) (#"") = None.
Proof. by vm_compute. Qed.
