(* ===== verification/Tls.v ===== *)
(** * Tls: the shape of a ClientHello as experimental options (tls.py). *)

From S2P Require Import Prelude PyText PyUrl Headers Types Errors Json.

Definition UNORDERABLE_EXTENSIONS : list Z := [21; 41]%Z.
Definition VERSIONS : list str := [ #"1.2"; #"1.3"].
Definition ALPN_PROTOCOLS : list str := [ #"h2"; #"http/1.1"; #"h3"].

Record TlsProfile := mkTls {
  cipher_suites : list Z;
  extension_order : list Z;
  supported_groups : list Z;
  key_share_groups : list Z;
  signature_algorithms : list Z;
  alpn : list str;
  min_version : option str;
  max_version : option str;
  grease : option bool;
  permute_extensions : option bool;
}.

Definition empty_profile : TlsProfile := mkTls [] [] [] [] [] [] None None None None.

(** The loop over the two version fields. *)
Definition check_version (field : str) (value : option str) : res exn unit :=
  match value with
  | None => Ok tt
  | Some v => if bool_decide (v ∈ VERSIONS) then Ok tt else Raise (ValueError (BadVersion field v))
  end.

(** [sorted(set(xs))], for the messages. *)
Definition sorted_set (l : list str) : list str := sort_strs (remove_dups l).

(** [__post_init__]: the checks a profile passes before it exists. *)
Definition post_init (p : TlsProfile) : res exn unit :=
  _ ← check_version (#"min_version") (min_version p);
  _ ← check_version (#"max_version") (max_version p);
  let unknown := keep (fun a => negb (bool_decide (a ∈ ALPN_PROTOCOLS))) (alpn p) in
  if nonempty unknown then Raise (ValueError (BadAlpn (sorted_set unknown)))
  else
    let unorderable := keep (fun e => bool_decide (e ∈ UNORDERABLE_EXTENSIONS)) (extension_order p) in
    if nonempty unorderable then Raise (ValueError (Unorderable (remove_dups unorderable)))
    else if negb (length (remove_dups (extension_order p)) =? length (extension_order p))
    then Raise (ValueError RepeatedExtension)
    else Ok tt.

(** [TlsProfile(...)] *)
Definition TlsProfile_init (p : TlsProfile) : res exn TlsProfile := _ ← post_init p; Ok p.

Definition int_list (l : list Z) : json := JList (JInt <$> l).

Definition entry_if (present : bool) (name : str) (v : json) : list (str * json) :=
  if present then [(name, v)] else [].

Definition entry_opt {A} (o : option A) (name : str) (f : A -> json) : list (str * json) :=
  match o with Some a => [(name, f a)] | None => [] end.

(** The shuffle setting that goes out: what was asked for, and off when an
    explicit order would be meaningless with it on. *)
Definition effective_permute (p : TlsProfile) : option bool :=
  match permute_extensions p with
  | None => if nonempty (extension_order p) then Some false else None
  | set => set
  end.

Definition profile_entries (p : TlsProfile) : list (str * json) :=
  entry_if (nonempty (cipher_suites p)) (#"cipher_suites") (int_list (cipher_suites p))
  ++ entry_if (nonempty (extension_order p)) (#"extension_order") (int_list (extension_order p))
  ++ entry_if (nonempty (supported_groups p)) (#"supported_groups") (int_list (supported_groups p))
  ++ entry_if (nonempty (key_share_groups p)) (#"key_share_groups") (int_list (key_share_groups p))
  ++ entry_if (nonempty (signature_algorithms p)) (#"signature_algorithms")
       (int_list (signature_algorithms p))
  ++ entry_if (nonempty (alpn p)) (#"alpn") (JList (JStr <$> alpn p))
  ++ entry_opt (min_version p) (#"min_version") JStr
  ++ entry_opt (max_version p) (#"max_version") JStr
  ++ entry_opt (grease p) (#"grease") JBool
  ++ entry_opt (effective_permute p) (#"permute_extensions") JBool.

(** [to_options]: a mapping with a single "tls_profile" key, or an empty one. *)
Definition to_options (p : TlsProfile) : list (str * json) :=
  let profile := profile_entries p in
  if nonempty profile then [(#"tls_profile", JObject profile)] else [].

Definition DETERMINISTIC : TlsProfile :=
  mkTls [] [] [] [] [] [] None None (Some false) (Some false).

Example deterministic_options :
  to_options DETERMINISTIC
  = [(#"tls_profile", JObject [(#"grease", JBool false); (#"permute_extensions", JBool false)])].
Proof. reflexivity. Qed.

(** ** Properties *)

Lemma remove_dups_length_iff (l : list Z) :
  length (remove_dups l) = length l <-> NoDup l.
Proof.
  assert (forall k : list Z, length (remove_dups k) <= length k) as Hle.
  { induction k as [|x k IH]; cbn; [lia|]. case_decide; cbn; lia. }
  induction l as [|x l IH]; cbn; [split; [constructor|done]|].
  rewrite NoDup_cons, <- IH. case_decide as Hx.
  - split; [|tauto]. intros H. specialize (Hle l). cbn in *. lia.
  - cbn. split; [intros H; split; [done|lia]|lia].
Qed.

(** A profile can be built exactly when its versions and protocols are
    ones Chromium can carry and its extension order names no extension twice
    and neither of the two that cannot be positioned. *)
Theorem profile_accepted_iff (p : TlsProfile) :
  TlsProfile_init p = Ok p
  <-> (forall v, min_version p = Some v -> v ∈ VERSIONS)
      /\ (forall v, max_version p = Some v -> v ∈ VERSIONS)
      /\ (forall a, a ∈ alpn p -> a ∈ ALPN_PROTOCOLS)
      /\ (forall e, e ∈ extension_order p -> e ∉ UNORDERABLE_EXTENSIONS)
      /\ NoDup (extension_order p).
Proof.
  unfold TlsProfile_init, post_init.
  set (ua := keep _ (alpn p)). set (ue := keep _ (extension_order p)).
  assert (ua = [] <-> forall a, a ∈ alpn p -> a ∈ ALPN_PROTOCOLS) as Ha.
  { subst ua. rewrite keep_nil_iff. apply forall_proper. intros a.
    rewrite negb_false_iff, bool_decide_eq_true. done. }
  assert (ue = [] <-> forall e, e ∈ extension_order p -> e ∉ UNORDERABLE_EXTENSIONS) as He.
  { subst ue. rewrite keep_nil_iff. apply forall_proper. intros e.
    by rewrite bool_decide_eq_false. }
  rewrite <- Ha, <- He, <- remove_dups_length_iff. clearbody ua ue. clear Ha He.
  assert (forall f o, check_version f o = Ok tt <-> forall v, o = Some v -> v ∈ VERSIONS) as Hv.
  { intros f [v|]; cbn; [|naive_solver]. case_bool_decide; naive_solver. }
  rewrite <- (Hv (#"min_version")), <- (Hv (#"max_version")).
  destruct (check_version _ (min_version p)) as [[]|]; cbn; [|naive_solver].
  destruct (check_version _ (max_version p)) as [[]|]; cbn; [|naive_solver].
  destruct ua; cbn; [|naive_solver]. destruct ue; cbn; [|naive_solver].
  destruct (Nat.eqb_spec (length (remove_dups (extension_order p)))
              (length (extension_order p))); cbn; naive_solver.
Qed.

Lemma entries_nil (p : TlsProfile) : profile_entries p = [] <-> p = empty_profile.
Proof.
  split; [|by intros ->]. unfold profile_entries. destruct p as [cs eo sg ks sa al mi ma gr pe].
  cbn. intros H. repeat (apply app_nil in H as [? H]).
  destruct cs, eo, sg, ks, sa, al, mi, ma, gr, pe; done.
Qed.

(** A profile changes only what it sets.  The options it contributes are
    empty exactly for the empty profile; otherwise they are the single
    "tls_profile" object, in which the extension shuffle is mentioned when it
    was set, and switched off when an explicit order is given without it. *)
Theorem to_options_minimal (p : TlsProfile) :
  (to_options p = [] <-> p = empty_profile)
  /\ (p <> empty_profile -> to_options p = [(#"tls_profile", JObject (profile_entries p))])
  /\ (forall b, (#"permute_extensions", JBool b) ∈ profile_entries p <->
        permute_extensions p = Some b
        \/ (permute_extensions p = None /\ extension_order p <> [] /\ b = false)).
Proof.
  unfold to_options. split_and!.
  - rewrite <- entries_nil. by destruct (profile_entries p).
  - intros H. destruct (nonempty (profile_entries p)) eqn:E; [done|].
    apply nonempty_false in E. by apply entries_nil in E.
  - intros b.
    assert (forall present name v, name <> #"permute_extensions" ->
              (#"permute_extensions", JBool b) ∈ entry_if present name v <-> False) as H1.
    { intros present name v Hn. unfold entry_if. destruct present; [|by rewrite elem_of_nil].
      rewrite list_elem_of_singleton. split; [|done].
      intros E. apply (f_equal fst) in E. cbn [fst] in E. congruence. }
    assert (forall A (o : option A) name f, name <> #"permute_extensions" ->
              (#"permute_extensions", JBool b) ∈ entry_opt o name f <-> False) as H2.
    { intros A o name f Hn. unfold entry_opt. destruct o; [|by rewrite elem_of_nil].
      rewrite list_elem_of_singleton. split; [|done].
      intros E. apply (f_equal fst) in E. cbn [fst] in E. congruence. }
    unfold profile_entries. rewrite !elem_of_app, !H1, !H2 by (by vm_compute).
    unfold effective_permute. destruct (permute_extensions p) as [b'|]; cbn [entry_opt].
    + rewrite list_elem_of_singleton. naive_solver.
    + destruct (extension_order p) as [|e l]; cbn [nonempty entry_opt].
      * rewrite elem_of_nil. naive_solver.
      * rewrite list_elem_of_singleton. naive_solver.
Qed.
