(* ===== verification/HttpDate.v ===== *)
(** * HttpDate: integers and dates as text, for the cookie rules.

    Python's [int] on text, and [http.cookiejar.http2time], the parser of a
    cookie's Expires: a strict form read on a fast path and a loose one read by
    a backtracking pattern, both ending in [calendar.timegm]. *)

From S2P Require Import Prelude Unicode PyText PyUrl Regex.

(** What the jar's [except Exception] may swallow. *)
Inductive fault := ValueFault | TypeFault | OverflowFault | AttributeFault.

(** ** Integers: [int(text)] *)

(** What [int] makes of a text beyond ASCII: blanks and decimal digits of any
    script become ASCII ones, anything else spoils the number. *)
Definition ascii_number (s : str) : str :=
  if forallb is_ascii s then s
  else (fun c => if is_ascii c then c
                 else if is_space c then SPACE
                 else match decimal c with Some d => 48 + d | None => QUESTION end)%N <$> s.

Definition c_space (c : N) : bool := ((9 <=? c) && (c <=? 13) || (c =? 32))%N.

(** Digits, with single underscores between them. *)
Definition digits_of (s : str) : option str :=
  let parts := split_on 95%N s in
  if forallb (fun p => nonempty p && forallb is_ascii_digit p) parts then Some (mjoin parts) else None.

Definition MAX_STR_DIGITS : nat := 4300.

(** [int(text)]; [None] is a ValueError. *)
Definition py_int (text : str) : option Z :=
  let s := strip c_space (ascii_number text) in
  let '(negative, body) :=
    match s with
    | c :: r => if (c =? PLUS)%N then (false, r) else if (c =? 45)%N then (true, r) else (false, s)
    | [] => (false, [])
    end in
  match digits_of body with
  | Some ds =>
      if MAX_STR_DIGITS <? length ds then None
      else let n := Z.of_N (digits_value 0 ds) in Some (if negative then - n else n)%Z
  | None => None
  end.

Definition int_of (text : str) : res fault Z :=
  match py_int text with Some n => Ok n | None => Raise ValueFault end.

(** ** The calendar: [datetime.date.toordinal] and [calendar.timegm] *)

Section calendar.
Local Open Scope Z_scope.

Definition is_leap (year : Z) : bool :=
  (year mod 4 =? 0) && (negb (year mod 100 =? 0) || (year mod 400 =? 0)).

Definition days_in_month (year month : Z) : Z :=
  if (month =? 2) && is_leap year then 29
  else nth (Z.to_nat (month - 1)) [31; 28; 31; 30; 31; 30; 31; 31; 30; 31; 30; 31] 0.

Definition days_before_month (year month : Z) : Z :=
  nth (Z.to_nat (month - 1)) [0; 31; 59; 90; 120; 151; 181; 212; 243; 273; 304; 334] 0
  + (if (2 <? month) && is_leap year then 1 else 0).

Definition days_before_year (year : Z) : Z :=
  let y := year - 1 in y * 365 + y / 4 - y / 100 + y / 400.

Definition toordinal (year month day : Z) : Z :=
  days_before_year year + days_before_month year month + day.

Definition EPOCH_ORD : Z := 719163.
Definition MAXYEAR : Z := 9999.

Definition timegm (year month day hour minute second : Z) : res fault Z :=
  if MAXYEAR <? year then Raise ValueFault
  else
    let days := toordinal year month 1 - EPOCH_ORD + day - 1 in
    let hours := days * 24 + hour in
    let minutes := hours * 60 + minute in
    Ok (minutes * 60 + second).

(** [_timegm]: only a plausible time of day, from 1970 on.  (On the strict
    path the seconds are a float; every sum here is exact in one.) *)
Definition timegm_checked (year month mday hour minute sec : Z) : res fault (option Z) :=
  if (1970 <=? year) && ((1 <=? month) && (month <=? 12)) && ((1 <=? mday) && (mday <=? 31))
     && ((0 <=? hour) && (hour <=? 24)) && ((0 <=? minute) && (minute <=? 59))
     && ((0 <=? sec) && (sec <=? 61))
  then Some <$> timegm year month mday hour minute sec
  else Ok None.
End calendar.

Definition MONTHS : list str :=
  [ #"Jan"; #"Feb"; #"Mar"; #"Apr"; #"May"; #"Jun"; #"Jul"; #"Aug"; #"Sep"; #"Oct"; #"Nov"; #"Dec"].

(** [MONTHS_LOWER.index(name.lower()) + 1] *)
Definition month_number (name : str) : option Z :=
  (fun p => Z.of_nat p.1 + 1)%Z <$> list_find (fun m => lower m = lower name) MONTHS.

(** ** The patterns, all under [re.ASCII] *)

Definition ascii_word (c : N) : bool := is_ascii_alnum c || (c =? 95)%N.
Definition re_digit : regex := Class is_ascii_digit.
Definition re_space : regex := Class c_space.
Definition re_word : regex := Class ascii_word.
Definition re_letter : regex := Class is_ascii_alpha.
Definition re_lower : regex := Class is_ascii_lower.
Definition digits (n : nat) : regex := cats (replicate n re_digit).
Definition one_of (s : str) : regex := Class (fun c => has c s).

(** [re.search] of a pattern that starts with [^]. *)
Definition re_match (r : regex) (s : str) : option cursor :=
  exec (fun _ => false) r (at_start s) Some.

Definition STRICT_DATE_RE : regex :=
  cats [one_of (#"SMTWF"); re_lower; re_lower; chr 44; chr SPACE; Group 1 (digits 2); chr SPACE;
        Group 2 (cats [one_of (#"JFMASOND"); re_lower; re_lower]); chr SPACE;
        Group 3 (digits 4); chr SPACE; Group 4 (digits 2); chr COLON; Group 5 (digits 2);
        chr COLON; Group 6 (digits 2); text_ (#" GMT"); at_end].

Definition either_case (s : str) : regex :=
  cats ((fun c => Class (fun x => has x (lower [c] ++ upper [c]))) <$> s).

Fixpoint alts (l : list regex) : regex :=
  match l with [] => Class (fun _ => false) | [r] => r | r :: l => Alt r (alts l) end.

Definition WEEKDAY_RE : regex :=
  cats [alts (either_case <$> [ #"Sun"; #"Mon"; #"Tue"; #"Wed"; #"Thu"; #"Fri"; #"Sat"]);
        Rep true re_letter; opt_ (chr 44); Rep true re_space].

(** [(?![APap][Mm]\b)] *)
Definition no_am_pm (s : str) : bool :=
  match s with
  | a :: m :: rest =>
      negb (has a (#"APap") && has m (#"Mm")
            && negb (match rest with c :: _ => ascii_word c | [] => false end))
  | _ => true
  end.

Definition re_gap (marks : str) : regex := Alt (plus_ re_space) (one_of marks).

Definition LOOSE_HTTP_DATE_RE : regex :=
  cats [Group 1 (Cat re_digit (opt_ re_digit)); re_gap (#"-/");
        Group 2 (plus_ re_word); re_gap (#"-/");
        Group 3 (plus_ re_digit);
        opt_ (cats [re_gap (#":"); Group 4 (Cat re_digit (opt_ re_digit)); chr COLON;
                    Group 5 (digits 2); opt_ (Cat (chr COLON) (Group 6 (digits 2)))]);
        Rep true re_space;
        opt_ (Cat (Group 7 (Alt (cats [opt_ (one_of (#"-+")); digits 2;
                                       opt_ (Cat re_digit (opt_ re_digit))])
                                (Cat (Peek no_am_pm) (plus_ re_letter))))
                  (Rep true re_space));
        opt_ (cats [chr 40; plus_ re_word; chr 41; Rep true re_space]);
        at_end].

Definition TIMEZONE_RE : regex :=
  cats [opt_ (Group 1 (one_of (#"-+"))); Group 2 (Cat re_digit (opt_ re_digit)); opt_ (chr COLON);
        opt_ (Group 3 (digits 2)); at_end].

(** ** [http2time] *)

Definition UTC_ZONES : list str := [ #"GMT"; #"UTC"; #"UT"; #"Z"].

(** [offset_from_tz_string]; a group that took no part is empty here, and no
    group that took part is. *)
Definition offset_from_tz_string (tz : str) : res fault (option Z) :=
  if bool_decide (tz ∈ UTC_ZONES) then Ok (Some 0%Z)
  else
    match re_match TIMEZONE_RE tz with
    | None => Ok None
    | Some m =>
        hours ← int_of (group 2 m);
        minutes ← (if nonempty (group 3 m) then int_of (group 3 m) else Ok 0%Z);
        let offset := (3600 * hours + 60 * minutes)%Z in
        Ok (Some (if bool_decide (group 1 m = #"-") then (- offset)%Z else offset))
    end.

(** A year of at most three digits: the century that makes it closest to the
    current year. *)
Definition obvious_year (cur_yr yr : Z) : Z :=
  let m := (cur_yr mod 100)%Z in
  let guess := (yr + cur_yr - m)%Z in
  if (50 <? Z.abs (m - yr))%Z then (if (0 <? m - yr)%Z then guess + 100 else guess - 100)%Z else guess.

Definition int_or_zero (s : str) : res fault Z := if nonempty s then int_of s else Ok 0%Z.

(** [_str2time], in the local year [cur_yr]. *)
Definition str2time (cur_yr : Z) (day mon yr hr min sec tz : str) : res fault (option Z) :=
  yr ← int_of yr;
  if (MAXYEAR <? yr)%Z then Ok None
  else
    match (match month_number mon with
           | Some n => Some n
           | None => match py_int mon with
                     | Some n => if ((1 <=? n) && (n <=? 12))%Z then Some n else None
                     | None => None
                     end
           end) with
    | None => Ok None
    | Some mon =>
        day ← int_of day;
        hr ← int_or_zero hr;
        min ← int_or_zero min;
        sec ← int_or_zero sec;
        let yr := if (yr <? 1000)%Z then obvious_year cur_yr yr else yr in
        t ← timegm_checked yr mon day hr min sec;
        match t with
        | None => Ok None
        | Some t =>
            offset ← offset_from_tz_string (upper (if nonempty tz then tz else #"UTC"));
            Ok (match offset with Some o => Some (t - o)%Z | None => None end)
        end
    end.

Definition http2time (cur_yr : Z) (text : str) : res fault (option Z) :=
  match re_match STRICT_DATE_RE text with
  | Some g =>
      match month_number (group 2 g) with
      | None => Raise ValueFault
      | Some mon =>
          yr ← int_of (group 3 g); day ← int_of (group 1 g);
          hr ← int_of (group 4 g); min ← int_of (group 5 g); sec ← int_of (group 6 g);
          timegm_checked yr mon day hr min sec
      end
  | None =>
      let text := lstrip is_space text in
      let text := match re_match WEEKDAY_RE text with Some c => ahead c | None => text end in
      match re_match LOOSE_HTTP_DATE_RE text with
      | None => Ok None
      | Some g =>
          str2time cur_yr (group 1 g) (group 2 g) (group 3 g) (group 4 g) (group 5 g) (group 6 g) (group 7 g)
      end
  end.

(** ** Written dates are read back *)

Lemma digits_of_digits (ds : str) :
  ds <> [] -> Forall (fun c => is_ascii_digit c = true) ds -> digits_of ds = Some ds.
Proof.
  intros Hne H. unfold digits_of. rewrite split_on_absent; cbn.
  - rewrite app_nil_r. rewrite (proj2 (forallb_forall _ _)).
    + by destruct ds.
    + intros c Hc. rewrite Forall_forall in H. by apply H, list_elem_of_In.
  - intros Hin. rewrite Forall_forall in H. by apply H in Hin.
Qed.

Lemma lstrip_none {A} (p : A -> bool) (s : list A) :
  match s with x :: _ => p x = false | [] => True end -> lstrip p s = s.
Proof. destruct s as [|x s]; cbn; [done|]. by intros ->. Qed.

Lemma strip_none {A} (p : A -> bool) (s : list A) :
  Forall (fun x => p x = false) s -> strip p s = s.
Proof.
  intros H. unfold strip, rstrip.
  rewrite (lstrip_none p s) by (by destruct H). rewrite lstrip_none; [apply reverse_involutive|].
  apply Forall_reverse in H. by destruct H.
Qed.

Lemma digit_facts (c : N) : is_ascii_digit c = true ->
  is_ascii c = true /\ c_space c = false /\ (c =? PLUS)%N = false /\ (c =? 45)%N = false.
Proof.
  unfold is_ascii_digit, is_ascii, c_space, PLUS. intros [H1 H2]%andb_true_iff.
  apply N.leb_le in H1, H2. rewrite N.ltb_lt, orb_false_iff, andb_false_iff, !N.leb_gt, !N.eqb_neq. lia.
Qed.

(** [int] on ASCII digits. *)
Lemma py_int_digits (ds : str) :
  ds <> [] -> length ds <= MAX_STR_DIGITS -> Forall (fun c => is_ascii_digit c = true) ds ->
  py_int ds = Some (Z.of_N (digits_value 0 ds)).
Proof.
  intros Hne Hl H. unfold py_int, ascii_number.
  rewrite (proj2 (forallb_forall is_ascii ds)).
  2:{ intros c Hc. rewrite Forall_forall in H. by apply digit_facts, H, list_elem_of_In. }
  rewrite strip_none by (eapply Forall_impl; [exact H|]; intros c Hc; by apply digit_facts).
  assert ((match ds with
           | c :: r => if (c =? PLUS)%N then (false, r) else if (c =? 45)%N then (true, r) else (false, ds)
           | [] => (false, [])
           end) = (false, ds)) as ->.
  { destruct H as [|c ds Hc _]; [done|]. by destruct (digit_facts c Hc) as (_ & _ & -> & ->). }
  rewrite digits_of_digits by done. by rewrite (proj2 (Nat.ltb_ge _ _)) by done.
Qed.

Ltac each_month m :=
  let Hm := fresh "Hm" in
  assert (m = 1 \/ m = 2 \/ m = 3 \/ m = 4 \/ m = 5 \/ m = 6 \/ m = 7 \/ m = 8 \/ m = 9
          \/ m = 10 \/ m = 11 \/ m = 12)%Z as Hm by lia;
  repeat destruct Hm as [->|Hm]; [..|subst m].

(** The calendar's day numbers count days: the day after a date has the next
    number. *)
Section days.
Local Open Scope Z_scope.

Definition valid_date (year month day : Z) : Prop :=
  1 <= month <= 12 /\ 1 <= day <= days_in_month year month.

Definition next_day (year month day : Z) : Z * Z * Z :=
  if day <? days_in_month year month then (year, month, day + 1)
  else if month <? 12 then (year, month + 1, 1) else (year + 1, 1, 1).

Lemma leap_spec (year : Z) :
  is_leap year = true <-> (year mod 4 = 0 /\ (year mod 100 <> 0 \/ year mod 400 = 0)).
Proof.
  unfold is_leap. rewrite andb_true_iff, orb_true_iff, negb_true_iff, !Z.eqb_eq, Z.eqb_neq. done.
Qed.

Lemma days_before_next_year (year : Z) :
  days_before_year (year + 1) = days_before_year year + (if is_leap year then 366 else 365).
Proof.
  unfold days_before_year. pose proof (leap_spec year) as Hl.
  assert (is_leap year = true \/ is_leap year = false) as Hc by (destruct (is_leap year); auto).
  rewrite Z.add_simpl_r.
  destruct (is_leap year).
  - destruct Hl as [Hl _]. specialize (Hl eq_refl). clear Hc. Z.div_mod_to_equations; lia.
  - assert (~ (year mod 4 = 0 /\ (year mod 100 <> 0 \/ year mod 400 = 0))) as Hn
      by (intros H; apply Hl in H; discriminate).
    clear Hl Hc. Z.div_mod_to_equations; lia.
Qed.

Lemma days_before_next_month (year month : Z) :
  1 <= month < 12 ->
  days_before_month year (month + 1) = days_before_month year month + days_in_month year month.
Proof.
  intros H. each_month month; try lia; unfold days_before_month, days_in_month; cbn;
    destruct (is_leap year); reflexivity.
Qed.

Lemma days_in_month_pos (year month : Z) : 1 <= month <= 12 -> 1 <= days_in_month year month.
Proof. intros H. each_month month; unfold days_in_month; cbn -[is_leap]; destruct (is_leap year); vm_compute; discriminate. Qed.

Lemma ordinal_next_day (year month day : Z) :
  valid_date year month day ->
  let '(y, m, d) := next_day year month day in
  valid_date y m d /\ toordinal y m d = toordinal year month day + 1.
Proof.
  intros [Hm Hd]. unfold next_day. destruct (Z.ltb_spec day (days_in_month year month)).
  { split; [unfold valid_date; lia|unfold toordinal; lia]. }
  destruct (Z.ltb_spec month 12) as [Hlt|Hge].
  - split.
    + split; [lia|]. split; [lia|]. apply days_in_month_pos. lia.
    + unfold toordinal. rewrite days_before_next_month by lia. lia.
  - assert (month = 12) as -> by lia. split.
    + split; [lia|]. split; [lia|]. apply days_in_month_pos. lia.
    + unfold toordinal. rewrite days_before_next_year.
      change (days_in_month year 12) with 31 in *.
      change (days_before_month (year + 1) 1) with 0.
      change (days_before_month year 12) with (334 + if is_leap year then 1 else 0).
      destruct (is_leap year); lia.
Qed.
End days.

(** An IMF-fixdate, ["Wed, 09 Feb 1994 22:23:32 GMT"]. *)
Definition DAYS : list str := [ #"Mon"; #"Tue"; #"Wed"; #"Thu"; #"Fri"; #"Sat"; #"Sun"].

Definition two (n : Z) : str := [48 + Z.to_N (n / 10); 48 + Z.to_N (n mod 10)]%N.
Definition four (n : Z) : str := two (n / 100) ++ two (n mod 100).

Definition imf_date (weekday month : str) (year day hour minute second : Z) : str :=
  weekday ++ #", " ++ two day ++ [SPACE] ++ month ++ [SPACE] ++ four year ++ [SPACE]
  ++ two hour ++ [COLON] ++ two minute ++ [COLON] ++ two second ++ #" GMT".

Lemma two_digits (n : Z) : (0 <= n < 100)%Z -> Forall (fun c => is_ascii_digit c = true) (two n).
Proof.
  intros H. unfold two. repeat constructor; unfold is_ascii_digit; rewrite andb_true_iff, !N.leb_le;
    split; Z.div_mod_to_equations; lia.
Qed.

Lemma two_value (n : Z) (acc : N) (r : str) :
  (0 <= n < 100)%Z -> digits_value acc (two n ++ r) = digits_value (100 * acc + Z.to_N n)%N r.
Proof. intros H. cbn [two app digits_value]. f_equal. Z.div_mod_to_equations; lia. Qed.

Lemma int_of_two (n : Z) : (0 <= n < 100)%Z -> int_of (two n) = Ok n.
Proof.
  intros H. unfold int_of. rewrite py_int_digits; [|done|unfold MAX_STR_DIGITS; cbn; lia|by apply two_digits].
  rewrite <- (app_nil_r (two n)), two_value by done. cbn [digits_value]. f_equal. lia.
Qed.

Lemma int_of_four (n : Z) : (0 <= n < 10000)%Z -> int_of (four n) = Ok n.
Proof.
  intros H. assert ((0 <= n / 100 < 100)%Z /\ (0 <= n mod 100 < 100)%Z) as [H1 H2]
    by (split; Z.div_mod_to_equations; lia).
  unfold int_of. rewrite py_int_digits; [|done|unfold MAX_STR_DIGITS; cbn; lia|].
  - unfold four. rewrite two_value by done. rewrite <- (app_nil_r (two (n mod 100))), two_value by done.
    cbn [digits_value]. f_equal. Z.div_mod_to_equations; lia.
  - apply Forall_app; split; by apply two_digits.
Qed.

(** The strict pattern reads one: a straight line of classes. *)
Lemma exec_group {A} (n : nat) (a : regex) (c : cursor) (k : cursor -> option A) :
  exec (fun _ => false) (Group n a) c k
  = exec (fun _ => false) a c (fun c' => k (mkCursor (pos c') (behind c') (ahead c') ((n, between c c') :: groups c'))).
Proof. done. Qed.

Lemma exec_takes {A} (p : N -> bool) (n : N) (b : option N) (x : N) (rest : str)
    (gs : list (nat * str)) (k : cursor -> option A) :
  p x = true ->
  exec (fun _ => false) (Class p) (mkCursor n b (x :: rest) gs) k = k (mkCursor (n + 1) (Some x) rest gs).
Proof. intros Hp. cbn. by rewrite Hp. Qed.

Ltac strict_step :=
  lazymatch goal with
  | |- exec _ (Cat _ _) _ _ = _ => refine (eq_trans (exec_cat _ _ _ _ _) _)
  | |- exec _ (Group _ _) _ _ = _ => refine (eq_trans (exec_group _ _ _ _) _)
  | |- exec _ (Class _) _ _ = _ =>
      refine (eq_trans (exec_takes _ _ _ _ _ _ _ _) _); [first [assumption | reflexivity]|]
  end; cbv beta; cbn [pos behind ahead groups];
  repeat match goal with
  | |- context [(?n + 1)%N] => let m := eval vm_compute in (n + 1)%N in change (n + 1)%N with m
  | |- context [between (mkCursor ?n ?b ?t ?g) (mkCursor ?n' ?b' ?t' ?g')] =>
      let m := eval vm_compute in (N.to_nat (n' - n)) in
      let s := eval cbn in (take m t) in
      change (between (mkCursor n b t g) (mkCursor n' b' t' g')) with s
  end.

Lemma strict_reads (w1 w2 w3 d1 d2 m1 m2 m3 y1 y2 y3 y4 h1 h2 i1 i2 s1 s2 : N) :
  has w1 (#"SMTWF") = true -> Forall (fun c => is_ascii_lower c = true) [w2; w3; m2; m3] ->
  has m1 (#"JFMASOND") = true ->
  Forall (fun c => is_ascii_digit c = true) [d1; d2; y1; y2; y3; y4; h1; h2; i1; i2; s1; s2] ->
  exists c, re_match STRICT_DATE_RE
      ([w1; w2; w3; 44; 32; d1; d2; 32; m1; m2; m3; 32; y1; y2; y3; y4; 32; h1; h2; 58; i1; i2; 58;
        s1; s2; 32; 71; 77; 84]%N) = Some c
    /\ group 1 c = [d1; d2] /\ group 2 c = [m1; m2; m3] /\ group 3 c = [y1; y2; y3; y4]
    /\ group 4 c = [h1; h2] /\ group 5 c = [i1; i2] /\ group 6 c = [s1; s2].
Proof.
  intros Hw Hl Hm Hd.
  repeat match goal with H : Forall _ (_ :: _) |- _ => apply Forall_cons in H as [? H] end.
  unfold re_match, STRICT_DATE_RE, digits.
  change (text_ (#" GMT")) with (cats [chr 32; chr 71; chr 77; chr 84]).
  cbn [cats replicate]. unfold one_of, re_digit, re_lower, chr, at_end, at_start. eexists. split; [|].
  { repeat strict_step. reflexivity. }
  by repeat split.
Qed.

Lemma month_named (month : Z) (name : str) :
  (1 <= month <= 12)%Z -> MONTHS !! Z.to_nat (month - 1) = Some name ->
  month_number name = Some month /\ exists m1 m2 m3, name = [m1; m2; m3]
    /\ has m1 (#"JFMASOND") = true /\ Forall (fun c => is_ascii_lower c = true) [m2; m3].
Proof.
  intros H Hn. each_month month; vm_compute in Hn; injection Hn as <-; (split; [reflexivity|]);
    do 3 eexists; by repeat constructor.
Qed.

Section imf.
Local Open Scope Z_scope.
Context (year month day hour minute second : Z).

(** Seconds from the start of 1970, by the calendar's day numbers. *)
Definition unix_time : Z :=
  ((toordinal year month day - EPOCH_ORD) * 24 + hour) * 3600 + minute * 60 + second.

Definition imf_ok : Prop :=
  1970 <= year <= 9999 /\ valid_date year month day /\ 0 <= hour < 24 /\ 0 <= minute < 60
  /\ 0 <= second <= 60.

Lemma days_in_month_le : days_in_month year month <= 31.
Proof.
  unfold days_in_month. destruct (_ && _)%bool; [lia|].
  assert (Forall (fun d => d <= 31) [31; 28; 31; 30; 31; 30; 31; 31; 30; 31; 30; 31]) as H
    by (repeat constructor; lia).
  rewrite Forall_forall in H. destruct (nth_in_or_default (Z.to_nat (month - 1))
    [31; 28; 31; 30; 31; 30; 31; 31; 30; 31; 30; 31] 0) as [Hin| ->]; [|lia].
  by apply H, list_elem_of_In.
Qed.

Lemma timegm_imf : imf_ok -> timegm_checked year month day hour minute second = Ok (Some unix_time).
Proof.
  intros (Hy & [Hm Hd] & Hh & Hi & Hs). pose proof days_in_month_le as Hle. unfold timegm_checked.
  repeat rewrite (proj2 (Z.leb_le _ _)) by lia. cbn [andb]. unfold timegm, MAXYEAR.
  rewrite (proj2 (Z.ltb_ge 9999 year)) by lia. cbn. do 2 f_equal. unfold unix_time, toordinal. lia.
Qed.

Lemma http2time_imf (cur_yr : Z) (weekday name : str) :
  weekday ∈ DAYS -> MONTHS !! Z.to_nat (month - 1) = Some name -> imf_ok ->
  http2time cur_yr (imf_date weekday name year day hour minute second) = Ok (Some unix_time).
Proof.
  intros Hw Hn Hok. pose proof Hok as (Hy & [Hm Hd] & Hh & Hi & Hs). pose proof days_in_month_le as Hle.
  assert (exists w1 w2 w3, weekday = [w1; w2; w3] /\ has w1 (#"SMTWF") = true /\
            Forall (fun c => is_ascii_lower c = true) [w2; w3]) as (w1 & w2 & w3 & -> & Hw1 & Hw2).
  { unfold DAYS in Hw. rewrite !elem_of_cons, elem_of_nil in Hw.
    repeat destruct Hw as [->|Hw]; [..|done]; do 3 eexists; by repeat constructor. }
  assert (month_number name = Some month /\ exists m1 m2 m3, name = [m1; m2; m3] /\
            has m1 (#"JFMASOND") = true /\ Forall (fun c => is_ascii_lower c = true) [m2; m3])
    as (Hnum & m1 & m2 & m3 & -> & Hm1 & Hm2).
  { by apply month_named. }
  destruct (strict_reads w1 w2 w3 (48 + Z.to_N (day / 10)) (48 + Z.to_N (day mod 10)) m1 m2 m3
    (48 + Z.to_N (year / 100 / 10)) (48 + Z.to_N ((year / 100) mod 10))
    (48 + Z.to_N (year mod 100 / 10)) (48 + Z.to_N ((year mod 100) mod 10))
    (48 + Z.to_N (hour / 10)) (48 + Z.to_N (hour mod 10))
    (48 + Z.to_N (minute / 10)) (48 + Z.to_N (minute mod 10))
    (48 + Z.to_N (second / 10)) (48 + Z.to_N (second mod 10)))%N
    as (c & Hc & H1 & H2 & H3 & H4 & H5 & H6).
  - done.
  - by apply Forall_app_2 with (l1 := [w2; w3]).
  - done.
  - apply (Forall_app_2 _ (two day)); [apply two_digits; lia|].
    apply (Forall_app_2 _ (two (year / 100))); [apply two_digits; Z.div_mod_to_equations; lia|].
    apply (Forall_app_2 _ (two (year mod 100))); [apply two_digits; Z.div_mod_to_equations; lia|].
    apply (Forall_app_2 _ (two hour)); [apply two_digits; lia|].
    apply (Forall_app_2 _ (two minute)); apply two_digits; lia.
  - unfold http2time.
    change (imf_date _ _ _ _ _ _ _) with ([w1; w2; w3; 44; 32; (48 + Z.to_N (day / 10)); (48 + Z.to_N (day mod 10));
      32; m1; m2; m3; 32; (48 + Z.to_N (year / 100 / 10)); (48 + Z.to_N ((year / 100) mod 10));
      (48 + Z.to_N (year mod 100 / 10)); (48 + Z.to_N ((year mod 100) mod 10)); 32;
      (48 + Z.to_N (hour / 10)); (48 + Z.to_N (hour mod 10)); 58;
      (48 + Z.to_N (minute / 10)); (48 + Z.to_N (minute mod 10)); 58;
      (48 + Z.to_N (second / 10)); (48 + Z.to_N (second mod 10)); 32; 71; 77; 84]%N).
    rewrite Hc, H2, Hnum.
    replace (group 3 c) with (four year) by (by rewrite H3).
    replace (group 1 c) with (two day) by (by rewrite H1).
    replace (group 4 c) with (two hour) by (by rewrite H4).
    replace (group 5 c) with (two minute) by (by rewrite H5).
    replace (group 6 c) with (two second) by (by rewrite H6).
    rewrite int_of_four, !int_of_two by lia. cbn [mbind res_bind].
    by apply timegm_imf.
Qed.
End imf.

(** The same instant in the three forms the parser documents. *)
Example http2time_forms :
  (http2time 2025 (#"Wed, 09 Feb 1994 22:23:32 GMT"), http2time 2025 (#"Wednesday, 09-Feb-94 22:23:32 GMT"),
   http2time 2025 (#"09 Feb 1994 23:53:32 +0130"), http2time 2025 (#"Wed Feb 9 22:23:32 1994"))
  = (Ok (Some 760832612), Ok (Some 760832612), Ok (Some 760832612), Ok None)%Z.
Proof. vm_compute. reflexivity. Qed.
