(* ===== verification/Cookiejar.v ===== *)
(** * Cookiejar: the standard library's cookie jar, as cookies.py uses it.

    [urllib.request.Request] of a URL, and [http.cookiejar.CookieJar] under its
    default policy: the parsers of Set-Cookie and Set-Cookie2, which cookies a
    response may set, which a request may carry, and the nested dicts they are
    kept in.  RFC 2965 is off, and no list of blocked or allowed domains is
    given, so the branches of the policy that depend on those are settled. *)

From S2P Require Import Prelude Unicode PyText Dict PyUrl Regex Headers Types Errors Floats.
From S2P Require Import HttpDate.
From Stdlib Require Import Sorting.Sorted.

Definition DOT : N := 46.
Definition COMMA : N := 44.

(** The readings of [time.time()], in order and in whole seconds, and the local
    year at the time of each. *)
Class Clock := {
  clock : nat -> Z;
  local_year : nat -> Z;
}.

(** ** [urllib.request.Request(url)] *)

Record UrlRequest := mkUrlRequest {
  full_url : str;
  rq_type : str;
  rq_host : option str;
  rq_split : split_result;            (* urlsplit(full_url), as often as asked *)
}.

Definition unwrap (url : str) : str :=
  let url := strip is_space url in
  let url := if starts (#"<") url && ends (#">") url
             then strip is_space (reverse (drop 1 (reverse (drop 1 url)))) else url in
  if starts (#"URL:") url then strip is_space (drop 4 url) else url.

(** [_splittag]: the path and the fragment. *)
Definition split_tag (url : str) : str * str :=
  let '(path, found, tag) := rpartition HASH url in if found then (path, tag) else (url, []).

(** [_splittype]: [([^/:]+):( .* )] *)
Definition split_type (url : str) : option (str * str) :=
  let '(scheme, rest) := span (fun c => negb (has c [SLASH; COLON])) url in
  match rest with
  | c :: data => if (c =? COLON)%N && nonempty scheme then Some (lower scheme, data) else None
  | [] => None
  end.

(** [_splithost]: what follows a double slash, up to one of [/#?]. *)
Definition split_host (rest : str) : option str :=
  if starts [SLASH; SLASH] rest
  then Some (span (fun c => negb (has c [SLASH; HASH; QUESTION])) (drop 2 rest)).1 else None.

(** The constructor parses the URL twice: for the type and host it keeps, and
    for the origin's host. *)
Definition Request (url : str) : res exn UrlRequest :=
  let '(path, fragment) := split_tag (unwrap url) in
  let full := path ++ prefixed [HASH] fragment in
  match split_type path with
  | None => Raise (ValueError (UnknownUrlType full))
  | Some (scheme, rest) =>
      parts ← lift_url (urlsplit full);
      Ok (mkUrlRequest full scheme (unquote <$> split_host rest) parts)
  end.

(** [cut_port_re.sub("", host, 1)], on a host with no newline. *)
Definition cut_port (host : str) : str :=
  let '(name, found, port) := rpartition COLON host in
  if found && nonempty port && forallb is_ascii_digit port then name else host.

Definition request_host (rq : UrlRequest) : str := lower (cut_port (sr_netloc (rq_split rq))).

(** [eff_request_host(request)[1]]; a host with a dot may be an address. *)
Definition eff_request_host (rq : UrlRequest) : str :=
  let host := request_host rq in if has DOT host then host else host ++ #".local".

(** [ESCAPED_CHAR_RE.sub(uppercase_escaped_char, path)] *)
Fixpoint upper_escapes (s : str) : str :=
  match s with
  | c :: ((a :: b :: r) as s') =>
      if (c =? PERCENT)%N && is_hex a && is_hex b then c :: upper [a; b] ++ upper_escapes r
      else c :: upper_escapes s'
  | c :: s' => c :: upper_escapes s'
  | [] => []
  end.

Definition escape_path (path : str) : str := upper_escapes (quote (##"%/;:@&=+$,!~*'()") path).

Definition request_path (rq : UrlRequest) : str :=
  let path := escape_path (sr_path (rq_split rq)) in
  if starts [SLASH] path then path else SLASH :: path.

(** [request_port]: [None] for a port that is no number; a request without a
    host has no [find]. *)
Definition request_port (rq : UrlRequest) : res exn (option str) :=
  match rq_host rq with
  | None => Raise AttributeError
  | Some host =>
      let '(_, found, port) := partition COLON host in
      Ok (if found then match py_int port with Some _ => Some port | None => None end
          else Some (#"80"))
  end.

(** ** Parsing Set-Cookie and Set-Cookie2 *)

(** The value of a cookie-attribute: missing, text, a time or [True]. *)
Inductive attr := ANone | AStr (s : str) | AInt (n : Z) | ATrue.
#[export] Instance attr_eq_dec : EqDecision attr.
Proof. solve_decision. Defined.

Definition attr_of (v : option str) : attr := match v with Some s => AStr s | None => ANone end.

Definition strip_quotes (text : str) : str :=
  let text := if starts [DQUOTE] text then drop 1 text else text in
  if ends [DQUOTE] text then take (length text - 1) text else text.

Definition known_attrs : list str :=
  [ #"expires"; #"domain"; #"path"; #"secure"; #"version"; #"port"; #"max-age"].

(** One parameter of a Set-Cookie header: the attribute, and whether it is the
    version. *)
Definition ns_attr (cur_yr : Z) (first : bool) (key : str) (val : option str)
  : res fault (str * attr * bool) :=
  if first then Ok (key, attr_of val, false)
  else
    let lc := lower key in
    let key := if bool_decide (lc ∈ known_attrs) then lc else key in
    if bool_decide (key = #"version") then Ok (key, attr_of (strip_quotes <$> val), true)
    else if bool_decide (key = #"expires") then
      t ← match val with Some v => http2time cur_yr (strip_quotes v) | None => Ok None end;
      Ok (key, match t with Some t => AInt t | None => ANone end, false)
    else Ok (key, attr_of val, false).

Fixpoint ns_params (cur_yr : Z) (first : bool) (params : list str)
  : res fault (list (str * attr) * bool) :=
  match params with
  | [] => Ok ([], false)
  | param :: params =>
      let '(key, sep, val) := partition EQUALS (strip is_space param) in
      let key := strip is_space key in
      let val := if sep then Some (strip is_space val) else None in
      if nonempty key then
        '(key, v, versioned) ← ns_attr cur_yr first key val;
        '(pairs, version_set) ← ns_params cur_yr false params;
        Ok ((key, v) :: pairs, versioned || version_set)
      else if first then Ok ([], false)
      else ns_params cur_yr false params
  end.

Definition parse_ns_header (cur_yr : Z) (h : str) : res fault (list (str * attr)) :=
  '(pairs, version_set) ← ns_params cur_yr true (split_on SEMICOLON h);
  Ok (if nonempty pairs && negb version_set then pairs ++ [(#"version", AStr (#"0"))] else pairs).

Definition parse_ns_headers (cur_yr : Z) (hs : list str) : res fault (list (list (str * attr))) :=
  result ← res_map (parse_ns_header cur_yr) hs;
  Ok (keep nonempty result).

(** *** [split_header_words], the parser of Set-Cookie2 *)

Definition separator (c : N) : bool := is_space c || has c [EQUALS; SEMICOLON; COMMA].

(** The text of a quoted value, its escapes undone, and what follows the
    closing quote; an escaped newline is no match. *)
Fixpoint quoted_text (s : str) : option (str * str) :=
  match s with
  | [] => None
  | c :: s' =>
      if (c =? DQUOTE)%N then Some ([], s')
      else if (c =? 92)%N then
        match s' with
        | e :: s'' =>
            if (e =? LF)%N then None
            else match quoted_text s'' with Some (v, r) => Some (e :: v, r) | None => None end
        | [] => None
        end
      else match quoted_text s' with Some (v, r) => Some (c :: v, r) | None => None end
  end.

(** The value after a token: quoted, plain, or none. *)
Definition header_value (text : str) : option str * str :=
  match lstrip is_space text with
  | c :: r =>
      if (c =? EQUALS)%N then
        let r := lstrip is_space r in
        match (match r with q :: r => if (q =? DQUOTE)%N then quoted_text r else None | [] => None end) with
        | Some (v, rest) => (Some v, rest)
        | None => let '(v, rest) := span (fun c => negb (is_space c || has c [SEMICOLON; COMMA])) r in
                  (Some v, rest)
        end
      else (None, text)
  | [] => (None, text)
  end.

(** Every round takes at least one character. *)
Fixpoint header_words (fuel : nat) (pairs : list (str * attr)) (text : str)
  : list (list (str * attr)) :=
  match fuel, text with
  | O, _ | _, [] => if nonempty pairs then [pairs] else []
  | S fuel, _ =>
      let t := lstrip is_space text in
      let '(token, rest) := span (fun c => negb (separator c)) t in
      if nonempty token then
        let '(v, rest) := header_value rest in
        header_words fuel (pairs ++ [(token, attr_of v)]) rest
      else if starts [COMMA] t then
        (if nonempty pairs then [pairs] else []) ++ header_words fuel [] (drop 1 t)
      else header_words fuel pairs (lstrip (fun c => is_space c || has c [EQUALS; SEMICOLON]) text)
  end.

Definition split_header_words (hs : list str) : list (list (str * attr)) :=
  hs ≫= fun h => header_words (S (length h)) [] h.

(** ** Cookies *)

(** The attributes of a [Cookie] that anything here reads.  A version is
    missing only from a Set-Cookie2 header that names none. *)
Record Cookie := mkCookie {
  ck_version : option Z;
  ck_name : str;
  ck_value : attr;
  ck_port : option str;
  ck_port_specified : bool;
  ck_domain : str;
  ck_domain_specified : bool;
  ck_path : str;
  ck_path_specified : bool;
  ck_secure : bool;
  ck_expires : option Z;
  ck_discard : bool;
}.

#[export] Instance Cookie_eq_dec : EqDecision Cookie.
Proof. solve_decision. Defined.

Definition is_expired (now : Z) (c : Cookie) : bool :=
  match ck_expires c with Some e => (e <=? now)%Z | None => false end.

Definition boolean_attrs : list str := [ #"discard"; #"secure"].
Definition value_attrs : list str :=
  [ #"version"; #"expires"; #"max-age"; #"domain"; #"path"; #"port"; #"comment"; #"commenturl"].

(** [int(v)] on an attribute: [Ok None] is a ValueError, which is caught. *)
Definition attr_int (v : attr) : res fault (option Z) :=
  match v with
  | ANone => Raise TypeFault
  | AStr s => Ok (py_int s)
  | AInt n => Ok (Some n)
  | ATrue => Ok (Some 1%Z)
  end.

(** The standard attributes of one cookie, normalised; [Ok None] is a cookie
    to be skipped.  (The others are kept in [rest], which nothing reads.) *)
Fixpoint normalise (now : Z) (max_age_set : bool) (standard : list (str * attr))
    (attrs : list (str * attr)) : res fault (option (list (str * attr))) :=
  match attrs with
  | [] => Ok (Some standard)
  | (k, v) :: attrs =>
      let lc := lower k in
      let k := if bool_decide (lc ∈ value_attrs ++ boolean_attrs) then lc else k in
      let v := if bool_decide (k ∈ boolean_attrs) && bool_decide (v = ANone) then ATrue else v in
      if bool_decide (k ∈ standard.*1) then normalise now max_age_set standard attrs
      else if bool_decide (k = #"domain") then
        match v with
        | ANone => Ok None
        | AStr s => normalise now max_age_set (dict_set standard k (AStr (lower s))) attrs
        | _ => Raise AttributeFault
        end
      else if bool_decide (k = #"expires") then
        if max_age_set || bool_decide (v = ANone) then normalise now max_age_set standard attrs
        else normalise now max_age_set (dict_set standard k v) attrs
      else if bool_decide (k = #"max-age") then
        n ← attr_int v;
        match n with
        | None => Ok None
        | Some n => normalise now true (dict_set standard (#"expires") (AInt (now + n))) attrs
        end
      else if bool_decide (k ∈ value_attrs ++ boolean_attrs) then
        if bool_decide (v = ANone) && negb (bool_decide (k ∈ [ #"port"; #"comment"; #"commenturl"]))
        then Ok None
        else normalise now max_age_set (dict_set standard k v) attrs
      else normalise now max_age_set standard attrs
  end.

Record cookie_tuple := mkTuple { tp_name : str; tp_value : attr; tp_standard : list (str * attr) }.

Definition normalized_tuple (now : Z) (attrs : list (str * attr)) : res fault (option cookie_tuple) :=
  match attrs with
  | [] => Ok None
  | (name, value) :: rest =>
      standard ← normalise now false [] rest;
      Ok (option_map (mkTuple name value) standard)
  end.

Definition normalized_cookie_tuples (now : Z) (attrs_set : list (list (str * attr)))
  : res fault (list cookie_tuple) :=
  tps ← res_map (normalized_tuple now) attrs_set;
  Ok (omap (M:=list) id tps).

(** ** The store: domains, then paths, then names *)

Abbreviation by_name := (list (str * Cookie)).
Abbreviation by_path := (list (str * by_name)).
Abbreviation by_domain := (list (str * by_path)).

Record Jar := mkStandardJar { cookies : by_domain; ticks : nat }.

(** [CookieJar()] *)
Definition Jar_init : Jar := mkStandardJar [] 0.

(** [deepvalues(self._cookies)] *)
Definition names_cookies (names : by_name) : list Cookie := names.*2.
Definition paths_cookies (paths : by_path) : list Cookie := contents names_cookies paths.
Definition all_cookies (d : by_domain) : list Cookie := contents paths_cookies d.

(** [del self._cookies[domain][path][name]]; a KeyError leaves the store. *)
Definition clear_cookie (d : by_domain) (domain path name : str) : by_domain :=
  match dict_get d domain with
  | None => d
  | Some paths =>
      match dict_get paths path with
      | None => d
      | Some names => dict_set d domain (dict_set paths path (dict_del names name))
      end
  end.

(** [set_cookie(cookie)] *)
Definition set_cookie (d : by_domain) (c : Cookie) : by_domain :=
  let paths := default [] (dict_get d (ck_domain c)) in
  let names := default [] (dict_get paths (ck_path c)) in
  dict_set d (ck_domain c) (dict_set paths (ck_path c) (dict_set names (ck_name c) c)).

(** ** From attributes to a cookie *)

Section make_cookies.
Context (rq : UrlRequest) (now : Z).

(** An exception inside the jar's [try]. *)
Definition inside {A} (r : res exn A) : res fault A :=
  match r with Ok a => Ok a | Raise _ => Raise AttributeFault end.

Definition truth (v : option attr) : bool :=
  match v with
  | Some ATrue => true
  | Some (AStr s) => nonempty s
  | Some (AInt n) => negb (n =? 0)%Z
  | Some ANone | None => false
  end.

(** Where a cookie without a Path belongs: the directory of the request. *)
Definition default_path (version : option Z) : str :=
  let '(dir, _, _) := rpartition SLASH (request_path rq) in
  let path := if bool_decide (version = Some 0%Z) then dir else dir ++ [SLASH] in
  if nonempty path then path else [SLASH].

(** Cookie(...): the expiry goes through a float. *)
Definition as_float (expires : option Z) : res fault (option Z) :=
  match expires with
  | None => Ok None
  | Some e =>
      match float_of_Z e with
      | Some x => match truncate x with Some n => Ok (Some n) | None => Raise OverflowFault end
      | None => Raise OverflowFault
      end
  end.

(** [standard.get("version")], [Ok None] being a version that is no number. *)
Definition tuple_version (v : option attr) : res fault (option (option Z)) :=
  match v with
  | None | Some ANone => Ok (Some None)
  | Some v => n ← attr_int v; Ok (option_map Some n)
  end.

(** The Port attribute: the port of the request when it has no value. *)
Definition tuple_port (v : option attr) : res fault (option str * bool) :=
  match v with
  | None => Ok (None, false)
  | Some (AStr s) => Ok (Some (keep (fun c => negb (is_space c)) s), true)
  | Some ANone => port ← inside (request_port rq); Ok (port, false)
  | Some _ => Raise TypeFault
  end.

Definition tuple_path (version : option Z) (v : option attr) : str * bool :=
  match v with
  | Some (AStr (c :: p)) => (escape_path (c :: p), true)
  | _ => (default_path version, false)
  end.

Definition tuple_domain (v : option attr) : str * bool :=
  match v with
  | Some (AStr d) => (if starts [DOT] d then d else DOT :: d, true)
  | _ => (eff_request_host rq, false)
  end.

(** [_cookie_from_cookie_tuple]: a cookie that has expired is removed from the
    store instead. *)
Definition cookie_from_tuple (tp : cookie_tuple) (d : by_domain)
  : res fault (option Cookie) * by_domain :=
  let get := dict_get (tp_standard tp) in
  match tuple_version (get (#"version")) with
  | Raise e => (Raise e, d)
  | Ok None => (Ok None, d)
  | Ok (Some version) =>
      let '(path, path_specified) := tuple_path version (get (#"path")) in
      let '(domain, domain_specified) := tuple_domain (get (#"domain")) in
      match tuple_port (get (#"port")) with
      | Raise e => (Raise e, d)
      | Ok (port, port_specified) =>
          let made expires discard :=
            e ← as_float expires;
            Ok (Some (mkCookie version (tp_name tp) (tp_value tp) port port_specified
                        (lower domain) domain_specified path path_specified
                        (truth (get (#"secure"))) e discard)) in
          match get (#"expires") with
          | None => (made None true, d)
          | Some (AInt e) =>
              if (e <=? now)%Z then (Ok None, clear_cookie d domain path (tp_name tp))
              else (made (Some e) (truth (get (#"discard"))), d)
          | Some _ => (Raise TypeFault, d)
          end
      end
  end.

Fixpoint cookies_from_tuples (tps : list cookie_tuple) (d : by_domain)
  : res fault (list Cookie) * by_domain :=
  match tps with
  | [] => (Ok [], d)
  | tp :: tps =>
      match cookie_from_tuple tp d with
      | (Raise e, d) => (Raise e, d)
      | (Ok c, d) =>
          let '(r, d) := cookies_from_tuples tps d in
          ((cs ← r; Ok (match c with Some c => c :: cs | None => cs end)), d)
      end
  end.

(** [_cookies_from_attrs_set], under [except Exception]: a fault costs every
    cookie of the header, not what was removed before it. *)
Definition cookies_from_attrs_set (attrs_set : res fault (list (list (str * attr)))) (d : by_domain)
  : list Cookie * by_domain :=
  match (a ← attrs_set; normalized_cookie_tuples now a) with
  | Raise _ => ([], d)
  | Ok tps =>
      let '(r, d) := cookies_from_tuples tps d in
      (match r with Ok cs => cs | Raise _ => [] end, d)
  end.

(** [_process_rfc2109_cookies]: RFC 2109 cookies become Netscape ones. *)
Definition as_netscape (c : Cookie) : Cookie :=
  if bool_decide (ck_version c = Some 1%Z)
  then mkCookie (Some 0%Z) (ck_name c) (ck_value c) (ck_port c) (ck_port_specified c) (ck_domain c)
         (ck_domain_specified c) (ck_path c) (ck_path_specified c) (ck_secure c) (ck_expires c)
         (ck_discard c)
  else c.
End make_cookies.

(** [headers.get_all(name, [])] *)
Definition get_all (name : str) (message : header_pairs) : list str := snd <$> keep (named name) message.

(** [make_cookies], at a time and in a local year. *)
Definition make_cookies (now cur_yr : Z) (message : header_pairs) (rq : UrlRequest) (d : by_domain)
  : list Cookie * by_domain :=
  let rfc2965_hdrs := get_all (#"set-cookie2") message in
  let ns_hdrs := get_all (#"set-cookie") message in
  if nonempty ns_hdrs then
    let '(cs2, d) := cookies_from_attrs_set rq now (Ok (split_header_words rfc2965_hdrs)) d in
    let '(cs, d) := cookies_from_attrs_set rq now (parse_ns_headers cur_yr ns_hdrs) d in
    (cs2 ++ (as_netscape <$> cs), d)
  else ([], d).

(** ** The default policy *)

Definition positive (version : option Z) : bool :=
  match version with Some n => (0 <? n)%Z | None => false end.

Definition is_netscape (c : Cookie) : bool := bool_decide (ck_version c = Some 0%Z).

Definition set_ok_version (c : Cookie) : bool :=
  match ck_version c with None => false | Some n => negb (0 <? n)%Z end.

Definition set_ok_domain (c : Cookie) (rq : UrlRequest) : bool :=
  if ck_domain_specified c then
    let erhn := eff_request_host rq in
    let domain := ck_domain c in
    let undotted := if starts [DOT] domain then drop 1 domain else domain in
    if negb (has DOT undotted) && negb (ends (#".local") erhn) then false
    else if is_netscape c
            && (negb (ends domain erhn || ends (undotted ++ #".local") erhn)
                && (negb (starts [DOT] erhn) && negb (ends domain (DOT :: erhn))))
    then false
    else true
  else true.

(** Whether a list of ports, read in order, comes to [port]; one that is no
    number ends the search. *)
Fixpoint port_listed (port : str) (ps : list str) : bool :=
  match ps with
  | [] => false
  | p :: ps =>
      match py_int p with
      | None => false
      | Some _ => if bool_decide (p = port) then true else port_listed port ps
      end
  end.

Definition set_ok_port (c : Cookie) (rq : UrlRequest) : res exn bool :=
  if ck_port_specified c then
    port ← request_port rq;
    Ok (port_listed (default (#"80") port) (split_on COMMA (default [] (ck_port c))))
  else Ok true.

Definition set_ok (c : Cookie) (rq : UrlRequest) : res exn bool :=
  if set_ok_version c && set_ok_domain c rq then set_ok_port c rq else Ok false.

Definition dotted (domain : str) : str :=
  if nonempty domain && negb (starts [DOT] domain) then DOT :: domain else domain.

Definition domain_return_ok (domain : str) (rq : UrlRequest) : bool :=
  let lead h := if starts [DOT] h then h else DOT :: h in
  ends (dotted domain) (lead (request_host rq)) || ends (dotted domain) (lead (eff_request_host rq)).

Definition path_return_ok (path : str) (rq : UrlRequest) : bool :=
  let req_path := request_path rq in
  bool_decide (req_path = path)
  || starts path req_path
     && (ends [SLASH] path || bool_decide (take 1 (drop (length path) req_path) = [SLASH])).

Definition return_ok_secure (c : Cookie) (rq : UrlRequest) : bool :=
  negb (ck_secure c && negb (bool_decide (rq_type rq ∈ [ #"https"; #"wss"]))).

Definition return_ok_port (c : Cookie) (rq : UrlRequest) : res exn bool :=
  match ck_port c with
  | Some (x :: p) =>
      port ← request_port rq;
      Ok (bool_decide (default (#"80") port ∈ split_on COMMA (x :: p)))
  | _ => Ok true
  end.

Definition return_ok_domain (c : Cookie) (rq : UrlRequest) : bool :=
  negb (is_netscape c && negb (ends (dotted (ck_domain c)) (DOT :: eff_request_host rq))).

Definition return_ok (now : Z) (c : Cookie) (rq : UrlRequest) : res exn bool :=
  if negb (positive (ck_version c)) && return_ok_secure c rq && negb (is_expired now c) then
    ok ← return_ok_port c rq;
    Ok (ok && return_ok_domain c rq)
  else Ok false.

(** ** The jar's operations *)

Section jar.
Context `{CK : Clock}.

(** A comprehension with a test that may raise. *)
Fixpoint res_keep {A} (f : A -> res exn bool) (l : list A) : res exn (list A) :=
  match l with
  | [] => Ok []
  | x :: l => b ← f x; ys ← res_keep f l; Ok (if b : bool then x :: ys else ys)
  end.

Definition cookies_for_path (now : Z) (rq : UrlRequest) (p : str * by_name) : res exn (list Cookie) :=
  if path_return_ok p.1 rq then res_keep (fun c => return_ok now c rq) p.2.*2 else Ok [].

Definition cookies_for_domain (now : Z) (rq : UrlRequest) (p : str * by_path)
  : res exn (list Cookie) :=
  if domain_return_ok p.1 rq 
  then css ← res_map (cookies_for_path now rq) p.2; Ok (mjoin (M:=list) css) else Ok [].

Definition cookies_for_request (now : Z) (rq : UrlRequest) (d : by_domain) : res exn (list Cookie) :=
  css ← res_map (cookies_for_domain now rq) d;
  Ok (mjoin (M:=list) css).

(** [cookies.sort(key=lambda a: len(a.path), reverse=True)]: stable, the
    longest path first. *)
Fixpoint insert_longest (c : Cookie) (cs : list Cookie) : list Cookie :=
  match cs with
  | [] => [c]
  | c' :: cs => if length (ck_path c') <=? length (ck_path c) then c :: c' :: cs
                else c' :: insert_longest c cs
  end.

Definition longest_first (cs : list Cookie) : list Cookie := foldr insert_longest [] cs.

(** [_cookie_attrs], for cookies of no positive version: no other is returned
    by the policy. *)
Definition cookie_attr (c : Cookie) : str :=
  match ck_value c with AStr v => ck_name c ++ [EQUALS] ++ v | _ => ck_name c end.

(** [clear_expired_cookies()] *)
Definition clear_expired_cookies (j : Jar) : Jar :=
  let now := clock (ticks j) in
  mkStandardJar
    (foldl (fun d c => clear_cookie d (ck_domain c) (ck_path c) (ck_name c)) (cookies j)
       (keep (is_expired now) (all_cookies (cookies j))))
    (S (ticks j)).

(** [add_cookie_header(request)] and the header the request has then. *)
Definition add_cookie_header (rq : UrlRequest) : st Jar exn (option str) := fun j =>
  let j' := mkStandardJar (cookies j) (S (ticks j)) in
  match cookies_for_request (clock (ticks j)) rq (cookies j) with
  | Raise e => (Raise e, j')
  | Ok cs =>
      let attrs := cookie_attr <$> longest_first cs in
      (Ok (if nonempty attrs then Some (join_with (#"; ") attrs) else None), clear_expired_cookies j')
  end.

Fixpoint set_cookies (rq : UrlRequest) (cs : list Cookie) : st by_domain exn unit := fun d =>
  match cs with
  | [] => (Ok tt, d)
  | c :: cs =>
      match set_ok c rq with
      | Raise e => (Raise e, d)
      | Ok true => set_cookies rq cs (set_cookie d c)
      | Ok false => set_cookies rq cs d
      end
  end.

(** [extract_cookies(response, request)] *)
Definition extract_cookies (message : header_pairs) (rq : UrlRequest) : st Jar exn unit := fun j =>
  let '(cs, d) := make_cookies (clock (ticks j)) (local_year (ticks j)) message rq (cookies j) in
  let '(r, d) := set_cookies rq cs d in
  (r, mkStandardJar d (S (ticks j))).

(** [clear()] *)
Definition Jar_clear (j : Jar) : Jar := mkStandardJar [] (ticks j).
End jar.

(** ** The store's shape *)

(** What a cookie is filed under. *)
Definition ck_key (c : Cookie) : str * str * str := (ck_domain c, ck_path c, ck_name c).

Definition names_ok (domain path : str) : by_name -> Prop :=
  dict_ok (fun name c => ck_key c = (domain, path, name)).
Definition paths_ok (domain : str) : by_path -> Prop := dict_ok (names_ok domain).
Definition filed : by_domain -> Prop := dict_ok paths_ok.

Lemma filed_get (d : by_domain) (k : str) : filed d -> paths_ok k (default [] (dict_get d k)).
Proof.
  intros H. destruct (dict_get d k) as [v|] eqn:E; [by eapply (dict_ok_get paths_ok)|apply dict_ok_nil].
Qed.

Lemma paths_get (domain k : str) (d : by_path) :
  paths_ok domain d -> names_ok domain k (default [] (dict_get d k)).
Proof.
  intros H. destruct (dict_get d k) as [v|] eqn:E;
    [by eapply (dict_ok_get (names_ok domain))|apply dict_ok_nil].
Qed.

Lemma filed_set_cookie (d : by_domain) (c : Cookie) : filed d -> filed (set_cookie d c).
Proof.
  intros H. unfold set_cookie. apply dict_ok_set; [done|].
  apply dict_ok_set; [by apply filed_get|]. apply dict_ok_set; [by apply paths_get, filed_get|done].
Qed.

Lemma filed_clear_cookie (d : by_domain) (a b n : str) : filed d -> filed (clear_cookie d a b n).
Proof.
  intros H. unfold clear_cookie. destruct (dict_get d a) as [paths|] eqn:Ea; [|done].
  destruct (dict_get paths b) as [names|] eqn:Eb; [|done].
  pose proof (dict_ok_get paths_ok _ _ _ H Ea) as Hp.
  pose proof (dict_ok_get (names_ok a) _ _ _ Hp Eb) as Hn.
  apply dict_ok_set; [done|]. apply dict_ok_set; [done|]. by apply dict_ok_del.
Qed.

Lemma all_cookies_filed (d : by_domain) (c : Cookie) :
  filed d -> c ∈ all_cookies d ->
  exists paths names, (ck_domain c, paths) ∈ d /\ (ck_path c, names) ∈ paths /\ (ck_name c, c) ∈ names.
Proof.
  intros [_ H] (a & paths & Hd & (b & names & Hp & Hc)%elem_of_contents)%elem_of_contents.
  apply list_elem_of_fmap in Hc as ([n c'] & -> & Hn).
  rewrite Forall_forall in H. destruct (H _ Hd) as [_ H1]. rewrite Forall_forall in H1.
  destruct (H1 _ Hp) as [_ H2]. rewrite Forall_forall in H2. specialize (H2 _ Hn).
  cbn [fst snd] in *. injection H2 as -> -> ->. eauto.
Qed.

(** No two cookies of a store share their domain, path and name. *)
Lemma filed_nodup (d : by_domain) : filed d -> NoDup (ck_key <$> all_cookies d).
Proof.
  intros H. apply (contents_nodup _ ck_key (fun l => l.1.1)). eapply dict_ok_impl; [|exact H].
  intros a paths Hp. split.
  - apply (contents_nodup _ ck_key (fun l => l.1.2)). eapply dict_ok_impl; [|exact Hp].
    intros b names Hn. split.
    + destruct Hn as [Hk Hn]. unfold names_cookies.
      replace (ck_key <$> names.*2) with ((fun n => (a, b, n)) <$> names.*1); [by apply NoDup_fmap_2; [intros ?? [=]|]|].
      clear Hk. induction Hn as [|[n c] names Hc Hn IH]; [done|]. rewrite !fmap_cons, IH. by rewrite Hc.
    + intros c (e & -> & He)%list_elem_of_fmap. destruct Hn as [_ Hn]. rewrite Forall_forall in Hn.
      by rewrite (Hn e He).
  - intros c (b & names & Hin & (e & -> & He)%list_elem_of_fmap)%elem_of_contents.
    destruct Hp as [_ Hp]. rewrite Forall_forall in Hp. destruct (Hp _ Hin) as [_ Hn].
    rewrite Forall_forall in Hn. by rewrite (Hn e He).
Qed.

Lemma elem_of_set_cookie (d : by_domain) (c c' : Cookie) :
  c' ∈ all_cookies (set_cookie d c) -> c' = c \/ c' ∈ all_cookies d.
Proof.
  unfold set_cookie. intros [H|H]%elem_of_contents_set; [|by right].
  apply elem_of_contents_set in H as [H|H].
  - apply list_elem_of_fmap in H as ([n c1] & -> & [[= -> ->]|Hn]%elem_of_dict_set); [by left|right].
    destruct (dict_get d (ck_domain c)) as [paths|] eqn:Ed; [|by apply elem_of_nil in Hn].
    cbn in Hn. destruct (dict_get paths (ck_path c)) as [names|] eqn:Ep; [|by apply elem_of_nil in Hn].
    eapply elem_of_contents_get; [exact Ed|]. eapply elem_of_contents_get; [exact Ep|].
    apply list_elem_of_fmap. by exists (n, c1).
  - right. destruct (dict_get d (ck_domain c)) as [paths|] eqn:Ed; [|by apply elem_of_nil in H].
    eapply elem_of_contents_get; [exact Ed|exact H].
Qed.

Lemma set_cookie_has (d : by_domain) (c : Cookie) : c ∈ all_cookies (set_cookie d c).
Proof.
  apply elem_of_contents. do 2 eexists. split; [apply dict_set_has|].
  apply elem_of_contents. do 2 eexists. split; [apply dict_set_has|].
  apply list_elem_of_fmap. eexists. split; [|apply dict_set_has]. done.
Qed.

(** Removing a key removes the cookie filed under it, and keeps the order. *)
Lemma names_del (a b n : str) (names : by_name) :
  names_ok a b names ->
  names_cookies (dict_del names n)
  = keep (fun c => negb (bool_decide (ck_key c = (a, b, n)))) (names_cookies names).
Proof.
  intros [Hd Hf]. unfold names_cookies. induction Hf as [|[n' c] names Hc Hf IH]; [done|].
  rewrite fmap_cons in Hd. apply NoDup_cons in Hd as [Hn Hd]. cbn in *. rewrite Hc.
  destruct (decide (n' = n)) as [->|Hne].
  - rewrite !bool_decide_eq_true_2 by done. cbn. symmetry. apply keep_all. apply Forall_fmap, Forall_forall.
    intros [n1 c1] Hin. cbn. rewrite Forall_forall in Hf. pose proof (Hf _ Hin) as Hk. cbn in Hk. rewrite Hk.
    rewrite bool_decide_eq_false_2; [done|]. intros [= ->]. apply Hn, list_elem_of_fmap. by exists (n, c1).
  - rewrite !bool_decide_eq_false_2 by congruence. cbn. by rewrite IH.
Qed.

Lemma clear_cookie_all (d : by_domain) (a b n : str) :
  filed d ->
  all_cookies (clear_cookie d a b n)
  = keep (fun c => negb (bool_decide (ck_key c = (a, b, n)))) (all_cookies d).
Proof.
  intros H. assert (forall c, c ∈ all_cookies d -> filed d ->
    (dict_get d a = None \/ exists paths, dict_get d a = Some paths /\ dict_get paths b = None) ->
    negb (bool_decide (ck_key c = (a, b, n))) = true) as Hnone.
  { intros c Hc _ Hg. rewrite bool_decide_eq_false_2; [done|]. intros Hk.
    destruct (all_cookies_filed d c H Hc) as (paths & names & Hd & Hp & _). injection Hk as E1 E2 E3.
    rewrite E1 in Hd. rewrite E2 in Hp. apply (dict_get_in _ _ _ (proj1 H)) in Hd.
    destruct Hg as [Hg|(paths' & Hg & Hg')]; [congruence|]. rewrite Hg in Hd. injection Hd as ->.
    apply dict_get_none in Hg'. apply Hg', list_elem_of_fmap. by exists (b, names). }
  unfold clear_cookie. destruct (dict_get d a) as [paths|] eqn:Ea.
  2:{ symmetry. apply keep_all, Forall_forall. intros c Hc. apply (Hnone c Hc H). by left. }
  destruct (dict_get paths b) as [names|] eqn:Eb.
  2:{ symmetry. apply keep_all, Forall_forall. intros c Hc. apply (Hnone c Hc H). right. eauto. }
  clear Hnone. pose proof (dict_ok_get paths_ok _ _ _ H Ea) as Hp.
  pose proof (dict_ok_get (names_ok a) _ _ _ Hp Eb) as Hn. destruct H as [Hd Hf].
  unfold all_cookies. eapply contents_replace; [done|exact Ea| |].
  - unfold paths_cookies. eapply contents_replace; [apply Hp|exact Eb|by apply names_del|].
    intros b' names' Hin Hne. apply keep_all, Forall_forall. intros c (e & -> & He)%list_elem_of_fmap.
    destruct Hp as [_ Hp]. rewrite Forall_forall in Hp. destruct (Hp _ Hin) as [_ Hn'].
    rewrite Forall_forall in Hn'. rewrite (Hn' e He). rewrite bool_decide_eq_false_2; [done|]. cbn. congruence.
  - intros a' paths' Hin Hne. apply keep_all, Forall_forall.
    intros c (b' & names' & Hin' & (e & -> & He)%list_elem_of_fmap)%elem_of_contents.
    rewrite Forall_forall in Hf. destruct (Hf _ Hin) as [_ Hp']. rewrite Forall_forall in Hp'.
    destruct (Hp' _ Hin') as [_ Hn']. rewrite Forall_forall in Hn'. rewrite (Hn' e He).
    rewrite bool_decide_eq_false_2; [done|]. cbn. congruence.
Qed.

(** Clearing the expired leaves the others, in order. *)
Lemma clear_all (cs : list Cookie) (d : by_domain) :
  filed d ->
  let d' := foldl (fun d c => clear_cookie d (ck_domain c) (ck_path c) (ck_name c)) d cs in
  filed d' /\ all_cookies d' = keep (fun c => negb (bool_decide (ck_key c ∈ ck_key <$> cs))) (all_cookies d).
Proof.
  revert d. induction cs as [|c cs IH]; intros d H; cbn [foldl].
  - split; [done|]. symmetry. apply keep_all, Forall_forall. intros c _.
    rewrite bool_decide_eq_false_2; [done|apply not_elem_of_nil].
  - destruct (IH _ (filed_clear_cookie d (ck_domain c) (ck_path c) (ck_name c) H)) as [H1 H2].
    split; [done|]. rewrite H2, clear_cookie_all, keep_keep by done. apply keep_ext. intros c' _.
    rewrite <- negb_orb, fmap_cons. f_equal. fold (ck_key c). rewrite <- bool_decide_or.
    apply bool_decide_ext. rewrite elem_of_cons. tauto.
Qed.

Lemma key_inj (d : by_domain) (c c' : Cookie) :
  filed d -> c ∈ all_cookies d -> c' ∈ all_cookies d -> ck_key c = ck_key c' -> c = c'.
Proof.
  intros H Hc Hc' E. destruct (all_cookies_filed d c H Hc) as (p & n & H1 & H2 & H3).
  destruct (all_cookies_filed d c' H Hc') as (p' & n' & H1' & H2' & H3').
  injection E as Ed Ep En. rewrite Ed, Ep, En in *.
  apply (dict_get_in _ _ _ (proj1 H)) in H1 as G1. pose proof (dict_ok_get paths_ok _ _ _ H G1) as Hp.
  apply (dict_get_in _ _ _ (proj1 H)) in H1'. rewrite G1 in H1'. injection H1' as <-.
  apply (dict_get_in _ _ _ (proj1 Hp)) in H2 as G2. pose proof (dict_ok_get (names_ok _) _ _ _ Hp G2) as Hn.
  apply (dict_get_in _ _ _ (proj1 Hp)) in H2'. rewrite G2 in H2'. injection H2' as <-.
  apply (dict_get_in _ _ _ (proj1 Hn)) in H3, H3'. congruence.
Qed.

Lemma clear_expired_all `{CK : Clock} (j : Jar) :
  filed (cookies j) ->
  let j' := clear_expired_cookies j in
  filed (cookies j')
  /\ all_cookies (cookies j') = keep (fun c => negb (is_expired (clock (ticks j)) c)) (all_cookies (cookies j)).
Proof.
  intros H j'. unfold j', clear_expired_cookies. cbn [cookies]. destruct (clear_all (keep (is_expired (clock (ticks j))) (all_cookies (cookies j))) _ H) as [H1 H2].
  split; [done|]. rewrite H2. apply keep_ext. intros c Hc. f_equal.
  apply eq_bool_prop_intro. rewrite !Is_true_true, bool_decide_eq_true. split.
  - intros (c' & E & Hin)%list_elem_of_fmap. apply elem_of_keep in Hin as [He Hin].
    by rewrite (key_inj _ _ _ H Hc Hin E).
  - intros He. apply list_elem_of_fmap. exists c. split; [done|]. by apply elem_of_keep.
Qed.

(** ** Which cookies are returned *)

Definition yes (r : res exn bool) : bool := match r with Ok b => b | Raise _ => false end.

(** The whole of the policy on one cookie: its domain, its path, and the rest. *)
Definition returned (now : Z) (rq : UrlRequest) (c : Cookie) : bool :=
  domain_return_ok (ck_domain c) rq && (path_return_ok (ck_path c) rq && yes (return_ok now c rq)).

Lemma res_keep_ok {A} (f : A -> res exn bool) (l l' : list A) :
  res_keep f l = Ok l' -> l' = keep (fun x => yes (f x)) l.
Proof.
  revert l'. induction l as [|x l IH]; intros l'; cbn; [by intros [= <-]|].
  destruct (f x) as [b|]; cbn; [|done]. destruct (res_keep f l) as [ys|]; cbn; [|done].
  intros [= <-]. rewrite (IH ys eq_refl). by destruct b.
Qed.

Lemma res_map_contents {K V} (f : V -> list Cookie) (g : K * V -> res exn (list Cookie))
    (q : Cookie -> bool) (d : list (K * V)) (css : list (list Cookie)) :
  (forall e cs, e ∈ d -> g e = Ok cs -> cs = keep q (f e.2)) ->
  res_map g d = Ok css -> mjoin css = keep q (contents f d).
Proof.
  revert css. induction d as [|e d IH]; intros css Hg; cbn [res_map]; [by intros [= <-]|].
  destruct (g e) as [cs|] eqn:E; cbn [mbind res_bind]; [|done].
  destruct (res_map g d) as [css'|] eqn:Es; cbn [mbind res_bind]; [|done].
  intros [= <-]. unfold contents. rewrite bind_cons, keep_app.
  rewrite <- (Hg e cs); [|by left|done]. cbn [mjoin list_join]. f_equal. apply IH; [|done].
  intros e' cs' Hin. apply Hg. by right.
Qed.

Lemma cookies_for_request_ok (now : Z) (rq : UrlRequest) (d : by_domain) (cs : list Cookie) :
  filed d -> cookies_for_request now rq d = Ok cs -> cs = keep (returned now rq) (all_cookies d).
Proof.
  intros H. unfold cookies_for_request.
  destruct (res_map _ d) as [css|] eqn:E; cbn [mbind res_bind]; [|done]. intros [= <-].
  eapply res_map_contents; [|exact E]. clear E css. intros [a paths] cs Hd. cbn.
  destruct H as [_ H]. rewrite Forall_forall in H. specialize (H _ Hd) as [_ Hp]. cbn in Hp.
  rewrite Forall_forall in Hp.
  assert (forall b names, (b, names) ∈ paths -> forall c, c ∈ names_cookies names ->
            ck_domain c = a /\ ck_path c = b) as Hk.
  { intros b names Hin c (e & -> & He)%list_elem_of_fmap. destruct (Hp _ Hin) as [_ Hn].
    rewrite Forall_forall in Hn. specialize (Hn _ He). by injection Hn. }
  unfold cookies_for_domain. cbn. destruct (domain_return_ok a rq) eqn:Ea.
  - destruct (res_map _ paths) as [css|] eqn:E; cbn; [|done]. intros [= <-].
    eapply res_map_contents; [|exact E]. intros [b names] cs Hin. unfold cookies_for_path. cbn.
    destruct (path_return_ok b rq) eqn:Eb.
    + intros ->%res_keep_ok. apply keep_ext. intros c Hc. destruct (Hk b names Hin c Hc) as [E1 E2].
      unfold returned. by rewrite E1, E2, Ea, Eb.
    + intros [= <-]. symmetry. apply keep_none, Forall_forall. intros c Hc.
      destruct (Hk b names Hin c Hc) as [E1 E2]. unfold returned. by rewrite E1, E2, Ea, Eb.
  - intros [= <-]. symmetry. apply keep_none, Forall_forall.
    intros c (b & names & Hin & Hc)%elem_of_contents. destruct (Hk b names Hin c Hc) as [E1 _].
    unfold returned. by rewrite E1, Ea.
Qed.

(** A URL with an authority raises nothing. *)
Lemma res_keep_total {A} (f : A -> res exn bool) (l : list A) :
  (forall x, is_ok (f x) = true) -> is_ok (res_keep f l) = true.
Proof.
  intros Hf. induction l as [|x l IH]; cbn; [done|]. specialize (Hf x).
  destruct (f x); cbn; [|done]. by destruct (res_keep f l).
Qed.

Lemma res_map_total {A B} (f : A -> res exn B) (l : list A) :
  (forall x, is_ok (f x) = true) -> is_ok (res_map f l) = true.
Proof.
  intros Hf. induction l as [|x l IH]; cbn; [done|]. specialize (Hf x).
  destruct (f x); cbn; [|done]. by destruct (res_map f l).
Qed.

Lemma return_ok_total (now : Z) (c : Cookie) (rq : UrlRequest) :
  is_Some (rq_host rq) \/ ck_port c = None -> is_ok (return_ok now c rq) = true.
Proof.
  intros Hh. unfold return_ok, return_ok_port. case_match; [|done].
  destruct (ck_port c) as [[|x p]|] eqn:Ep; cbn; [done| |done].
  destruct Hh as [[h Hh]|]; [|done]. unfold request_port. rewrite Hh.
  by destruct (partition COLON h) as [[a f] b].
Qed.

Lemma cookies_for_request_total (now : Z) (rq : UrlRequest) (d : by_domain) :
  is_Some (rq_host rq) -> is_ok (cookies_for_request now rq d) = true.
Proof.
  intros Hh. unfold cookies_for_request.
  assert (is_ok (res_map (cookies_for_domain now rq) d) = true) as H.
  { apply res_map_total. intros [a paths]. unfold cookies_for_domain. cbn. destruct (domain_return_ok a rq); [|done].
    assert (is_ok (res_map (cookies_for_path now rq) paths) = true) as H; [|by destruct (res_map _ paths)].
    apply res_map_total. intros [b names]. unfold cookies_for_path. cbn.
    destruct (path_return_ok b rq); [|done]. apply res_keep_total. intros c. apply return_ok_total. by left. }
  by destruct (res_map _ d).
Qed.

(** The order of the header: a permutation of what was chosen, longest path
    first. *)
Lemma insert_longest_perm (c : Cookie) (cs : list Cookie) : insert_longest c cs ≡ₚ c :: cs.
Proof.
  induction cs as [|c' cs IH]; cbn; [done|]. destruct (_ <=? _); [done|].
  rewrite IH. apply Permutation_swap.
Qed.

Lemma longest_first_perm (cs : list Cookie) : longest_first cs ≡ₚ cs.
Proof. induction cs as [|c cs IH]; cbn; [done|]. by rewrite insert_longest_perm, IH. Qed.

Definition no_shorter (c c' : Cookie) : Prop := length (ck_path c') <= length (ck_path c).

Lemma longest_first_sorted (cs : list Cookie) : StronglySorted no_shorter (longest_first cs).
Proof.
  induction cs as [|c cs IH]; [constructor|]. revert IH.
  change (longest_first (c :: cs)) with (insert_longest c (longest_first cs)).
  generalize (longest_first cs) as l. clear. intros l.
  induction 1 as [|c' l Hl IH Hc']; cbn; [by repeat constructor|].
  destruct (Nat.leb_spec (length (ck_path c')) (length (ck_path c))) as [Hle|Hlt].
  - constructor; [by constructor|]. constructor; [done|]. eapply Forall_impl; [exact Hc'|].
    unfold no_shorter. intros x Hx. lia.
  - constructor; [done|]. apply Forall_forall. intros x Hx. rewrite insert_longest_perm in Hx.
    apply elem_of_cons in Hx as [->|Hx]; [unfold no_shorter; lia|]. rewrite Forall_forall in Hc'. by apply Hc'.
Qed.

(** ** What a response may put in the store *)

Lemma eff_request_host_lower (rq : UrlRequest) : lower (eff_request_host rq) = eff_request_host rq.
Proof.
  unfold eff_request_host, request_host. destruct (has DOT _); [apply lower_idem|].
  by rewrite lower_app, lower_idem.
Qed.

Lemma eff_request_host_nonempty (rq : UrlRequest) : eff_request_host rq <> [].
Proof.
  unfold eff_request_host. destruct (has DOT _) eqn:E; [|by destruct (request_host rq)].
  intros H. by rewrite H in E.
Qed.

(** The domain of a cookie is the host's own, or starts with a dot. *)
Definition made (rq : UrlRequest) (c : Cookie) : Prop :=
  if ck_domain_specified c then starts [DOT] (ck_domain c) = true
  else ck_domain c = eff_request_host rq.

Lemma made_domain (rq : UrlRequest) (v : option attr) :
  let '(domain, specified) := tuple_domain rq v in
  if specified then starts [DOT] (lower domain) = true else lower domain = eff_request_host rq.
Proof.
  unfold tuple_domain. destruct v as [[|d| |]|]; try apply eff_request_host_lower.
  destruct (starts [DOT] d) eqn:E.
  - apply starts_true in E as [t ->]. rewrite lower_app. apply starts_app.
  - change (DOT :: d) with ([DOT] ++ d). rewrite lower_app. apply starts_app.
Qed.

Definition grows_from (d d' : by_domain) : Prop := forall c, c ∈ all_cookies d' -> c ∈ all_cookies d.

Lemma clear_cookie_grows (d : by_domain) (a b n : str) : filed d -> grows_from d (clear_cookie d a b n).
Proof. intros H c. rewrite clear_cookie_all by done. by intros [_ ?]%elem_of_keep. Qed.

Lemma cookie_from_tuple_made (rq : UrlRequest) (now : Z) (tp : cookie_tuple) (d d' : by_domain)
    (r : res fault (option Cookie)) :
  filed d -> cookie_from_tuple rq now tp d = (r, d') ->
  filed d' /\ grows_from d d' /\ forall c, r = Ok (Some c) -> made rq c.
Proof.
  intros H. unfold cookie_from_tuple.
  destruct (tuple_version _) as [[version|]|]; [|intros [= <- <-]; by refine (conj H (conj (fun c Hc => Hc) _))..].
  destruct (tuple_path rq version _) as [path path_specified].
  pose proof (made_domain rq (dict_get (tp_standard tp) (#"domain"))) as Hd.
  destruct (tuple_domain rq _) as [domain domain_specified].
  destruct (tuple_port rq _) as [[port port_specified]|]; [|intros [= <- <-]; by refine (conj H (conj (fun c Hc => Hc) _))].
  assert (forall expires discard c, (e ← as_float expires;
            Ok (Some (mkCookie version (tp_name tp) (tp_value tp) port port_specified
                        (lower domain) domain_specified path path_specified
                        (truth (dict_get (tp_standard tp) (#"secure"))) e discard))) = Ok (Some c) -> made rq c) as Hm.
  { intros expires discard c. destruct (as_float expires); cbn; [|done]. by intros [= <-]. }
  destruct (dict_get _ (#"expires")) as [[| |e|]|]; intros E; try (injection E as <- <-; by refine (conj H (conj (fun c Hc => Hc) _))).
  - destruct (e <=? now)%Z; injection E as <- <-.
    + split; [by apply filed_clear_cookie|]. split; [by apply clear_cookie_grows|done].
    + refine (conj H (conj (fun c Hc => Hc) _)). intros c. apply (Hm (Some e)).
  - injection E as <- <-. refine (conj H (conj (fun c Hc => Hc) _)). intros c. apply (Hm None).
Qed.

Lemma cookies_from_tuples_made (rq : UrlRequest) (now : Z) (tps : list cookie_tuple) :
  forall (d d' : by_domain) (r : res fault (list Cookie)),
  filed d -> cookies_from_tuples rq now tps d = (r, d') ->
  filed d' /\ grows_from d d' /\ forall cs, r = Ok cs -> Forall (made rq) cs.
Proof.
  induction tps as [|tp tps IH]; intros d d' r H; cbn [cookies_from_tuples].
  { intros [= <- <-]. refine (conj H (conj (fun c Hc => Hc) _)). by intros cs [= <-]. }
  destruct (cookie_from_tuple rq now tp d) as [r1 d1] eqn:E1.
  destruct (cookie_from_tuple_made _ _ _ _ _ _ H E1) as (F1 & G1 & M1).
  destruct r1 as [oc|e]; [|by intros [= <- <-]; refine (conj F1 (conj G1 _))].
  destruct (cookies_from_tuples rq now tps d1) as [r2 d2] eqn:E2.
  destruct (IH _ _ _ F1 E2) as (F2 & G2 & M2). intros [= <- <-].
  split; [done|]. split; [intros c Hc; by apply G1, G2|].
  destruct r2 as [cs2|]; cbn; [|done]. intros cs [= <-].
  destruct oc as [c|]; [constructor; [by apply M1|]|]; by apply M2.
Qed.

Lemma cookies_from_attrs_made (rq : UrlRequest) (now : Z) (a : res fault (list (list (str * attr))))
    (d d' : by_domain) (cs : list Cookie) :
  filed d -> cookies_from_attrs_set rq now a d = (cs, d') ->
  filed d' /\ grows_from d d' /\ Forall (made rq) cs.
Proof.
  intros H. unfold cookies_from_attrs_set. destruct (a ≫= _) as [tps|]; [|intros [= <- <-]; by refine (conj H (conj (fun c Hc => Hc) _))].
  destruct (cookies_from_tuples rq now tps d) as [r d1] eqn:E.
  destruct (cookies_from_tuples_made _ _ _ _ _ _ H E) as (F1 & G1 & M1).
  intros [= <- <-]. split; [done|]. split; [done|]. destruct r; [by apply M1|constructor].
Qed.

Lemma make_cookies_made (now cur_yr : Z) (message : header_pairs) (rq : UrlRequest) (d d' : by_domain)
    (cs : list Cookie) :
  filed d -> make_cookies now cur_yr message rq d = (cs, d') ->
  filed d' /\ grows_from d d' /\ Forall (made rq) cs.
Proof.
  intros H. unfold make_cookies. destruct (nonempty _); [|intros [= <- <-]; by refine (conj H (conj (fun c Hc => Hc) _))].
  destruct (cookies_from_attrs_set rq now _ d) as [cs2 d1] eqn:E1.
  destruct (cookies_from_attrs_made _ _ _ _ _ _ H E1) as (F1 & G1 & M1).
  destruct (cookies_from_attrs_set rq now _ d1) as [cs1 d2] eqn:E2.
  destruct (cookies_from_attrs_made _ _ _ _ _ _ F1 E2) as (F2 & G2 & M2).
  intros [= <- <-]. split; [done|]. split; [intros c Hc; by apply G1, G2|].
  apply Forall_app. split; [done|]. apply Forall_fmap. eapply Forall_impl; [exact M2|].
  intros c Hc. unfold as_netscape, made in *. cbn. by destruct (bool_decide _).
Qed.

(** Everything in the store after was there before, or was made from the
    response and accepted. *)
Lemma set_cookies_from (rq : UrlRequest) (cs : list Cookie) (d : by_domain) :
  filed d ->
  filed (set_cookies rq cs d).2
  /\ forall c, c ∈ all_cookies (set_cookies rq cs d).2 ->
       c ∈ all_cookies d \/ (c ∈ cs /\ set_ok c rq = Ok true).
Proof.
  revert d. induction cs as [|c cs IH]; intros d H; cbn [set_cookies]; [split; [done|by left]|].
  destruct (set_ok c rq) as [[]|e] eqn:E.
  - destruct (IH _ (filed_set_cookie d c H)) as [H1 H2]. split; [done|].
    intros c' Hc'. destruct (H2 c' Hc') as [Hin|[Hin Hok]].
    + apply elem_of_set_cookie in Hin as [->|Hin]; [right; split; [by left|done]|by left].
    + right. split; [by right|done].
  - destruct (IH d H) as [H1 H2]. split; [done|]. intros c' Hc'.
    destruct (H2 c' Hc') as [Hin|[Hin Hok]]; [by left|]. right. split; [by right|done].
  - split; [done|]. by left.
Qed.

Lemma extract_cookies_from `{CK : Clock} (message : header_pairs) (rq : UrlRequest) (j : Jar) :
  filed (cookies j) ->
  let j' := (extract_cookies message rq j).2 in
  filed (cookies j')
  /\ forall c, c ∈ all_cookies (cookies j') ->
       c ∈ all_cookies (cookies j) \/ (made rq c /\ set_ok c rq = Ok true).
Proof.
  intros H j'. unfold j', extract_cookies.
  destruct (make_cookies _ _ message rq (cookies j)) as [cs d] eqn:E.
  destruct (make_cookies_made _ _ _ _ _ _ _ H E) as (F1 & G1 & M1).
  destruct (set_cookies_from rq cs d F1) as [F2 S2]. destruct (set_cookies rq cs d) as [r d'].
  cbn [cookies snd] in *. split; [done|]. intros c Hc. destruct (S2 c Hc) as [Hin|[Hin Hok]].
  - left. by apply G1.
  - right. rewrite Forall_forall in M1. split; [by apply M1|done].
Qed.

(** [domain] ends [host] at a label boundary. *)
Definition within (domain host : str) : Prop := exists t, DOT :: host = t ++ dotted domain.

Lemma dotted_dot (domain : str) : starts [DOT] domain = true -> dotted domain = domain.
Proof. unfold dotted. intros ->. by rewrite andb_false_r. Qed.

(** A Netscape cookie is accepted only where its domain holds the host that
    sets it.  Two hosts are exempt: one that begins with a dot, and one under
    [.local], where the library sends every name without a dot, if the domain
    and [.local] end its name, label or not. *)
Definition local_alias (domain host : str) : Prop := exists t, host = t ++ drop 1 domain ++ #".local".

Lemma set_ok_within (c : Cookie) (rq : UrlRequest) :
  made rq c -> set_ok c rq = Ok true -> ck_version c = Some 0%Z ->
  within (ck_domain c) (eff_request_host rq)
  \/ local_alias (ck_domain c) (eff_request_host rq)
  \/ starts [DOT] (eff_request_host rq) = true.
Proof.
  unfold made, set_ok, set_ok_domain. intros Hm Hok Hv. destruct (ck_domain_specified c).
  - assert (is_netscape c = true) as Hns by (apply bool_decide_eq_true; done). rewrite Hns, Hm in Hok.
    destruct (set_ok_version c); [|done]. cbn [andb] in Hok.
    destruct (negb (has DOT _) && _); [done|].
    destruct (negb (_ || _) && _) eqn:E; [done|]. clear Hok.
    unfold within. rewrite dotted_dot by done.
    apply andb_false_iff in E as [E|E].
    + apply negb_false_iff, orb_true_iff in E as [[t E]%ends_true|[t E]%ends_true].
      * left. exists (DOT :: t). by rewrite E.
      * right; left. by exists t.
    + apply andb_false_iff in E as [E|E]; apply negb_false_iff in E; [by right; right|left].
      by apply ends_true in E.
  - left. unfold within, dotted. rewrite Hm. pose proof (eff_request_host_nonempty rq) as Hne.
    destruct (eff_request_host rq) as [|x h]; [done|]. cbn [nonempty andb].
    destruct (negb (starts [DOT] (x :: h))); [by exists []|by exists [DOT]].
Qed.
