(* ===== verification/Cookies.v ===== *)
(** * Cookies: the cookie jar of a session (cookies.py).

    The rules of domains, paths and expiry are those of [http.cookiejar]
    (Cookiejar.v).  The package's own jar adds the adapter and the lock; what
    the rest of the program relies on is the class [CookieStore].  The theorems
    say which stored cookies a request carries and in what order, that a cookie
    never leaves the domain of a host that set it, what a jar may hold, and that
    what a server sets comes back to it until it expires. *)

From S2P Require Import Prelude Unicode PyText Dict PyUrl Headers Types Errors Floats HttpDate.
From S2P Require Import Cookiejar.
From Stdlib Require Import Sorting.Sorted.

(** What a session's jar promises the request and redirect code.  Each
    operation runs under the jar's lock, so it is one step on its state. *)
Class CookieStore (S : Type) := {
  header_for : str -> st S exn (option str);
  store : str -> Headers -> st S exn unit;
}.

(** The law the redirect walk relies on: only Set-Cookie reaches a jar. *)
Class LawfulStore (S : Type) `{CookieStore S} :=
  store_quiet : forall (jar : S) (url : str) (h : Headers),
    contains h (#"set-cookie") = false -> store url h jar = (Ok tt, jar).

(** [_ResponseAdapter(headers).info()]: the message http.cookiejar reads, one
    entry per header, in order and with repeats. *)
Definition ResponseAdapter_info (h : Headers) : header_pairs :=
  foldl (fun message '(name, value) => message ++ [(name, value)]) [] (items h).

Section jar.
Context `{CK : Clock}.

(** [self._jar]; the lock makes each method one step. *)
Record CookieJar := mkJar { jar : Jar }.

Definition on_jar {A} (m : st Jar exn A) : st CookieJar exn A := fun self =>
  let '(r, j) := m (jar self) in (r, mkJar j).

Definition CookieJar_init : CookieJar := mkJar Jar_init.

Definition CookieJar_header_for (url : str) : st CookieJar exn (option str) :=
  request ← st_lift (Request url);
  on_jar (add_cookie_header request).

Definition CookieJar_store (url : str) (headers : Headers) : st CookieJar exn unit :=
  if contains headers (#"set-cookie") then
    request ← st_lift (Request url);
    on_jar (extract_cookies (ResponseAdapter_info headers) request)
  else mret tt.

Definition CookieJar_clear (self : CookieJar) : CookieJar := mkJar (Jar_clear (jar self)).

(** [iter(list(self._jar))]: a snapshot. *)
Definition CookieJar_iter (self : CookieJar) : list Cookie := all_cookies (cookies (jar self)).

Definition CookieJar_len (self : CookieJar) : nat := length (CookieJar_iter self).

Definition CookieJar_repr (self : CookieJar) : str :=
  #"CookieJar(" ++ str_of_Z (Z.of_nat (CookieJar_len self)) ++ #" cookies)".

#[export] Instance CookieJar_store_instance : CookieStore CookieJar := {
  header_for := CookieJar_header_for;
  store := CookieJar_store;
}.

#[export] Instance CookieJar_lawful : LawfulStore CookieJar.
Proof. intros j url h E. cbn. unfold CookieJar_store. by rewrite E. Qed.

Lemma adapter_info (h : Headers) : ResponseAdapter_info h = items h.
Proof.
  unfold ResponseAdapter_info.
  assert (forall ps acc : header_pairs,
            foldl (fun message '(name, value) => message ++ [(name, value)]) acc ps = acc ++ ps) as Hf; [|apply (Hf (items h) [])].
  induction ps as [|[n v] ps IH]; intros acc; cbn.
  - by rewrite app_nil_r.
  - rewrite IH. by rewrite <- app_assoc.
Qed.
End jar.

(** ** A jar's history *)

Inductive jar_op :=
| OpHeader (url : str)
| OpStore (url : str) (h : Headers)
| OpClear.

Section history.
Context `{CK : Clock}.

Definition jar_step (op : jar_op) (self : CookieJar) : CookieJar :=
  match op with
  | OpHeader url => (CookieJar_header_for url self).2
  | OpStore url h => (CookieJar_store url h self).2
  | OpClear => CookieJar_clear self
  end.

Definition jar_after (ops : list jar_op) : CookieJar := foldl (fun self op => jar_step op self) CookieJar_init ops.

(** The cookies a Cookie header for [url] is made of, in order. *)
Definition CookieJar_sent (url : str) (self : CookieJar) : list Cookie :=
  match (rq ← Request url; cookies_for_request (clock (ticks (jar self))) rq (cookies (jar self))) with
  | Ok cs => longest_first cs
  | Raise _ => []
  end.

(** A stored cookie was made from a response to one of the URLs stored, and
    the policy accepted it. *)
Definition set_by (ops : list jar_op) (c : Cookie) (source : UrlRequest) : Prop :=
  exists url h, OpStore url h ∈ ops /\ contains h (#"set-cookie") = true /\ Request url = Ok source
    /\ made source c /\ set_ok c source = Ok true.

Definition jar_ok (ops : list jar_op) (self : CookieJar) : Prop :=
  filed (cookies (jar self)) /\ forall c, c ∈ CookieJar_iter self -> exists source, set_by ops c source.

Lemma header_for_state (url : str) (self : CookieJar) :
  filed (cookies (jar self)) ->
  let self' := (CookieJar_header_for url self).2 in
  filed (cookies (jar self')) /\ forall c, c ∈ CookieJar_iter self' -> c ∈ CookieJar_iter self.
Proof.
  intros H self'. unfold self', CookieJar_header_for, mbind, st_bind, st_lift, on_jar.
  destruct (Request url) as [rq|e]; [|done]. unfold add_cookie_header.
  destruct (cookies_for_request _ rq _) as [cs|e]; [|done].
  destruct (clear_expired_all (mkStandardJar (cookies (jar self)) (S (ticks (jar self)))) H) as [H1 H2].
  split; [exact H1|]. intros c. unfold CookieJar_iter. cbn [snd jar]. rewrite H2. by intros [_ ?]%elem_of_keep.
Qed.

Lemma jar_ok_after (ops : list jar_op) : jar_ok ops (jar_after ops).
Proof.
  unfold jar_after. induction ops as [|op ops IH] using rev_ind.
  { split; [apply dict_ok_nil|]. intros c H. by apply elem_of_nil in H. }
  rewrite foldl_app. cbn [foldl]. destruct IH as [H1 H2]. set (self := foldl _ _ _) in *.
  assert (forall c source, set_by ops c source -> set_by (ops ++ [op]) c source) as Hw.
  { intros c source (url & h & Hin & Hr). exists url, h. split; [|done]. apply elem_of_app. by left. }
  destruct op as [url|url h|]; cbn [jar_step].
  - destruct (header_for_state url self H1) as [F S]. split; [done|]. intros c Hc.
    destruct (H2 c (S c Hc)) as [source Hs]. eauto.
  - unfold CookieJar_store. destruct (contains h _) eqn:Ec.
    2:{ split; [done|]. intros c Hc. destruct (H2 c Hc) as [source Hs]. eauto. }
    unfold mbind, st_bind, st_lift. destruct (Request url) as [rq|e] eqn:Er.
    2:{ split; [done|]. intros c Hc. destruct (H2 c Hc) as [source Hs]. eauto. }
    unfold on_jar. destruct (extract_cookies_from (ResponseAdapter_info h) rq (jar self) H1) as [F S].
    destruct (extract_cookies _ rq (jar self)) as [r j]. split; [exact F|]. intros c Hc.
    destruct (S c Hc) as [Hin|[Hm Hok]].
    + destruct (H2 c Hin) as [source Hs]. eauto.
    + exists rq, url, h. split; [|done]. apply elem_of_app. right. by left.
  - split; [apply dict_ok_nil|]. intros c H. by apply elem_of_nil in H.
Qed.

Lemma set_by_version (ops : list jar_op) (c : Cookie) (source : UrlRequest) :
  set_by ops c source -> exists n, ck_version c = Some n /\ (n <= 0)%Z.
Proof.
  intros (_ & _ & _ & _ & _ & _ & H). unfold set_ok, set_ok_version in H.
  destruct (ck_version c) as [n|]; [|done]. exists n. split; [done|].
  destruct (Z.ltb_spec 0 n); [done|lia].
Qed.
End history.

(** ** Which cookies a request carries *)

(** What the rules ask of a cookie, for a request to a host that does not begin
    with a dot: the host is within the cookie's domain, the path within its
    path, and the cookie is neither kept for secure requests, nor expired, nor
    kept for other ports. *)
Record applies (now : Z) (rq : UrlRequest) (c : Cookie) : Prop := {
  on_domain : within (ck_domain c) (eff_request_host rq)
              \/ (ck_version c <> Some 0%Z /\ within (ck_domain c) (request_host rq));
  on_path : request_path rq = ck_path c
            \/ exists t, request_path rq = ck_path c ++ t
                         /\ (ends [SLASH] (ck_path c) = true \/ starts [SLASH] t = true);
  on_scheme : ck_secure c = true -> rq_type rq = #"https" \/ rq_type rq = #"wss";
  on_time : forall e, ck_expires c = Some e -> (now < e)%Z;
  on_port : forall ports, ck_port c = Some ports -> ports <> [] ->
            exists port, request_port rq = Ok port /\ default (#"80") port ∈ split_on COMMA ports;
}.

Definition plain_host (rq : UrlRequest) : Prop :=
  request_host rq <> [] /\ starts [DOT] (request_host rq) = false /\ is_Some (rq_host rq).

Lemma plain_host_lead (rq : UrlRequest) :
  plain_host rq -> starts [DOT] (eff_request_host rq) = false.
Proof.
  intros (Hne & Hs & _). unfold eff_request_host. destruct (has DOT _); [done|].
  destruct (request_host rq) as [|x h]; [done|].
  cbn [app]. rewrite starts_cons, starts_nil in *. exact Hs.
Qed.

Lemma path_return_ok_iff (path : str) (rq : UrlRequest) :
  path_return_ok path rq = true
  <-> request_path rq = path
      \/ exists t, request_path rq = path ++ t /\ (ends [SLASH] path = true \/ starts [SLASH] t = true).
Proof.
  unfold path_return_ok. rewrite orb_true_iff, andb_true_iff, orb_true_iff, bool_decide_eq_true.
  assert (forall t, bool_decide (take 1 (drop (length path) (path ++ t)) = [SLASH]) = starts [SLASH] t) as Ht.
  { intros t. rewrite drop_app_length. apply eq_bool_prop_intro.
    rewrite !Is_true_true, bool_decide_eq_true, starts_true. split.
    - destruct t as [|x t]; [done|]. intros [= ->]. by exists t.
    - by intros [r ->]. }
  split.
  - intros [H|[[t E]%starts_true H]]; [by left|right]. exists t. split; [done|].
    by rewrite E, Ht in H.
  - intros [H|(t & E & H)]; [by left|right]. rewrite E, starts_app, Ht. by split.
Qed.

Lemma ends_within (domain host : str) : ends (dotted domain) (DOT :: host) = true <-> within domain host.
Proof. apply ends_true. Qed.

(** The policy's test is the rules. *)
Lemma returned_applies (now : Z) (rq : UrlRequest) (c : Cookie) :
  plain_host rq -> (exists n, ck_version c = Some n /\ (n <= 0)%Z) ->
  returned now rq c = true <-> applies now rq c.
Proof.
  intros Hp (n & Hn & Hle). pose proof (plain_host_lead rq Hp) as He. destruct Hp as (_ & Hs & [h Hh]).
  unfold returned, domain_return_ok, return_ok, return_ok_domain, return_ok_secure, is_netscape, is_expired.
  rewrite Hs, He, Hn. cbn [positive]. rewrite (proj2 (Z.ltb_ge 0 n)) by done. cbn [negb andb].
  assert (exists b, return_ok_port c rq = Ok b /\ (b = true <-> forall ports, ck_port c = Some ports ->
      ports <> [] -> exists port, request_port rq = Ok port /\ default (#"80") port ∈ split_on COMMA ports))
    as (b & Hport & Hb).
  { unfold return_ok_port. destruct (ck_port c) as [[|x p]|]; [exists true; split; naive_solver| |exists true; naive_solver].
    unfold request_port. rewrite Hh. destruct (partition COLON h) as [[a f] port]. cbn [mbind res_bind].
    eexists. split; [done|]. rewrite bool_decide_eq_true. split.
    - intros Hin ports [= <-] _. eauto.
    - intros H. by destruct (H _ eq_refl) as (q & [= <-] & Hin). }
  rewrite Hport. cbn [mbind res_bind yes].
  rewrite !andb_true_iff, orb_true_iff, !ends_within, path_return_ok_iff.
  destruct (ck_secure c && _) eqn:Esec; cbn [negb andb yes].
  { split; [naive_solver|]. intros [_ _ H _ _]. apply andb_true_iff in Esec as [E1 E2].
    apply negb_true_iff, bool_decide_eq_false in E2. rewrite !elem_of_cons in E2. destruct (H E1); tauto. }
  assert (ck_secure c = true -> rq_type rq = #"https" \/ rq_type rq = #"wss") as Hsec.
  { intros E. rewrite E in Esec. cbn in Esec. apply negb_false_iff, bool_decide_eq_true in Esec.
    rewrite !elem_of_cons, elem_of_nil in Esec. tauto. }
  destruct (match ck_expires c with Some e => (e <=? now)%Z | None => false end) eqn:Eexp; cbn [negb yes].
  { split; [naive_solver|]. intros [_ _ _ H _]. destruct (ck_expires c) as [e|]; [|done].
    apply Z.leb_le in Eexp. specialize (H e eq_refl). lia. }
  assert (forall e, ck_expires c = Some e -> (now < e)%Z) as Hexp.
  { intros e E. rewrite E in Eexp. by apply Z.leb_gt in Eexp. }
  rewrite andb_true_iff, Hb, negb_true_iff, andb_false_iff, bool_decide_eq_false, negb_false_iff, ends_within.
  split.
  - intros ([Hd|Hd] & Hpath & Hpo & [Hv|Hv]); (split; [|done..]); rewrite Hn; auto.
  - intros [Hd Hpath _ _ Hpo]. split; [|split; [done|]].
    + rewrite Hn in Hd. tauto.
    + split; [done|]. rewrite Hn in Hd. destruct Hd as [Hd|[Hv _]]; [by right|by left].
Qed.

(** C25: what a Cookie header holds.  After any history of the jar, the header
    for a URL is made of exactly the stored cookies that apply to it, each once
    and longest path first, and there is none when none applies.  Afterwards
    the jar holds what it held, less the cookies that had expired. *)
Theorem header_for_sends `{CK : Clock} (ops : list jar_op) (url : str) (rq : UrlRequest)
    (Hurl : Request url = Ok rq) (Hhost : plain_host rq) :
  let self := jar_after ops in
  let now := clock (ticks (jar self)) in
  let sent := CookieJar_sent url self in
  (CookieJar_header_for url self).1
  = Ok (if nonempty sent then Some (join_with (#"; ") (cookie_attr <$> sent)) else None)
  /\ (forall c, c ∈ sent <-> c ∈ CookieJar_iter self /\ applies now rq c)
  /\ NoDup (ck_key <$> sent) /\ StronglySorted no_shorter sent
  /\ CookieJar_iter (CookieJar_header_for url self).2
     = keep (fun c => negb (is_expired (clock (S (ticks (jar self)))) c)) (CookieJar_iter self).
Proof.
  cbv zeta. destruct (jar_ok_after ops) as [H1 H2]. set (self := jar_after ops) in *. clearbody self.
  pose proof Hhost as (_ & _ & Hauth).
  unfold CookieJar_sent, CookieJar_header_for, mbind, st_bind, st_lift, on_jar, res_bind. rewrite Hurl.
  unfold add_cookie_header.
  pose proof (cookies_for_request_total (clock (ticks (jar self))) rq (cookies (jar self)) Hauth) as Ht.
  destruct (cookies_for_request _ rq _) as [cs|e] eqn:E; [|done]. clear Ht.
  apply (cookies_for_request_ok _ _ _ _ H1) in E.
  cbn [fst snd]. split_and!.
  - by destruct (longest_first cs).
  - intros c. rewrite longest_first_perm, E, elem_of_keep. rewrite (and_comm (c ∈ _)).
    split; intros [Hr Hc]; (split; [|done]); destruct (H2 c Hc) as [source Hs%set_by_version];
      by apply (returned_applies _ _ _ Hhost Hs).
  - rewrite longest_first_perm, E. apply filed_nodup in H1. revert H1. generalize (all_cookies (cookies (jar self))).
    intros l. induction l as [|c l IH]; cbn [keep]; [done|]. rewrite fmap_cons, NoDup_cons. intros [Hc Hl].
    destruct (returned _ rq c); [|by apply IH]. rewrite fmap_cons. apply NoDup_cons. split; [|by apply IH].
    intros Hin. apply Hc. apply list_elem_of_fmap in Hin as (c' & E' & [_ Hin]%elem_of_keep).
    apply list_elem_of_fmap. eauto.
  - apply longest_first_sorted.
  - destruct (clear_expired_all (mkStandardJar (cookies (jar self)) (S (ticks (jar self)))) H1) as [_ H3]. exact H3.
Qed.

(** The jar sees a response only through its Set-Cookie headers.  A
    response without one leaves the jar as it was and cannot raise; with one,
    http.cookiejar is handed every header, in order and with repeats, and the
    URL the response came from. *)
Theorem store_feeds_set_cookie `{CK : Clock} (self : CookieJar) (url : str) (h : Headers) :
  (contains h (#"set-cookie") = false -> CookieJar_store url h self = (Ok tt, self))
  /\ (contains h (#"set-cookie") = true -> forall rq, Request url = Ok rq ->
      CookieJar_store url h self = on_jar (extract_cookies (items h) rq) self).
Proof.
  unfold CookieJar_store. split; intros Hc; rewrite Hc; [done|].
  intros rq Hr. rewrite Hr. by rewrite adapter_info.
Qed.

(** A clock that stands still, for the witnesses. *)
#[export] Instance still_clock : Clock := { clock _ := 1700000000%Z; local_year _ := 2023%Z }.

Definition jar_with (url : str) (cookies : list str) : CookieJar :=
  (CookieJar_store url (mkHeaders (pair (#"Set-Cookie") <$> cookies)) CookieJar_init).2.

Lemma store_feeds_set_cookie_witness :
  (CookieJar_header_for (#"http://h.example/")
     (CookieJar_store (#"http://h.example/") (mkHeaders [(#"set-cookie", #"b=2; Secure")]) (jar_with (#"http://h.example/") [ #"a=1"])).2).1
  = Ok (Some (#"a=1")).
Proof.
  destruct (Request (#"http://h.example/")) as [rq|] eqn:Hrq; [|vm_compute in Hrq; discriminate].
  rewrite (proj2 (store_feeds_set_cookie (jar_with (#"http://h.example/") [ #"a=1"]) (#"http://h.example/")
    (mkHeaders [(#"set-cookie", #"b=2; Secure")])) ltac:(vm_compute; reflexivity) rq Hrq).
  vm_compute in Hrq. injection Hrq as <-. vm_compute. reflexivity.
Defined.

(** C23: a cookie stays home.  After any history of the jar, a cookie of
    version 0 goes out only to hosts within its domain, and it was set by a
    response from a host within that same domain; the two exceptions are a host
    that begins with a dot, and one under [.local], the suffix that
    http.cookiejar gives every name without a dot. *)
Theorem cookie_stays_home `{CK : Clock} (ops : list jar_op) (url : str) (c : Cookie)
    (Hsent : c ∈ CookieJar_sent url (jar_after ops)) (Hversion : ck_version c = Some 0%Z) :
  exists target source setter h,
    Request url = Ok target /\ OpStore setter h ∈ ops /\ contains h (#"set-cookie") = true
    /\ Request setter = Ok source
    /\ within (ck_domain c) (eff_request_host target)
    /\ (within (ck_domain c) (eff_request_host source)
        \/ local_alias (ck_domain c) (eff_request_host source)
        \/ starts [DOT] (eff_request_host source) = true).
Proof.
  destruct (jar_ok_after ops) as [H1 H2]. unfold CookieJar_sent in Hsent.
  destruct (Request url) as [target|] eqn:Hu; cbn [mbind res_bind] in Hsent; [|by apply elem_of_nil in Hsent].
  destruct (cookies_for_request _ target _) as [cs|] eqn:E; [|by apply elem_of_nil in Hsent].
  rewrite longest_first_perm in Hsent. rewrite (cookies_for_request_ok _ _ _ _ H1 E) in Hsent.
  apply elem_of_keep in Hsent as [Hr Hc].
  destruct (H2 c Hc) as (source & setter & h & Hin & Hct & Hsrc & Hmade & Hok).
  exists target, source, setter, h. split_and!; try done.
  - unfold returned in Hr. apply andb_true_iff in Hr as [_ Hr]. apply andb_true_iff in Hr as [_ Hr].
    unfold return_ok in Hr. destruct (_ && _)%bool; [|done].
    destruct (return_ok_port c target) as [b|]; cbn in Hr; [|done]. apply andb_true_iff in Hr as [_ Hr].
    unfold return_ok_domain in Hr. apply negb_true_iff, andb_false_iff in Hr as [Hr|Hr].
    + unfold is_netscape in Hr. apply bool_decide_eq_false in Hr. congruence.
    + by apply negb_false_iff, ends_within in Hr.
  - by apply set_ok_within.
Qed.

(** C26: what a jar can hold.  Whatever it has been told, there is one cookie
    at most for a domain, a path and a name; iterating gives each of them once
    and [len] counts them; each was set by a response and accepted, and none
    has a version above zero. *)
Theorem jar_contents `{CK : Clock} (ops : list jar_op) :
  NoDup (ck_key <$> CookieJar_iter (jar_after ops))
  /\ CookieJar_len (jar_after ops) = length (CookieJar_iter (jar_after ops))
  /\ Forall (fun c => (exists source, set_by ops c source) /\ positive (ck_version c) = false)
       (CookieJar_iter (jar_after ops))
  /\ CookieJar_iter (jar_after (ops ++ [OpClear])) = [].
Proof.
  destruct (jar_ok_after ops) as [H1 H2]. split_and!; [by apply filed_nodup|done| |].
  - apply Forall_forall. intros c Hc. destruct (H2 c Hc) as [source Hs]. split; [by exists source|].
    apply set_by_version in Hs as (n & -> & Hn). cbn. by apply Z.ltb_ge.
  - unfold jar_after. by rewrite foldl_app.
Qed.

(** ** What is set comes back *)

(** A name or value that needs no parsing. *)
Definition cookie_text (s : str) : Prop := Forall (fun c => is_space c = false /\ c <> SEMICOLON) s.

Definition set_cookie_line (name value expires : str) : str :=
  name ++ [EQUALS] ++ value ++ [SEMICOLON; SPACE] ++ #"Expires" ++ [EQUALS] ++ expires.

Lemma strip_ends (s : str) (x y : N) :
  is_space x = false -> is_space y = false -> strip is_space (x :: s ++ [y]) = x :: s ++ [y].
Proof.
  intros Hx Hy. unfold strip, rstrip. rewrite (lstrip_none _ (x :: _)) by done.
  rewrite lstrip_none; [apply reverse_involutive|].
  rewrite app_comm_cons, reverse_app. cbn. exact Hy.
Qed.

Lemma strip_blank (s : str) (x y : N) :
  is_space x = false -> is_space y = false -> strip is_space (SPACE :: x :: s ++ [y]) = x :: s ++ [y].
Proof. intros Hx Hy. unfold strip at 1. cbn [lstrip]. change (is_space SPACE) with true. by apply strip_ends. Qed.

(** A date starts with a letter and ends with one, and holds no semicolon. *)
Lemma imf_date_shape (weekday month : str) (y d h mi s : Z) :
  weekday ∈ DAYS -> month ∈ MONTHS -> (0 <= y <= 9999)%Z -> (0 <= d < 100)%Z -> (0 <= h < 100)%Z ->
  (0 <= mi < 100)%Z -> (0 <= s < 100)%Z ->
  let date := imf_date weekday month y d h mi s in
  (exists x r, date = x :: r ++ [84%N] /\ is_ascii_upper x = true) /\ SEMICOLON ∉ date.
Proof.
  intros Hw Hm Hy Hd Hh Hmi Hs date.
  assert (Forall (fun w => match w with x :: w => is_ascii_upper x && forallb is_ascii_alpha w | [] => false end = true) DAYS)
    as Hdays by (by repeat constructor).
  assert (Forall (fun w => forallb is_ascii_alpha w = true) MONTHS) as Hmonths by (by repeat constructor).
  rewrite Forall_forall in Hdays, Hmonths. specialize (Hdays _ Hw). specialize (Hmonths _ Hm).
  destruct weekday as [|x w]; [done|]. apply andb_true_iff in Hdays as [Hx Hw'].
  assert (forall l, forallb is_ascii_alpha l = true -> SEMICOLON ∉ l) as Ha.
  { intros l Hl Hin. rewrite forallb_forall in Hl. apply list_elem_of_In, Hl in Hin. done. }
  assert (forall n, (0 <= n < 100)%Z -> SEMICOLON ∉ two n) as Ht.
  { intros n Hn Hin. pose proof (two_digits n Hn) as H. rewrite Forall_forall in H. by apply H in Hin. }
  split.
  - exists x, (w ++ #", " ++ two d ++ [SPACE] ++ month ++ [SPACE] ++ four y ++ [SPACE] ++ two h ++ [COLON]
               ++ two mi ++ [COLON] ++ two s ++ #" GM").
    split; [|done]. unfold date, imf_date. change (#" GMT") with (#" GM" ++ [84%N]).
    by rewrite <- !app_assoc.
  - unfold date, imf_date. rewrite !not_elem_of_app. split_and!; try by apply Ht.
    + apply not_elem_of_cons. split; [by intros <-|by apply Ha].
    + by apply (bool_decide_unpack _).
    + by apply (bool_decide_unpack _).
    + by apply Ha.
    + by apply (bool_decide_unpack _).
    + unfold four. apply not_elem_of_app. split; apply Ht; Z.div_mod_to_equations; lia.
    + by apply (bool_decide_unpack _).
    + by apply (bool_decide_unpack _).
    + by apply (bool_decide_unpack _).
    + by apply (bool_decide_unpack _).
Qed.

Lemma default_path_ok (rq : UrlRequest) : path_return_ok (default_path rq (Some 0%Z)) rq = true.
Proof.
  assert (exists t, request_path rq = SLASH :: t) as [t Ht].
  { unfold request_path. destruct (starts [SLASH] _) eqn:E; [|by eexists]. by apply starts_true in E as [r ->]; exists r. }
  apply path_return_ok_iff. unfold default_path. rewrite bool_decide_eq_true_2 by done.
  destruct (rpartition SLASH (request_path rq)) as [[dir f] b] eqn:E. destruct f.
  - apply rpartition_found in E as [E _]. right. destruct dir as [|x dir]; cbn [nonempty].
    + exists b. split; [exact E|]. left. apply (ends_app [SLASH] []).
    + exists (SLASH :: b). split; [exact E|]. right. apply (starts_app [SLASH] b).
  - apply rpartition_missing in E. exfalso. apply E. rewrite Ht. by left.
Qed.

Lemma own_domain_ok (rq : UrlRequest) :
  domain_return_ok (eff_request_host rq) rq = true
  /\ ends (dotted (eff_request_host rq)) (DOT :: eff_request_host rq) = true.
Proof.
  pose proof (eff_request_host_nonempty rq) as Hne. unfold domain_return_ok, dotted.
  set (h := eff_request_host rq) in *. destruct h as [|x h]; [done|]. cbn [nonempty andb].
  destruct (starts [DOT] (x :: h)); cbn [negb].
  - split; [rewrite orb_true_iff; right; apply (ends_app _ [])|apply (ends_app _ [DOT])].
  - split; [rewrite orb_true_iff; right|]; apply (ends_app _ []).
Qed.

(** The two parts of the header as [parse_ns_headers] finds them. *)
Lemma set_cookie_parts (name value date : str) :
  cookie_text name -> cookie_text value -> SEMICOLON ∉ date ->
  split_on SEMICOLON (set_cookie_line name value date)
    = [name ++ EQUALS :: value; SPACE :: #"Expires" ++ EQUALS :: date]
  /\ strip is_space (name ++ EQUALS :: value) = name ++ EQUALS :: value.
Proof.
  intros Hn Hv Hd. assert (forall l, cookie_text l -> SEMICOLON ∉ l) as Htext.
  { intros l Hl Hin. unfold cookie_text in Hl. rewrite Forall_forall in Hl. by destruct (Hl _ Hin). }
  split.
  - replace (set_cookie_line name value date) with ((name ++ EQUALS :: value) ++ SEMICOLON :: SPACE :: #"Expires" ++ EQUALS :: date).
    + rewrite split_on_app, split_on_absent; [done| |].
      * rewrite not_elem_of_cons, not_elem_of_app, not_elem_of_cons.
        split_and!; try done. by apply (bool_decide_unpack _).
      * rewrite not_elem_of_app, not_elem_of_cons. split_and!; [by apply Htext|done|by apply Htext].
    + unfold set_cookie_line. by rewrite <- !app_assoc.
  - apply strip_none. apply Forall_app. split; [|constructor; [done|]];
      (eapply Forall_impl; [first [exact Hn|exact Hv]|]; by intros c []).
Qed.

(** A date begins with the letter of a day, and ends with the T of GMT: nothing
    is stripped from it. *)
Lemma date_kept (x : N) (r : str) :
  is_ascii_upper x = true ->
  let date := (x :: r ++ [84])%N in
  strip is_space date = date /\ strip_quotes date = date
  /\ strip is_space (SPACE :: #"Expires" ++ EQUALS :: date) = #"Expires" ++ EQUALS :: date.
Proof.
  intros Hx date. assert (is_space x = false /\ (DQUOTE =? x)%N = false) as [Hxs Hxq].
  { revert Hx. unfold is_ascii_upper, is_space, DQUOTE. intros [H1%N.leb_le H2%N.leb_le]%andb_true_iff.
    split; [|apply N.eqb_neq; lia].
    rewrite !orb_false_iff, !andb_false_iff, !N.leb_gt, !N.eqb_neq. lia. }
  split_and!; [by apply strip_ends| |].
  - unfold date, strip_quotes. rewrite starts_cons, Hxq. cbn [andb].
    destruct (ends [DQUOTE] (x :: r ++ [84%N])) eqn:E; [|done]. apply ends_true in E as [t E].
    rewrite app_comm_cons in E. apply app_inj_tail in E as [_ E]. done.
  - unfold date. change (#"Expires") with (69 :: #"xpires")%N.
    replace ((69 :: #"xpires") ++ EQUALS :: x :: r ++ [84])%N
      with (69 :: (#"xpires" ++ EQUALS :: x :: r) ++ [84])%N by (by rewrite <- app_assoc).
    by apply strip_blank.
Qed.

(** A line of a plain name and value and a date, read back. *)
Lemma parse_set_cookie_line (cur_yr : Z) (name value weekday month : str) (y mo d h mi s : Z) :
  name <> [] -> cookie_text name -> EQUALS ∉ name -> cookie_text value ->
  weekday ∈ DAYS -> MONTHS !! Z.to_nat (mo - 1) = Some month -> imf_ok y mo d h mi s ->
  parse_ns_headers cur_yr [set_cookie_line name value (imf_date weekday month y d h mi s)]
  = Ok [[(name, AStr value); (#"expires", AInt (unix_time y mo d h mi s)); (#"version", AStr (#"0"))]].
Proof.
  intros Hne Hn Heq Hv Hw Hm Hok. pose proof Hok as (Hy & [Hmo Hd] & Hh & Hmi & Hs).
  pose proof (days_in_month_le y mo) as Hle.
  pose proof (http2time_imf y mo d h mi s cur_yr weekday month Hw Hm Hok) as Ht.
  assert (month ∈ MONTHS) as Hm' by (by eapply list_elem_of_lookup_2).
  destruct (imf_date_shape weekday month y d h mi s Hw Hm' ltac:(lia) ltac:(lia) ltac:(lia) ltac:(lia) ltac:(lia))
    as ((x & r & Hdate & Hx) & Hsemi).
  destruct (date_kept x r Hx) as (Hsd & Hsq & Hs2). rewrite <- Hdate in Hsd, Hsq, Hs2.
  set (date := imf_date weekday month y d h mi s) in *. clearbody date.
  destruct (set_cookie_parts name value date Hn Hv Hsemi) as [Hsplit Hs1].
  assert (forall l, cookie_text l -> strip is_space l = l) as Htext
    by (intros l Hl; apply strip_none; eapply Forall_impl; [exact Hl|]; by intros c []).
  unfold parse_ns_headers. cbn [res_map]. unfold parse_ns_header. rewrite Hsplit. cbn [ns_params].
  rewrite Hs1, partition_app, (Htext name Hn), (Htext value Hv), Hs2 by done.
  rewrite (partition_app EQUALS (#"Expires") date) by (by apply (bool_decide_unpack _)).
  change (strip is_space (#"Expires")) with (#"Expires"). rewrite Hsd.
  destruct name as [|n0 name]; [done|]. cbn [nonempty].
  change (ns_attr cur_yr true (n0 :: name) (Some value)) with (@Ok fault _ (n0 :: name, AStr value, false)).
  cbn [mbind res_bind].
  change (nonempty (#"Expires")) with true. cbn iota.
  assert (ns_attr cur_yr false (#"Expires") (Some date)
          = Ok (#"expires", AInt (unix_time y mo d h mi s), false)) as ->.
  { unfold ns_attr. change (lower (#"Expires")) with (#"expires").
    change (bool_decide (#"expires" ∈ known_attrs)) with true. cbn iota.
    change (bool_decide (#"expires" = #"version")) with false.
    change (bool_decide (#"expires" = #"expires")) with true. cbn iota. by rewrite Hsq, Ht. }
  reflexivity.
Qed.

(** The cookie of such a line, kept for its own host and directory. *)
Definition own_cookie (rq : UrlRequest) (name value : str) (expires : Z) : Cookie :=
  mkCookie (Some 0%Z) name (AStr value) None false (eff_request_host rq) false
    (default_path rq (Some 0%Z)) false false (Some expires) false.

Section own_cookie.
Context (rq : UrlRequest) (name value : str) (e : Z).
Hypothesis He : (0 <= e < 2 ^ 53)%Z.

Let c := own_cookie rq name value e.

Lemma own_cookie_made (now : Z) (a : res fault (list (list (str * attr)))) :
  a = Ok [[(name, AStr value); (#"expires", AInt e); (#"version", AStr (#"0"))]] ->
  cookies_from_attrs_set rq now a [] = (if (e <=? now)%Z then [] else [c], []).
Proof.
  intros ->. unfold cookies_from_attrs_set.
  change (_ ≫= _) with (@Ok fault _ [mkTuple name (AStr value) [(#"expires", AInt e); (#"version", AStr (#"0"))]]).
  cbn [cookies_from_tuples]. unfold cookie_from_tuple. cbn [tp_standard tp_name tp_value].
  set (get := dict_get [(#"expires", AInt e); (#"version", AStr (#"0"))]).
  change (tuple_version (get (#"version"))) with (@Ok fault _ (Some (Some 0%Z))).
  change (tuple_path rq (Some 0%Z) (get (#"path"))) with (default_path rq (Some 0%Z), false).
  change (tuple_domain rq (get (#"domain"))) with (eff_request_host rq, false).
  change (tuple_port rq (get (#"port"))) with (@Ok fault _ (@None str, false)).
  change (get (#"expires")) with (Some (AInt e)). change (truth (get (#"secure"))) with false.
  change (truth (get (#"discard"))) with false. cbv beta iota zeta.
  destruct (e <=? now)%Z; [done|].
  destruct (float_of_Z_exact e He) as (f & Hf & Htr). unfold as_float. rewrite Hf, Htr.
  cbn [mbind res_bind]. by rewrite eff_request_host_lower.
Qed.

Lemma own_cookie_set : set_ok c rq = Ok true.
Proof. done. Qed.

Lemma own_cookie_sent (now : Z) :
  cookies_for_request now rq (set_cookie [] c) = Ok (if (e <=? now)%Z then [] else [c]).
Proof.
  destruct (own_domain_ok rq) as [Hd1 Hd2]. pose proof (default_path_ok rq) as Hp.
  change (set_cookie [] c) with [(eff_request_host rq, [(default_path rq (Some 0%Z), [(name, c)])])].
  unfold cookies_for_request. cbn [res_map]. unfold cookies_for_domain. cbn [fst snd]. rewrite Hd1.
  cbn [res_map]. unfold cookies_for_path. cbn [fst snd]. rewrite Hp.
  assert (return_ok now c rq = Ok (negb (e <=? now)%Z)) as Hr.
  { unfold return_ok, is_expired. cbn. destruct (e <=? now)%Z; [done|]. cbn.
    unfold return_ok_domain. cbn. by rewrite Hd2. }
  change ([(name, c)].*2) with [c]. cbn [res_keep]. rewrite Hr. by destruct (e <=? now)%Z.
Qed.
End own_cookie.

Lemma unix_time_small (y mo d h mi s : Z) :
  imf_ok y mo d h mi s -> (0 <= unix_time y mo d h mi s < 2 ^ 53)%Z.
Proof.
  intros (Hy & [Hm Hd] & Hh & Hmi & Hs). pose proof (days_in_month_le y mo) as Hle.
  assert (0 <= days_before_month y mo <= 335)%Z as Hb.
  { each_month mo; unfold days_before_month; destruct (is_leap y); vm_compute; split; discriminate. }
  assert (719162 <= days_before_year y <= 3660000)%Z as Hyr
    by (unfold days_before_year; Z.div_mod_to_equations; lia).
  unfold unix_time, toordinal, EPOCH_ORD. lia.
Qed.

(** C24: what is set comes back, until it expires.  A response that sets a
    plain name and value with an Expires date, taken into an empty jar before
    that date, makes the next request to the same URL carry exactly
    [name=value], as long as its own moment is before the date; from the date
    on, and when the response came too late, no Cookie header is sent. *)
Theorem set_then_sent `{CK : Clock} (url : str) (rq : UrlRequest) (name value weekday month : str)
    (y mo d h mi s : Z)
    (Hurl : Request url = Ok rq) (Hne : name <> []) (Hname : cookie_text name) (Heq : EQUALS ∉ name)
    (Hvalue : cookie_text value) (Hday : weekday ∈ DAYS) (Hmonth : MONTHS !! Z.to_nat (mo - 1) = Some month)
    (Hdate : imf_ok y mo d h mi s) :
  let line := set_cookie_line name value (imf_date weekday month y d h mi s) in
  let jar1 := (CookieJar_store url (mkHeaders [(#"Set-Cookie", line)]) CookieJar_init).2 in
  let expires := unix_time y mo d h mi s in
  (CookieJar_store url (mkHeaders [(#"Set-Cookie", line)]) CookieJar_init).1 = Ok tt
  /\ (CookieJar_header_for url jar1).1
     = Ok (if (clock 0 <? expires)%Z && (clock 1 <? expires)%Z then Some (name ++ [EQUALS] ++ value) else None).
Proof.
  intros line jar1 expires. pose proof (unix_time_small y mo d h mi s Hdate) as Hsmall.
  assert (CookieJar_store url (mkHeaders [(#"Set-Cookie", line)]) CookieJar_init
    = (Ok tt, mkJar (mkStandardJar (if (expires <=? clock 0)%Z then [] else set_cookie [] (own_cookie rq name value expires)) 1)))
    as Hstore.
  { unfold CookieJar_store, mbind, st_bind, st_lift. rewrite Hurl.
    change (contains (mkHeaders [(#"Set-Cookie", line)]) (#"set-cookie")) with true. cbn iota.
    rewrite adapter_info. unfold on_jar, extract_cookies. cbn [CookieJar_init jar Jar_init cookies ticks].
    unfold make_cookies. change (get_all (#"set-cookie2") _) with (@nil str).
    change (get_all (#"set-cookie") _) with [line]. cbn [nonempty].
    change (cookies_from_attrs_set rq (clock 0) (Ok (split_header_words [])) []) with (@nil Cookie, @nil (str * by_path)).
    cbv beta iota.
    rewrite (own_cookie_made rq name value expires Hsmall (clock 0)) by (by apply parse_set_cookie_line).
    destruct (expires <=? clock 0)%Z; [done|]. cbn [app fmap list_fmap set_cookies].
    change (as_netscape (own_cookie rq name value expires)) with (own_cookie rq name value expires).
    by rewrite own_cookie_set. }
  unfold jar1. rewrite Hstore. split; [done|]. cbn [snd].
  unfold CookieJar_header_for, mbind, st_bind, st_lift. rewrite Hurl. unfold on_jar, add_cookie_header.
  cbn [jar cookies ticks]. rewrite !Z.ltb_antisym.
  destruct (expires <=? clock 0)%Z; [done|]. rewrite own_cookie_sent.
  by destruct (expires <=? clock 1)%Z.
Qed.

(** ** At concrete jars, and where the rules give way *)

Definition set_cookie_headers (cookies : list str) : Headers := mkHeaders (pair (#"Set-Cookie") <$> cookies).

Definition sample_history : list jar_op :=
  [OpStore (#"http://www.h.example/a/b?q")
     (set_cookie_headers [ #"a=1; Path=/"; #"b=2; Domain=h.example; Path=/a"; #"c=3; Secure"; #"d=4; Max-Age=10"]);
   OpHeader (#"https://elsewhere.example/")].

Abbreviation sample_url := (#"http://www.h.example/a/x").

Lemma header_for_sends_witness :
  (CookieJar_header_for sample_url (jar_after sample_history)).1 = Ok (Some (#"d=4; b=2; a=1"))
  /\ StronglySorted no_shorter (CookieJar_sent sample_url (jar_after sample_history)).
Proof.
  split; [vm_compute; reflexivity|].
  destruct (Request sample_url) as [rq|] eqn:E; [|vm_compute in E; discriminate].
  apply (header_for_sends sample_history sample_url rq E).
  vm_compute in E. injection E as <-. split_and!; [vm_compute; discriminate|vm_compute; reflexivity|].
  eexists. vm_compute. reflexivity.
Defined.

Definition sample_cookie : Cookie :=
  mkCookie (Some 0%Z) (#"b") (AStr (#"2")) None false (#".h.example") true (#"/a") true false None true.

Lemma cookie_stays_home_witness :
  exists target, Request sample_url = Ok target /\ within (#".h.example") (eff_request_host target).
Proof.
  destruct (cookie_stays_home sample_history sample_url sample_cookie) as (target & H).
  - apply (bool_decide_unpack _). vm_compute. reflexivity.
  - reflexivity.
  - exists target. destruct H as (_ & _ & _ & H1 & _ & _ & _ & H2 & _). by split.
Defined.

Lemma set_then_sent_witness :
  (CookieJar_header_for (#"http://h.example/")
     (CookieJar_store (#"http://h.example/")
        (mkHeaders [(#"Set-Cookie", set_cookie_line (#"id") (#"a=b")
           (imf_date (#"Wed") (#"Nov") 2023 15 0 0 0))]) CookieJar_init).2).1
  = Ok (Some (#"id=a=b")).
Proof.
  destruct (Request (#"http://h.example/")) as [rq|] eqn:E; [|vm_compute in E; discriminate].
  refine (eq_trans (proj2 (set_then_sent (#"http://h.example/") rq (#"id") (#"a=b") (#"Wed") (#"Nov") 2023 11 15 0 0 0 E
    _ _ _ _ _ _ _)) _); try (apply (bool_decide_unpack _); vm_compute; reflexivity).
  vm_compute. reflexivity.
Defined.

(** What a jar sends to one URL after a response from another. *)
Definition sent_after (setter : str) (cookies : list str) (url : str) : res exn (option str) :=
  (CookieJar_header_for url (CookieJar_store setter (set_cookie_headers cookies) CookieJar_init).2).1.

(** A version below zero is under none of the rules for domains: any site can
    set a cookie for any other. *)
Lemma negative_version_crosses_sites :
  sent_after (#"http://evil.example/") [ #"a=b; Version=-1; Domain=victim.test"] (#"http://victim.test/")
  = Ok (Some (#"a=b")).
Proof. vm_compute. reflexivity. Qed.

(** A cookie without a Domain goes to the subdomains of its host too, and one
    for a public suffix is accepted. *)
Lemma host_cookie_reaches_subdomains :
  sent_after (#"http://h.example/") [ #"a=b"] (#"http://sub.h.example/") = Ok (Some (#"a=b"))
  /\ sent_after (#"http://a.co.uk/") [ #"a=b; Domain=co.uk"] (#"http://b.co.uk/") = Ok (Some (#"a=b")).
Proof. vm_compute. by split. Qed.

(** A Max-Age without a value, or an Expires in the strict form whose month has
    no such name, loses the other cookies of the response as well. *)
Lemma one_bad_cookie_loses_all :
  sent_after (#"http://h.example/") [ #"a=1"; #"b=2; Max-Age"] (#"http://h.example/") = Ok None
  /\ sent_after (#"http://h.example/") [ #"a=1"; #"b=2; Expires=Wed, 09 Fab 2033 22:23:32 GMT"]
       (#"http://h.example/") = Ok None.
Proof. vm_compute. by split. Qed.

(** A cookie with a Port, met at a URL that names no host, is an
    AttributeError. *)
Lemma port_needs_host :
  sent_after (#"http://foo/") [ #"a=b; Domain=.local; Port=80"] (#"http:x") = Raise AttributeError.
Proof. vm_compute. reflexivity. Qed.
