(* ===== verification/Options.v ===== *)
(** * Options: what a caller may ask of one request (request.py).

    [RequestOptions] is a dictionary; an entry that is absent and one that is
    None mean the same to every reader but [timeout], whose field therefore
    says both whether it was given and what it was. *)

From S2P Require Import Prelude PyText PyUrl Headers Types Errors Json Abi.
From Stdlib Require Export SpecFloat.

(** ** Priorities *)

Inductive Priority := THROTTLED | IDLE | LOWEST | LOW | MEDIUM | HIGHEST.

Definition priorities : list Priority := [THROTTLED; IDLE; LOWEST; LOW; MEDIUM; HIGHEST].

Definition priority_value (p : Priority) : str :=
  match p with
  | THROTTLED => #"throttled"
  | IDLE => #"idle"
  | LOWEST => #"lowest"
  | LOW => #"low"
  | MEDIUM => #"medium"
  | HIGHEST => #"highest"
  end.

(** [Priority(value)] *)
Definition Priority_of (value : str) : res exn Priority :=
  match find_first (fun p => bool_decide (priority_value p = value)) priorities with
  | Some p => Ok p
  | None => Raise (ValueError (NotAMember (#"Priority") value))
  end.

(** [_PRIORITIES] *)
Definition PRIORITIES (p : Priority) : Z :=
  match p with
  | THROTTLED => PRIORITY_THROTTLED
  | IDLE => PRIORITY_IDLE
  | LOWEST => PRIORITY_LOWEST
  | LOW => PRIORITY_LOW
  | MEDIUM => PRIORITY_MEDIUM
  | HIGHEST => PRIORITY_HIGHEST
  end.

(** ** Numbers of seconds

    A timeout is a Python int or float; a float is a binary64 number, whose
    arithmetic is the standard's ([SpecFloat]). *)
Inductive seconds :=
| IntSeconds (n : Z)
| FloatSeconds (x : spec_float).

(** ** Bodies *)

Inductive FileContent :=
| Text (s : str)
| Bytes (b : bytes).

(** [content.encode() if isinstance(content, str) else content] *)
Definition content_bytes (c : FileContent) : res exn bytes :=
  match c with Text s => encode_strict s | Bytes b => Ok b end.

Inductive FileSpec :=
| FileAlone (content : FileContent)
| FileNamed (filename : str) (content : FileContent)
| FileTyped (filename : str) (content : FileContent) (declared : str).

(** ** The options *)

Record RequestOptions := mkOptions {
  opt_headers : HeaderSource;
  opt_query : list (str * str);
  opt_body : option FileContent;
  opt_form : option (list (str * str));
  opt_files : option (list (str * FileSpec));
  opt_json : json;
  opt_basic_auth : option (str * str);
  opt_bearer_auth : option str;
  opt_timeout : option (option seconds);
  opt_max_redirects : option Z;
  opt_priority : option str;
  opt_disable_cache : bool;
  opt_other : list str;
}.

Definition no_options : RequestOptions :=
  mkOptions HeadersNone [] None None None JNull None None None None None false [].

(** The rewrites of the dictionary the redirect walk makes. *)
Definition set_headers (o : RequestOptions) (h : HeaderSource) : RequestOptions :=
  mkOptions h (opt_query o) (opt_body o) (opt_form o) (opt_files o) (opt_json o)
    (opt_basic_auth o) (opt_bearer_auth o) (opt_timeout o) (opt_max_redirects o)
    (opt_priority o) (opt_disable_cache o) (opt_other o).

(** [for name in ("body", "form", "files", "json"): carried.pop(name, None)] *)
Definition drop_body (o : RequestOptions) : RequestOptions :=
  mkOptions (opt_headers o) (opt_query o) None None None JNull
    (opt_basic_auth o) (opt_bearer_auth o) (opt_timeout o) (opt_max_redirects o)
    (opt_priority o) (opt_disable_cache o) (opt_other o).

(** [for name in ("basic_auth", "bearer_auth"): carried.pop(name, None)] *)
Definition drop_auth (o : RequestOptions) : RequestOptions :=
  mkOptions (opt_headers o) (opt_query o) (opt_body o) (opt_form o) (opt_files o) (opt_json o)
    None None (opt_timeout o) (opt_max_redirects o)
    (opt_priority o) (opt_disable_cache o) (opt_other o).

Definition is_json_null (j : json) : bool := match j with JNull => true | _ => false end.

Definition key_if (present : bool) (name : str) : list str := if present then [name] else [].
Definition given {A} (o : option A) : bool := match o with Some _ => true | None => false end.

(** [RequestOptions.__optional_keys__], sorted. *)
Definition optional_keys : list str :=
  [ #"basic_auth"; #"bearer_auth"; #"body"; #"disable_cache"; #"files"; #"form"; #"headers";
    #"json"; #"max_redirects"; #"priority"; #"query"; #"timeout"].

(** The keys of the dictionary: the accepted names that carry a value, then
    whatever else the caller passed. *)
Definition option_keys (o : RequestOptions) : list str :=
  key_if (match opt_headers o with HeadersNone => false | _ => true end) (#"headers")
  ++ key_if (nonempty (opt_query o)) (#"query")
  ++ key_if (given (opt_body o)) (#"body")
  ++ key_if (given (opt_form o)) (#"form")
  ++ key_if (given (opt_files o)) (#"files")
  ++ key_if (negb (is_json_null (opt_json o))) (#"json")
  ++ key_if (given (opt_basic_auth o)) (#"basic_auth")
  ++ key_if (given (opt_bearer_auth o)) (#"bearer_auth")
  ++ key_if (given (opt_timeout o)) (#"timeout")
  ++ key_if (given (opt_max_redirects o)) (#"max_redirects")
  ++ key_if (given (opt_priority o)) (#"priority")
  ++ key_if (opt_disable_cache o) (#"disable_cache")
  ++ opt_other o.

(** [check_options]: the complaint lists the unknown names, sorted (the
    suggestion difflib adds to each is presentation only). *)
Definition check_options (keys : list str) : res exn unit :=
  let unknown := keep (fun k => negb (bool_decide (k ∈ optional_keys))) keys in
  if nonempty unknown then Raise (TypeError (UnknownOptions (sort_strs unknown)))
  else Ok tt.

Lemma key_if_known (b : bool) (k x : str) :
  k ∈ optional_keys -> x ∈ key_if b k -> x ∈ optional_keys.
Proof. destruct b; cbn; intros H Hx; [by apply list_elem_of_singleton in Hx as ->|set_solver]. Qed.

Lemma option_keys_unknown (o : RequestOptions) (k : str) :
  k ∉ optional_keys -> k ∈ option_keys o <-> k ∈ opt_other o.
Proof.
  intros Hk. unfold option_keys. rewrite !elem_of_app. split; [|tauto].
  intros H. repeat (destruct H as [H|H]; [exfalso; apply Hk; eapply key_if_known; [|exact H];
    apply (bool_decide_unpack _); vm_compute; exact I|]).
  exact H.
Qed.

(** No option is dropped silently.  The options pass exactly when every
    name given is an accepted one; otherwise the complaint lists every unknown
    name, and only those, in order. *)
Theorem check_options_iff (o : RequestOptions) :
  (check_options (option_keys o) = Ok tt <-> forall k, k ∈ opt_other o -> k ∈ optional_keys)
  /\ (forall e, check_options (option_keys o) = Raise e ->
        exists unknown, e = TypeError (UnknownOptions unknown)
          /\ forall k, k ∈ unknown <-> k ∈ opt_other o /\ (k ∉ optional_keys)).
Proof.
  unfold check_options. set (unknown := keep _ _).
  assert (forall k, k ∈ unknown <-> k ∈ opt_other o /\ (k ∉ optional_keys)) as Hu.
  { intros k. subst unknown. rewrite elem_of_keep, negb_true_iff, bool_decide_eq_false.
    split; intros [H1 H2]; (split; [|try done]); try done;
      [by apply option_keys_unknown in H2|by apply option_keys_unknown]. }
  clearbody unknown. split.
  - destruct unknown as [|u us]; cbn.
    + split; [|done]. intros _ k Hk. destruct (decide (k ∈ optional_keys)); [done|].
      exfalso. by apply (not_elem_of_nil k), Hu.
    + split; [done|]. intros H. exfalso. assert (u ∈ u :: us) as Hin by (by left).
      apply Hu in Hin as [H1 H2]. by apply H2, H.
  - intros e. destruct unknown as [|u us]; cbn [nonempty]; [done|]. intros [= <-].
    exists (sort_strs (u :: us)). split; [done|]. intros k. by rewrite sort_strs_perm.
Qed.
