(* ===== verification/Multipart.v ===== *)
(** * Multipart: form uploads (request.py, [generate_boundary] to
    [encode_multipart]).

    The encoder is the program's; the decoder is the reference reading of
    RFC 2046 that a server makes: a part ends at the next delimiter line. *)

From S2P Require Import Prelude PyText PyUrl Headers Types Errors Json Abi Options.

(** ** The program *)

Definition BOUNDARY_PREFIX : str := #"----WebKitFormBoundary".
Definition BOUNDARY_ALPHABET : str :=
  #"abcdefghijklmnopqrstuvwxyzABCDEFGHIJKLMNOPQRSTUVWXYZ0123456789".
Definition BOUNDARY_LENGTH : nat := 16.

(** [secrets.choice(alphabet)], the [i]th draw of [randbelow] being [draw i]. *)
Definition choice (alphabet : str) (drawn : nat) : str := option_list (alphabet !! drawn).

(** [generate_boundary()] *)
Definition generate_boundary (draw : nat -> nat) : str :=
  BOUNDARY_PREFIX ++ (seq 0 BOUNDARY_LENGTH ≫= fun i => choice BOUNDARY_ALPHABET (draw i)).

(** [_QUOTED]: the three characters that could end the quoting early. *)
Definition QUOTED (c : N) : str :=
  if (c =? DQUOTE)%N then #"%22"
  else if (c =? CR)%N then #"%0D"
  else if (c =? LF)%N then #"%0A"
  else [c].

(** [_disposition(name, filename)] *)
Definition disposition (name : str) (filename : option str) : str :=
  let value := #"form-data; name=" ++ [DQUOTE] ++ translate QUOTED name ++ [DQUOTE] in
  match filename with
  | Some f => value ++ #"; filename=" ++ [DQUOTE] ++ translate QUOTED f ++ [DQUOTE]
  | None => value
  end.

Section encoder.
(** [mimetypes.guess_type(filename)[0]], which consults the machine's own
    tables. *)
Variable guess_type : str -> option str.

(** [_file_part(name, spec)]: filename, media type and bytes.  An empty
    declared type counts as none. *)
Definition file_part (name : str) (spec : FileSpec) : res exn (str * str * bytes) :=
  let '(filename, content, declared) :=
    match spec with
    | FileAlone content => (name, content, [])
    | FileNamed filename content => (filename, content, [])
    | FileTyped filename content declared => (filename, content, declared)
    end in
  let media_type :=
    if nonempty declared then declared
    else match guess_type filename with
         | Some guessed => if nonempty guessed then guessed else #"application/octet-stream"
         | None => #"application/octet-stream"
         end in
  octets ← content_bytes content;
  Ok (filename, media_type, octets).

(** One turn of the first loop: what it appends. *)
Definition field_bytes (boundary : str) (field : str * str) : res exn bytes :=
  let '(name, value) := field in
  opening ← encode_strict (#"--" ++ boundary ++ crlf);
  header ← encode_strict (#"Content-Disposition: " ++ disposition name None ++ crlf ++ crlf);
  value ← encode_strict value;
  Ok (opening ++ header ++ value ++ bcrlf).

(** One turn of the second. *)
Definition file_bytes (boundary : str) (file : str * FileSpec) : res exn bytes :=
  let '(name, spec) := file in
  '(filename, media_type, content) ← file_part name spec;
  opening ← encode_strict (#"--" ++ boundary ++ crlf);
  header ← encode_strict (#"Content-Disposition: " ++ disposition name (Some filename) ++ crlf);
  typed ← encode_strict (#"Content-Type: " ++ media_type ++ crlf ++ crlf);
  Ok (opening ++ header ++ typed ++ content ++ bcrlf).

(** A loop that appends to the bytearray, and stops at what cannot be
    encoded. *)
Fixpoint append_all {A} (turn : A -> res exn bytes) (l : list A) (body : bytes) : res exn bytes :=
  match l with
  | [] => Ok body
  | x :: l => more ← turn x; append_all turn l (body ++ more)
  end.

(** [encode_multipart(fields, files, boundary)] *)
Definition encode_multipart (fields : list (str * str)) (files : list (str * FileSpec))
    (boundary : str) : res exn bytes :=
  body ← append_all (field_bytes boundary) fields [];
  body ← append_all (file_bytes boundary) files body;
  closing ← encode_strict (#"--" ++ boundary ++ #"--" ++ crlf);
  Ok (body ++ closing).
End encoder.

(** ** What was asked for

    Read off the specification of a file, one thing at a time. *)

Definition spec_filename (name : str) (spec : FileSpec) : str :=
  match spec with FileAlone _ => name | FileNamed f _ | FileTyped f _ _ => f end.

Definition spec_content (spec : FileSpec) : FileContent :=
  match spec with FileAlone c | FileNamed _ c | FileTyped _ c _ => c end.

Definition spec_declared (spec : FileSpec) : str :=
  match spec with FileAlone _ | FileNamed _ _ => [] | FileTyped _ _ declared => declared end.

Definition octets_of (c : FileContent) : bytes :=
  match c with Text s => encode s | Bytes b => b end.

(** The declared type, the one guessed from the filename, or the one for
    anything: the first that is not empty. *)
Definition spec_type (guess_type : str -> option str) (name : str) (spec : FileSpec) : str :=
  default (#"application/octet-stream")
    (find_first nonempty [spec_declared spec; default [] (guess_type (spec_filename name spec))]).

(** ** The reference decoder *)

(** The text before the first occurrence of [d], and after it. *)
Fixpoint cut (d s : bytes) : option (bytes * bytes) :=
  if starts d s then Some ([], drop (length d) s)
  else match s with
       | [] => None
       | c :: s =>
           match cut d s with
           | Some (a, b) => Some (c :: a, b)
           | None => None
           end
       end.

(** A part as it stands: its header lines, and its content. *)
Definition part := (list bytes * bytes)%type.

(** Header lines, up to the empty one. *)
Fixpoint header_lines (fuel : nat) (s : bytes) : option (list bytes * bytes) :=
  match fuel with
  | O => None
  | S fuel =>
      match cut bcrlf s with
      | None => None
      | Some ([], rest) => Some ([], rest)
      | Some (line, rest) =>
          match header_lines fuel rest with
          | Some (lines, rest) => Some (line :: lines, rest)
          | None => None
          end
      end
  end.

Definition delimiter (boundary : str) : bytes := bcrlf ++ encode (#"--" ++ boundary).

(** The parts after a delimiter: the closing one is followed by two dashes,
    any other by a line end, header lines and a content that runs to the next
    delimiter. *)
Fixpoint parts_after (fuel : nat) (d s : bytes) : option (list part) :=
  match fuel with
  | O => None
  | S fuel' =>
      if bool_decide (s = ##"--" ++ bcrlf) then Some []
      else if starts bcrlf s then
        match header_lines fuel (drop 2 s) with
        | None => None
        | Some (lines, rest) =>
            match cut d rest with
            | None => None
            | Some (content, rest) =>
                match parts_after fuel' d rest with
                | Some ps => Some ((lines, content) :: ps)
                | None => None
                end
            end
        end
      else None
  end.

Definition decode_multipart (boundary : str) (body : bytes) : option (list part) :=
  let open := encode (#"--" ++ boundary) in
  if starts open body
  then parts_after (S (length body)) (delimiter boundary) (drop (length open) body)
  else None.

(** What a server understands a part to be. *)
Inductive entry :=
| Field (name value : str)
| Upload (name filename media_type : str) (content : bytes).

(** The three escapes a browser writes inside the quotes, undone. *)
Definition escaped (a b c : N) : option N :=
  if bool_decide ([a; b; c] = #"%22") then Some DQUOTE
  else if bool_decide ([a; b; c] = #"%0D") then Some CR
  else if bool_decide ([a; b; c] = #"%0A") then Some LF
  else None.

Fixpoint unescape (s : str) : str :=
  match s with
  | a :: ((b :: (c :: r)) as t) =>
      match escaped a b c with
      | Some x => x :: unescape r
      | None => a :: unescape t
      end
  | _ => s
  end.

(** The parameters of a header value: each a semicolon, a key, and a value in
    quotes. *)
Fixpoint parameters (fuel : nat) (s : str) : option (list (str * str)) :=
  match fuel with
  | O => None
  | S fuel =>
      if negb (nonempty s) then Some []
      else if starts (#"; ") s then
        let '(key, _, rest) := partition EQUALS (drop 2 s) in
        if starts [DQUOTE] rest then
          let '(value, closed, rest) := partition DQUOTE (drop 1 rest) in
          if closed : bool then
            match parameters fuel rest with
            | Some ps => Some ((key, value) :: ps)
            | None => None
            end
          else None
        else None
      else None
  end.

Definition parameter (key : str) (ps : list (str * str)) : option str :=
  snd <$> find_first (fun p => bool_decide (p.1 = key)) ps.

(** The value of the header [name]. *)
Definition header_value (name : str) (lines : list str) : option str :=
  drop (length name + 2) <$> find_first (starts (name ++ #": ")) lines.

Definition read_part (p : part) : option entry :=
  lines ← mapM decode p.1;
  disposition ← header_value (#"Content-Disposition") lines;
  if starts (#"form-data") disposition then
    ps ← parameters (S (length disposition)) (drop 9 disposition);
    name ← parameter (#"name") ps;
    match parameter (#"filename") ps with
    | Some filename =>
        media_type ← header_value (#"Content-Type") lines;
        Some (Upload (unescape name) (unescape filename) media_type p.2)
    | None => Field (unescape name) <$> decode p.2
    end
  else None.

(** The form a server reads out of a body. *)
Definition decode_form (boundary : str) (body : bytes) : option (list entry) :=
  ps ← decode_multipart boundary body;
  mapM read_part ps.

Example multipart_ex :
  match encode_multipart (fun _ => None) [(#"a", #"1")]
          [(#"f", FileNamed (#"x" ++ [DQUOTE] ++ #"y.txt") (Text (#"--X")))] (#"XX") with
  | Ok body => decode_form (#"XX") body
  | Raise _ => None
  end
  = Some [Field (#"a") (#"1");
          Upload (#"f") (#"x" ++ [DQUOTE] ++ #"y.txt") (#"application/octet-stream") (##"--X")].
Proof. vm_compute. reflexivity. Qed.

(** ** Lemmas *)

Lemma Forall_scalar_lit (s : string) : Forall scalar (#s).
Proof.
  apply Forall_lit, Forall_true. intros c. unfold scalar.
  pose proof (N_ascii_bounded c). lia.
Qed.

(** [d] does not occur in [s]. *)
Definition free (d s : bytes) : Prop := forall a b, s <> a ++ d ++ b.

Lemma free_absent (x : ascii) (d s : bytes) : x ∉ s -> free (x :: d) s.
Proof. intros H a b ->. apply H. rewrite elem_of_app. right. by left. Qed.

(** A delimiter whose first octet occurs nowhere else in it cannot overlap
    itself, so the first place it is found is the one that was written. *)
Lemma cut_first (x : ascii) (d c r : bytes) :
  x ∉ d -> free (x :: d) c -> cut (x :: d) (c ++ (x :: d) ++ r) = Some (c, r).
Proof.
  intros Hx. induction c as [|y c IH]; intros Hf.
  - cbn [app]. change (x :: d ++ r) with ((x :: d) ++ r). unfold cut.
    destruct ((x :: d) ++ r) eqn:E; [discriminate|]. rewrite <- E, starts_app.
    by rewrite drop_app_length.
  - cbn [app cut]. destruct (starts (x :: d) (y :: c ++ x :: d ++ r)) eqn:E.
    + exfalso. apply starts_true in E as [t E].
      change (y :: c ++ x :: d ++ r) with ((y :: c) ++ (x :: d ++ r)) in E.
      apply app_eq_inv in E as [(k & E1 & E2)|(k & E1 & E2)].
      * apply (Hf [] k). by rewrite E1.
      * injection E1 as Exy Ed. destruct k as [|z k].
        { apply (Hf [] []). cbn. rewrite Ed, !app_nil_r. by rewrite Exy. }
        cbn [app] in E2. injection E2 as Ez Ek. apply Hx. rewrite Ed, <- Ez, elem_of_app.
        right. by left.
    + change (x :: d ++ r) with ((x :: d) ++ r).
      rewrite IH; [done|]. intros a b ->. by apply (Hf (y :: a) b).
Qed.

Lemma in_utf8_cp (b : ascii) (c : N) :
  (oct b < 128)%N -> scalar c -> b ∈ utf8_cp c -> c = oct b.
Proof.
  intros Hb Hs. unfold utf8_cp.
  assert (forall k, (128 <= k < 256)%N -> b <> octet k) as Hhi.
  { intros k Hk ->. rewrite oct_octet in Hb; lia. }
  assert (forall n, (n mod 64 < 64)%N) as H64 by (intros; by apply N.mod_lt).
  pose proof (H64 c). pose proof (H64 (c / 64)%N). pose proof (H64 (c / 4096)%N).
  assert (c / 64 < 32 \/ 2048 <= c)%N as D1
    by (destruct (N.lt_ge_cases c 2048); [left; apply N.Div0.div_lt_upper_bound; lia|by right]).
  assert (c / 4096 < 16 \/ 65536 <= c)%N as D2
    by (destruct (N.lt_ge_cases c 65536); [left; apply N.Div0.div_lt_upper_bound; lia|by right]).
  assert (c / 262144 < 5)%N as D3
    by (unfold scalar in Hs; apply N.Div0.div_lt_upper_bound; lia).
  revert H H0 H1 D1 D2 D3. clear H64 Hs.
  generalize (c mod 64)%N (c / 262144)%N (c / 64)%N (c / 4096)%N. intros m1 d3 d1 d2.
  generalize (d1 mod 64)%N (d2 mod 64)%N. intros m2 m3 H1 H2 H3 D1 D2 D3.
  repeat case_match; reflect_bools; rewrite !elem_of_cons, elem_of_nil;
    intros Hin; repeat destruct Hin as [Hin|Hin]; try done;
    first [by (subst b; rewrite oct_octet by lia) | exfalso; revert Hin; apply Hhi; lia].
Qed.

Lemma in_encode (b : ascii) (s : str) :
  (oct b < 128)%N -> Forall scalar s -> b ∈ encode s -> oct b ∈ s.
Proof.
  intros Hb Hs H. apply list_elem_of_bind in H as (c & Hbc & Hc).
  rewrite Forall_forall in Hs. apply in_utf8_cp in Hbc; auto. by subst c.
Qed.

Lemma cr_encode (s : str) : Forall scalar s -> CR ∉ s -> "013"%char ∉ encode s.
Proof. intros Hs H Hin. apply H. by apply (in_encode "013"%char) in Hin. Qed.

Lemma translate_quoted (c : N) (s : str) :
  c = DQUOTE \/ c = CR \/ c = LF -> c ∉ translate QUOTED s.
Proof.
  intros Hc H. apply list_elem_of_bind in H as (x & Hx & _). revert Hx. unfold QUOTED.
  repeat case_match; reflect_bools; rewrite ?list_elem_of_singleton;
    [| | |intros ->; intuition congruence];
    destruct Hc as [->|[->| ->]]; apply (bool_decide_unpack _); vm_compute; exact I.
Qed.

Lemma translate_quoted_scalar (s : str) : Forall scalar s -> Forall scalar (translate QUOTED s).
Proof.
  intros H. apply Forall_bind. eapply Forall_impl; [exact H|]. cbn. intros c Hc. unfold QUOTED.
  repeat case_match; try apply Forall_scalar_lit. by constructor.
Qed.

Lemma disposition_scalar (n : str) (f : option str) :
  Forall scalar n -> (forall g, f = Some g -> Forall scalar g) ->
  Forall scalar (disposition n f).
Proof.
  intros Hn Hf. assert (forall t, Forall scalar t -> Forall scalar ([DQUOTE] ++ t ++ [DQUOTE])) as Hq.
  { intros t Ht. assert (scalar DQUOTE) by (unfold scalar, DQUOTE; lia).
    apply Forall_app; split; [by constructor|]. apply Forall_app; split; [done|by constructor]. }
  unfold disposition. destruct f as [g|].
  - rewrite <- !app_assoc. specialize (Hf g eq_refl).
    repeat (apply Forall_app; split); try apply Forall_scalar_lit;
      try (by apply translate_quoted_scalar); repeat constructor; unfold scalar, DQUOTE; lia.
  - apply Forall_app; split; [apply Forall_scalar_lit|]. apply Hq.
    by apply translate_quoted_scalar.
Qed.

Lemma disposition_plain (c : N) (n : str) (f : option str) :
  c = CR \/ c = LF -> c ∉ disposition n f.
Proof.
  intros Hc. assert (forall t, c ∉ translate QUOTED t) as Ht by (intros; apply translate_quoted; tauto).
  assert (c ∉ [DQUOTE]) as Hq by (by destruct Hc as [->| ->]; apply (bool_decide_unpack _)).
  unfold disposition. destruct f; rewrite !not_elem_of_app; split_and!; try done;
    destruct Hc as [->| ->]; apply (bool_decide_unpack _); vm_compute; exact I.
Qed.

(** One part as it stands between two delimiters. *)
Definition write_part (p : part) : bytes :=
  bcrlf ++ (p.1 ≫= fun line => line ++ bcrlf) ++ bcrlf ++ p.2.

Fixpoint write_parts (boundary : str) (ps : list part) : bytes :=
  match ps with
  | [] => ##"--" ++ bcrlf
  | p :: ps => write_part p ++ delimiter boundary ++ write_parts boundary ps
  end.

(** The part a field or a file becomes. *)
Definition field_part (f : str * str) : part :=
  ([encode (#"Content-Disposition: " ++ disposition f.1 None)], encode f.2).

Definition upload_part (guess_type : str -> option str) (f : str * FileSpec) : part :=
  ([encode (#"Content-Disposition: " ++ disposition f.1 (Some (spec_filename f.1 f.2)));
    encode (#"Content-Type: " ++ spec_type guess_type f.1 f.2)], octets_of (spec_content f.2)).

(** What the encoder needs of its input: text that is encodable, a media type
    of one line, and contents in which the delimiter does not occur. *)
Record encodable (guess_type : str -> option str) (boundary : str)
    (fields : list (str * str)) (files : list (str * FileSpec)) : Prop := {
  enc_boundary : Forall scalar boundary /\ (CR ∉ boundary);
  enc_fields : forall n v, (n, v) ∈ fields ->
    Forall scalar n /\ Forall scalar v /\ free (delimiter boundary) (encode v);
  enc_files : forall n spec, (n, spec) ∈ files ->
    Forall scalar n /\ Forall scalar (spec_filename n spec)
    /\ Forall scalar (spec_type guess_type n spec) /\ (CR ∉ spec_type guess_type n spec)
    /\ (forall t, spec_content spec = Text t -> Forall scalar t)
    /\ free (delimiter boundary) (octets_of (spec_content spec));
}.

Lemma content_bytes_ok (c : FileContent) :
  (forall t, c = Text t -> Forall scalar t) -> content_bytes c = Ok (octets_of c).
Proof. destruct c as [t|b]; [|done]. intros H. apply encode_scalars. by apply H. Qed.

Lemma append_all_ok {A} (turn : A -> res exn bytes) (h : A -> bytes) (l : list A) (acc : bytes) :
  (forall x, x ∈ l -> turn x = Ok (h x)) -> append_all turn l acc = Ok (acc ++ (l ≫= h)).
Proof.
  revert acc. induction l as [|x l IH]; intros acc H; cbn; [by rewrite app_nil_r|].
  rewrite H by (by left). cbn. rewrite IH by (intros y Hy; apply H; by right).
  by rewrite <- app_assoc.
Qed.

Section written.
Context (guess_type : str -> option str) (b : str).
Context (Hb : Forall scalar b).

Lemma scalar_line (l r : str) : Forall scalar l -> Forall scalar r -> Forall scalar (l ++ r).
Proof. intros. by apply Forall_app. Qed.

Lemma scalar_lit_line (s : string) (r : str) : Forall scalar r -> Forall scalar (#s ++ r).
Proof. intros. apply scalar_line; [apply Forall_scalar_lit|done]. Qed.

Lemma crlf_scalar : Forall scalar crlf.
Proof. repeat constructor; unfold scalar; lia. Qed.

Lemma opening_ok : encode_strict (#"--" ++ b ++ crlf) = Ok (encode (#"--" ++ b) ++ bcrlf).
Proof.
  rewrite (encode_scalars (_ ++ _)) by (apply scalar_lit_line, scalar_line; [done|apply crlf_scalar]).
  by rewrite !encode_app, <- !app_assoc.
Qed.

Lemma field_bytes_ok (n v : str) :
  Forall scalar n -> Forall scalar v ->
  field_bytes b (n, v) = Ok (encode (#"--" ++ b) ++ write_part (field_part (n, v)) ++ bcrlf).
Proof.
  intros Hn Hv. unfold field_bytes. rewrite opening_ok. cbn [mbind res_bind].
  rewrite (encode_scalars (_ ++ _)) by (apply scalar_lit_line, scalar_line; [by apply disposition_scalar|apply scalar_line; apply crlf_scalar]).
  rewrite (encode_scalars v) by done. cbn [mbind res_bind]. f_equal.
  unfold write_part, field_part. cbn [fst snd mbind list_bind].
  rewrite !encode_app. by rewrite <- !app_assoc.
Qed.

Lemma file_part_ok (n : str) (spec : FileSpec) :
  (forall t, spec_content spec = Text t -> Forall scalar t) ->
  file_part guess_type n spec
  = Ok (spec_filename n spec, spec_type guess_type n spec, octets_of (spec_content spec)).
Proof.
  intros H. unfold file_part, spec_type. destruct spec as [c|f c|f c d]; cbn [spec_content] in H |- *;
    rewrite content_bytes_ok by done; cbn; repeat (case_match; cbn); done.
Qed.

Lemma file_bytes_ok (n : str) (spec : FileSpec) :
  Forall scalar n -> Forall scalar (spec_filename n spec) ->
  Forall scalar (spec_type guess_type n spec) ->
  (forall t, spec_content spec = Text t -> Forall scalar t) ->
  file_bytes guess_type b (n, spec)
  = Ok (encode (#"--" ++ b) ++ write_part (upload_part guess_type (n, spec)) ++ bcrlf).
Proof.
  intros Hn Hf Hm Hc. unfold file_bytes. rewrite file_part_ok by done. cbn [mbind res_bind].
  rewrite opening_ok. cbn [mbind res_bind].
  rewrite (encode_scalars (#"Content-Disposition: " ++ _)) by (apply scalar_lit_line, scalar_line;
    [apply disposition_scalar; [done|by intros g [= <-]]|apply crlf_scalar]).
  cbn [mbind res_bind].
  rewrite (encode_scalars (#"Content-Type: " ++ _)) by (apply scalar_lit_line, scalar_line; [done|apply scalar_line; apply crlf_scalar]).
  cbn [mbind res_bind]. f_equal.
  unfold write_part, upload_part. cbn [fst snd mbind list_bind].
  rewrite !encode_app. by rewrite <- !app_assoc.
Qed.

Lemma encode_multipart_ok (fields : list (str * str)) (files : list (str * FileSpec)) :
  encodable guess_type b fields files ->
  encode_multipart guess_type fields files b
  = Ok (encode (#"--" ++ b)
        ++ write_parts b ((field_part <$> fields) ++ (upload_part guess_type <$> files))).
Proof.
  intros [_ Hf Hu]. unfold encode_multipart.
  rewrite (append_all_ok _ (fun f => encode (#"--" ++ b) ++ write_part (field_part f) ++ bcrlf))
    by (intros [n v] Hin; destruct (Hf n v Hin) as (? & ? & ?); by apply field_bytes_ok).
  cbn [mbind res_bind].
  rewrite (append_all_ok _ (fun f => encode (#"--" ++ b) ++ write_part (upload_part guess_type f) ++ bcrlf))
    by (intros [n sp] Hin; destruct (Hu n sp Hin) as (? & ? & ? & ? & ? & ?); by apply file_bytes_ok).
  cbn [mbind res_bind app].
  rewrite (encode_scalars (_ ++ _)) by (apply scalar_lit_line, scalar_line; [done|apply scalar_lit_line, crlf_scalar]).
  cbn [mbind res_bind]. f_equal.
  assert (forall ps, (ps ≫= fun p => encode (#"--" ++ b) ++ write_part p ++ bcrlf)
            ++ encode (#"--" ++ b ++ #"--" ++ crlf)
          = encode (#"--" ++ b) ++ write_parts b ps) as H.
  { induction ps as [|p ps IH]; cbn [mbind list_bind write_parts].
    - cbn [app]. by rewrite !encode_app, <- !app_assoc.
    - rewrite <- !app_assoc, IH. unfold delimiter. by rewrite <- !app_assoc. }
  rewrite <- H, bind_app, <- !app_assoc. by rewrite !list_fmap_bind.
Qed.
End written.

(** A part a server can read back: header lines that are one line each, and a
    content the delimiter does not occur in. *)
Record good_part (d : bytes) (p : part) : Prop := {
  good_lines : Forall (fun l => l <> [] /\ ("013"%char ∉ l)) p.1;
  good_few : length p.1 <= 2;
  good_content : free d p.2;
}.

Lemma cut_crlf (l r : bytes) : "013"%char ∉ l -> cut bcrlf (l ++ bcrlf ++ r) = Some (l, r).
Proof.
  intros H. apply (cut_first "013"%char ["010"%char] l r).
  - by apply (bool_decide_unpack _).
  - by apply (free_absent _ [_]).
Qed.

Lemma cut_delimiter (b : str) (c r : bytes) :
  Forall scalar b -> CR ∉ b -> free (delimiter b) c ->
  cut (delimiter b) (c ++ delimiter b ++ r) = Some (c, r).
Proof.
  intros Hs Hcr. apply (cut_first "013"%char ("010"%char :: encode (#"--" ++ b))).
  rewrite not_elem_of_cons. split; [done|]. apply cr_encode.
  - apply Forall_app. split; [apply Forall_scalar_lit|done].
  - rewrite not_elem_of_app. split; [|done]. by apply (bool_decide_unpack _).
Qed.

Lemma header_lines_written (fuel : nat) (lines : list bytes) (rest : bytes) :
  Forall (fun l => l <> [] /\ ("013"%char ∉ l)) lines -> length lines < fuel ->
  header_lines fuel ((lines ≫= fun l => l ++ bcrlf) ++ bcrlf ++ rest) = Some (lines, rest).
Proof.
  intros Hl. revert fuel. induction Hl as [|l ls [Hne Hcr] Hls IH]; intros [|fuel] Hf;
    cbn [length] in Hf; try lia; cbn [mbind list_bind header_lines].
  - cbn [app]. pose proof (cut_crlf [] rest) as E. cbn [app] in E. rewrite E by apply not_elem_of_nil.
    done.
  - rewrite <- !app_assoc, cut_crlf by done. destruct l as [|c l]; [done|]. by rewrite IH by lia.
Qed.

Lemma parts_after_written (b : str) (ps : list part) (fuel : nat) :
  Forall scalar b -> CR ∉ b -> Forall (good_part (delimiter b)) ps -> length ps + 3 <= fuel ->
  parts_after fuel (delimiter b) (write_parts b ps) = Some ps.
Proof.
  intros Hs Hcr Hps. revert fuel. induction Hps as [|p ps [Hl Hf Hc] Hps IH]; intros fuel Hfuel;
    (destruct fuel as [|fuel]; [cbn in Hfuel; lia|]); cbn [length] in Hfuel.
  - reflexivity.
  - cbn [write_parts]. unfold write_part. rewrite <- !app_assoc. cbn [parts_after].
    rewrite bool_decide_eq_false_2 by discriminate. rewrite starts_app.
    change 2 with (length bcrlf). rewrite drop_app_length, header_lines_written by (done || lia).
    rewrite cut_delimiter by done.
    rewrite IH by lia. by destruct p.
Qed.

(** A crafted name cannot write a header of its own.  Cut at its quotes,
    a Content-Disposition is the fixed text around the escaped name and the
    escaped filename and nothing more, and it is a single line. *)
Theorem disposition_contained (name filename : str) :
  split_on DQUOTE (disposition name None)
    = [ #"form-data; name="; translate QUOTED name; #""]
  /\ split_on DQUOTE (disposition name (Some filename))
    = [ #"form-data; name="; translate QUOTED name; #"; filename=";
        translate QUOTED filename; #""]
  /\ (forall f, (CR ∉ disposition name f) /\ (LF ∉ disposition name f)).
Proof.
  assert (forall s, DQUOTE ∉ translate QUOTED s) as Hq by (intros; apply translate_quoted; auto).
  unfold disposition. split_and!; rewrite <- ?app_assoc; cbn [app].
  1,2: repeat (rewrite split_on_app by (apply Hq || by apply (bool_decide_unpack _)));
    by rewrite split_on_absent by apply not_elem_of_nil.
  intros f. split; apply disposition_plain; auto.
Qed.

Lemma encode_line (s : str) :
  s <> [] -> Forall scalar s -> CR ∉ s -> encode s <> [] /\ ("013"%char ∉ encode s).
Proof.
  intros Hn Hs Hc. split; [|by apply cr_encode]. destruct s as [|c s]; [done|].
  cbn. unfold utf8_cp. by repeat case_match.
Qed.

Lemma cr_not_lit (s : string) : bool_decide (CR ∈ #s) = false -> CR ∉ #s.
Proof. apply bool_decide_eq_false. Qed.

Lemma part_line (s : string) (t : str) :
  #s <> [] -> bool_decide (CR ∈ #s) = false -> Forall scalar t -> CR ∉ t ->
  encode (#s ++ t) <> [] /\ ("013"%char ∉ encode (#s ++ t)).
Proof.
  intros Hn Hb Ht Hc. apply encode_line.
  - intros E. by apply app_eq_nil in E as [E _].
  - apply Forall_app. split; [apply Forall_scalar_lit|done].
  - rewrite not_elem_of_app. split; [by apply cr_not_lit|done].
Qed.

Lemma encodable_parts guess_type b fields files :
  encodable guess_type b fields files ->
  Forall (good_part (delimiter b))
    ((field_part <$> fields) ++ (upload_part guess_type <$> files)).
Proof.
  intros [_ Hf Hu]. apply Forall_app. split; apply Forall_fmap, Forall_forall.
  - intros [n v] Hin. destruct (Hf n v Hin) as (H1 & H2 & H3).
    constructor; cbn [compose field_part fst snd]; [|cbn; lia|done].
    constructor; [|done]. apply part_line; [done|done| |apply disposition_plain; auto].
    by apply disposition_scalar.
  - intros [n sp] Hin. destruct (Hu n sp Hin) as (H1 & H2 & H3 & H4 & H5 & H6).
    constructor; cbn [compose upload_part fst snd]; [|cbn; lia|done].
    constructor; [|constructor; [|done]]; apply part_line; try done.
    + apply disposition_scalar; [done|]. by intros g [= <-].
    + apply disposition_plain. auto.
Qed.

Lemma write_parts_length (b : str) (ps : list part) : length ps + 3 <= S (length (write_parts b ps)).
Proof.
  induction ps as [|p ps IH]; [cbn; lia|]. cbn [write_parts length]. rewrite !length_app.
  unfold write_part, bcrlf. cbn [app length] in *. lia.
Qed.

(** ** The form is read back *)

(** A text in which no escape stands already, so that one can be undone. *)
Definition unambiguous (s : str) : Prop :=
  forall a e r, e ∈ [ #"%22"; #"%0D"; #"%0A"] -> s <> a ++ e ++ r.

Lemma unambiguous_tail (c : N) (s : str) : unambiguous (c :: s) -> unambiguous s.
Proof. intros H a e r He ->. by apply (H (c :: a) e r). Qed.

(** The three characters quoted, with what each becomes. *)
Lemma quoted_cases (c : N) :
  (exists x y, QUOTED c = [37; x; y]%N /\ escaped 37 x y = Some c) \/ QUOTED c = [c].
Proof.
  unfold QUOTED. destruct (N.eqb_spec c DQUOTE) as [->|].
  { left. exists 50%N, 50%N. by vm_compute. }
  destruct (N.eqb_spec c CR) as [->|]. { left. exists 48%N, 68%N. by vm_compute. }
  destruct (N.eqb_spec c LF) as [->|]. { left. exists 48%N, 65%N. by vm_compute. }
  by right.
Qed.

Lemma escaped_some (a b c x : N) :
  escaped a b c = Some x -> [a; b; c] ∈ [ #"%22"; #"%0D"; #"%0A"].
Proof.
  unfold escaped. repeat case_bool_decide; try done; intros _; rewrite !elem_of_cons; auto.
Qed.

Lemma escape_not_percent (a b c : N) : [a; b; c] ∈ [ #"%22"; #"%0D"; #"%0A"] -> b <> 37%N /\ c <> 37%N.
Proof.
  rewrite !elem_of_cons, elem_of_nil.
  intros [H|[H|[H|[]]]]; apply (f_equal (fun l => (nth 1 l 0, nth 2 l 0))%N) in H; vm_compute in H;
    injection H as -> ->; done.
Qed.

(** What does not begin with a percent sign was there before the quoting. *)
Lemma translate_head (s : str) (b : N) (t : str) :
  translate QUOTED s = b :: t -> b <> 37%N -> exists s', s = b :: s' /\ t = translate QUOTED s'.
Proof.
  destruct s as [|c s]; [done|]. unfold translate. cbn [mbind list_bind]. intros H Hb.
  destruct (quoted_cases c) as [(x & y & E & _)|E]; rewrite E in H; cbn in H; injection H as Hc Ht.
  - by subst b.
  - subst b t. by exists s.
Qed.

Lemma unescape_quoted (s : str) : unambiguous s -> unescape (translate QUOTED s) = s.
Proof.
  induction s as [|c s IH]; intros Hs; [done|]. specialize (IH (unambiguous_tail c s Hs)).
  unfold translate in *. cbn [mbind list_bind] in *. fold (translate QUOTED s) in *.
  destruct (quoted_cases c) as [(x & y & E & Ec)|E]; rewrite E; cbn [app].
  { cbn [unescape]. rewrite Ec. by f_equal. }
  destruct (translate QUOTED s) as [|b [|d r]] eqn:Et; cbn [unescape] in *; [by f_equal|by f_equal|].
  destruct (escaped c b d) as [x|] eqn:Ex; [|by f_equal].
  exfalso. apply escaped_some in Ex. destruct (escape_not_percent _ _ _ Ex) as [Hb Hd].
  destruct (translate_head s b (d :: r) Et Hb) as (s' & -> & Et').
  destruct (translate_head s' d r (eq_sym Et') Hd) as (s'' & -> & _).
  by apply (Hs [] [c; b; d] s'').
Qed.

(** One parameter, written as the program writes it. *)
Lemma parameters_written (fuel : nat) (key t rest : str) :
  EQUALS ∉ key -> DQUOTE ∉ t ->
  parameters (S fuel) (#"; " ++ key ++ EQUALS :: DQUOTE :: t ++ DQUOTE :: rest)
  = (cons (key, t)) <$> parameters fuel rest.
Proof.
  intros Hk Ht. cbn [parameters]. rewrite (starts_app (#"; ")).
  change (drop 2 (#"; " ++ ?x)) with (drop 0 x). rewrite drop_0, partition_app by done.
  rewrite (starts_app [DQUOTE] (t ++ DQUOTE :: rest)). cbn [drop].
  rewrite drop_0, partition_app by done. cbn. by destruct (parameters fuel rest).
Qed.

Lemma disposition_parameters (name : str) (filename : option str) (fuel : nat) :
  parameters (S (S (S fuel))) (drop 9 (disposition name filename))
  = Some ((#"name", translate QUOTED name)
          :: match filename with Some f => [(#"filename", translate QUOTED f)] | None => [] end).
Proof.
  assert (forall s, DQUOTE ∉ translate QUOTED s) as Hq by (intros; apply translate_quoted; auto).
  assert (forall s, bool_decide (EQUALS ∈ #s) = false -> EQUALS ∉ #s) as He
    by (intros s; apply bool_decide_eq_false).
  destruct filename as [f|].
  - change (drop 9 _) with (#"; " ++ #"name" ++ EQUALS :: DQUOTE :: (translate QUOTED name ++ [DQUOTE])
        ++ #"; " ++ #"filename" ++ EQUALS :: DQUOTE :: translate QUOTED f ++ [DQUOTE]) at 1.
    rewrite <- app_assoc. cbn [app]. rewrite parameters_written by (apply Hq || by apply He).
    by rewrite parameters_written by (apply Hq || by apply He).
  - change (drop 9 _) with (#"; " ++ #"name" ++ EQUALS :: DQUOTE :: translate QUOTED name ++ [DQUOTE]) at 1.
    by rewrite parameters_written by (apply Hq || by apply He).
Qed.

Lemma header_value_here (name value : str) (lines : list str) :
  header_value name ((name ++ #": " ++ value) :: lines) = Some value.
Proof.
  unfold header_value. cbn [find_first]. rewrite (app_assoc name), starts_app. cbn [fmap option_fmap option_map].
  f_equal.
  replace (length name + 2) with (length (name ++ #": ")) by (rewrite length_app; done).
  apply drop_app_length.
Qed.

Lemma disposition_form (name : str) (filename : option str) :
  starts (#"form-data") (disposition name filename) = true.
Proof. destruct filename; apply (starts_app (#"form-data")). Qed.

Lemma disposition_fuel (name : str) (filename : option str) :
  exists k, length (disposition name filename) = S (S k).
Proof. destruct filename; eexists; reflexivity. Qed.

Lemma disposition_line (value : str) (lines : list str) :
  header_value (#"Content-Disposition") ((#"Content-Disposition: " ++ value) :: lines) = Some value.
Proof. exact (header_value_here (#"Content-Disposition") value lines). Qed.

Lemma type_line (line value : str) :
  header_value (#"Content-Type") [ #"Content-Disposition: " ++ line; #"Content-Type: " ++ value] = Some value.
Proof.
  transitivity (header_value (#"Content-Type") [ #"Content-Type: " ++ value]);
    [|exact (header_value_here (#"Content-Type") value [])].
  unfold header_value. cbn [find_first].
  destruct (starts _ (#"Content-Disposition: " ++ _)) eqn:E; [|done].
  exfalso. apply starts_true in E as [t E]. cbn in E. done.
Qed.

Lemma read_field (n v : str) :
  Forall scalar n -> Forall scalar v -> unambiguous n ->
  read_part (field_part (n, v)) = Some (Field n v).
Proof.
  intros Hn Hv Hu. unfold read_part, field_part. cbn [fst snd mapM].
  rewrite (decode_encode (#"Content-Disposition: " ++ _)) by (apply scalar_lit_line; by apply disposition_scalar).
  cbn [mbind option_bind mret option_ret].
  rewrite disposition_line. cbn [mbind option_bind].
  rewrite disposition_form. destruct (disposition_fuel n None) as [k ->].
  rewrite disposition_parameters. cbn [mbind option_bind].
  unfold parameter. cbn [find_first fst]. rewrite (bool_decide_true (#"name" = #"name")) by done.
  cbn [fmap option_fmap option_map snd mbind option_bind].
  rewrite (bool_decide_false (#"name" = #"filename")) by discriminate.
  cbn [option_map]. rewrite (decode_encode v) by done. cbn [option_map]. by rewrite unescape_quoted.
Qed.

Lemma read_upload (guess_type : str -> option str) (n : str) (spec : FileSpec) :
  Forall scalar n -> Forall scalar (spec_filename n spec) -> Forall scalar (spec_type guess_type n spec) ->
  unambiguous n -> unambiguous (spec_filename n spec) ->
  read_part (upload_part guess_type (n, spec))
  = Some (Upload n (spec_filename n spec) (spec_type guess_type n spec) (octets_of (spec_content spec))).
Proof.
  intros Hn Hf Hm Hu Huf. unfold read_part, upload_part. cbn [fst snd mapM].
  rewrite (decode_encode (#"Content-Disposition: " ++ _))
    by (apply scalar_lit_line, disposition_scalar; [done|by intros g [= <-]]).
  rewrite (decode_encode (#"Content-Type: " ++ _)) by (by apply scalar_lit_line).
  cbn [mbind option_bind mret option_ret].
  rewrite disposition_line. cbn [mbind option_bind].
  rewrite disposition_form. destruct (disposition_fuel n (Some (spec_filename n spec))) as [k ->].
  rewrite disposition_parameters. cbn [mbind option_bind].
  unfold parameter. cbn [find_first fst]. rewrite (bool_decide_true (#"name" = #"name")) by done.
  cbn [fmap option_fmap option_map snd mbind option_bind].
  rewrite (bool_decide_false (#"name" = #"filename")) by discriminate.
  rewrite (bool_decide_true (#"filename" = #"filename")) by done.
  cbn [fmap option_fmap option_map snd].
  rewrite type_line.
  cbn [mbind option_bind]. by rewrite !unescape_quoted.
Qed.

(** What a server should understand a file to be. *)
Definition uploaded (guess_type : str -> option str) (f : str * FileSpec) : entry :=
  Upload f.1 (spec_filename f.1 f.2) (spec_type guess_type f.1 f.2) (octets_of (spec_content f.2)).

(** C9: a server reads back exactly what was uploaded.  Text that can be
    encoded is, and the reference decoder, run on the body, returns every
    field, in order, with its own name and value, and then every file with
    its own name, filename and media type and its content octet for octet,
    whatever quotes and line ends the names hold.  The names and filenames
    must not already hold one of the three escapes, media types must be one
    line, and no value or content may hold the delimiter. *)
Theorem multipart_roundtrip guess_type b fields files
    (Henc : encodable guess_type b fields files)
    (Hfields : forall n v, (n, v) ∈ fields -> unambiguous n)
    (Hfiles : forall n spec, (n, spec) ∈ files -> unambiguous n /\ unambiguous (spec_filename n spec)) :
  exists body, encode_multipart guess_type fields files b = Ok body
    /\ decode_form b body
       = Some ((uncurry Field <$> fields) ++ (uploaded guess_type <$> files)).
Proof.
  pose proof (encodable_parts _ _ _ _ Henc) as Hg. destruct (Henc) as [[Hs Hc] Hf Hu].
  eexists. split; [by apply encode_multipart_ok|].
  unfold decode_form, decode_multipart. rewrite starts_app, drop_app_length.
  rewrite parts_after_written; [|done|done|done|].
  2: { pose proof (write_parts_length b ((field_part <$> fields) ++ (upload_part guess_type <$> files))).
       rewrite (length_app (encode (#"--" ++ b))). lia. }
  cbn [mbind option_bind]. apply mapM_Some, Forall2_app; apply Forall2_fmap_l, Forall2_fmap_r, Forall_Forall2_diag,
    Forall_forall.
  - intros [n v] Hin. destruct (Hf n v Hin) as (? & ? & _). apply read_field; eauto.
  - intros [n sp] Hin. destruct (Hu n sp Hin) as (? & ? & ? & _). destruct (Hfiles n sp Hin).
    by apply read_upload.
Qed.

Lemma multipart_roundtrip_witness :
  exists body,
    encode_multipart (fun _ => None) [([97; DQUOTE]%N, #"1")] [(#"f", FileAlone (Bytes (##"data")))] (#"B")
    = Ok body
    /\ decode_form (#"B") body
       = Some [Field [97; DQUOTE]%N (#"1"); Upload (#"f") (#"f") (#"application/octet-stream") (##"data")].
Proof.
  assert (forall s, (37%N ∉ s) -> unambiguous s) as Hu.
  { intros s Hs a e r He ->. apply Hs. rewrite !elem_of_app. right. left.
    revert He. rewrite !elem_of_cons, elem_of_nil. intros [->|[->|[->|[]]]]; by left. }
  apply (multipart_roundtrip (fun _ => None) (#"B") [([97; DQUOTE]%N, #"1")]
           [(#"f", FileAlone (Bytes (##"data")))]).
  - constructor.
    + split; [apply Forall_scalar_lit|by apply (bool_decide_unpack _)].
    + intros n v H. apply list_elem_of_singleton in H. injection H as -> ->.
      split_and!; [repeat constructor; unfold scalar, DQUOTE; lia|apply Forall_scalar_lit|].
      apply free_absent. by apply (bool_decide_unpack _).
    + intros n sp H. apply list_elem_of_singleton in H. injection H as -> ->.
      split_and!; try apply Forall_scalar_lit; [by apply (bool_decide_unpack _)|done|].
      apply free_absent. by apply (bool_decide_unpack _).
  - intros n v H. apply list_elem_of_singleton in H. injection H as -> ->.
    apply Hu. by apply (bool_decide_unpack _).
  - intros n sp H. apply list_elem_of_singleton in H. injection H as -> ->.
    split; apply Hu; by apply (bool_decide_unpack _).
Defined.

Lemma boundary_alphabet_spec (c : N) :
  c ∈ BOUNDARY_ALPHABET <-> is_ascii_alnum c = true.
Proof.
  destruct (N.lt_ge_cases c 128) as [H|H].
  - assert (forallb (fun n => Bool.eqb (bool_decide (n ∈ BOUNDARY_ALPHABET)) (is_ascii_alnum n))
              (N.of_nat <$> seq 0 128) = true) as Hall by (vm_compute; reflexivity).
    rewrite forallb_forall in Hall. specialize (Hall c).
    rewrite <- (bool_decide_eq_true (c ∈ BOUNDARY_ALPHABET)).
    assert (In c (N.of_nat <$> seq 0 128)) as Hc.
    { apply list_elem_of_In, list_elem_of_fmap. exists (N.to_nat c).
      rewrite N2Nat.id, elem_of_seq. split; [done|lia]. }
    apply Hall, Bool.eqb_prop in Hc. by rewrite Hc.
  - split.
    + intros Hin. exfalso.
      assert (Forall (fun n => n < 128)%N BOUNDARY_ALPHABET) as Hb
        by (apply Forall_lit; repeat constructor).
      rewrite Forall_forall in Hb. apply Hb in Hin. lia.
    + unfold is_ascii_alnum, is_ascii_alpha, is_ascii_upper, is_ascii_lower, is_ascii_digit.
      intros E. repeat (apply orb_true_iff in E as [E|E]); apply andb_true_iff in E as [_ E];
        apply N.leb_le in E; lia.
Qed.

Lemma choice_drawn (k : nat) :
  k < length BOUNDARY_ALPHABET -> exists c, choice BOUNDARY_ALPHABET k = [c] /\ is_ascii_alnum c = true.
Proof.
  intros H. destruct (lookup_lt_is_Some_2 BOUNDARY_ALPHABET k H) as [c Hc].
  exists c. unfold choice. rewrite Hc. split; [done|].
  apply boundary_alphabet_spec. by eapply list_elem_of_lookup_2.
Qed.

(** A boundary looks like Chrome's and can delimit.  Whatever is drawn, it
    is the fixed prefix and sixteen ASCII letters and digits, so every octet
    of it may stand in a header and none can be a line end. *)
Theorem boundary_shape (draw : nat -> nat) (Hdraw : forall i, draw i < length BOUNDARY_ALPHABET) :
  (exists suffix, generate_boundary draw = BOUNDARY_PREFIX ++ suffix
     /\ length suffix = 16 /\ Forall (fun c => is_ascii_alnum c = true) suffix)
  /\ Forall scalar (generate_boundary draw) /\ (CR ∉ generate_boundary draw).
Proof.
  assert (forall l, exists suffix, (l ≫= fun i => choice BOUNDARY_ALPHABET (draw i)) = suffix
            /\ length suffix = length l
            /\ Forall (fun c => is_ascii_alnum c = true) suffix) as Hl.
  { induction l as [|i l (s & E & Hn & Hs)]; [by exists []|].
    destruct (choice_drawn (draw i) (Hdraw i)) as (c & Ec & Hc).
    exists (c :: s). cbn [mbind list_bind]. rewrite Ec. cbn. rewrite Hn.
    split_and!; [by f_equal|done|by constructor]. }
  destruct (Hl (seq 0 BOUNDARY_LENGTH)) as (s & E & Hn & Hs). unfold generate_boundary.
  assert (forall c, is_ascii_alnum c = true -> scalar c /\ c <> CR) as Hplain.
  { intros c Hc. apply boundary_alphabet_spec in Hc. split.
    - pose proof (Forall_scalar_lit "abcdefghijklmnopqrstuvwxyzABCDEFGHIJKLMNOPQRSTUVWXYZ0123456789").
      rewrite Forall_forall in H. by apply H.
    - intros ->. revert Hc. by apply (bool_decide_unpack _). }
  rewrite E. split_and!.
  - exists s. by split_and!.
  - apply Forall_app. split; [apply Forall_scalar_lit|]. eapply Forall_impl; [exact Hs|].
    intros c Hc. by apply Hplain.
  - rewrite not_elem_of_app. split; [by apply (bool_decide_unpack _)|]. intros Hin.
    rewrite Forall_forall in Hs. by apply (Hplain CR (Hs _ Hin)).
Qed.

Lemma boundary_shape_witness :
  CR ∉ generate_boundary (fun i => Nat.modulo i 62).
Proof.
  apply (boundary_shape (fun i => Nat.modulo i 62)). intros i.
  change (length BOUNDARY_ALPHABET) with 62. apply Nat.mod_upper_bound. discriminate.
Defined.
