(* ===== verification/Request.v ===== *)
(** * Request: turning options into one native call (request.py).

    The guards, the URL and query handling, the body encodings and
    [build_call].  The multipart encoder is in Multipart, the redirect walk in
    Redirect. *)

From S2P Require Import Prelude Unicode PyText PyUrl Headers Types Errors Json Abi Cookies.
From S2P Require Import Dict Options Multipart.

(** ** Guards *)

(** [STACK_OWNED_HEADERS]: the names the network stack fills in itself, and
    what to reach for instead. *)
Definition STACK_OWNED_HEADERS : list (str * str) :=
  [ (#"accept-encoding", #"the session's brotli= setting decides this");
    (#"accept-language", #"pass accept_language= to the session");
    (#"host", #"Chromium derives this from the URL");
    (#"connection", #"Chromium manages connection reuse itself");
    (#"content-length", #"Chromium counts the body it is given")].

(** [STACK_OWNED_HEADERS.get(name.lower())] *)
Definition stack_owned (name : str) : option str :=
  snd <$> find_first (fun e => bool_decide (e.1 = lower name)) STACK_OWNED_HEADERS.

Definition check_header (source : str) (header : str * str) : res exn unit :=
  match stack_owned header.1 with
  | Some instead => Raise (ValueError (StackOwned header.1 source instead))
  | None => Ok tt
  end.

(** [check_headers(headers, source=source)]; the traversal leaves the source
    as [source_after] says. *)
Definition check_headers (headers : HeaderSource) (source : str) : res exn unit :=
  res_iter (check_header source) (source_pairs headers).

(** [checked_url(url)] *)
Definition checked_url (url : str) : res exn str :=
  parts ← lift_url (urlsplit url);
  if negb (nonempty (sr_scheme parts)) then
    Raise (TypeError (NoScheme url (partition SLASH url).1.1))
  else if negb (bool_decide (sr_scheme parts ∈ [ #"http"; #"https"])) then
    Raise (TypeError (UnsupportedScheme url (sr_scheme parts)))
  else if negb (nonempty (default [] (sr_hostname parts))) then
    Raise (TypeError (NoHost url))
  else Ok url.

(** [parts._replace(query=query)] *)
Definition replace_query (p : split_result) (query : str) : split_result :=
  mk_split (sr_scheme p) (sr_netloc p) (sr_path p) query (sr_fragment p).

(** [urllib.parse.urlencode(pairs)], which encodes each text as it quotes
    it. *)
Definition urlencode_strict (pairs : list (str * str)) : res exn str :=
  _ ← res_iter (fun '(k, v) => _ ← encode_strict k; _ ← encode_strict v; Ok tt) pairs;
  Ok (urlencode pairs).

(** [urllib.parse.quote(s, safe="")] *)
Definition quote_strict (s : str) : res exn str := _ ← encode_strict s; Ok (quote [] s).

(** [with_query(url, params)] *)
Definition with_query (url : str) (params : list (str * str)) : res exn str :=
  if nonempty params then
    parts ← lift_url (urlsplit url);
    let existing := parse_qsl (sr_query parts) in
    query ← urlencode_strict (existing ++ params);
    Ok (urlunsplit (replace_query parts query))
  else Ok url.

(** [authorization(options)] *)
Definition authorization (options : RequestOptions) : res exn (option str) :=
  match opt_basic_auth options, opt_bearer_auth options with
  | Some _, Some _ => Raise (TypeError TwoCredentials)
  | Some (username, password), None =>
      octets ← encode_strict (username ++ #":" ++ password);
      let encoded := oct <$> b64encode octets in
      Ok (Some (#"Basic " ++ encoded))
  | None, Some bearer => Ok (Some (#"Bearer " ++ bearer))
  | None, None => Ok None
  end.

(** [with_proxy_credentials(rules, username, password)] *)
Definition with_proxy_credentials (rules username password : str) : res exn str :=
  if negb (nonempty username) || negb (starts (#"socks5://") rules || starts (#"socks4://") rules)
  then Ok rules
  else
    parts ← lift_url (urlsplit rules);
    if nonempty (default [] (sr_username parts)) || negb (nonempty (default [] (sr_hostname parts)))
    then Ok rules
    else
      name ← quote_strict username;
      secret ← (if nonempty password then q ← quote_strict password; Ok (#":" ++ q) else Ok []);
      let quoted := name ++ secret in
      port ← lift_url (sr_port parts);
      let port :=
        match port with
        | Some p => if (p =? 0)%N then [] else #":" ++ str_of_Z (Z.of_N p)
        | None => []
        end in
      Ok (sr_scheme parts ++ #"://" ++ quoted ++ #"@" ++ default [] (sr_hostname parts)
            ++ port ++ sr_path parts).

(** ** Bodies *)

Section encode_body.
(** The machine's media types, the installed JSON encoder and the random
    choices of this call. *)
Context (guess_type : str -> option str) (msgspec : option (json -> bytes)).
Context (draw : nat -> nat).

(** [[name for name in ("body", "form", "json") if options.get(name) is not None]] *)
Definition given_bodies (options : RequestOptions) : list str :=
  key_if (given (opt_body options)) (#"body")
  ++ key_if (given (opt_form options)) (#"form")
  ++ key_if (negb (is_json_null (opt_json options))) (#"json").

(** [encode_body(options)] *)
Definition encode_body (options : RequestOptions) : res exn (bytes * option str) :=
  let given := given_bodies options in
  if 1 <? length given then Raise (TypeError (TwoBodies given))
  else
    match opt_files options with
    | Some files =>
        match given with
        | g :: _ =>
            if bool_decide (given = [ #"form"]) then
              let fields := default [] (opt_form options) in
              let boundary := generate_boundary draw in
              body ← encode_multipart guess_type fields files boundary;
              Ok (body, Some (#"multipart/form-data; boundary=" ++ boundary))
            else Raise (TypeError (FilesWithBody g))
        | [] =>
            let boundary := generate_boundary draw in
            body ← encode_multipart guess_type [] files boundary;
            Ok (body, Some (#"multipart/form-data; boundary=" ++ boundary))
        end
    | None =>
        match opt_body options with
        | Some body => content ← content_bytes body; Ok (content, None)
        | None =>
            match opt_form options with
            | Some form =>
                text ← urlencode_strict (dict_of form);
                body ← encode_strict text;
                Ok (body, Some (#"application/x-www-form-urlencoded"))
            | None =>
                if is_json_null (opt_json options) then Ok ([], None)
                else Ok (json_encode msgspec (opt_json options), Some (#"application/json"))
            end
        end
    end.

(** [CallSettings] (_bridge.py) *)
Record CallSettings := mkCall {
  call_method : str;
  call_url : str;
  call_headers : header_pairs;
  call_body : bytes;
  call_priority : Z;
  call_max_redirects : Z;
  call_disable_cache : bool;
}.

Definition add_if (present : bool) (name value : str) : header_pairs :=
  if present then [(name, value)] else [].

(** [if value and name not in merged: additions.append((name, value))] *)
Definition addition (merged : Headers) (name : str) (value : option str) : header_pairs :=
  match value with
  | Some v => add_if (nonempty v && negb (contains merged name)) name v
  | None => []
  end.

(** [if cookies is not None and "cookie" not in merged: ...]: the jar is
    asked only then. *)
Definition cookie_addition {S} `{CookieStore S} (merged : Headers) (url : str)
  : st (option S) exn header_pairs := fun cookies =>
  match cookies with
  | Some jar =>
      if contains merged (#"cookie") then (Ok [], cookies)
      else
        match header_for url jar with
        | (Raise e, jar) => (Raise e, Some jar)
        | (Ok cookie, jar) =>
            (Ok (match cookie with
                 | Some c => add_if (nonempty c) (#"cookie") c
                 | None => []
                 end), Some jar)
        end
  | None => (Ok [], cookies)
  end.

(** [build_call(method, url, options, ...)], on the state of the jar. *)
Definition build_call {S} `{CookieStore S} (method url : str) (options : RequestOptions)
    (defaults : Headers) (max_redirects : Z) : st (option S) exn CallSettings :=
  '(body, implied_type) ← st_lift (encode_body options);
  let merged := with_defaults (Headers_init (opt_headers options)) defaults in
  let typed := addition merged (#"content-type") implied_type in
  credentials ← st_lift (authorization options);
  let authorized := addition merged (#"authorization") credentials in
  cookie ← cookie_addition merged url;
  let additions := typed ++ authorized ++ cookie in
  let merged :=
    if nonempty additions then Headers_init (HeadersRepeatable (items merged ++ additions))
    else merged in
  priority ← st_lift (Priority_of (default (priority_value MEDIUM) (opt_priority options)));
  mret {| call_method := method;
          call_url := url;
          call_headers := items merged;
          call_body := body;
          call_priority := PRIORITIES priority;
          call_max_redirects := max_redirects;
          call_disable_cache := opt_disable_cache options |}.
End encode_body.

(** ** Guards: properties *)

Definition owned_names : list str := fst <$> STACK_OWNED_HEADERS.

Lemma stack_owned_none (name : str) : stack_owned name = None <-> lower name ∉ owned_names.
Proof.
  unfold stack_owned. rewrite fmap_None, find_first_none, Forall_forall. unfold owned_names.
  rewrite list_elem_of_fmap. split.
  - intros H (e & E & He). apply H in He. apply bool_decide_eq_false in He. by symmetry in E.
  - intros H e He. apply bool_decide_eq_false. intros E. apply H. by exists e.
Qed.

Lemma res_iter_raise {E A} (f : A -> res E unit) (l : list A) (e : E) :
  res_iter f l = Raise e <->
  exists pre x post, l = pre ++ x :: post /\ Forall (fun y => f y = Ok tt) pre /\ f x = Raise e.
Proof.
  induction l as [|x l IH]; cbn [res_iter].
  - split; [done|]. intros (pre & x & post & H & _). by destruct pre.
  - destruct IH as [IH1 IH2]. destruct (f x) as [[]|e'] eqn:Ex; cbn.
    + split.
      * intros H. destruct (IH1 H) as (pre & y & post & -> & Hp & Hy).
        exists (x :: pre), y, post. split_and!; [done|by constructor|done].
      * intros ([|z pre] & y & post & H & Hp & Hy); injection H as -> ->; [congruence|].
        apply IH2. inversion Hp; subst. by exists pre, y, post.
    + split.
      * intros [= ->]. exists [], x, l. by split_and!.
      * intros ([|z pre] & y & post & H & Hp & Hy); injection H as -> ->; [congruence|].
        inversion Hp; congruence.
Qed.

(** No header Chromium owns gets through, however it is spelled.  The
    guard passes exactly when no name, case folded, is one of the five; and
    when it refuses, it names the first offending header and where it was
    set. *)
Theorem check_headers_iff (src : HeaderSource) (source : str) :
  (check_headers src source = Ok tt
   <-> forall n v, (n, v) ∈ source_pairs src -> lower n ∉ owned_names)
  /\ (forall e, check_headers src source = Raise e <->
       exists pre n v post instead,
         source_pairs src = pre ++ (n, v) :: post
         /\ (forall m w, (m, w) ∈ pre -> lower m ∉ owned_names)
         /\ stack_owned n = Some instead
         /\ e = ValueError (StackOwned n source instead)).
Proof.
  unfold check_headers.
  assert (forall n v, check_header source (n, v) = Ok tt <-> lower n ∉ owned_names) as Hp.
  { intros n v. unfold check_header. cbn [fst].
    destruct (stack_owned n) eqn:E; rewrite <- stack_owned_none, E; done. }
  split.
  - rewrite res_iter_ok, Forall_forall. split.
    + intros H n v Hin. apply (Hp n v), H, Hin.
    + intros H [n v] Hin. apply Hp. by apply (H n v).
  - intros e. rewrite res_iter_raise. split.
    + intros (pre & [n v] & post & E & Hpre & Hx). revert Hx. unfold check_header. cbn [fst].
      destruct (stack_owned n) as [i|] eqn:Ei; [intros [= <-]|done].
      exists pre, n, v, post, i. split_and!; [done| |done|done].
      intros m w Hin. rewrite Forall_forall in Hpre. apply (Hp m w), Hpre, Hin.
    + intros (pre & n & v & post & i & E & Hpre & Ei & ->). exists pre, (n, v), post.
      split_and!; [done| |by unfold check_header; cbn [fst]; rewrite Ei].
      apply Forall_forall. intros [m w] Hin. apply Hp. by apply (Hpre m w).
Qed.

Lemma nonempty_default (o : option str) : nonempty (default [] o) = true <-> exists s, o = Some s /\ s <> [].
Proof.
  destruct o as [[|c s]|]; cbn; split; try done.
  - by intros (t & [= <-] & H).
  - intros _. by exists (c :: s).
  - by intros (t & ? & H).
Qed.

(** Only an absolute http or https URL with a host is requested, and it is
    requested unchanged.  Anything else is refused: with TypeError when the
    URL can be taken apart, and with urllib's ValueError when it cannot. *)
Theorem checked_url_iff (url : str) :
  (forall u, checked_url url = Ok u <->
     u = url /\ exists parts host, urlsplit url = Ok parts
       /\ sr_scheme parts ∈ [ #"http"; #"https"]
       /\ sr_hostname parts = Some host /\ host <> [])
  /\ (forall e, checked_url url = Raise e ->
        (exists why, e = TypeError why /\ is_ok (urlsplit url) = true)
        \/ (exists why, e = ValueError (UrlError why) /\ urlsplit url = Raise why)).
Proof.
  unfold checked_url. destruct (urlsplit url) as [p|w]; cbn [lift_url mbind res_bind is_ok]; [|split; [naive_solver|]].
  2: { intros e [= <-]. right. by exists w. }
  split.
  - intros u. destruct (nonempty (sr_scheme p)) eqn:E1; cbn [negb].
    + destruct (bool_decide_reflect (sr_scheme p ∈ [ #"http"; #"https"])) as [Hs|Hs]; cbn [negb].
      * destruct (nonempty (default [] (sr_hostname p))) eqn:E3; cbn [negb].
        -- apply nonempty_default in E3 as (h & Eh & Hh). split; [intros E; injection E as <-|by intros [-> _]].
           split; [done|]. by exists p, h.
        -- split; [done|]. intros (_ & q & h & [= <-] & _ & Eh & Hh).
           rewrite Eh in E3. by apply (nonempty_false h) in E3.
      * split; [done|]. by intros (_ & q & h & [= <-] & ? & _).
    + split; [done|]. intros (_ & q & h & [= <-] & Hs & _). apply nonempty_false in E1.
      rewrite E1 in Hs. exfalso. revert Hs. by apply (bool_decide_unpack _).
  - intros e. destruct (negb _); [intros [= <-]; left; by eauto|].
    destruct (negb _); [intros [= <-]; left; by eauto|].
    destruct (negb _); [intros [= <-]; left; by eauto|done].
Qed.

(** ** The query string *)

Lemma http_scheme_ok (s : str) : s ∈ [ #"http"; #"https"] -> scheme_ok s.
Proof.
  rewrite !elem_of_cons, elem_of_nil.
  intros [->|[->|[]]]; (split; [|by split]); eexists _, _; by split.
Qed.

(** A URL [checked_url] passed has parts that survive a rewrite of its query. *)
Lemma checked_parts (url u : str) :
  checked_url url = Ok u ->
  u = url /\ exists p, urlsplit url = Ok p /\ wf_split p
    /\ sr_scheme p ∈ [ #"http"; #"https"] /\ nonempty (default [] (sr_hostname p)) = true.
Proof.
  unfold checked_url. destruct (urlsplit url) as [p|w] eqn:Eu; cbn [lift_url mbind res_bind]; [|done].
  destruct (nonempty (sr_scheme p)); cbn [negb]; [|done].
  destruct (bool_decide_reflect (sr_scheme p ∈ [ #"http"; #"https"])) as [Hs|]; cbn [negb]; [|done].
  destruct (nonempty (default [] (sr_hostname p))) eqn:Eh; cbn [negb]; [|done].
  intros [= ->]. split; [done|]. exists p. split_and!; try done.
  apply (urlsplit_wf u); [done|by apply http_scheme_ok|].
  intros En. revert Eh. unfold sr_hostname, sr_hostinfo. by rewrite En.
Qed.

Lemma checked_from_parts (url : str) (p : split_result) :
  urlsplit url = Ok p -> sr_scheme p ∈ [ #"http"; #"https"] ->
  nonempty (default [] (sr_hostname p)) = true -> checked_url url = Ok url.
Proof.
  intros E Hs Hh. unfold checked_url. rewrite E. cbn [lift_url mbind res_bind].
  rewrite bool_decide_eq_true_2, Hh by done. cbn [negb].
  destruct (sr_scheme p); [|done]. exfalso. revert Hs. by apply (bool_decide_unpack _).
Qed.

Lemma wf_replace_query (p : split_result) (q : str) :
  wf_split p -> HASH ∉ q -> clean q -> wf_split (replace_query p q).
Proof. intros [H1 H2 H3 H4 H5 (C1 & C2 & C3 & C4)] Hq Cq. by constructor. Qed.

Lemma encode_strict_only (t : str) (e : exn) :
  encode_strict t = Raise e -> exists t', e = ValueError (NotEncodable t').
Proof. unfold encode_strict. case_match; [done|]. intros [= <-]. by exists t. Qed.

Lemma urlencode_strict_ok (ps : list (str * str)) :
  Forall scalar_pair ps -> urlencode_strict ps = Ok (urlencode ps).
Proof.
  intros H. unfold urlencode_strict.
  assert (res_iter (fun '(k, v) => _ ← encode_strict k; _ ← encode_strict v; Ok tt) ps = Ok tt) as ->; [|done].
  apply res_iter_ok. eapply Forall_impl; [exact H|]. intros [k v] [Hk Hv].
  rewrite !encode_scalars by done. done.
Qed.

Lemma quote_strict_ok (t : str) : Forall scalar t -> quote_strict t = Ok (quote [] t).
Proof. intros H. unfold quote_strict. by rewrite encode_scalars. Qed.

(** Parameters are added, and nothing else of the URL changes.  For a URL
    the library requests, the result splits into the same scheme, authority,
    path and fragment, its query parses to the pairs that were there followed
    by the parameters, in order and with repeats, and the result is itself a
    URL the library requests. *)
Theorem with_query_adds (url : str) (params : list (str * str))
    (Hurl : checked_url url = Ok url) (Hs : Forall scalar url)
    (Hp : Forall scalar_pair params) :
  exists u' p q, with_query url params = Ok u'
    /\ urlsplit url = Ok p /\ urlsplit u' = Ok q
    /\ q = replace_query p (sr_query q)
    /\ parse_qsl (sr_query q) = parse_qsl (sr_query p) ++ params
    /\ checked_url u' = Ok u'.
Proof.
  pose proof (checked_parts _ _ Hurl) as (_ & p & E & Hwf & Hsch & Hh). unfold with_query.
  destruct params as [|x params]; cbn [nonempty].
  { exists url, p, p. rewrite app_nil_r. by destruct p. }
  rewrite E. cbn [lift_url mbind res_bind].
  assert (Forall scalar_pair (parse_qsl (sr_query p) ++ x :: params)) as Hall.
  { apply Forall_app. split; [|done]. apply parse_qsl_scalar. by eapply urlsplit_query_all. }
  rewrite urlencode_strict_ok by done. cbn [mbind res_bind].
  set (q := urlencode (parse_qsl (sr_query p) ++ x :: params)).
  pose proof (wf_replace_query p q Hwf (urlencode_no_hash _) (urlencode_clean _)) as Hq.
  apply urlsplit_urlunsplit in Hq.
  exists (urlunsplit (replace_query p q)), p, (replace_query p q). split_and!; try done.
  - cbn. subst q. by apply parse_urlencode.
  - by eapply checked_from_parts.
Qed.

Lemma with_query_adds_witness :
  exists u' p q, with_query (#"https://h:1/p?a=1#f") [(#"b", #"x y")] = Ok u'
    /\ urlsplit (#"https://h:1/p?a=1#f") = Ok p /\ urlsplit u' = Ok q
    /\ q = replace_query p (sr_query q)
    /\ parse_qsl (sr_query q) = parse_qsl (sr_query p) ++ [(#"b", #"x y")]
    /\ checked_url u' = Ok u'.
Proof.
  apply (with_query_adds (#"https://h:1/p?a=1#f") [(#"b", #"x y")]).
  - vm_compute. reflexivity.
  - apply Forall_scalar_lit.
  - constructor; [split; apply Forall_scalar_lit|constructor].
Defined.

(** ** Credentials *)

(** An Authorization header carries exactly the credentials given.  Basic
    credentials decode back to user, colon, password, and are refused when
    they cannot be encoded; a token follows "Bearer "; neither gives no
    header; both is refused. *)
Theorem authorization_value (o : RequestOptions) :
  match opt_basic_auth o, opt_bearer_auth o with
  | Some _, Some _ => authorization o = Raise (TypeError TwoCredentials)
  | Some (user, password), None =>
      (Forall scalar user /\ Forall scalar password -> exists t,
         authorization o = Ok (Some (#"Basic " ++ (oct <$> t)))
         /\ b64decode t = Some (encode user ++ ##":" ++ encode password))
      /\ (is_ok (authorization o) = true -> Forall scalar user /\ Forall scalar password)
  | None, Some token => authorization o = Ok (Some (#"Bearer " ++ token))
  | None, None => authorization o = Ok None
  end.
Proof.
  unfold authorization.
  destruct (opt_basic_auth o) as [[user password]|], (opt_bearer_auth o); try done.
  split.
  - intros [Hu Hp]. rewrite encode_scalars
      by (apply Forall_app; split; [done|]; apply Forall_app; split; [apply Forall_scalar_lit|done]).
    exists (b64encode (encode (user ++ #":" ++ password))). split; [done|].
    rewrite b64_roundtrip. f_equal. by rewrite !encode_app.
  - destruct (encode_strict _) as [octets|] eqn:E; [|done]. intros _.
    apply encode_strict_ok in E as [E _]. apply Forall_app in E as [Hu E].
    by apply Forall_app in E as [_ Hp].
Qed.

(** A quoted text can stand in the userinfo of a URL. *)
Lemma quote_info (s : str) :
  Forall (fun c => plain_cp c = true /\ c <> AT /\ c <> COLON) (quote [] s).
Proof.
  unfold quote. apply Forall_fmap. eapply Forall_impl; [apply quote_bytes_octets|].
  intros b. cbn. destruct b as [[] [] [] [] [] [] [] []]; vm_compute; intros H;
    try discriminate H; repeat split; discriminate.
Qed.

Lemma quote_nonempty (s : str) : s <> [] -> quote [] s <> [].
Proof.
  destruct s as [|c s]; [done|]. intros _. unfold quote. cbn [encode mbind list_bind].
  unfold utf8_cp. repeat case_match; cbn; unfold quote_byte; by case_match.
Qed.

Definition proxy_rule (scheme host : str) (port : option N) : str :=
  scheme ++ #"://" ++ host_port host port.

Definition socks_schemes : list str := [ #"socks5"; #"socks4"].

Lemma socks_scheme_ok (s : str) : s ∈ socks_schemes -> scheme_ok s.
Proof.
  unfold socks_schemes. rewrite !elem_of_cons, elem_of_nil.
  intros [->|[->|[]]]; (split; [|by split]); eexists _, _; by split.
Qed.

Lemma userinfo_of (scheme i h : str) :
  AT ∉ h -> let p := mk_split scheme (i ++ AT :: h) [] [] [] in
  sr_username p = Some (partition COLON i).1.1
  /\ sr_password p = (if (partition COLON i).1.2 then Some (partition COLON i).2 else None).
Proof.
  intros H p. unfold sr_username, sr_password, p. cbn [sr_netloc]. rewrite rpartition_app by done.
  split; [done|]. by destruct (partition COLON i) as [[a f] b].
Qed.

Lemma unquote_quoted (s : str) : Forall scalar s -> unquote (quote [] s) = s.
Proof. intros H. apply unquote_quote; [apply not_elem_of_nil|constructor|done]. Qed.

(** The userinfo the credentials are folded into. *)
Definition userinfo (user password : str) : str :=
  quote [] user ++ (if nonempty password then #":" ++ quote [] password else []).

Lemma userinfo_plain (user password : str) :
  Forall (fun c => plain_cp c = true) (userinfo user password).
Proof.
  assert (forall s, Forall (fun c => plain_cp c = true) (quote [] s)) as Hq
    by (intros s; eapply Forall_impl; [apply quote_info|by intros c [? _]]).
  apply Forall_app. split; [apply Hq|]. destruct (nonempty password); [|constructor].
  apply Forall_app. split; [by repeat constructor|apply Hq].
Qed.

Lemma userinfo_decodes (user password : str) :
  Forall scalar user -> Forall scalar password ->
  let '(name, found, pass) := partition COLON (userinfo user password) in
  unquote name = user /\ (if found : bool then unquote pass else []) = password.
Proof.
  intros Hu Hp. assert (COLON ∉ quote [] user) as Hcu.
  { intros Hin. pose proof (quote_info user) as H. rewrite Forall_forall in H. apply H in Hin. tauto. }
  unfold userinfo. destruct (nonempty password) eqn:En.
  - change (#":" ++ quote [] password) with (COLON :: quote [] password).
    rewrite partition_app by done. by rewrite !unquote_quoted.
  - rewrite app_nil_r, partition_absent by done. rewrite unquote_quoted by done.
    by apply nonempty_false in En.
Qed.

Section folding.
Context (scheme host : str) (port : option N).
Hypothesis Hscheme : scheme ∈ socks_schemes.
Hypothesis Hhost : is_host host.
Hypothesis Hport : forall n, port = Some n -> (0 < n <= 65535)%N.

Lemma port_bound (n : N) : port = Some n -> (n <= 65535)%N.
Proof. intros H. apply Hport in H. lia. Qed.

Lemma rule_authority (info : option str) :
  (forall i, info = Some i -> Forall (fun c => plain_cp c = true) i) ->
  let netloc := match info with Some i => i ++ AT :: host_port host port
                           | None => host_port host port end in
  let p := mk_split scheme netloc [] [] [] in
  urlsplit (scheme ++ #"://" ++ netloc) = Ok p
  /\ sr_hostname p = Some host /\ sr_port p = Ok port.
Proof.
  intros Hi netloc p. destruct (host_port_plain host port Hhost) as (Hplain & _ & _).
  split.
  - apply authority_split; [by apply socks_scheme_ok| |].
    + destruct Hhost as [Hne _]. subst netloc. unfold host_port.
      destruct info as [[|]|]; [done|done|]. by destruct host.
    + subst netloc. destruct info as [i|]; [|done]. apply Forall_app.
      split; [by apply Hi|by constructor].
  - apply hostname_port_of; [done|apply port_bound|].
    by apply (hostinfo_of host port Hhost port_bound info).
Qed.

Lemma folded_rule (user password : str) :
  user <> [] -> Forall scalar user -> Forall scalar password ->
  with_proxy_credentials (proxy_rule scheme host port) user password
  = Ok (scheme ++ #"://" ++ userinfo user password ++ AT :: host_port host port).
Proof.
  intros Hu Hus Hps. unfold with_proxy_credentials. rewrite (proj2 (nonempty_true user)) by done.
  cbn [negb orb].
  assert (starts (#"socks5://") (proxy_rule scheme host port)
          || starts (#"socks4://") (proxy_rule scheme host port) = true) as ->.
  { pose proof Hscheme as H. revert H. unfold socks_schemes. rewrite !elem_of_cons, elem_of_nil.
    intros [->|[->|[]]]; apply orb_true_iff; [left|right]; apply starts_true;
      by exists (host_port host port). }
  destruct (rule_authority None) as (Ep & Eh & Epo); [done|].
  fold (proxy_rule scheme host port) in Ep. cbn [negb]. rewrite Ep. cbn [lift_url mbind res_bind].
  assert (sr_username (mk_split scheme (host_port host port) [] [] []) = None) as ->.
  { destruct (host_port_plain host port Hhost) as (_ & Hat & _).
    unfold sr_username. cbn [sr_netloc]. by rewrite rpartition_absent. }
  rewrite Eh, Epo. cbn [default from_option id lift_url mbind res_bind nonempty orb].
  rewrite (proj2 (nonempty_true host)) by (by destruct Hhost). cbn [negb sr_scheme sr_path].
  rewrite !quote_strict_ok by done. cbn [mbind res_bind].
  assert ((if nonempty password then Ok (#":" ++ quote [] password) else Ok [])
    = @Ok exn _ (if nonempty password then #":" ++ quote [] password else [])) as ->
    by (by destruct (nonempty password)).
  cbn [mbind res_bind]. unfold userinfo, host_port. do 4 f_equal. cbn [app]. f_equal.
  destruct port as [n|]; [|by rewrite !app_nil_r].
  specialize (Hport n eq_refl). destruct (N.eqb_spec n 0); [lia|]. by rewrite app_nil_r.
Qed.
End folding.



(** ** Bodies: properties *)

Lemma dict_of_scalar (ps : list (str * str)) :
  Forall scalar_pair ps -> Forall scalar_pair (dict_of ps).
Proof.
  intros H. unfold dict_of, dict_update. assert (Forall scalar_pair ([] : list (str * str))) as Ha by constructor.
  revert Ha. generalize (@nil (str * str)). induction H as [|[k v] ps [Hk Hv] Hps IH]; intros d Hd;
    cbn; [done|]. apply IH, Forall_dict_set; [by split|done|]. intros k' v' [? _] _. by split.
Qed.

Lemma urlencode_scalar (ps : list (str * str)) : Forall scalar (urlencode ps).
Proof.
  change (urlencode ps) with (join_with [AMP] (write_field <$> ps)).
  assert (forall s, Forall scalar (quote_plus s)) as Hq.
  { intros s. eapply Forall_impl; [apply quote_plus_plain|]. unfold scalar. cbn. intros c Hc. lia. }
  assert (Forall (Forall scalar) (write_field <$> ps)) as H.
  { apply Forall_fmap, Forall_true. intros [k v]. cbn. apply Forall_app. split; [done|].
    constructor; [unfold scalar, EQUALS; lia|done]. }
  induction H as [|f fs Hf Hfs IH]; [constructor|]. destruct fs as [|g fs]; [done|].
  change (join_with [AMP] (f :: g :: fs)) with (f ++ AMP :: join_with [AMP] (g :: fs)).
  apply Forall_app. split; [done|]. constructor; [unfold scalar, AMP; lia|done].
Qed.

Lemma key_if_length (b : bool) (k : str) : length (key_if b k) = if b then 1 else 0.
Proof. by destruct b. Qed.

(** The options name at most one body, and no body beside files but a form. *)
Definition one_body (o : RequestOptions) : Prop :=
  length (given_bodies o) <= 1
  /\ (opt_files o <> None -> opt_body o = None /\ is_json_null (opt_json o) = true).

Definition form_media : str := #"application/x-www-form-urlencoded".

(** A computation that fails only on a text that cannot be encoded. *)
Definition encoding_only {A} (r : res exn A) : Prop :=
  forall e, r = Raise e -> exists t, e = ValueError (NotEncodable t).

Lemma encoding_only_bind {A B} (r : res exn A) (k : A -> res exn B) :
  encoding_only r -> (forall a, encoding_only (k a)) -> encoding_only (r ≫= k).
Proof. intros Hr Hk e. destruct r as [a|e']; cbn; [by apply Hk|]. intros [= <-]. by apply Hr. Qed.

Lemma encoding_only_append {A} (turn : A -> res exn bytes) (l : list A) (body : bytes) :
  (forall x, encoding_only (turn x)) -> encoding_only (append_all turn l body).
Proof.
  intros Ht. revert body. induction l as [|x l IH]; intros body; cbn [append_all]; [by intros e|].
  by apply encoding_only_bind.
Qed.

Lemma multipart_encoding_only guess_type fields files boundary :
  encoding_only (encode_multipart guess_type fields files boundary).
Proof.
  assert (forall t, encoding_only (encode_strict t)) as Hs by exact encode_strict_only.
  unfold encode_multipart.
  assert (forall A (a : A), encoding_only (Ok a : res exn A)) as Hok by (by intros A a e).
  apply encoding_only_bind; [apply encoding_only_append; intros [n v]|intros body].
  { unfold field_bytes. repeat (apply encoding_only_bind; [apply Hs|intros ?]). apply Hok. }
  apply encoding_only_bind; [apply encoding_only_append; intros [n sp]|intros body'].
  { unfold file_bytes. apply encoding_only_bind.
    - unfold file_part. destruct sp as [c|f c|f c d]; (apply encoding_only_bind;
        [destruct c; [apply Hs|apply Hok]|intros ?; apply Hok]).
    - intros [[f m] c]. repeat (apply encoding_only_bind; [apply Hs|intros ?]). apply Hok. }
  apply encoding_only_bind; [apply Hs|intros ?; apply Hok].
Qed.

Lemma urlencode_encoding_only (l : list (str * str)) : encoding_only (urlencode_strict l).
Proof.
  assert (forall A (a : A), encoding_only (Ok a : res exn A)) as Hok by (by intros A a e).
  unfold urlencode_strict. apply encoding_only_bind; [|intros ?; apply Hok].
  induction l as [|[k v] l IH]; cbn [res_iter]; [apply Hok|].
  apply encoding_only_bind; [|intros ?; apply IH].
  repeat (apply encoding_only_bind; [exact (encode_strict_only _)|intros ?]). apply Hok.
Qed.

(** Either the options are at fault, or a text that cannot be encoded is. *)
Lemma encode_body_split guess_type msgspec draw (o : RequestOptions) :
  let encoded := encode_body guess_type msgspec draw o in
  (exists why, encoded = Raise (TypeError why)) /\ ~ one_body o \/ encoding_only encoded /\ one_body o.
Proof.
  assert (forall A (a : A), encoding_only (Ok a : res exn A)) as Hok by (by intros A a e).
  assert (forall c, encoding_only (content_bytes c)) as Hcontent
    by (intros [t|b]; [exact (encode_strict_only t)|apply Hok]).
  unfold encode_body, one_body, given_bodies. rewrite !length_app, !key_if_length.
  destruct (opt_files o) as [files|], (opt_body o) as [b|], (opt_form o) as [form|],
    (is_json_null (opt_json o)); cbn -[encode_multipart urlencode_strict encode_strict content_bytes
      generate_boundary json_encode].
  all: first
    [ left; split; [by eexists|]; intros [H1 H2]; first [lia|by destruct H2]
    | right; split; [|split; [lia|done]] ].
  all: repeat first [apply Hok | apply multipart_encoding_only | exact (encode_strict_only _)
    | apply Hcontent | apply urlencode_encoding_only | apply encoding_only_bind; [|intros ?]].
Qed.

(** A request has one body, sent as what it is.  Naming two bodies, or
    files beside anything but a form, is a TypeError and nothing else is;
    otherwise bytes and text go out as they are with no type implied, a form
    as a query string that parses back to its fields, JSON through the
    encoder, and files as a multipart body announced with its boundary, unless
    the text of one cannot be encoded. *)
Theorem encode_body_kinds (guess_type : str -> option str) (msgspec : option (json -> bytes))
    (draw : nat -> nat) (o : RequestOptions) :
  let encoded := encode_body guess_type msgspec draw o in
  ((exists why, encoded = Raise (TypeError why)) <-> ~ one_body o)
  /\ (forall e, encoded = Raise e ->
        (exists why, e = TypeError why) \/ (exists text, e = ValueError (NotEncodable text)))
  /\ (forall body media, encoded = Ok (body, media) ->
        match opt_files o, opt_body o, opt_form o with
        | Some files, _, form =>
            let boundary := generate_boundary draw in
            encode_multipart guess_type (default [] form) files boundary = Ok body
            /\ media = Some (#"multipart/form-data; boundary=" ++ boundary)
        | None, Some b, _ => content_bytes b = Ok body /\ media = None
        | None, None, Some form =>
            media = Some form_media
            /\ (Forall scalar_pair form ->
                exists text, decode body = Some text /\ parse_qsl text = dict_of form)
        | None, None, None =>
            if is_json_null (opt_json o) then body = [] /\ media = None
            else body = json_encode msgspec (opt_json o) /\ media = Some (#"application/json")
        end).
Proof.
  intros encoded. subst encoded.
  destruct (encode_body_split guess_type msgspec draw o) as [[(why & E) Hn]|[He H1]].
  { rewrite E. split_and!; [split; [done|by eauto]|intros e [= <-]; by eauto|done]. }
  split_and!.
  - split; [|done]. intros [why E]. apply He in E as [t E]. done.
  - intros e E. right. by apply He.
  - clear He H1. intros body media. unfold encode_body, given_bodies. rewrite !length_app, !key_if_length.
    destruct (opt_files o) as [files|], (opt_body o) as [b|], (opt_form o) as [form|],
      (is_json_null (opt_json o)); cbn -[encode_multipart urlencode_strict encode_strict content_bytes
        generate_boundary json_encode]; intros H; try discriminate H;
      try (injection H as <- <-; done);
      try (destruct (encode_multipart _ _ _ _); [|done]; cbn in H; injection H as <- <-; done);
      try (destruct (content_bytes b); [|done]; cbn in H; injection H as <- <-; done).
    all: destruct (urlencode_strict _) as [text|] eqn:Et; [|done]; cbn -[encode_strict] in H.
    all: destruct (encode_strict text) as [octets|] eqn:Eo; [|done]; cbn in H; injection H as <- <-.
    all: split; [done|]; intros Hf; apply encode_strict_ok in Eo as [Hs ->].
    all: exists text; split; [by apply decode_encode|].
    all: rewrite urlencode_strict_ok in Et by (by apply dict_of_scalar); injection Et as <-.
    all: by apply parse_urlencode, dict_of_scalar.
Qed.

(** ** [build_call]: properties *)

Lemma get_list_app (ps qs : header_pairs) (name : str) :
  get_list (mkHeaders (ps ++ qs)) name
  = get_list (mkHeaders ps) name ++ get_list (mkHeaders qs) name.
Proof. unfold get_list. cbn. by rewrite keep_app, fmap_app. Qed.

Lemma mkHeaders_items (h : Headers) : mkHeaders (items h) = h.
Proof. by destruct h. Qed.

Lemma get_list_absent (h : Headers) (name : str) :
  contains h name = false -> get_list h name = [].
Proof.
  rewrite contains_decide, bool_decide_eq_false. unfold get_list. intros H.
  by rewrite (proj2 (keep_named_nil _ _) H).
Qed.

(** The names a call may be given beyond what the caller and session set. *)
Definition added_names : list str := [ #"content-type"; #"authorization"; #"cookie"].

(** What [build_call] may append to the merged headers. *)
Record addition_ok (merged : Headers) (additions : header_pairs) : Prop := {
  add_once : NoDup (fst <$> additions);
  add_new : forall n v, (n, v) ∈ additions ->
    n ∈ added_names /\ contains merged n = false /\ v <> [];
}.

Lemma additions_three (merged : Headers) (typed authorized cookie : header_pairs) :
  (typed = [] \/ exists v, typed = [(#"content-type", v)] /\ v <> []
      /\ contains merged (#"content-type") = false) ->
  (authorized = [] \/ exists v, authorized = [(#"authorization", v)] /\ v <> []
      /\ contains merged (#"authorization") = false) ->
  (cookie = [] \/ exists v, cookie = [(#"cookie", v)] /\ v <> []
      /\ contains merged (#"cookie") = false) ->
  addition_ok merged (typed ++ authorized ++ cookie).
Proof.
  intros Ht Ha Hc. constructor.
  - destruct Ht as [->|(v & -> & _)], Ha as [->|(w & -> & _)], Hc as [->|(x & -> & _)];
      apply (bool_decide_unpack _); vm_compute; exact I.
  - assert (forall n w m v : str, (n, w) ∈ [(m, v)] -> n = m /\ w = v) as Hone.
    { intros n w m v H. apply list_elem_of_singleton in H. by injection H. }
    intros n w. rewrite !elem_of_app. intros [H|[H|H]].
    + destruct Ht as [->|(v & -> & Hv & Hm)]; [by apply elem_of_nil in H|].
      apply Hone in H as [-> ->]. split_and!; [by left|done|done].
    + destruct Ha as [->|(v & -> & Hv & Hm)]; [by apply elem_of_nil in H|].
      apply Hone in H as [-> ->]. split_and!; [by right; left|done|done].
    + destruct Hc as [->|(v & -> & Hv & Hm)]; [by apply elem_of_nil in H|].
      apply Hone in H as [-> ->].
      split_and!; [by right; right; left|done|done].
Qed.

Lemma addition_cases (merged : Headers) (n : str) (o : option str) :
  addition merged n o = []
  \/ exists w, addition merged n o = [(n, w)] /\ w <> [] /\ contains merged n = false.
Proof.
  destruct o as [[|c v]|]; cbn; [by left| |by left].
  destruct (contains merged n); cbn; [by left|]. right. by exists (c :: v).
Qed.

Section build_call.
Context {S : Type} `{CookieStore S}.
Context (guess_type : str -> option str) (msgspec : option (json -> bytes)) (draw : nat -> nat).

Lemma cookie_addition_cases (merged : Headers) (url : str) (jar jar' : option S) (hs : header_pairs) :
  cookie_addition merged url jar = (Ok hs, jar') ->
  (hs = [] \/ exists v, hs = [(#"cookie", v)] /\ v <> [] /\ contains merged (#"cookie") = false)
  /\ (contains merged (#"cookie") = true -> jar' = jar).
Proof.
  unfold cookie_addition. destruct jar as [j|]; [|intros [= <- <-]; split; [by left|done]].
  destruct (contains merged (#"cookie")) eqn:Ec; [intros [= <- <-]; split; [by left|done]|].
  destruct (header_for url j) as [[[c|]|e] j']; [|intros [= <- <-]; split; [by left|done]|done].
  intros [= <- <-]. split; [|done]. destruct c as [|c v]; [by left|right]. by exists (c :: v).
Qed.

(** What a successful [build_call] has computed. *)
Lemma build_call_ok (method url : str) (o : RequestOptions) (defaults : Headers) (limit : Z)
    (jar jar' : option S) (call : CallSettings) :
  build_call guess_type msgspec draw method url o defaults limit jar = (Ok call, jar') ->
  let merged := with_defaults (Headers_init (opt_headers o)) defaults in
  exists additions cred cookie body media p,
    encode_body guess_type msgspec draw o = Ok (body, media)
    /\ authorization o = Ok cred
    /\ additions = addition merged (#"content-type") media
                   ++ addition merged (#"authorization") cred ++ cookie
    /\ cookie_addition merged url jar = (Ok cookie, jar')
    /\ Priority_of (default (priority_value MEDIUM) (opt_priority o)) = Ok p
    /\ call = mkCall method url (items merged ++ additions) body (PRIORITIES p) limit
                (opt_disable_cache o)
    /\ addition_ok merged additions
    /\ (contains merged (#"cookie") = true -> jar' = jar).
Proof.
  intros Hb merged. revert Hb. unfold build_call, st_lift, mbind, st_bind. fold merged.
  destruct (encode_body _ _ _ o) as [[body media]|]; [|done].
  destruct (authorization o) as [cred|]; [|done].
  set (typed := addition merged (#"content-type") media).
  set (authorized := addition merged (#"authorization") cred).
  destruct (cookie_addition merged url jar) as [[cookie|] j] eqn:Ec; [|intros E; discriminate E].
  pose proof (cookie_addition_cases _ _ _ _ _ Ec) as [Hc Hj].
  destruct (Priority_of _) as [p|] eqn:Ep; [|done]. unfold mret, st_ret. intros [= <- <-].
  exists (typed ++ authorized ++ cookie), cred, cookie, body, media, p. split_and!; try done.
  - f_equal. destruct (typed ++ authorized ++ cookie); cbn; [by rewrite app_nil_r|done].
  - apply additions_three; [apply addition_cases|apply addition_cases|done].
Qed.

End build_call.

Definition sample_options : RequestOptions :=
  set_headers no_options (HeadersRepeatable [(#"User-Agent", #"mine"); (#"X-New", #"1")]).

Definition sample_defaults : Headers := mkHeaders [(#"user-agent", #"theirs"); (#"accept", #"*/*")].

Definition sample_jar : CookieJar := jar_with (#"http://h/") [ #"a=1"].


(** A priority is a name.  The six names are the ones accepted, each for
    its own priority, and each priority has its own number in the ABI. *)
Theorem priority_names (value : str) :
  (forall p, Priority_of value = Ok p <-> value = priority_value p)
  /\ (is_ok (Priority_of value) = true <-> value ∈ priority_value <$> priorities)
  /\ NoDup (PRIORITIES <$> priorities).
Proof.
  assert (forall p q, priority_value p = priority_value q -> p = q) as Hinj
    by (by intros [] [] H; vm_compute in H).
  unfold Priority_of.
  destruct (find_first _ priorities) as [p|] eqn:E.
  - apply find_first_some in E as [Hp Hin]. apply bool_decide_eq_true in Hp. subst value.
    split_and!.
    + intros q. split; [by intros [= ->]|]. by intros ->%Hinj.
    + split; [|done]. intros _. by apply list_elem_of_fmap_2.
    + apply (bool_decide_unpack _). vm_compute. exact I.
  - apply find_first_none in E. rewrite Forall_forall in E. split_and!.
    + intros p. split; [done|]. intros ->. assert (p ∈ priorities) as Hin
        by (unfold priorities; rewrite !elem_of_cons; destruct p; tauto).
      apply E, bool_decide_eq_false in Hin. done.
    + split; [done|]. intros (p & -> & Hin)%list_elem_of_fmap.
      apply E, bool_decide_eq_false in Hin. done.
    + apply (bool_decide_unpack _). vm_compute. exact I.
Qed.

(** A SOCKS rule naming an IPv6 address loses its brackets when credentials
    are folded in: the rule that results no longer names the proxy. *)
Lemma ipv6_proxy_rule_broken :
  with_proxy_credentials (#"socks5://[::1]:1080") (#"u") (#"p") = Ok (#"socks5://u:p@::1:1080")
  /\ exists p, urlsplit (#"socks5://[::1]:1080") = Ok p /\ sr_hostname p = Some (#"::1")
  /\ exists q, urlsplit (#"socks5://u:p@::1:1080") = Ok q /\ sr_hostname q = None.
Proof.
  split; [vm_compute; reflexivity|].
  exists (mk_split (#"socks5") (#"[::1]:1080") [] [] []).
  split; [vm_compute; reflexivity|]. split; [vm_compute; reflexivity|].
  exists (mk_split (#"socks5") (#"u:p@::1:1080") [] [] []). split; vm_compute; reflexivity.
Qed.
