(* ===== verification/Redirect.v ===== *)
(** * Redirect: the redirect walk of a session with a jar (request.py).

    [next_hop] decides where a response leads; [RedirectChain] is the walk's
    state, driven from outside by [walk], the loop both sessions run. *)

From S2P Require Import Prelude Unicode PyText PyUrl Headers Types Errors Json Abi Cookies.
From S2P Require Import Options Multipart Request.

Abbreviation hop := (str * str * RequestOptions)%type.

(** [origin(url)] *)
Definition origin (url : str) : res exn (str * str * option N) :=
  parts ← lift_url (urlsplit url);
  port ← lift_url (sr_port parts);
  Ok (sr_scheme parts, default [] (sr_hostname parts), port).

#[export] Instance origin_eq_dec : EqDecision (str * str * option N).
Proof. solve_decision. Defined.

(** Chromium's rule: a 303 becomes a GET unless it was a HEAD, and 301 and 302
    become one only for POST. *)
Definition becomes_get (status : Z) (method : str) : bool :=
  ((status =? 303)%Z && negb (bool_decide (upper method = #"HEAD")))
  || (((status =? 301)%Z || (status =? 302)%Z) && bool_decide (upper method = #"POST")).

Definition is_redirect (status : Z) : bool := (300 <=? status)%Z && (status <? 400)%Z.

(** [name.lower() not in ("authorization", "cookie")] *)
Definition not_credential (p : str * str) : bool :=
  negb (bool_decide (lower p.1 ∈ [ #"authorization"; #"cookie"])).

(** The options a hop to another origin carries. *)
Definition strip_credentials (options carried : RequestOptions) : RequestOptions :=
  let carried := drop_auth carried in
  let headers := Headers_init (opt_headers options) in
  if contains headers (#"authorization") || contains headers (#"cookie")
  then set_headers carried (HeadersRepeatable (keep not_credential (items headers)))
  else set_headers carried (source_after (opt_headers options)).

(** [next_hop(method, url, response, options)] *)
Definition next_hop (method url : str) (response : Response) (options : RequestOptions)
  : res exn (option hop) :=
  let location := default [] (get (headers response) (#"location")) in
  if negb (nonempty location) || negb (is_redirect (status_code response)) then Ok None
  else
    target ← lift_url (urljoin url location);
    let '(method, carried) :=
      if becomes_get (status_code response) method
      then (#"GET", drop_body options) else (method, options) in
    here ← origin url;
    there ← origin target;
    let carried :=
      if bool_decide (here = there) then carried else strip_credentials options carried in
    Ok (Some (method, target, carried)).

(** ** The chain *)

Record RedirectChain := mkChain {
  pending : option hop;
  limit : Z;
  chain_history : list Response;
  final : option Response;
  start : str;
}.

(** [RedirectChain(method, url, options, limit=limit, cookies=jar)] *)
Definition RedirectChain_init (method url : str) (options : RequestOptions) (limit : Z)
  : RedirectChain :=
  mkChain (Some (method, url, options)) limit [] None url.

Definition too_many (c : RedirectChain) : exn :=
  RequestError TooManyRedirects
    (#"more than " ++ str_of_Z (limit c) ++ #" redirects from " ++ start c)
    ERROR_TOO_MANY_REDIRECTS (start c).

Section chain.
Context {J : Type} `{CookieStore J}.

(** [chain.receive(response)], on the state of the jar; an exception leaves
    the chain as it was, the jar having taken the response's cookies. *)
Definition receive (c : RedirectChain) (response : Response) : st J exn RedirectChain :=
  fun jar =>
  match pending c with
  | None => (Raise (RuntimeError (#"this redirect chain has already finished")), jar)
  | Some (method, url, options) =>
      match store url (headers response) jar with
      | (Raise e, jar) => (Raise e, jar)
      | (Ok _, jar) =>
          match next_hop method url response options with
          | Raise e => (Raise e, jar)
          | Ok hop =>
              let stop := match hop with None => true | Some _ => (limit c =? 0)%Z end in
              if stop then
                (Ok (mkChain None (limit c) (chain_history c)
                       (Some (set_history response (chain_history c))) (start c)), jar)
              else if (limit c <=? Z.of_nat (length (chain_history c)))%Z then
                (Raise (too_many c), jar)
              else
                (Ok (mkChain hop (limit c) (chain_history c ++ [response]) (final c) (start c)),
                 jar)
          end
      end
  end.

(** [chain.result()] *)
Definition result (c : RedirectChain) : res exn Response :=
  match final c with
  | Some r => Ok r
  | None => Raise (RuntimeError (#"this redirect chain has not finished"))
  end.

(** The loop that drives a chain, on a world that holds the jar: [perform]
    makes one request, with no redirect followed natively.  [None] is a loop
    still running when the fuel is spent. *)
Context {W : Type} (jar_of : W -> J) (with_jar : W -> J -> W).
Context (perform : hop -> st W exn Response).

Definition receive_in (c : RedirectChain) (response : Response) : st W exn RedirectChain :=
  fun w => let '(r, jar) := receive c response (jar_of w) in (r, with_jar w jar).

Fixpoint walk (fuel : nat) (c : RedirectChain) (w : W) : option (res exn Response * W) :=
  match fuel with
  | O => None
  | S fuel =>
      match pending c with
      | None => Some (result c, w)
      | Some hop =>
          match perform hop w with
          | (Raise e, w) => Some (Raise e, w)
          | (Ok response, w) =>
              match receive_in c response w with
              | (Raise e, w) => Some (Raise e, w)
              | (Ok c, w) => walk fuel c w
              end
          end
      end
  end.
End chain.

(** ** One hop *)

Lemma keep_not_credential (ps : header_pairs) (n v : str) :
  (n, v) ∈ keep not_credential ps -> lower n ∉ [ #"authorization"; #"cookie"].
Proof.
  rewrite elem_of_keep. unfold not_credential. rewrite negb_true_iff, bool_decide_eq_false.
  by intros [H _].
Qed.

Lemma contains_lower (h : Headers) (name f : str) :
  lower name = f -> contains h name = bool_decide (f ∈ names (items h)).
Proof. intros <-. apply contains_decide. Qed.

Lemma no_credentials (h : Headers) :
  contains h (#"authorization") || contains h (#"cookie") = false <->
  forall n v, (n, v) ∈ items h -> lower n ∉ [ #"authorization"; #"cookie"].
Proof.
  rewrite orb_false_iff, (contains_lower h _ (#"authorization")),
    (contains_lower h _ (#"cookie")), !bool_decide_eq_false, !elem_of_names by reflexivity.
  split.
  - intros [Ha Hc] n v Hin. rewrite !elem_of_cons, elem_of_nil.
    intros [E|[E|[]]]; [apply Ha|apply Hc]; by exists (n, v).
  - intros H. split; intros ([n v] & Hin & E); apply (H n v Hin);
      unfold folded in E; cbn [fst] in E; rewrite E; [by left|by right; left].
Qed.

(** A response that sets no cookie leaves any lawful jar alone. *)
Lemma receive_quiet {J} `{LawfulStore J} (c : RedirectChain) (r : Response) (jar : J) :
  contains (headers r) (#"set-cookie") = false -> (receive c r jar).2 = jar.
Proof.
  intros E. unfold receive. destruct (pending c) as [[[m u] o]|]; [|done].
  rewrite store_quiet by done. destruct (next_hop m u r o) as [h|]; [|done].
  destruct (match h with None => true | Some _ => _ end); [done|].
  by destruct (limit c <=? _)%Z.
Qed.

(** What [next_hop] has found when it follows. *)
Lemma next_hop_some (m u : str) (r : Response) (o : RequestOptions) (h : hop) :
  next_hop m u r o = Ok (Some h) ->
  exists loc target here there,
    get (headers r) (#"location") = Some loc /\ is_redirect (status_code r) = true
    /\ urljoin u loc = Ok target /\ origin u = Ok here /\ origin target = Ok there
    /\ let carried := if becomes_get (status_code r) m then drop_body o else o in
       h = ((if becomes_get (status_code r) m then #"GET" else m), target,
            if bool_decide (here = there) then carried else strip_credentials o carried).
Proof.
  unfold next_hop. destruct (get (headers r) (#"location")) as [[|c loc]|]; [done| |done].
  cbn [default from_option id nonempty negb orb].
  destruct (is_redirect (status_code r)) eqn:Er; cbn [negb]; [|done].
  destruct (urljoin u (c :: loc)) as [target|] eqn:Ej; cbn [lift_url mbind res_bind]; [|done].
  intros H. exists (c :: loc), target. revert H.
  destruct (becomes_get (status_code r) m);
    (destruct (origin u) as [here|]; cbn [mbind res_bind]; [|done]);
    (destruct (origin target) as [there|]; cbn [mbind res_bind]; [|done]);
    intros [= <-]; exists here, there; by split_and!.
Qed.

(** The fields a hop decides about. *)
Definition bodies (o : RequestOptions) :=
  (opt_body o, opt_form o, opt_files o, opt_json o).

Definition no_bodies : option FileContent * option (list (str * str))
    * option (list (str * FileSpec)) * json := (None, None, None, JNull).

Lemma strip_bodies (o c : RequestOptions) :
  bodies (strip_credentials o c) = bodies c
  /\ opt_timeout (strip_credentials o c) = opt_timeout c
  /\ opt_priority (strip_credentials o c) = opt_priority c.
Proof. unfold strip_credentials. by destruct (_ || _). Qed.

(** A response that leads on, and the reference it leads to. *)
Definition redirects_to (r : Response) (loc : str) : Prop :=
  (300 <= status_code r < 400)%Z /\ get (headers r) (#"location") = Some loc /\ loc <> [].

(** The hops that are rewritten into a GET without a body. *)
Definition rewritten (status : Z) (m : str) : Prop :=
  status = 303%Z /\ upper m <> #"HEAD" \/ (status = 301%Z \/ status = 302%Z) /\ upper m = #"POST".

Lemma becomes_get_iff (status : Z) (m : str) : becomes_get status m = true <-> rewritten status m.
Proof.
  unfold becomes_get, rewritten. rewrite orb_true_iff, !andb_true_iff, negb_true_iff, orb_true_iff,
    !Z.eqb_eq, bool_decide_eq_false, bool_decide_eq_true. done.
Qed.

(** [next_hop] on a response that leads nowhere, and on one that leads on. *)
Lemma next_hop_stays (m u : str) (r : Response) (o : RequestOptions) :
  (forall loc, ~ redirects_to r loc) -> next_hop m u r o = Ok None.
Proof.
  intros H. unfold next_hop. destruct (get (headers r) (#"location")) as [[|c loc]|] eqn:El; [done| |done].
  cbn [default from_option id nonempty negb orb]. destruct (is_redirect (status_code r)) eqn:Er; [|done].
  exfalso. apply (H (c :: loc)). unfold is_redirect in Er. apply andb_true_iff in Er as [E1 E2].
  apply Z.leb_le in E1. apply Z.ltb_lt in E2. by split_and!.
Qed.

Lemma next_hop_leads (m u : str) (r : Response) (o : RequestOptions) (loc : str) :
  redirects_to r loc ->
  next_hop m u r o =
    (target ← lift_url (urljoin u loc);
     here ← origin u;
     there ← origin target;
     let carried := if becomes_get (status_code r) m then drop_body o else o in
     Ok (Some (if becomes_get (status_code r) m then #"GET" else m, target,
               if bool_decide (here = there) then carried else strip_credentials o carried))).
Proof.
  intros ([H1 H2] & El & Hne). unfold next_hop. rewrite El. destruct loc as [|c loc]; [done|].
  assert (is_redirect (status_code r) = true) as ->.
  { apply andb_true_iff. split; [by apply Z.leb_le|by apply Z.ltb_lt]. }
  cbn [default from_option id nonempty negb orb].
  destruct (urljoin u (c :: loc)); cbn [lift_url mbind res_bind]; [|done].
  by destruct (becomes_get _ _).
Qed.

Lemma strip_if (b : bool) (o c : RequestOptions) :
  let o' := if b then c else strip_credentials o c in
  bodies o' = bodies c /\ opt_timeout o' = opt_timeout c /\ opt_priority o' = opt_priority c.
Proof. destruct b; [done|apply strip_bodies]. Qed.


Lemma strip_headers (o c : RequestOptions) :
  opt_basic_auth (strip_credentials o c) = None
  /\ opt_bearer_auth (strip_credentials o c) = None
  /\ (forall n v, (n, v) ∈ source_pairs (opt_headers (strip_credentials o c)) ->
        lower n ∉ [ #"authorization"; #"cookie"])
  /\ (source_after (opt_headers o) = opt_headers o ->
        source_pairs (opt_headers (strip_credentials o c))
        = keep not_credential (source_pairs (opt_headers o))).
Proof.
  unfold strip_credentials.
  destruct (contains _ (#"authorization") || contains _ (#"cookie")) eqn:E;
    cbn [opt_basic_auth opt_bearer_auth opt_headers set_headers drop_auth source_pairs];
    (split; [done|]); (split; [done|]); split.
  - intros n v. apply keep_not_credential.
  - done.
  - intros n v Hin. apply no_credentials with (n := n) (v := v) in E; [done|].
    by destruct (opt_headers o); cbn in *; try by apply elem_of_nil in Hin.
  - intros ->. symmetry. apply keep_all, Forall_forall. intros [n v] Hin.
    unfold not_credential. apply negb_true_iff, bool_decide_eq_false.
    by apply (proj1 (no_credentials _) E n v).
Qed.

(** C8: credentials never leave the origin they were given for.  When a
    redirect changes scheme, host or port, the next hop's options hold no
    basic or bearer credentials and no Authorization or Cookie header, and
    every other header in its place; within one origin headers and credentials
    travel on untouched. *)
Theorem next_hop_credentials (m u m' target : str) (r : Response) (o o' : RequestOptions)
    (Hhop : next_hop m u r o = Ok (Some (m', target, o'))) :
  exists here there, origin u = Ok here /\ origin target = Ok there
  /\ (here <> there ->
        opt_basic_auth o' = None /\ opt_bearer_auth o' = None
        /\ (forall n v, (n, v) ∈ source_pairs (opt_headers o') ->
              lower n ∉ [ #"authorization"; #"cookie"])
        /\ (source_after (opt_headers o) = opt_headers o ->
              source_pairs (opt_headers o') = keep not_credential (source_pairs (opt_headers o))))
  /\ (here = there ->
        opt_headers o' = opt_headers o /\ opt_basic_auth o' = opt_basic_auth o
        /\ opt_bearer_auth o' = opt_bearer_auth o).
Proof.
  apply next_hop_some in Hhop as (loc & t & here & there & _ & _ & _ & Ho & Ht & E).
  cbn zeta in E. injection E as -> -> ->. exists here, there. split_and!; [done|done| |].
  - intros Hne. rewrite bool_decide_eq_false_2 by done. apply strip_headers.
  - intros Heq. rewrite bool_decide_eq_true_2 by done. by destruct (becomes_get _ _).
Qed.

Lemma contains_app (ps qs : header_pairs) (name : str) :
  contains (mkHeaders (ps ++ qs)) name = contains (mkHeaders ps) name || contains (mkHeaders qs) name.
Proof. apply existsb_app. Qed.

Lemma next_hop_stripped (m u m' target : str) (r : Response) (o o' : RequestOptions)
    (here there : str * str * option N) :
  next_hop m u r o = Ok (Some (m', target, o')) ->
  origin u = Ok here -> origin target = Ok there -> here <> there ->
  opt_basic_auth o' = None /\ opt_bearer_auth o' = None
  /\ (forall n v, (n, v) ∈ source_pairs (opt_headers o') ->
        lower n ∉ [ #"authorization"; #"cookie"]).
Proof.
  intros Hhop Hh Ht Hne.
  apply next_hop_some in Hhop as (loc & t & here' & there' & _ & _ & _ & Ho & Htt & E).
  cbn zeta in E. injection E as -> -> ->.
  rewrite bool_decide_eq_false_2 by congruence.
  destruct (strip_headers o (if becomes_get (status_code r) m then drop_body o else o)) as (?&?&?&_).
  by split_and!.
Qed.

Lemma cookie_addition_from {J} `{CookieStore J} (merged : Headers) (url : str)
    (jar jar' : option J) (n v : str) :
  cookie_addition merged url jar = (Ok [(n, v)], jar') ->
  exists j j', jar = Some j /\ header_for url j = (Ok (Some v), j') /\ jar' = Some j'.
Proof.
  unfold cookie_addition. destruct jar as [j|]; [|done].
  destruct (contains merged (#"cookie")); [done|].
  destruct (header_for url j) as [[[[|c w]|]|e] j'] eqn:E; try done.
  cbn. intros [= _ <- <-]. exists j, j'. by rewrite E.
Qed.


Definition leak_options : RequestOptions :=
  set_headers no_options (HeadersRepeatable [(#"Authorization", #"secret"); (#"X", #"1")]).


Definition leak_response : Response := sample_response 302 [(#"Location", #"http://b/x")].
Definition leak_carried : RequestOptions := set_headers no_options (HeadersRepeatable [(#"X", #"1")]).

Lemma next_hop_credentials_witness :
  opt_basic_auth leak_carried = None
  /\ exists here there, origin (#"http://a/") = Ok here /\ origin (#"http://b/x") = Ok there.
Proof.
  assert (next_hop (#"GET") (#"http://a/") leak_response leak_options
    = Ok (Some (#"GET", #"http://b/x", leak_carried))) as H by (vm_compute; reflexivity).
  destruct (next_hop_credentials _ _ _ _ _ _ _ H) as (here & there & Hh & Ht & _ & _).
  split; [reflexivity|]. exists here, there. split; [exact Hh|exact Ht].
Defined.

Definition leak_jar : CookieJar := jar_with (#"http://b/") [ #"a=1"].


(** ** The walk *)

Section walk.
Context {J : Type} `{CookieStore J}.
Context {W : Type} (jar_of : W -> J) (with_jar : W -> J -> W).
Context (perform : hop -> st W exn Response).

Let walk := walk jar_of with_jar perform.

(** One hop: the request is made and its cookies are stored. *)
Definition visit (h : hop) (w : W) (r : Response) (w' : W) : Prop :=
  exists w1 j, perform h w = (Ok r, w1)
    /\ store h.1.2 (headers r) (jar_of w1) = (Ok tt, j) /\ w' = with_jar w1 j.

Definition leads (h : hop) (r : Response) : res exn (option hop) :=
  next_hop h.1.1 h.1.2 r h.2.

(** The hops from [h] to [h'] through redirects [rs]; each hop's cookies are
    in the jar before the next request is made. *)
Inductive path : hop -> W -> list Response -> hop -> W -> Prop :=
| path_here h w : path h w [] h w
| path_hop h w r w1 h1 rs h2 w2 :
    visit h w r w1 -> leads h r = Ok (Some h1) -> path h1 w1 rs h2 w2 ->
    path h w (r :: rs) h2 w2.

Definition at_hop (c : RedirectChain) (h : hop) (pre : list Response) (l : Z) : Prop :=
  pending c = Some h /\ chain_history c = pre /\ limit c = l.

Lemma receive_in_ok (c : RedirectChain) (h : hop) (pre : list Response) (l : Z)
    (w w1 w' : W) (r : Response) (c' : RedirectChain) :
  at_hop c h pre l -> perform h w = (Ok r, w1) ->
  receive_in jar_of with_jar c r w1 = (Ok c', w') ->
  visit h w r w' /\
  ((leads h r = Ok None \/ (l = 0%Z /\ is_ok (leads h r) = true))
     /\ pending c' = None /\ final c' = Some (set_history r pre)
   \/ exists h1, leads h r = Ok (Some h1) /\ l <> 0%Z /\ (Z.of_nat (length pre) < l)%Z
        /\ at_hop c' h1 (pre ++ [r]) l /\ start c' = start c).
Proof.
  intros (Hp & Hh & Hl) Hr. destruct h as [[m u] o]. unfold receive_in, receive.
  rewrite Hp, Hh, Hl. destruct (store u _ _) as [[[]|] j] eqn:Es; [|done].
  destruct (next_hop m u r o) as [hop|] eqn:En; [|done].
  assert (visit (m, u, o) w r (with_jar w1 j)) as Hv by (exists w1, j; by split_and!).
  unfold leads. cbn [fst snd]. rewrite En.
  destruct hop as [h1|].
  - destruct (Z.eqb_spec l 0).
    + intros [= <- <-]. split; [done|]. left. by split_and!; [right| |].
    + destruct (Z.leb_spec l (Z.of_nat (length pre))); [done|].
      intros [= <- <-]. split; [done|]. right. exists h1. by split_and!.
  - intros [= <- <-]. split; [done|]. left. by split_and!; [left| |].
Qed.

Lemma receive_in_follow (c : RedirectChain) (h h1 : hop) (pre : list Response) (l : Z)
    (w w' : W) (r : Response) :
  at_hop c h pre l -> l <> 0%Z -> visit h w r w' -> leads h r = Ok (Some h1) ->
  exists w1, perform h w = (Ok r, w1)
    /\ receive_in jar_of with_jar c r w1
       = if (l <=? Z.of_nat (length pre))%Z then (Raise (too_many c), w')
         else (Ok (mkChain (Some h1) l (pre ++ [r]) (final c) (start c)), w').
Proof.
  intros (Hp & Hh & Hl) Hne (w1 & j & Hr & Hs & ->) En. exists w1. split; [done|].
  destruct h as [[m u] o]. unfold leads in En. cbn [fst snd] in *.
  unfold receive_in, receive. rewrite Hp, Hh, Hl, Hs, En.
  destruct (Z.eqb_spec l 0); [done|]. by destruct (l <=? _)%Z.
Qed.

Lemma receive_in_stop (c : RedirectChain) (h : hop) (pre : list Response) (l : Z)
    (w w' : W) (r : Response) :
  at_hop c h pre l -> visit h w r w' ->
  leads h r = Ok None \/ (l = 0%Z /\ is_ok (leads h r) = true) ->
  exists w1, perform h w = (Ok r, w1)
    /\ receive_in jar_of with_jar c r w1
       = (Ok (mkChain None l pre (Some (set_history r pre)) (start c)), w').
Proof.
  intros (Hp & Hh & Hl) (w1 & j & Hr & Hs & ->) En. exists w1. split; [done|].
  destruct h as [[m u] o]. unfold leads in En. cbn [fst snd] in *.
  unfold receive_in, receive. rewrite Hp, Hh, Hl, Hs.
  destruct En as [En|[-> En]]; [by rewrite En|]. destruct (next_hop m u r o) as [[h1|]|]; done.
Qed.

(** The walk from [h] has come to its end at [r]. *)
Definition ends (h : hop) (w : W) (rs : list Response) (r : Response) (w' : W) : Prop :=
  exists h' w1, path h w rs h' w1 /\ visit h' w1 r w' /\ leads h' r = Ok None.

Lemma walk_end (fuel : nat) (c : RedirectChain) (r : Response) (w : W) :
  pending c = None -> final c = Some r -> walk (S fuel) c w = Some (Ok r, w).
Proof. intros Hp Hf. cbn. unfold result. by rewrite Hp, Hf. Qed.

Lemma walk_step (fuel : nat) (c : RedirectChain) (h : hop) (w w1 : W) (r : Response) :
  pending c = Some h -> perform h w = (Ok r, w1) ->
  walk (S fuel) c w
  = match receive_in jar_of with_jar c r w1 with
    | (Raise e, w) => Some (Raise e, w)
    | (Ok c, w) => walk fuel c w
    end.
Proof. intros Hp Hr. cbn. by rewrite Hp, Hr. Qed.

Lemma walk_sound (fuel : nat) (c : RedirectChain) (h : hop) (pre : list Response) (l : Z)
    (w w' : W) (r : Response) :
  at_hop c h pre l -> l <> 0%Z -> walk fuel c w = Some (Ok r, w') ->
  exists rs rf, ends h w rs rf w' /\ r = set_history rf (pre ++ rs)
    /\ (rs <> [] -> Z.of_nat (length (pre ++ rs)) <= l)%Z.
Proof.
  revert c h pre w. induction fuel as [|fuel IH]; intros c h pre w Hat Hl; [done|].
  pose proof Hat as (Hp & _ & _). destruct (perform h w) as [[r1|e] w1] eqn:Hr;
    [|cbn; rewrite Hp, Hr; done].
  rewrite (walk_step _ _ h _ w1 r1) by done.
  destruct (receive_in _ _ c r1 w1) as [[c1|] w2] eqn:Ec; [|done].
  destruct (receive_in_ok _ _ _ _ _ _ _ _ _ Hat Hr Ec)
    as [Hv [(Hend & Hp1 & Hf1)|(h1 & Hlead & _ & Hlen & Hat1 & _)]].
  - destruct fuel as [|fuel]; [done|]. rewrite (walk_end _ _ _ _ Hp1 Hf1). intros [= <- <-].
    exists [], r1. rewrite app_nil_r. split_and!; [|done|done].
    exists h, w. split_and!; [constructor|done|]. by destruct Hend as [|[? _]].
  - intros Hw. destruct (IH _ _ _ _ Hat1 Hl Hw) as (rs & rf & (h2 & w3 & Hpath & Hv2 & He) & -> & Hn).
    exists (r1 :: rs), rf. rewrite <- app_assoc in *. cbn [app] in *. split_and!; [|done|].
    + exists h2, w3. split_and!; [by econstructor|done|done].
    + intros _. destruct rs as [|r2 rs]; [rewrite length_app; cbn [length]; lia|]. by apply Hn.
Qed.

Lemma walk_complete (rs : list Response) (fuel : nat) (c : RedirectChain) (h : hop)
    (pre : list Response) (l : Z) (w w' : W) (rf : Response) :
  at_hop c h pre l -> l <> 0%Z -> ends h w rs rf w' ->
  (rs <> [] -> Z.of_nat (length (pre ++ rs)) <= l)%Z -> length rs + 2 <= fuel ->
  walk fuel c w = Some (Ok (set_history rf (pre ++ rs)), w').
Proof.
  revert fuel c h pre w. induction rs as [|r rs IH]; intros fuel c h pre w Hat Hl
    (h' & w1 & Hpath & Hv & He) Hn Hfuel; pose proof Hat as (Hp & _ & _).
  - inversion Hpath; subst. destruct fuel as [|[|fuel]]; cbn [length] in Hfuel; try lia.
    destruct (receive_in_stop c h' pre l w1 w' rf Hat Hv (or_introl He)) as (w2 & Hr & Hc).
    rewrite (walk_step _ _ h' _ w2 rf), Hc, app_nil_r by done. by apply walk_end.
  - inversion Hpath as [|? ? ? wa h1 ? ? ? Hv1 Hl1 Hp1]; subst.
    destruct fuel as [|fuel]; cbn [length] in Hfuel; [lia|].
    destruct (receive_in_follow c h h1 pre l w wa r Hat Hl Hv1 Hl1) as (w2 & Hr & Hc).
    rewrite (walk_step _ _ h _ w2 r), Hc by done.
    specialize (Hn ltac:(done)). rewrite length_app in Hn. cbn [length] in Hn.
    destruct (Z.leb_spec l (Z.of_nat (length pre))); [lia|].
    replace (pre ++ r :: rs) with ((pre ++ [r]) ++ rs) by (by rewrite <- app_assoc).
    eapply (IH fuel _ h1 (pre ++ [r]) wa); [by split_and!|done|by exists h', w1| |lia].
    intros _. rewrite !length_app. cbn [length]. lia.
Qed.

Lemma walk_overrun (rs : list Response) (fuel : nat) (c : RedirectChain) (h h' : hop)
    (pre : list Response) (l : Z) (w w' : W) :
  at_hop c h pre l -> (0 < l)%Z -> path h w rs h' w' ->
  Z.of_nat (length pre + length rs) = (l + 1)%Z -> rs <> [] -> length rs < fuel ->
  walk fuel c w = Some (Raise (too_many c), w').
Proof.
  revert fuel c h pre w. induction rs as [|r rs IH]; intros fuel c h pre w Hat Hl Hpath Hn Hne Hf;
    [done|]. pose proof Hat as (Hp & _ & Hlim).
  inversion Hpath as [|? ? ? wa h1 ? ? ? Hv1 Hl1 Hp1]; subst.
  destruct fuel as [|fuel]; cbn [length] in *; [lia|].
  destruct (receive_in_follow c h h1 pre _ w wa r Hat ltac:(lia) Hv1 Hl1) as (w2 & Hr & Hc).
  rewrite (walk_step _ _ h _ w2 r), Hc by done.
  destruct (Z.leb_spec (limit c) (Z.of_nat (length pre))).
  - destruct rs as [|r2 rs]; [|cbn [length] in *; lia]. by inversion Hp1; subst.
  - destruct rs as [|r2 rs]; [cbn [length] in *; lia|].
    rewrite (IH fuel _ h1 (pre ++ [r]) wa); [done|by split_and!|done|done| |done|lia].
    rewrite length_app. cbn [length]. cbn [length] in Hn. lia.
Qed.

Lemma walk_total (fuel : nat) (c : RedirectChain) (w : W) :
  (match pending c with
   | None => 1
   | Some _ => Z.to_nat (limit c - Z.of_nat (length (chain_history c))) + 2
   end <= fuel) -> is_Some (walk fuel c w).
Proof.
  revert c w. induction fuel as [|fuel IH]; intros c w Hf; [destruct (pending c); lia|].
  cbn. destruct (pending c) as [h|] eqn:Hp; [|by eexists].
  destruct (perform h w) as [[r|e] w1] eqn:Hr; [|by eexists].
  destruct (receive_in jar_of with_jar c r w1) as [[c1|e] w2] eqn:Hc; [|by eexists].
  apply IH. destruct (receive_in_ok c h (chain_history c) (limit c) w w1 w2 r c1)
    as [_ [(_ & -> & _)|(h1 & _ & _ & Hlen & (Hp1 & Hh1 & Hl1) & _)]]; try done; [lia|].
  rewrite Hp1, Hh1, Hl1, length_app. cbn [length]. lia.
Qed.
End walk.

(** C15: the walk is the chain of redirects, hop by hop.  With a limit of one or
    more, the response returned is the end of a chain in which each response
    led to the next request, its cookies being in the jar before that request
    was made; the responses passed through are its history, oldest first, and
    no more than the limit; and every such chain is walked. *)
Theorem walk_follows {J} `{CookieStore J} {W} (jar_of : W -> J) (with_jar : W -> J -> W)
    (perform : hop -> st W exn Response) (m u : str) (o : RequestOptions) (l : Z)
    (fuel : nat) (w w' : W) (r : Response)
    (Hl : (0 < l)%Z) (Hfuel : Z.to_nat l + 2 <= fuel) :
  walk jar_of with_jar perform fuel (RedirectChain_init m u o l) w = Some (Ok r, w')
  <-> exists rs rf, ends jar_of with_jar perform (m, u, o) w rs rf w'
        /\ (Z.of_nat (length rs) <= l)%Z /\ r = set_history rf rs.
Proof.
  assert (at_hop (RedirectChain_init m u o l) (m, u, o) [] l) as Hat by (by split_and!).
  split.
  - intros Hw. apply (walk_sound _ _ _ _ _ _ _ _ _ _ _ Hat) in Hw
      as (rs & rf & He & -> & Hn); [|lia].
    exists rs, rf. split_and!; [done| |done]. destruct rs; [cbn; lia|]. by apply Hn.
  - intros (rs & rf & He & Hn & ->).
    apply (walk_complete _ _ _ rs fuel _ (m, u, o) [] l); [done|lia|done|done|lia].
Qed.

(** C32: the walk always ends, and the limit is the limit.  Whatever the
    network answers, limit + 2 rounds are enough for a result; a limit of zero
    returns the first response with an empty history, redirect or not; and a
    chain with one redirect too many raises TooManyRedirects naming the limit
    and the URL it started from. *)
Theorem walk_limits {J} `{CookieStore J} {W} (jar_of : W -> J) (with_jar : W -> J -> W)
    (perform : hop -> st W exn Response) (m u : str) (o : RequestOptions) (l : Z)
    (fuel : nat) (w : W) (Hfuel : Z.to_nat l + 2 <= fuel) :
  let run := walk jar_of with_jar perform fuel (RedirectChain_init m u o l) w in
  is_Some run
  /\ (l = 0%Z -> forall r w', run = Some (Ok r, w') <->
        exists rf, visit jar_of with_jar perform (m, u, o) w rf w'
          /\ is_ok (leads (m, u, o) rf) = true /\ r = set_history rf [])
  /\ (forall rs h' w', (0 < l)%Z ->
        path jar_of with_jar perform (m, u, o) w rs h' w' -> Z.of_nat (length rs) = (l + 1)%Z ->
        run = Some (Raise (RequestError TooManyRedirects
                (#"more than " ++ str_of_Z l ++ #" redirects from " ++ u)
                ERROR_TOO_MANY_REDIRECTS u), w')).
Proof.
  assert (at_hop (RedirectChain_init m u o l) (m, u, o) [] l) as Hat by (by split_and!).
  intros run. split_and!.
  - apply walk_total. cbn. lia.
  - intros -> r w'. subst run. destruct fuel as [|[|fuel]]; [lia|lia|]. split.
    + destruct (perform (m, u, o) w) as [[r1|e] w1] eqn:Hr; [|cbn; rewrite Hr; done].
      rewrite (walk_step _ _ _ _ _ (m, u, o) _ w1 r1) by done.
      destruct (receive_in _ _ _ r1 w1) as [[c1|] w2] eqn:Ec; [|done].
      destruct (receive_in_ok _ _ _ _ _ _ _ _ _ _ _ _ Hat Hr Ec)
        as [Hv [(Hend & Hp1 & Hf1)|(h1 & _ & Hne & _)]]; [|done].
      rewrite (walk_end _ _ _ _ _ _ _ Hp1 Hf1). intros [= <- <-]. exists r1.
      split_and!; [done| |done]. by destruct Hend as [->|[_ ?]].
    + intros (rf & Hv & Hok & ->).
      destruct (receive_in_stop _ _ _ _ _ _ 0%Z w w' rf Hat Hv) as (w1 & Hr & Hc); [by right|].
      rewrite (walk_step _ _ _ _ _ (m, u, o) _ w1 rf), Hc by done. by apply walk_end.
  - intros rs h' w' Hl Hpath Hn. subst run.
    rewrite (walk_overrun _ _ _ rs fuel _ (m, u, o) h' [] l w w');
      [done|done|done|done|cbn [length]; lia| |lia].
    intros ->. cbn in Hn. lia.
Qed.

(** A server that redirects its front page once, setting a cookie. *)
Definition front_page (h : hop) (w : CookieJar) : res exn Response * CookieJar :=
  (Ok (if bool_decide (h.1.2 = #"http://a/")
       then sample_response 302 [(#"Location", #"/b"); (#"Set-Cookie", #"k=v")]
       else sample_response 200 []), w).

Definition walk_front (limit : Z) :=
  walk (fun w => w) (fun _ j => j) front_page 4
    (RedirectChain_init (#"GET") (#"http://a/") no_options limit) CookieJar_init.

Lemma walk_follows_witness :
  walk_front 2 = Some (Ok (set_history (sample_response 200 [])
                             [sample_response 302 [(#"Location", #"/b"); (#"Set-Cookie", #"k=v")]]),
                       jar_with (#"http://a/") [ #"k=v"]).
Proof.
  apply (walk_follows (fun w => w) (fun _ j => j) front_page (#"GET") (#"http://a/") no_options 2
           4 CookieJar_init); [lia|lia|].
  exists [sample_response 302 [(#"Location", #"/b"); (#"Set-Cookie", #"k=v")]],
    (sample_response 200 []).
  split_and!; [|cbn; lia|done].
  exists (#"GET", #"http://a/b", no_options), (jar_with (#"http://a/") [ #"k=v"]). split_and!.
  - eapply path_hop; [|vm_compute; reflexivity|apply path_here].
    exists CookieJar_init, (jar_with (#"http://a/") [ #"k=v"]). split_and!; vm_compute; reflexivity.
  - exists (jar_with (#"http://a/") [ #"k=v"]), (jar_with (#"http://a/") [ #"k=v"]). split_and!; vm_compute; reflexivity.
  - vm_compute. reflexivity.
Defined.

Lemma walk_limits_witness : is_Some (walk_front 1).
Proof.
  apply (walk_limits (fun w => w) (fun _ j => j) front_page (#"GET") (#"http://a/") no_options 1
           4 CookieJar_init). apply le_S, le_n.
Defined.

(** A 303 answering a GET keeps its method, and loses its body all the same. *)
Lemma see_other_drops_get_body (b : str) :
  exists o', next_hop (#"GET") (#"http://a/") (sample_response 303 [(#"Location", #"/x")])
       (mkOptions HeadersNone [] (Some (Text b)) None None JNull None None None None None false [])
     = Ok (Some (#"GET", #"http://a/x", o')) /\ opt_body o' = None.
Proof. eexists. split; [vm_compute; reflexivity|done]. Qed.

(** The stripping is of the request's own options: an Authorization among the
    session's headers goes out on every hop, whatever its origin. *)
Lemma session_authorization_travels {J} `{CookieStore J} guess_type msgspec draw (m u : str)
    (o : RequestOptions) (defaults : Headers) (l : Z) (jar jar' : option J) (call : CallSettings) :
  contains defaults (#"authorization") = true ->
  build_call guess_type msgspec draw m u o defaults l jar = (Ok call, jar') ->
  contains (mkHeaders (call_headers call)) (#"authorization") = true.
Proof.
  intros Hd Hb. apply build_call_ok in Hb
    as (adds & cred & cookie & body & media & p & _ & _ & _ & _ & _ & -> & _).
  cbn [call_headers]. by rewrite contains_app, mkHeaders_items, merged_contains, Hd, orb_true_r.
Qed.
