(* ===== verification/Response.v ===== *)
(** * Response: what a request gives back (response.py).

    The record itself is in Types.  Reading a streamed body changes it, so the
    readers are steps on a response that may raise. *)

From S2P Require Import Prelude Unicode PyText PyUrl Headers Types Errors Json Floats.

(** ** Bodies *)

(** What the iterator [iter_bytes()] returns yields: the body once, when it
    was read whole, and the stream itself otherwise. *)
Definition iter_bytes (r : Response) : BodyStream :=
  match stream r with
  | None => mkStream (match content r with [] => [] | c => [c] end) false
  | Some s => s
  end.

(** [next()] on a body stream: a piece, the end, or the time-out; a generator
    that has raised or returned only ends from then on. *)
Inductive next_result :=
| Piece (b : bytes)
| Exhausted
| TimedOut.

Definition next_piece (s : BodyStream) : next_result * BodyStream :=
  match pieces s with
  | p :: ps => (Piece p, mkStream ps (stalls s))
  | [] => (if stalls s then TimedOut else Exhausted, mkStream [] false)
  end.

(** [b"".join(stream)]: what was joined, or the exception, and the stream as
    the join leaves it. *)
Definition join_stream (s : BodyStream) : res exn bytes * BodyStream :=
  (if stalls s then Raise TimeoutError else Ok (concat (pieces s)), mkStream [] false).

(** [response.read()] *)
Definition read : st Response exn bytes := fun r =>
  match stream r with
  | None => (Ok (content r), r)
  | Some s =>
      match join_stream s with
      | (Ok body, _) => (Ok body, set_stream (set_content r body) None)
      | (Raise e, s) => (Raise e, set_stream r (Some s))
      end
  end.

(** ** Derived values *)

Definition ok (r : Response) : bool := (200 <=? status_code r)%Z && (status_code r <? 300)%Z.

(** [response.elapsed]: seconds, or -1.0; [None] is the OverflowError of a
    total beyond the range of a float. *)
Definition elapsed (r : Response) : option float :=
  let total := total_us (metrics r) in
  if (total =? NO_TIME)%Z then float_of_Z (-1)
  else
    t ← float_of_Z total;
    million ← float_of_Z 1000000;
    Some (float_div t million).

Definition UTF8 : str := #"utf-8".

(** One parameter of a Content-Type: its value when it names the charset. *)
Definition charset_of (parameter : str) : option str :=
  let '(name, _, value) := partition EQUALS parameter in
  if bool_decide (lower (strip is_space name) = #"charset") then
    let value := strip (fun c => (c =? DQUOTE)%N) (strip is_space value) in
    Some (if nonempty value then value else UTF8)
  else None.

Fixpoint first_charset (parameters : list str) : str :=
  match parameters with
  | [] => UTF8
  | p :: ps => match charset_of p with Some c => c | None => first_charset ps end
  end.

(** [response.encoding] *)
Definition encoding (r : Response) : str :=
  first_charset (drop 1 (split_on SEMICOLON (default [] (get (headers r) (#"content-type"))))).

(** [response.text]; the codec registry is the interpreter's. *)
Definition text (codec : str -> bytes -> res exn str) (r : Response) : res exn str :=
  codec (encoding r) (content r).

(** [response.json()], by whichever decoder is installed. *)
Definition response_json (decoder : bytes -> res exn json) (r : Response) : res exn json :=
  decoder (content r).

(** [response.raise_for_status()] *)
Definition raise_for_status (r : Response) : res exn Response :=
  if (400 <=? status_code r)%Z
  then Raise (HTTPStatusError (str_of_Z (status_code r) ++ #" " ++ reason r ++ #" for " ++ url r) r)
  else Ok r.

Definition repr (r : Response) : str :=
  #"<Response [" ++ str_of_Z (status_code r) ++ #"] " ++ http_version r ++ #" "
  ++ str_of_Z (Z.of_nat (length (content r))) ++ #" bytes from " ++ url r ++ #">".

(** ** Properties *)

(** Running an iterator to its end by [next], as a [for] loop does. *)
Fixpoint drain_stream (fuel : nat) (s : BodyStream) : option (list bytes * bool) :=
  match fuel with
  | O => None
  | S fuel =>
      match next_piece s with
      | (Piece p, s) => '(ps, timed_out) ← drain_stream fuel s; Some (p :: ps, timed_out)
      | (Exhausted, _) => Some ([], false)
      | (TimedOut, _) => Some ([], true)
      end
  end.

Lemma drain_stream_all (ps : list bytes) (b : bool) (fuel : nat) :
  length ps < fuel -> drain_stream fuel (mkStream ps b) = Some (ps, b).
Proof.
  revert fuel. induction ps as [|p ps IH]; intros [|fuel] H; cbn [length] in H; try lia; cbn.
  - by destruct b.
  - by rewrite IH by lia.
Qed.

(** Looping over a body and reading it are the same body.  Whatever kind of
    response it is, the pieces the loop yields concatenate to what [read]
    returns, and the loop times out exactly when [read] does; a successful
    [read] keeps the body, reading again gives the same bytes and changes
    nothing, and looping over it afterwards yields it again. *)
Theorem read_is_the_stream (r : Response) (body : bytes) (r' : Response) (fuel : nat)
    (Hfuel : length (pieces (iter_bytes r)) < fuel) :
  (exists ps timed_out, drain_stream fuel (iter_bytes r) = Some (ps, timed_out)
     /\ (read r).1 = (if timed_out then Raise TimeoutError else Ok (concat ps)))
  /\ (read r = (Ok body, r') ->
        read r' = (Ok body, r') /\ content r' = body /\ stream r' = None
        /\ drain_stream 2 (iter_bytes r') = Some (match body with [] => [] | _ => [body] end, false)).
Proof.
  split.
  - destruct (iter_bytes r) as [ps b] eqn:E. exists ps, b. split; [by apply drain_stream_all|].
    unfold iter_bytes in E. unfold read, join_stream. destruct (stream r) as [s|].
    + subst s. cbn. by destruct b.
    + destruct (content r) eqn:Ec; injection E as <- <-; cbn; by rewrite ?app_nil_r.
  - unfold read, join_stream. destruct (stream r) as [s|] eqn:Es.
    + destruct (stalls s); [done|]. intros [= <- <-]. cbn. split_and!; try done.
      by destruct (concat (pieces s)).
    + intros [= <- <-]. rewrite Es. split_and!; try done. unfold iter_bytes. rewrite Es.
      by destruct (content r).
Qed.

Definition streaming : Response :=
  set_stream (sample_response 200 []) (Some (mkStream [ ##"ab"; ##"c"] false)).

Lemma read_is_the_stream_witness :
  exists ps timed_out, drain_stream 3 (iter_bytes streaming) = Some (ps, timed_out)
     /\ (read streaming).1 = (if timed_out then Raise TimeoutError else Ok (concat ps)).
Proof. apply (read_is_the_stream streaming [] streaming 3). apply le_n. Defined.

(** Reading again after a time-out returns an empty body as if it were whole. *)
Lemma read_after_timeout (r : Response) (ps : list bytes) :
  stream r = Some (mkStream ps true) ->
  exists r1, read r = (Raise TimeoutError, r1) /\ (read r1).1 = Ok [].
Proof. intros E. unfold read. rewrite E. cbn. eexists. by split. Qed.

Lemma first_charset_nonempty (ps : list str) : first_charset ps <> [].
Proof.
  induction ps as [|p ps IH]; cbn; [done|].
  destruct (charset_of p) as [c|] eqn:E; [|done]. revert E. unfold charset_of.
  destruct (partition EQUALS p) as [[name f] value]. case_bool_decide; [|done].
  intros [= <-]. by destruct (strip _ (strip is_space value)).
Qed.

(** A charset name as servers write them. *)
Definition token_cp (c : N) : bool := is_ascii_alnum c || has c (#"-_.:").

Lemma lstrip_kept (p : N -> bool) (s : str) : forallb (fun c => negb (p c)) s = true -> lstrip p s = s.
Proof.
  destruct s as [|c s]; cbn; [done|]. rewrite andb_true_iff, negb_true_iff. by intros [-> _].
Qed.

Lemma strip_kept (p : N -> bool) (s : str) : forallb (fun c => negb (p c)) s = true -> strip p s = s.
Proof.
  intros H. unfold strip, rstrip. rewrite (lstrip_kept p s H), lstrip_kept; [apply reverse_involutive|].
  rewrite forallb_forall in *. intros c Hc. apply H. apply list_elem_of_In.
  apply elem_of_reverse_iff, list_elem_of_In. exact Hc.
Qed.

Lemma token_plain (c : N) :
  token_cp c = true -> is_space c = false /\ c <> DQUOTE /\ c <> SEMICOLON.
Proof.
  unfold token_cp, is_ascii_alnum, is_ascii_alpha, is_ascii_upper, is_ascii_lower, is_ascii_digit.
  intros H. assert (33 <= c /\ c <= 122 /\ c <> 34 /\ c <> 59)%N as Hr.
  { rewrite !orb_true_iff, !andb_true_iff, !N.leb_le, has_true in H.
    destruct H as [[[?|?]|?]|H]; [lia|lia|lia|].
    revert H. generalize c. apply Forall_forall. apply Forall_lit. repeat constructor; cbn; lia. }
  split; [|unfold DQUOTE, SEMICOLON; lia]. unfold is_space.
  apply not_true_iff_false. rewrite !orb_true_iff, !andb_true_iff, !N.leb_le, !N.eqb_eq. lia.
Qed.

Lemma token_strip (v : str) (p : N -> bool) :
  Forall (fun c => token_cp c = true) v -> (forall c, token_cp c = true -> p c = false) ->
  strip p v = v.
Proof.
  intros Hv Hp. apply strip_kept, forallb_forall. intros c Hc. apply list_elem_of_In in Hc.
  rewrite Forall_forall in Hv. by rewrite Hp by (by apply Hv).
Qed.

Lemma strip_quotes (v : str) :
  v <> [] -> Forall (fun c => token_cp c = true) v ->
  strip (fun c => (c =? DQUOTE)%N) ([DQUOTE] ++ v ++ [DQUOTE]) = v.
Proof.
  intros Hne Hv. assert (forall c, token_cp c = true -> (c =? DQUOTE)%N = false) as Hq.
  { intros c Hc. apply N.eqb_neq. by apply token_plain in Hc as (_ & ? & _). }
  unfold strip, rstrip. cbn [app lstrip]. change (DQUOTE =? DQUOTE)%N with true. cbn iota.
  destruct v as [|c v]; [done|]. inversion Hv; subst. cbn [app lstrip]. rewrite Hq by done.
  change (c :: v ++ [DQUOTE]) with ((c :: v) ++ [DQUOTE]). rewrite reverse_snoc. cbn [lstrip].
  change (DQUOTE =? DQUOTE)%N with true. cbn iota.
  rewrite lstrip_kept; [apply reverse_involutive|]. apply forallb_forall. intros x Hx.
  apply list_elem_of_In in Hx. apply (proj1 (elem_of_reverse_iff _ _)) in Hx.
  rewrite Forall_forall in Hv.
  cbn beta. rewrite Hq; [done|by apply Hv].
Qed.

(** The encoding is the charset the server named.  Whatever the header
    says the result is never empty; without a Content-Type, or without
    parameters, it is utf-8; and the charset parameter of
    [media; charset=value] is found whatever the case of its name and the
    space around it, its quotes taken off. *)
Theorem encoding_reads_charset (r : Response) (media value name : str)
    (Hmedia : SEMICOLON ∉ media)
    (Hname : lower name = #"charset" /\ Forall (fun c => is_ascii_alpha c = true) name)
    (Hvalue : value <> [] /\ Forall (fun c => token_cp c = true) value) :
  encoding r <> []
  /\ (get (headers r) (#"content-type") = None -> encoding r = UTF8)
  /\ (get (headers r) (#"content-type") = Some media -> encoding r = UTF8)
  /\ (get (headers r) (#"content-type") = Some (media ++ #"; " ++ name ++ #"=" ++ value) ->
        encoding r = value)
  /\ (get (headers r) (#"content-type")
        = Some (media ++ #";" ++ name ++ #"=" ++ [DQUOTE] ++ value ++ [DQUOTE]) ->
        encoding r = value).
Proof.
  destruct Hname as [Hname Halpha], Hvalue as [Hne Hvalue]. unfold encoding.
  assert (forall c, is_ascii_alpha c = true -> token_cp c = true) as Ht
    by (intros c Hc; unfold token_cp, is_ascii_alnum; by rewrite Hc).
  assert (Forall (fun c => token_cp c = true) name) as Hn by (by eapply Forall_impl).
  assert (forall c, token_cp c = true -> is_space c = false) as Hsp by (by intros c (?&?&?)%token_plain).
  assert (forall v, Forall (fun c => token_cp c = true) v -> SEMICOLON ∉ v) as Hsemi.
  { intros v Hv Hin. rewrite Forall_forall in Hv. by apply Hv, token_plain in Hin as (_ & _ & ?). }
  assert (EQUALS ∉ name) as Heq.
  { intros Hin. rewrite Forall_forall in Halpha. by apply Halpha in Hin. }
  assert (DQUOTE ∉ value) as Hdq.
  { intros Hin. rewrite Forall_forall in Hvalue. by apply Hvalue, token_plain in Hin as (_ & ? & _). }
  split_and!.
  - apply first_charset_nonempty.
  - by intros ->.
  - intros ->. cbn [default from_option id]. by rewrite split_on_absent.
  - intros ->. cbn [default from_option id].
    change (#"; " ++ name ++ #"=" ++ value) with (SEMICOLON :: 32%N :: name ++ EQUALS :: value).
    rewrite split_on_app by done. cbn [drop]. rewrite drop_0, split_on_absent.
    2: { rewrite not_elem_of_cons, not_elem_of_app, not_elem_of_cons. split_and!; auto; done. }
    cbn [first_charset]. unfold charset_of.
    change (32%N :: name ++ EQUALS :: value) with ((32%N :: name) ++ EQUALS :: value).
    rewrite partition_app by (apply not_elem_of_cons; by split).
    assert (strip is_space (32%N :: name) = name) as ->.
    { change (strip is_space (32%N :: name)) with (strip is_space name). by apply token_strip. }
    rewrite Hname, bool_decide_eq_true_2, (token_strip value is_space) by done.
    rewrite (token_strip value); [by destruct value|done|].
    intros c Hc. apply N.eqb_neq. by apply token_plain in Hc as (_ & ? & _).
  - intros ->. cbn [default from_option id].
    change (#";" ++ name ++ #"=" ++ [DQUOTE] ++ value ++ [DQUOTE])
      with (SEMICOLON :: name ++ EQUALS :: [DQUOTE] ++ value ++ [DQUOTE]).
    rewrite split_on_app by done. cbn [drop]. rewrite drop_0, split_on_absent.
    2: { rewrite !not_elem_of_app, !not_elem_of_cons, !not_elem_of_app, !not_elem_of_cons.
         split_and!; auto; try done; apply not_elem_of_nil. }
    cbn [first_charset]. unfold charset_of. rewrite partition_app by done.
    rewrite (token_strip name), Hname, bool_decide_eq_true_2 by done.
    rewrite (strip_kept is_space).
    + rewrite strip_quotes by done. by destruct value.
    + rewrite !forallb_app. cbn. rewrite andb_true_r. apply forallb_forall. intros c Hc.
      apply list_elem_of_In in Hc. rewrite Forall_forall in Hvalue. by rewrite Hsp by (by apply Hvalue).
Qed.

Lemma encoding_reads_charset_witness :
  encoding (sample_response 200 [(#"Content-Type", #"text/html; Charset=iso-8859-1")])
  = #"iso-8859-1".
Proof.
  refine (proj1 (proj2 (proj2 (proj2 (encoding_reads_charset
    (sample_response 200 [(#"Content-Type", #"text/html; Charset=iso-8859-1")])
    (#"text/html") (#"iso-8859-1") (#"Charset") _ _ _)))) _).
  - by apply (bool_decide_unpack _).
  - split; [vm_compute; reflexivity|by repeat constructor].
  - split; [done|by repeat constructor].
  - vm_compute. reflexivity.
Defined.

(** Statuses sort into success, failure and neither.  [ok] is 200 to 299,
    [raise_for_status] raises from 400 on, carrying the response, and returns
    the response unchanged below; no response is both. *)
Theorem status_sorted (r : Response) :
  (ok r = true <-> (200 <= status_code r <= 299)%Z)
  /\ ((status_code r < 400)%Z <-> raise_for_status r = Ok r)
  /\ ((400 <= status_code r)%Z <->
        exists message, raise_for_status r = Raise (HTTPStatusError message r))
  /\ (ok r = true -> is_ok (raise_for_status r) = true).
Proof.
  unfold ok, raise_for_status. rewrite andb_true_iff, Z.leb_le, Z.ltb_lt.
  destruct (Z.leb_spec 400 (status_code r)); split_and!; try lia; split;
    try done; try lia; try (intros; by eauto); by intros (m & Hm).
Qed.
