(* ===== verification/Bridge.v ===== *)
(** * Bridge: marshalling between Python values and the C structs
    (_bridge.py, the functions around [Call] and [Engine]).

    A struct is modelled as a record of what the library reads out of it: the
    octets of a [char*] up to its terminator, the elements of an array, an
    integer at the width of its field. *)

From S2P Require Import Prelude Unicode PyText PyUrl Headers Types Errors Json Abi Options.
From S2P Require Import Multipart Request Native.

(** ** C values *)

(** What ctypes stores of an int in a field: its low bits, in two's complement. *)
Definition to_int32 (z : Z) : Z := (Z.land (z + 2147483648) 4294967295 - 2147483648)%Z.
Definition to_int64 (z : Z) : Z :=
  (Z.land (z + 9223372036854775808) 18446744073709551615 - 9223372036854775808)%Z.

(** What C reads of the octets a [char*] points at. *)
Definition c_string (b : bytes) : bytes := (partition "000"%char b).1.1.

(** [s.encode("latin-1")] *)
Definition encode_header (s : str) : res exn bytes :=
  match encode_latin1 s with Some b => Ok b | None => Raise (ValueError (NotEncodable s)) end.

(** [b.decode()] *)
Definition decode_strict (b : bytes) : res exn str :=
  match decode b with Some s => Ok s | None => Raise (ValueError (NotDecodable b)) end.

(** ** The engine's configuration *)

Record EngineSettings := mkSettings {
  set_user_agent : str;
  set_accept_language : str;
  set_experimental_options : str;
  set_storage_path : str;
  set_proxy_rules : str;
  set_proxy_bypass_rules : str;
  set_proxy_username : str;
  set_proxy_password : str;
  set_quic_hints : list (str * Z);
  set_enable_quic : bool;
  set_enable_http2 : bool;
  set_enable_brotli : bool;
  set_cache_mode : Z;
  set_cache_max_bytes : Z;
}.

Record NativeConfig := mkConfig {
  cfg_user_agent : bytes;
  cfg_accept_language : bytes;
  cfg_experimental_options : bytes;
  cfg_storage_path : bytes;
  cfg_proxy_rules : bytes;
  cfg_proxy_bypass_rules : bytes;
  cfg_proxy_username : bytes;
  cfg_proxy_password : bytes;
  cfg_quic_hints : list (bytes * Z * Z);
  cfg_enable_quic : Z;
  cfg_enable_http2 : Z;
  cfg_enable_brotli : Z;
  cfg_cache_mode : Z;
  cfg_cache_max_bytes : Z;
}.

(** [_as_bytes(value)] *)
Definition as_bytes (value : str) : res exn bytes :=
  if nonempty value then encode_strict value else Ok [].

Definition int_of_bool (b : bool) : Z := if b then 1 else 0.

(** [hints[index].host = host.encode(); ...] *)
Definition native_hint (hint : str * Z) : res exn (bytes * Z * Z) :=
  host ← encode_strict hint.1;
  Ok (c_string host, to_int32 hint.2, to_int32 hint.2).

(** [_build_engine_config(settings)] *)
Definition build_engine_config (s : EngineSettings) : res exn NativeConfig :=
  user_agent ← as_bytes (set_user_agent s);
  accept_language ← as_bytes (set_accept_language s);
  experimental_options ← as_bytes (set_experimental_options s);
  storage_path ← as_bytes (set_storage_path s);
  proxy_rules ← as_bytes (set_proxy_rules s);
  proxy_bypass_rules ← as_bytes (set_proxy_bypass_rules s);
  proxy_username ← as_bytes (set_proxy_username s);
  proxy_password ← as_bytes (set_proxy_password s);
  hints ← res_map native_hint (set_quic_hints s);
  Ok {| cfg_user_agent := c_string user_agent;
        cfg_accept_language := c_string accept_language;
        cfg_experimental_options := c_string experimental_options;
        cfg_storage_path := c_string storage_path;
        cfg_proxy_rules := c_string proxy_rules;
        cfg_proxy_bypass_rules := c_string proxy_bypass_rules;
        cfg_proxy_username := c_string proxy_username;
        cfg_proxy_password := c_string proxy_password;
        cfg_quic_hints := hints;
        cfg_enable_quic := int_of_bool (set_enable_quic s);
        cfg_enable_http2 := int_of_bool (set_enable_http2 s);
        cfg_enable_brotli := int_of_bool (set_enable_brotli s);
        cfg_cache_mode := to_int32 (set_cache_mode s);
        cfg_cache_max_bytes := to_int64 (set_cache_max_bytes s) |}.

(** ** A request *)

Record NativeRequest := mkNativeRequest {
  nq_method : bytes;
  nq_url : bytes;
  nq_headers : list (bytes * bytes);
  nq_body : bytes;
  nq_priority : Z;
  nq_max_redirects : Z;
  nq_disable_cache : Z;
}.

Definition native_header (p : str * str) : res exn (bytes * bytes) :=
  name ← encode_header p.1;
  value ← encode_header p.2;
  Ok (c_string name, c_string value).

(** [_build_request(settings)] *)
Definition build_request (s : CallSettings) : res exn NativeRequest :=
  method ← encode_strict (upper (call_method s));
  url ← encode_strict (call_url s);
  headers ← res_map native_header (call_headers s);
  Ok {| nq_method := c_string method;
        nq_url := c_string url;
        nq_headers := headers;
        nq_body := call_body s;
        nq_priority := to_int32 (call_priority s);
        nq_max_redirects := to_int32 (call_max_redirects s);
        nq_disable_cache := int_of_bool (call_disable_cache s) |}.

(** ** A response *)

Definition read_header (p : bytes * bytes) : str * str :=
  (decode_latin1 p.1, decode_latin1 p.2).

Definition direct_spellings : list str := [ #""; #":0"; #"direct://"].

(** [_read_response(call, url)], on what [cronet_call_response] gave. *)
Definition read_response (pointer : option NativeResponse) (url : str) : res exn RawResponse :=
  match pointer with
  | None => Raise (RequestError PlainRequestError (#"the call has not finished") 0 url)
  | Some raw =>
      if negb (nr_error_code raw =? 0)%Z
      then Raise (error_for (nr_error_code raw) (decode_replace (nr_error_message raw)) url)
      else
        let headers := read_header <$> nr_headers raw in
        proxy ← decode_strict (nr_proxy_server raw);
        final_url ← decode_strict (nr_final_url raw);
        http_version ← decode_strict (nr_negotiated_protocol raw);
        Ok {| raw_status_code := nr_status_code raw;
              raw_reason := decode_latin1 (nr_status_text raw);
              raw_headers := headers;
              raw_url := final_url;
              raw_http_version := http_version;
              raw_redirect_count := nr_redirect_count raw;
              raw_from_cache := negb (nr_was_cached raw =? 0)%Z;
              raw_proxy := if bool_decide (proxy ∈ direct_spellings) then #"direct" else proxy;
              raw_metrics := from_native (nr_metrics raw) |}
  end.

(** ** Lemmas *)

Lemma encode_latin1_iff (s : str) (b : bytes) :
  encode_latin1 s = Some b <-> b = octet <$> s /\ Forall (fun c => (c < 256)%N) s.
Proof.
  split.
  - unfold encode_latin1. revert b. induction s as [|c s IH]; intros b; cbn.
    + intros [= <-]. by split.
    + destruct (N.ltb_spec c 256); cbn; [|done].
      destruct (mapM _ s) as [b'|]; cbn; [|done]. intros [= <-].
      destruct (IH b' eq_refl) as [-> Hs]. by split; [|constructor].
  - intros [-> Hs]. by apply encode_latin1_some.
Qed.

Lemma encode_latin1_def (s : str) :
  (exists b, encode_latin1 s = Some b) <-> Forall (fun c => (c < 256)%N) s.
Proof.
  split; [intros [b H]; by apply encode_latin1_iff in H as [_ H]|].
  intros H. eexists. by apply encode_latin1_some.
Qed.

Lemma partition_nul (b : bytes) : "000"%char ∉ b -> c_string b = b.
Proof. intros H. unfold c_string. by rewrite partition_absent. Qed.

Lemma octet_nul (s : str) :
  0%N ∉ s -> Forall (fun c => (c < 256)%N) s -> "000"%char ∉ octet <$> s.
Proof.
  intros H0 Hs Hin. apply list_elem_of_fmap in Hin as (c & E & Hc).
  rewrite Forall_forall in Hs. specialize (Hs c Hc).
  assert (c = 0%N) as ->; [|done]. rewrite <- (oct_octet c Hs), <- E. done.
Qed.

Lemma to_int32_id (z : Z) : (-2147483648 <= z < 2147483648)%Z -> to_int32 z = z.
Proof.
  intros H. unfold to_int32. change 4294967295%Z with (Z.ones 32).
  rewrite Z.land_ones by lia. rewrite Z.mod_small; lia.
Qed.

(** Latin-1 text without a NUL goes through a [char*] and comes back. *)
Lemma header_text (s : str) :
  Forall (fun c => (0 < c < 256)%N) s ->
  exists b, encode_header s = Ok b /\ decode_latin1 (c_string b) = s.
Proof.
  intros H. assert (Forall (fun c => (c < 256)%N) s) as Hs by (eapply Forall_impl; [exact H|cbn; lia]).
  exists (octet <$> s). unfold encode_header. rewrite encode_latin1_some by done. split; [done|].
  rewrite partition_nul.
  - eapply decode_encode_latin1, encode_latin1_some; exact Hs.
  - apply octet_nul; [|done]. intros H0. rewrite Forall_forall in H. specialize (H _ H0). lia.
Qed.

Lemma octet_not_nul (n : N) : (0 < n < 256)%N -> "000"%char <> octet n.
Proof. intros H E. apply (f_equal oct) in E. rewrite oct_octet in E by lia. cbn in E. lia. Qed.

Lemma utf8_cp_nul (c : N) : scalar c -> c <> 0%N -> "000"%char ∉ utf8_cp c.
Proof.
  intros Hs Hc. unfold scalar in Hs. unfold utf8_cp.
  destruct (N.ltb_spec c 128); [|destruct (N.ltb_spec c 2048); [|destruct (N.ltb_spec c 65536)]];
    repeat (apply not_elem_of_cons; split; [apply octet_not_nul|]); try apply not_elem_of_nil;
    zify; Z.to_euclidean_division_equations; lia.
Qed.

(** Text without a NUL is read whole through a [char*], and comes back. *)
Lemma utf8_whole (s : str) : 0%N ∉ s -> Forall scalar s -> c_string (encode s) = encode s.
Proof.
  intros H0 Hs. apply partition_nul. unfold encode. rewrite list_elem_of_bind. intros (c & Hin & Hc).
  rewrite Forall_forall in Hs. apply (utf8_cp_nul c (Hs c Hc)) in Hin; [done|]. by intros ->.
Qed.

Lemma utf8_text (s : str) (b : bytes) :
  0%N ∉ s -> encode_strict s = Ok b -> decode (c_string b) = Some s.
Proof.
  intros H0 H. apply encode_strict_ok in H as [Hs ->]. rewrite utf8_whole by done. by apply decode_encode.
Qed.

Lemma native_header_ok (p : str * str) :
  is_ok (native_header p) = true <->
  Forall (fun c => (c < 256)%N) p.1 /\ Forall (fun c => (c < 256)%N) p.2.
Proof.
  unfold native_header, encode_header. rewrite <- (encode_latin1_def p.1), <- (encode_latin1_def p.2).
  destruct (encode_latin1 p.1), (encode_latin1 p.2); cbn; naive_solver.
Qed.

Lemma native_header_back (p : str * str) (q : bytes * bytes) :
  0%N ∉ p.1 -> 0%N ∉ p.2 -> native_header p = Ok q -> read_header q = p.
Proof.
  intros H1 H2. unfold native_header, encode_header.
  destruct (encode_latin1 p.1) as [n|] eqn:En; cbn; [|done].
  destruct (encode_latin1 p.2) as [v|] eqn:Ev; cbn; [|done]. intros [= <-].
  unfold read_header. cbn [fst snd].
  rewrite !partition_nul, (decode_encode_latin1 _ _ En), (decode_encode_latin1 _ _ Ev);
    [by destruct p|..].
  - apply encode_latin1_iff in Ev as [-> Hv]. by apply octet_nul.
  - apply encode_latin1_iff in En as [-> Hn]. by apply octet_nul.
Qed.

Lemma res_map_is_ok {E A B} (f : A -> res E B) (l : list A) :
  is_ok (res_map f l) = true <-> Forall (fun x => is_ok (f x) = true) l.
Proof.
  induction l as [|x l IH]; cbn; [by split|].
  rewrite Forall_cons, <- IH. destruct (f x); cbn; [|naive_solver].
  destruct (res_map f l); cbn; naive_solver.
Qed.

(** A decoder produces ASCII only from itself. *)
Lemma utf8_units_head (l : bytes) (c : N) (us : list (option N)) :
  (c < 128)%N -> utf8_units l = Some c :: us -> exists l', l = octet c :: l' /\ us = utf8_units l'.
Proof.
  intros Hc H. destruct l as [|b0 r0]; cbn [utf8_units] in H; [done|].
  destruct (N.ltb_spec (oct b0) 128).
  { injection H as <- <-. exists r0. by rewrite octet_oct. }
  destruct (in_range 194 223 _) eqn:E2.
  { apply in_range_spec in E2. destruct r0 as [|b1 r1]; [done|].
    destruct (cont b1) eqn:C1; [apply in_range_spec in C1|done]. injection H as H _. lia. }
  destruct (in_range 224 239 _) eqn:E3.
  { apply in_range_spec in E3. destruct r0 as [|b1 r1]; [done|].
    destruct (second_ok _ b1) eqn:C1; [apply second_ok_spec in C1|done].
    destruct r1 as [|b2 r2]; [done|].
    destruct (cont b2) eqn:C2; [apply in_range_spec in C2|done]. injection H as H _. lia. }
  destruct (in_range 240 244 _) eqn:E4; [|done].
  apply in_range_spec in E4. destruct r0 as [|b1 r1]; [done|].
  destruct (second_ok _ b1) eqn:C1; [apply second_ok_spec in C1|done].
  destruct r1 as [|b2 r2]; [done|].
  destruct (cont b2) eqn:C2; [apply in_range_spec in C2|done].
  destruct r2 as [|b3 r3]; [done|].
  destruct (cont b3) eqn:C3; [apply in_range_spec in C3|done]. injection H as H _. lia.
Qed.

Lemma decode_ascii (b : bytes) (s : str) :
  Forall (fun c => (c < 128)%N) s -> decode b = Some s <-> b = octet <$> s.
Proof.
  intros Hs. split.
  - unfold decode. intros H. revert b H. induction Hs as [|c s Hc Hs IH]; intros b H.
    + destruct b as [|b0 r0]; [done|]. exfalso. cbn [utf8_units] in H.
      repeat case_match; cbn in H; try done; by destruct (mapM id _).
    + destruct (utf8_units b) as [|u us] eqn:E; [done|]. cbn in H.
      destruct u as [c'|]; [|done]. cbn in H. destruct (mapM id us) as [s'|] eqn:Em; [|done].
      injection H as -> ->. destruct (utf8_units_head b c us Hc E) as (l' & -> & ->).
      by rewrite (IH l' Em).
  - intros ->. rewrite <- encode_ascii by done. apply decode_encode.
    eapply Forall_impl; [exact Hs|]. intros c Hc. cbn in Hc. unfold scalar. lia.
Qed.

(** What the library reads of a request whose text holds no NUL. *)
Lemma build_request_reads (s : CallSettings) (q : NativeRequest) :
  0%N ∉ upper (call_method s) -> 0%N ∉ call_url s ->
  Forall (fun p => (0%N ∉ p.1) /\ (0%N ∉ p.2)) (call_headers s) -> build_request s = Ok q ->
  Forall scalar (upper (call_method s)) /\ Forall scalar (call_url s)
  /\ nq_method q = encode (upper (call_method s)) /\ nq_url q = encode (call_url s)
  /\ read_header <$> nq_headers q = call_headers s /\ nq_body q = call_body s
  /\ nq_priority q = to_int32 (call_priority s) /\ nq_max_redirects q = to_int32 (call_max_redirects s)
  /\ nq_disable_cache q = int_of_bool (call_disable_cache s).
Proof.
  intros Hm Hu Hh. unfold build_request. rewrite res_bind_ok. intros (m & Em & H).
  apply res_bind_ok in H as (u & Eu & H). apply res_bind_ok in H as (hs & Eh & [= <-]).
  apply encode_strict_ok in Em as [Sm ->], Eu as [Su ->].
  cbn [nq_method nq_url nq_headers nq_body nq_priority nq_max_redirects nq_disable_cache].
  split_and!; [done|done|by apply utf8_whole|by apply utf8_whole| |done|done|done|done].
  apply res_map_ok in Eh. clear -Eh Hh. induction Eh as [|p q ps qs Hp Hps IH]; [done|].
  apply Forall_cons in Hh as [[H1 H2] Hh]. rewrite fmap_cons, IH by done.
  by rewrite (native_header_back p q).
Qed.

(** ** Properties *)

(** No NUL where the library would stop reading. *)
Record nul_free (s : CallSettings) : Prop := {
  nf_method : 0%N ∉ upper (call_method s);
  nf_url : 0%N ∉ call_url s;
  nf_headers : Forall (fun p => (0%N ∉ p.1) /\ (0%N ∉ p.2)) (call_headers s);
}.

(** What a reader that stops at a NUL makes of a text. *)
Definition until_nul (t : str) : str := (partition 0%N t).1.1.

Lemma until_nul_split (t : str) :
  (0%N ∉ t) /\ until_nul t = t
  \/ exists rest, t = until_nul t ++ 0%N :: rest /\ (0%N ∉ until_nul t).
Proof.
  unfold until_nul. induction t as [|c t IH]; [left; split; [apply not_elem_of_nil|done]|].
  cbn [partition]. destruct (decide (c = 0%N)) as [Hc|Hc].
  - right. subst c. exists t. split; [done|apply not_elem_of_nil].
  - destruct (partition 0%N t) as [[a f] b]. cbn [fst] in *.
    destruct IH as [[Hn ->]|(rest & -> & Hn)].
    + left. split; [|done]. rewrite not_elem_of_cons. split; [|done]. intros E. by apply Hc.
    + right. exists rest. split; [done|]. rewrite not_elem_of_cons. split; [|done]. intros E. by apply Hc.
Qed.

Lemma until_nul_id (t : str) : until_nul t = t <-> 0%N ∉ t.
Proof.
  destruct (until_nul_split t) as [[Hn E]|(rest & E & Hn)]; [by split|].
  split; [by intros <-|]. intros H. exfalso. apply H. rewrite E, elem_of_app. right. by left.
Qed.

Lemma c_string_text (f : N -> bytes) (t : str) :
  f 0%N = ["000"%char] -> (forall c, c ∈ t -> c <> 0%N -> "000"%char ∉ f c) ->
  c_string (t ≫= f) = until_nul t ≫= f.
Proof.
  intros H0 Hf. assert (forall l, (forall c, c ∈ l -> c ∈ t) -> 0%N ∉ l -> "000"%char ∉ l ≫= f) as Hl.
  { intros l Hsub Hn (c & Hin & Hc)%list_elem_of_bind. apply (Hf c (Hsub c Hc)) in Hin; [done|]. by intros ->. }
  destruct (until_nul_split t) as [[Hn ->]|(rest & E & Hn)].
  - by apply partition_nul, Hl.
  - rewrite E at 1. rewrite bind_app. cbn [mbind list_bind]. rewrite H0. unfold c_string. cbn [app].
    rewrite partition_app; [done|]. apply Hl; [|done]. intros c Hc. rewrite E, elem_of_app. by left.
Qed.

Lemma utf8_read (t : str) : Forall scalar t -> c_string (encode t) = encode (until_nul t).
Proof.
  intros Hs. apply c_string_text; [done|]. intros c Hc. rewrite Forall_forall in Hs.
  by apply utf8_cp_nul, Hs.
Qed.

Lemma until_nul_scalar (P : N -> Prop) (t : str) : Forall P t -> Forall P (until_nul t).
Proof.
  destruct (until_nul_split t) as [[_ ->]|(rest & E & _)]; [done|]. rewrite E at 1. by intros [? _]%Forall_app.
Qed.

Lemma native_header_read (p : str * str) (q : bytes * bytes) :
  native_header p = Ok q -> read_header q = (until_nul p.1, until_nul p.2).
Proof.
  assert (forall t b, encode_latin1 t = Some b -> decode_latin1 (c_string b) = until_nul t) as Hread.
  { intros t b [-> Ht]%encode_latin1_iff.
    assert ((octet <$> t) = (t ≫= fun c => [octet c])) as -> by (induction t; cbn; by f_equal).
    rewrite c_string_text; [|done|].
    - apply (until_nul_scalar (fun c => (c < 256)%N)) in Ht.
      assert ((until_nul t ≫= fun c => [octet c]) = octet <$> until_nul t) as ->
        by (induction (until_nul t); cbn; by f_equal).
      by apply decode_encode_latin1, encode_latin1_some.
    - intros c Hc H0. rewrite list_elem_of_singleton. rewrite Forall_forall in Ht. specialize (Ht c Hc).
      apply octet_not_nul. lia. }
  unfold native_header, encode_header.
  destruct (encode_latin1 p.1) as [n|] eqn:En; cbn; [|done].
  destruct (encode_latin1 p.2) as [v|] eqn:Ev; cbn; [|done]. intros [= <-].
  unfold read_header. cbn [fst snd]. by rewrite (Hread _ _ En), (Hread _ _ Ev).
Qed.

(** C30: what of a request reaches the library.  It is refused exactly when
    its method or URL holds a lone surrogate or a header a character outside
    Latin-1; otherwise the library reads the upper-cased method, the URL and
    every header, in order and with repeats, each up to its first NUL, which
    is all of it when it holds none, and the body octet for octet, and numbers
    that fit their field unchanged.  A text cut short by a NUL is not
    refused. *)
Theorem request_marshalled (s : CallSettings) :
  (is_ok (build_request s) = true <->
     Forall scalar (upper (call_method s)) /\ Forall scalar (call_url s)
     /\ Forall (fun p => Forall (fun c => (c < 256)%N) p.1 /\ Forall (fun c => (c < 256)%N) p.2)
          (call_headers s))
  /\ (forall q, build_request s = Ok q ->
        decode (nq_method q) = Some (until_nul (upper (call_method s)))
        /\ decode (nq_url q) = Some (until_nul (call_url s))
        /\ read_header <$> nq_headers q = prod_map until_nul until_nul <$> call_headers s
        /\ nq_body q = call_body s
        /\ ((-2147483648 <= call_priority s < 2147483648)%Z -> nq_priority q = call_priority s)
        /\ ((-2147483648 <= call_max_redirects s < 2147483648)%Z ->
              nq_max_redirects q = call_max_redirects s)
        /\ (nq_disable_cache q =? 0)%Z = negb (call_disable_cache s))
  /\ (forall t, until_nul t = t <-> 0%N ∉ t).
Proof.
  split; [|split; [|exact until_nul_id]].
  - unfold build_request. assert (is_ok (res_map native_header (call_headers s)) = true <->
      Forall (fun p => Forall (fun c => (c < 256)%N) p.1 /\ Forall (fun c => (c < 256)%N) p.2)
        (call_headers s)) as <-.
    { rewrite res_map_is_ok. apply Forall_iff. intros p. apply native_header_ok. }
    rewrite <- !encode_strict_is_ok.
    destruct (encode_strict (upper _)), (encode_strict (call_url s)), (res_map _ _); cbn; naive_solver.
  - intros q. unfold build_request. rewrite res_bind_ok. intros (m & Em & H).
    apply res_bind_ok in H as (u & Eu & H). apply res_bind_ok in H as (hs & Eh & [= <-]).
    apply encode_strict_ok in Em as [Sm ->], Eu as [Su ->].
    cbn [nq_method nq_url nq_headers nq_body nq_priority nq_max_redirects nq_disable_cache].
    rewrite !utf8_read by done.
    split_and!; [by apply decode_encode, until_nul_scalar|by apply decode_encode, until_nul_scalar| |done
      |apply to_int32_id|apply to_int32_id|by destruct (call_disable_cache s)].
    apply res_map_ok in Eh. clear -Eh. induction Eh as [|p q ps qs Hp Hps IH]; [done|].
    rewrite !fmap_cons, IH. by rewrite (native_header_read p q Hp).
Qed.

Lemma proxy_direct (b : bytes) (proxy : str) :
  decode b = Some proxy ->
  (if bool_decide (proxy ∈ direct_spellings) then #"direct" else proxy) = #"direct"
  <-> b ∈ [blit ""; blit ":0"; blit "direct://"; blit "direct"].
Proof.
  intros H. transitivity (proxy ∈ [ #""; #":0"; #"direct://"; #"direct"]).
  - case_bool_decide as Hd; unfold direct_spellings in Hd; rewrite !elem_of_cons, elem_of_nil in *; naive_solver.
  - rewrite !elem_of_cons, !elem_of_nil.
    assert (forall w, Forall (fun c => (c < 128)%N) w -> proxy = w <-> b = octet <$> w) as Hw.
    { intros w Ha. rewrite <- (decode_ascii b w Ha). rewrite H. naive_solver. }
    rewrite !Hw by (apply (bool_decide_unpack _); vm_compute; exact I). reflexivity.
Qed.

(** C38: reading a response never invents a success.  A call without one is an
    error, and a network error always raises the class of its code with the
    URL asked for; otherwise every header and the reason phrase decode, to
    text that encodes back to the octets received, whatever they are, and the
    proxy reads "direct" for each way Chromium spells having used none. *)
Theorem response_read (pointer : option NativeResponse) (url : str) :
  (pointer = None -> exists message, read_response pointer url = Raise (RequestError PlainRequestError message 0 url))
  /\ (forall raw, pointer = Some raw -> nr_error_code raw <> 0%Z ->
        exists message, read_response pointer url
          = Raise (RequestError (class_for (nr_error_code raw)) message (nr_error_code raw) url))
  /\ (forall raw r, pointer = Some raw -> read_response pointer url = Ok r ->
        nr_error_code raw = 0%Z
        /\ raw_status_code r = nr_status_code raw
        /\ (prod_map encode_latin1 encode_latin1 <$> raw_headers r)
           = (prod_map Some Some <$> nr_headers raw)
        /\ encode_latin1 (raw_reason r) = Some (nr_status_text raw)
        /\ (raw_proxy r = #"direct" <-> nr_proxy_server raw ∈ [blit ""; blit ":0"; blit "direct://"; blit "direct"])).
Proof.
  split_and!.
  - intros ->. by eexists.
  - intros raw -> Hc. cbn. destruct (Z.eqb_spec (nr_error_code raw) 0); [done|]. cbn. by eexists.
  - intros raw r -> H. cbn in H. destruct (Z.eqb_spec (nr_error_code raw) 0) as [He|]; cbn in H; [|done].
    apply res_bind_ok in H as (proxy & Ep & H). apply res_bind_ok in H as (u & Eu & H).
    apply res_bind_ok in H as (v & Ev & [= <-]).
    cbn [raw_status_code raw_headers raw_reason raw_proxy]. split_and!; try done.
    + rewrite <- list_fmap_compose. apply list_fmap_ext. intros i [n w] _.
      unfold compose, read_header, prod_map. cbn. by rewrite !encode_decode_latin1.
    + apply encode_decode_latin1.
    + apply proxy_direct. unfold decode_strict in Ep.
      destruct (decode (nr_proxy_server raw)); [by injection Ep as ->|done].
Qed.

(** *** At concrete values *)

Definition sample_settings : CallSettings :=
  mkCall (#"get") (#"https://h/") [(#"X-Name", #"caf" ++ [233%N])] (blit "body") 4 20 false.

Lemma request_marshalled_witness :
  (fun q => read_header <$> nq_headers q) <$> build_request sample_settings
  = Ok [(#"X-Name", #"caf" ++ [233%N])].
Proof.
  destruct (build_request sample_settings) as [q|] eqn:E.
  - cbn. f_equal.
    exact (proj1 (proj2 (proj2 (proj1 (proj2 (request_marshalled sample_settings)) q E)))).
  - vm_compute in E. discriminate E.
Defined.

Definition sample_native : NativeResponse :=
  mkNative 200 (blit "OK") [(blit "Server", blit "x")] (blit "h2") (blit ":0") (blit "https://h/")
    0 0 0 [] native_no_metrics.

Lemma response_read_witness :
  exists r, read_response (Some sample_native) (#"https://h/") = Ok r /\ raw_proxy r = #"direct".
Proof.
  destruct (read_response (Some sample_native) (#"https://h/")) as [r|] eqn:E;
    [|vm_compute in E; discriminate E].
  exists r. split; [reflexivity|].
  apply (proj2 (proj2 (proj2 (proj2 (proj2 (proj2 (response_read (Some sample_native) (#"https://h/")))
    sample_native r eq_refl E))))).
  right. left.
Defined.
