(* ===== verification/Capi.v ===== *)
(** * Capi: the C interface of libcronet.so and the engine behind it
    (native/c_api.cc, native/engine.cc, and [StartCall] of native/call.cc).

    What a C caller writes into the structs of cronet.h and what the C++ code
    makes of it: defaults, null pointers, out-of-range values, the reasons an
    engine is refused, the configuration Chromium is given, and the calls made
    on a [CronetURLRequest] before it starts.  Chromium itself is the class
    [Chromium].  The theorem here says what a marshalled request (Bridge) becomes;
    Opening.v does the same for the settings of a session. *)

From S2P Require Import Prelude Unicode PyText PyUrl Headers Types Errors Json Abi Options.
From S2P Require Import Multipart Request Native Bridge.

(** ** Chromium, as far as this code reads it *)

Record ProxyServer := mkServer { is_http : bool; is_https : bool; server_host : bytes; server_port : Z }.

(** A [ProxyChain]; [First()] is looked at only when there is one server. *)
Inductive ProxyChain :=
| Direct
| Single (server : ProxyServer)
| Several (servers : list ProxyServer).

Record ProxyRules := mkRules {
  rules_empty : bool;
  single_proxies : list ProxyChain;
  proxies_for_http : list ProxyChain;
  proxies_for_https : list ProxyChain;
  fallback_proxies : list ProxyChain;
}.

Inductive HttpCache := DISABLED | MEMORY | DISK.

(** [cronet::URLRequestContextConfigBuilder], the fields assigned.  Where no
    experimental options are assigned, the builder keeps its own default. *)
Record ContextBuilder := mkBuilder {
  b_enable_quic : bool;
  b_enable_spdy : bool;
  b_enable_brotli : bool;
  b_user_agent : bytes;
  b_accept_language : bytes;
  b_storage_path : bytes;
  b_experimental_options : option bytes;
  b_http_cache : HttpCache;
  b_http_cache_max_size : Z;
}.

Class Chromium := {
  ContextConfig : Type;
  Build : ContextBuilder -> option ContextConfig;
  ParseProxyRules : bytes -> ProxyRules;
  UTF8ToUTF16 : bytes -> list N;
  GURL_is_valid : bytes -> bool;
  MINIMUM_PRIORITY : Z;
  MEDIUM : Z;
  MAXIMUM_PRIORITY : Z;
}.

(** ** The structs of the interface *)

(** A [const char*]: null, or the octets before the terminator. *)
Abbreviation char_ptr := (option bytes).

Record cronet_quic_hint := mkCHint { c_host : char_ptr; c_port : Z; c_alternate_port : Z }.

(** An array and its count are one list. *)
Record cronet_engine_config := mkCConfig {
  c_user_agent : char_ptr;
  c_accept_language : char_ptr;
  c_experimental_options : char_ptr;
  c_storage_path : char_ptr;
  c_proxy_rules : char_ptr;
  c_proxy_bypass_rules : char_ptr;
  c_proxy_username : char_ptr;
  c_proxy_password : char_ptr;
  c_quic_hints : list cronet_quic_hint;
  c_enable_quic : Z;
  c_enable_http2 : Z;
  c_enable_brotli : Z;
  c_cache_mode : Z;
  c_cache_max_bytes : Z;
}.

Record cronet_request := mkCRequest {
  c_method : char_ptr;
  c_url : char_ptr;
  c_headers : list (char_ptr * char_ptr);
  c_body : char_ptr;              (* [body_size] octets, which may hold a NUL *)
  c_priority : Z;
  c_max_redirects : Z;
  c_disable_cache : Z;
}.

(** [cronet_engine_config_init] and [cronet_request_init], on the pointer. *)
Definition cronet_engine_config_init (config : option cronet_engine_config) : option cronet_engine_config :=
  match config with
  | None => None
  | Some _ => Some (mkCConfig None None None None None None None None [] 1 1 1 CACHE_DISABLED 0)
  end.

Definition cronet_request_init (request : option cronet_request) : option cronet_request :=
  match request with
  | None => None
  | Some _ => Some (mkCRequest None None [] None PRIORITY_MEDIUM (-1) 0)
  end.

(** [ToString] *)
Definition ToString (value : char_ptr) : bytes := default [] value.

(** ** The reason of the last failure *)

Definition NUL : ascii := "000"%char.
Definition kLastErrorSize : nat := 512.

(** [g_last_error]: the calling thread's array of [kLastErrorSize] chars. *)
Definition no_error : bytes := repeat NUL kLastErrorSize.

(** [SetLastError]: what lies beyond the terminator stays as it was. *)
Definition SetLastError (message g : bytes) : bytes :=
  let length := Nat.min (length message) (kLastErrorSize - 1) in
  take length message ++ [NUL] ++ drop (S length) g.

Definition cronet_last_error (g : bytes) : bytes := c_string g.

(** ** The engine *)

Record QuicHint := mkHint { host : bytes; port : Z; alternate_port : Z }.

Record EngineConfig := mkEngineConfig {
  user_agent : bytes;
  accept_language : bytes;
  experimental_options : bytes;
  storage_path : bytes;
  proxy_rules : bytes;
  proxy_bypass_rules : bytes;
  proxy_username : bytes;
  proxy_password : bytes;
  enable_quic : bool;
  enable_http2 : bool;
  enable_brotli : bool;
  cache_mode : Z;
  cache_max_bytes : Z;
  quic_hints : list QuicHint;
}.

(** [net::ProxyConfig]: the rules, and the text the bypass rules were parsed
    from when there was any. *)
Record ProxyConfig := mkProxyConfig { rules : ProxyRules; bypass_rules : option bytes }.

(** [url::SchemeHostPort], and an entry of the proxy authentication cache. *)
Record SchemeHostPort := mkOrigin { scheme : bytes; origin_host : bytes; origin_port : Z }.
Record AuthEntry := mkAuth { auth_proxy : SchemeHostPort; auth_username : list N; auth_password : list N }.

(** [CollectHttpProxies(list, out)] *)
Definition CollectHttpProxies (chains : list ProxyChain) : list SchemeHostPort :=
  omap (M:=list) (fun chain =>
    match chain with
    | Single server =>
        if is_http server || is_https server
        then Some (mkOrigin (if is_https server then blit "https" else blit "http")
                     (server_host server) (server_port server))
        else None
    | Direct | Several _ => None
    end) chains.

(** [hint.port > 0 ? hint.port : 443] *)
Definition port_or_default (p : Z) : Z := if (0 <? p)%Z then p else 443%Z.

(** The loop over [config->quic_hints]: a hint without a host is skipped. *)
Definition hints_of (hints : list cronet_quic_hint) : list QuicHint :=
  omap (M:=list) (fun hint =>
    h ← c_host hint;
    Some (mkHint h (port_or_default (c_port hint)) (port_or_default (c_alternate_port hint)))) hints.

(** [cronet_engine_create] up to [Engine::Create]. *)
Definition engine_config (config : cronet_engine_config) : EngineConfig := {|
  user_agent := ToString (c_user_agent config);
  accept_language := ToString (c_accept_language config);
  experimental_options := ToString (c_experimental_options config);
  storage_path := ToString (c_storage_path config);
  proxy_rules := ToString (c_proxy_rules config);
  proxy_bypass_rules := ToString (c_proxy_bypass_rules config);
  proxy_username := ToString (c_proxy_username config);
  proxy_password := ToString (c_proxy_password config);
  enable_quic := negb (c_enable_quic config =? 0)%Z;
  enable_http2 := negb (c_enable_http2 config =? 0)%Z;
  enable_brotli := negb (c_enable_brotli config =? 0)%Z;
  cache_mode := c_cache_mode config;
  cache_max_bytes := c_cache_max_bytes config;
  quic_hints := hints_of (c_quic_hints config);
|}.

Definition no_storage : bytes := blit "an on-disk cache needs a storage_path".
Definition bad_cache_mode : bytes := blit "cache_mode must be 0 (off), 1 (in memory) or 2 (on disk)".
Definition bad_options : bytes := blit "experimental_options is not a JSON object Cronet accepts".
Definition bad_proxy_rules : bytes := blit "proxy_rules could not be parsed: ".

(** The [switch] on [config.cache_mode]. *)
Definition cache_of_mode (config : EngineConfig) : res bytes HttpCache :=
  if (cache_mode config =? 0)%Z then Ok DISABLED
  else if (cache_mode config =? 1)%Z then Ok MEMORY
  else if (cache_mode config =? 2)%Z then
    if nonempty (storage_path config) then Ok DISK else Raise no_storage
  else Raise bad_cache_mode.

Definition builder_of (config : EngineConfig) (http_cache : HttpCache) : ContextBuilder := {|
  b_enable_quic := enable_quic config;
  b_enable_spdy := enable_http2 config;
  b_enable_brotli := enable_brotli config;
  b_user_agent := user_agent config;
  b_accept_language := accept_language config;
  b_storage_path := storage_path config;
  b_experimental_options :=
    if nonempty (experimental_options config) then Some (experimental_options config) else None;
  b_http_cache := http_cache;
  (* static_cast<int> of an int64_t *)
  b_http_cache_max_size := to_int32 (cache_max_bytes config);
|}.

Section capi.
Context {CH : Chromium}.

(** [proxy_config]: installed only when there are rules. *)
Definition proxy_of (config : EngineConfig) : res bytes (option ProxyConfig) :=
  if nonempty (proxy_rules config) then
    let parsed := ParseProxyRules (proxy_rules config) in
    if rules_empty parsed then Raise (bad_proxy_rules ++ proxy_rules config)
    else Ok (Some (mkProxyConfig parsed
                     (if nonempty (proxy_bypass_rules config) then Some (proxy_bypass_rules config) else None)))
  else Ok None.

(** [PreloadProxyCredentials], and its task on the network thread: Basic
    credentials with an empty realm, for every http and https proxy. *)
Definition PreloadProxyCredentials (rules : ProxyRules) (username password : bytes) : list AuthEntry :=
  (fun proxy => mkAuth proxy (UTF8ToUTF16 username) (UTF8ToUTF16 password)) <$>
    CollectHttpProxies (single_proxies rules) ++ CollectHttpProxies (proxies_for_http rules)
    ++ CollectHttpProxies (proxies_for_https rules) ++ CollectHttpProxies (fallback_proxies rules).

(** [Engine]: the context it was created with and the state under its lock. *)
Record Engine := mkEngine {
  context : ContextConfig;
  context_hints : list QuicHint;          (* pushed after Build's own *)
  pending_proxy : option ProxyConfig;
  auth_cache : list AuthEntry;
  live_calls : gset nat;
  is_shutting_down : bool;
  is_net_logging : bool;
}.

(** [Engine::Create]: a new engine, or the [error]. *)
Definition Engine_Create (config : EngineConfig) : res bytes Engine :=
  http_cache ← cache_of_mode config;
  match Build (builder_of config http_cache) with
  | None => Raise bad_options
  | Some context_config =>
      proxy_config ← proxy_of config;
      Ok {| context := context_config;
            context_hints := quic_hints config;
            pending_proxy := proxy_config;
            auth_cache :=
              match proxy_config with
              | Some p =>
                  if nonempty (proxy_username config)
                  then PreloadProxyCredentials (rules p) (proxy_username config) (proxy_password config)
                  else []
              | None => []
              end;
            live_calls := ∅; is_shutting_down := false; is_net_logging := false |}
  end.

(** [cronet_engine_create], on the calling thread's [g_last_error]. *)
Definition cronet_engine_create (config : option cronet_engine_config) (g : bytes) : option Engine * bytes :=
  match config with
  | None => (None, SetLastError (blit "config must not be null") g)
  | Some config =>
      match Engine_Create (engine_config config) with
      | Ok engine => (Some engine, g)
      | Raise failure => (None, SetLastError failure g)
      end
  end.

Definition set_live_calls (e : Engine) (l : gset nat) : Engine :=
  mkEngine (context e) (context_hints e) (pending_proxy e) (auth_cache e) l (is_shutting_down e) (is_net_logging e).
Definition set_net_logging (e : Engine) (b : bool) : Engine :=
  mkEngine (context e) (context_hints e) (pending_proxy e) (auth_cache e) (live_calls e) (is_shutting_down e) b.

(** [RegisterCall] and [UnregisterCall], under the lock; the latter also says
    whether it woke whoever waits in [Destroy]. *)
Definition RegisterCall (call : nat) (e : Engine) : bool * Engine :=
  if is_shutting_down e then (false, e) else (true, set_live_calls e ({[call]} ∪ live_calls e)).

Definition UnregisterCall (call : nat) (e : Engine) : bool * Engine :=
  let e := set_live_calls e (live_calls e ∖ {[call]}) in
  (bool_decide (live_calls e = ∅), e).

(** [StartNetLog], where [opened] is what the context answers. *)
Definition StartNetLog (opened : bool) (e : Engine) : bool * Engine :=
  if is_net_logging e || negb opened then (false, e) else (true, set_net_logging e true).

(** [StopNetLog]: whether the context is asked to stop, which is when the
    caller waits for it. *)
Definition StopNetLog (e : Engine) : bool * Engine :=
  if is_net_logging e then (true, set_net_logging e false) else (false, e).

(** ** A request *)

Record RequestSpec := mkSpec {
  spec_method : bytes;
  spec_url : bytes;
  spec_headers : list (bytes * bytes);
  spec_body : bytes;
  spec_priority : Z;
  spec_max_redirects : Z;
  spec_disable_cache : bool;
}.

(** [ToRequestPriority] *)
Definition ToRequestPriority (priority : Z) : Z :=
  if (priority <? MINIMUM_PRIORITY)%Z || (MAXIMUM_PRIORITY <? priority)%Z then MEDIUM else priority.

(** The loop over [request->headers]: a null name or value skips the header. *)
Definition headers_of (headers : list (char_ptr * char_ptr)) : list (bytes * bytes) :=
  omap (M:=list) (fun header => name ← fst header; value ← snd header; Some (name, value)) headers.

(** [cronet_call_start] up to [StartCall]; [None] where it returns at once. *)
Definition request_spec (request : cronet_request) : option RequestSpec :=
  url ← c_url request;
  Some {| spec_method := match c_method request with
                         | Some method => if nonempty method then method else blit "GET"
                         | None => blit "GET"
                         end;
          spec_url := url;
          spec_headers := headers_of (c_headers request);
          spec_body := ToString (c_body request);
          spec_priority := ToRequestPriority (c_priority request);
          spec_max_redirects := c_max_redirects request;
          spec_disable_cache := negb (c_disable_cache request =? 0)%Z |}.

(** What is done to a [CronetURLRequest] after it is constructed. *)
Inductive request_action :=
| SetHttpMethod (method : bytes)
| AddRequestHeader (name value : bytes)
| SetUpload (body : bytes)
| AttachRequest
| Start.

(** A request: what it is constructed with, then what is done to it. *)
Record CronetURLRequest := mkURLRequest {
  request_url : bytes;
  request_priority : Z;
  request_disable_cache : bool;
  observer_max_redirects : Z;
  request_actions : list request_action;
}.

(** [spec.max_redirects < 0 ? 20 : spec.max_redirects] *)
Definition redirect_limit_of (max_redirects : Z) : Z := if (max_redirects <? 0)%Z then 20%Z else max_redirects.

(** [StartCall], for the call whose state is [call]. *)
Definition StartCall (call : nat) (engine : Engine) (spec : RequestSpec) : option CronetURLRequest * Engine :=
  if negb (GURL_is_valid (spec_url spec)) then (None, engine)
  else
    let '(registered, engine) := RegisterCall call engine in
    if negb registered then (None, engine)
    else
      (Some {| request_url := spec_url spec;
               request_priority := spec_priority spec;
               request_disable_cache := spec_disable_cache spec;
               observer_max_redirects := redirect_limit_of (spec_max_redirects spec);
               request_actions :=
                 [SetHttpMethod (spec_method spec)]
                 ++ ((fun '(name, value) => AddRequestHeader name value) <$> spec_headers spec)
                 ++ (if nonempty (spec_body spec) then [SetUpload (spec_body spec)] else [])
                 ++ [AttachRequest; Start] |}, engine).

(** [cronet_call_start]; it leaves [g_last_error] alone. *)
Definition cronet_call_start (call : nat) (engine : option Engine) (request : option cronet_request) (g : bytes)
  : option CronetURLRequest * option Engine * bytes :=
  match engine, request with
  | Some e, Some request =>
      match request_spec request with
      | Some spec => let '(started, e) := StartCall call e spec in (started, Some e, g)
      | None => (None, Some e, g)
      end
  | _, _ => (None, engine, g)
  end.

(** [cronet_engine_start_net_log] and [cronet_engine_stop_net_log] *)
Definition cronet_engine_start_net_log (opened : bool) (engine : option Engine) (path : char_ptr)
  : Z * option Engine :=
  match engine, path with
  | Some e, Some _ => let '(started, e) := StartNetLog opened e in (int_of_bool started, Some e)
  | _, _ => (0%Z, engine)
  end.

Definition cronet_engine_stop_net_log (engine : option Engine) : bool * option Engine :=
  match engine with
  | Some e => let '(asked, e) := StopNetLog e in (asked, Some e)
  | None => (false, None)
  end.
End capi.
Arguments mkEngine {CH}.
Arguments Engine CH : clear implicits.

(** ** A call, through a handle that may be null *)

(** [CallState::Wait]: what it answers at once, [None] where it sleeps on
    [finished_]. *)
Definition Wait (timeout_ms : Z) (s : CallState) : option bool :=
  if is_finished s then Some true else if (timeout_ms =? 0)%Z then Some false else None.

Definition cronet_call_state_of (call : option CallState) : Z :=
  match call with Some s => state_ s | None => CALL_STARTED end.

(** A null buffer reads as the end of the body, as a null call does. *)
Definition cronet_call_read (call : option CallState) (buffer : bool) (capacity : N)
  : option bytes * bool * option CallState :=
  match call with
  | Some s => if buffer then let '(out, resume, s) := Read capacity s in (out, resume, Some s)
              else (None, false, call)
  | None => (None, false, None)
  end.

Definition cronet_call_wait (call : option CallState) (timeout_ms : Z) : option bool :=
  match call with Some s => Wait timeout_ms s | None => Some false end.

Definition cronet_call_response (call : option CallState) : option NativeResponse :=
  s ← call; response s.

Definition cronet_call_cancel (call : option CallState) : option CallState := DestroyRequest <$> call.

(** ** What a marshalled request becomes *)

(** The structs that Bridge fills, as the C code sees them: every [char*] set,
    an empty body a null pointer. *)
Definition c_request (q : NativeRequest) : cronet_request := {|
  c_method := Some (nq_method q);
  c_url := Some (nq_url q);
  c_headers := (fun '(name, value) => (Some name, Some value)) <$> nq_headers q;
  c_body := if nonempty (nq_body q) then Some (nq_body q) else None;
  c_priority := nq_priority q;
  c_max_redirects := nq_max_redirects q;
  c_disable_cache := nq_disable_cache q;
|}.

Definition c_config (cfg : NativeConfig) : cronet_engine_config := {|
  c_user_agent := Some (cfg_user_agent cfg);
  c_accept_language := Some (cfg_accept_language cfg);
  c_experimental_options := Some (cfg_experimental_options cfg);
  c_storage_path := Some (cfg_storage_path cfg);
  c_proxy_rules := Some (cfg_proxy_rules cfg);
  c_proxy_bypass_rules := Some (cfg_proxy_bypass_rules cfg);
  c_proxy_username := Some (cfg_proxy_username cfg);
  c_proxy_password := Some (cfg_proxy_password cfg);
  c_quic_hints := (fun '(h, p, a) => mkCHint (Some h) p a) <$> cfg_quic_hints cfg;
  c_enable_quic := cfg_enable_quic cfg;
  c_enable_http2 := cfg_enable_http2 cfg;
  c_enable_brotli := cfg_enable_brotli cfg;
  c_cache_mode := cfg_cache_mode cfg;
  c_cache_max_bytes := cfg_cache_max_bytes cfg;
|}.

Lemma headers_of_set (hs : list (bytes * bytes)) :
  headers_of ((fun '(name, value) => (Some name, Some value)) <$> hs) = hs.
Proof. induction hs as [|[n v] hs IH]; cbn; [done|]. by rewrite <- IH at 2. Qed.

Lemma hints_of_set (hs : list (bytes * Z * Z)) :
  hints_of ((fun '(h, p, a) => mkCHint (Some h) p a) <$> hs)
  = (fun '(h, p, a) => mkHint h (port_or_default p) (port_or_default a)) <$> hs.
Proof. induction hs as [|[[h p] a] hs IH]; cbn; [done|]. by rewrite <- IH. Qed.

Lemma body_set (b : bytes) : ToString (if nonempty b then Some b else None) = b.
Proof. by destruct b. Qed.

Lemma int_of_bool_set (b : bool) : negb (int_of_bool b =? 0)%Z = b.
Proof. by destruct b. Qed.

Lemma SetLastError_length (message g : bytes) :
  length g = kLastErrorSize -> length (SetLastError message g) = kLastErrorSize.
Proof.
  unfold SetLastError, kLastErrorSize. intros H.
  rewrite !length_app, length_take, length_drop, H. cbn [length]. lia.
Qed.

(** What is read back of a reason is its first 511 octets. *)
Lemma last_error_set (message g : bytes) :
  NUL ∉ message -> cronet_last_error (SetLastError message g) = take (kLastErrorSize - 1) message.
Proof.
  intros H. unfold cronet_last_error, SetLastError, c_string, kLastErrorSize.
  set (n := Nat.min _ _). assert (take n message = take (512 - 1) message) as ->.
  { subst n. destruct (Nat.min_spec (length message) (512 - 1)) as [[Hl ->]|[Hl ->]]; [|done].
    by rewrite !take_ge by lia. }
  cbn [app]. rewrite partition_app; [done|]. intros Hin. apply H. apply elem_of_take in Hin as (i & Hi & _). by eapply list_elem_of_lookup_2.
Qed.

Lemma encode_nonempty (s : str) : nonempty (encode s) = nonempty s.
Proof.
  destruct s as [|c s]; [done|]. change (nonempty (utf8_cp c ++ encode s) = true).
  unfold utf8_cp. by destruct (c <? 128)%N, (c <? 2048)%N, (c <? 65536)%N.
Qed.

Lemma upper_nonempty (s : str) : nonempty (upper s) = nonempty s.
Proof.
  destruct s as [|c s]; [done|]. change (nonempty (upper_cp c ++ upper s) = true).
  unfold upper_cp. destruct (find_first _ upper_special) as [[k [|x l]]|] eqn:E; [|done..].
  exfalso. assert (Forall (fun e => e.2 <> []) upper_special) as Hs
    by (apply (bool_decide_unpack _); vm_compute; exact I).
  apply find_first_some in E as [_ E]. rewrite Forall_forall in Hs. by apply (Hs _ E).
Qed.

(** C29: a request reaches the network stack as it was described.  The request a
    session marshals is refused only for a URL Chromium cannot parse or an
    engine shutting down, which leaves the engine and the last reason as they
    were; otherwise it is registered, and the [CronetURLRequest] gets the
    method (GET when empty), every header in order, the body if there is one,
    all before it can be cancelled, and is started once and last; its URL,
    cache setting and redirect limit are the ones given, a negative limit
    being 20, and its priority is too unless Chromium has no such priority. *)
Theorem request_reaches_network {CH : Chromium} (s : CallSettings) (q : NativeRequest) (call : nat)
    (e : Engine CH) (g : bytes) (Hn : nul_free s) (Hq : build_request s = Ok q) :
  let '(started, e', g') := cronet_call_start call (Some e) (Some (c_request q)) g in
  g' = g
  /\ (started = None <-> GURL_is_valid (encode (call_url s)) = false \/ is_shutting_down e = true)
  /\ (started = None -> e' = Some e)
  /\ forall r, started = Some r ->
       e' = Some (set_live_calls e ({[call]} ∪ live_calls e))
       /\ request_url r = encode (call_url s)
       /\ request_disable_cache r = call_disable_cache s
       /\ observer_max_redirects r = redirect_limit_of (to_int32 (call_max_redirects s))
       /\ request_priority r = ToRequestPriority (to_int32 (call_priority s))
       /\ exists hs, read_header <$> hs = call_headers s
          /\ request_actions r
             = [SetHttpMethod (if nonempty (call_method s) then encode (upper (call_method s)) else blit "GET")]
               ++ ((fun '(name, value) => AddRequestHeader name value) <$> hs)
               ++ (if nonempty (call_body s) then [SetUpload (call_body s)] else [])
               ++ [AttachRequest; Start].
Proof.
  destruct Hn as [H1 H2 H3].
  destruct (build_request_reads s q H1 H2 H3 Hq) as (_ & _ & Em & Eu & Eh & Eb & Ep & Er & Ec).
  unfold cronet_call_start, c_request, request_spec, StartCall, RegisterCall.
  cbn -[kLastErrorSize encode upper blit]. rewrite Em, Eu, Eb, Ep, Er, Ec, headers_of_set, body_set, int_of_bool_set.
  destruct (GURL_is_valid (encode (call_url s))); cbn [negb]; [|split_and!; try done; split; [by left|done]].
  destruct (is_shutting_down e); cbn [negb]; [split_and!; try done; split; [by right|done]|].
  split_and!; [done|by split; [|intros [?|?]]|done|]. intros r [= <-]. cbn -[encode upper blit].
  split_and!; try done. exists (nq_headers q). split; [done|]. f_equal. f_equal.
  rewrite encode_nonempty, upper_nonempty. by destruct (nonempty _).
Qed.

(** ** At a concrete Chromium, and where the interface falls short *)

(** A Chromium that accepts any options but the empty list, any URL but the
    empty one, and rules with a colon as one HTTP proxy. *)
#[export] Instance sample_chromium : Chromium := {
  ContextConfig := ContextBuilder;
  Build b := if bool_decide (b_experimental_options b = Some (blit "[]")) then None else Some b;
  ParseProxyRules r :=
    if bool_decide (":"%char ∈ r) then mkRules false [Single (mkServer true false r 8080)] [] [] []
    else mkRules true [] [] [] [];
  UTF8ToUTF16 b := decode_replace b;
  GURL_is_valid := nonempty;
  MINIMUM_PRIORITY := 0;
  MEDIUM := 4;
  MAXIMUM_PRIORITY := 5;
}.

Definition sample_config : cronet_engine_config :=
  default (mkCConfig None None None None None None None None [] 0 0 0 0 0)
    (cronet_engine_config_init (Some (mkCConfig None None None None None None None None [] 0 0 0 0 0))).

Definition sample_engine : Engine sample_chromium :=
  mkEngine (CH := sample_chromium) (builder_of (engine_config sample_config) DISABLED) [] None [] ∅ false false.

Lemma request_reaches_network_witness :
  exists r, (cronet_call_start 7 (Some sample_engine)
               (c_request <$> match build_request sample_settings with Ok q => Some q | Raise _ => None end)
               no_error).1.1 = Some r
    /\ request_url r = blit "https://h/" /\ observer_max_redirects r = 20%Z.
Proof.
  assert (nul_free sample_settings) as Hn.
  { constructor; apply (bool_decide_unpack _); vm_compute; exact I. }
  destruct (build_request sample_settings) as [q|] eqn:E; [|vm_compute in E; discriminate E].
  pose proof (request_reaches_network sample_settings q 7 sample_engine no_error Hn E) as H.
  cbn [fmap option_fmap option_map].
  destruct (cronet_call_start _ _ _ _) as [[[r|] e'] g'].
  - exists r. destruct H as (_ & _ & _ & H). destruct (H r eq_refl) as (_ & Hu & _ & Hr & _).
    split; [reflexivity|]. rewrite Hu, Hr. split; reflexivity.
  - exfalso. destruct H as (_ & [H _] & _). destruct (H eq_refl) as [H'|H']; vm_compute in H'; discriminate H'.
Defined.

(** A limit of the cache that does not fit an [int] is cut to its low bits:
    four gigabytes become zero, which lets Chromium choose, and two make the
    limit negative. *)
Lemma cache_limit_truncated (config : EngineConfig) (http_cache : HttpCache) :
  (cache_max_bytes config = 4294967296%Z -> b_http_cache_max_size (builder_of config http_cache) = 0%Z)
  /\ (cache_max_bytes config = 2147483648%Z ->
        b_http_cache_max_size (builder_of config http_cache) = (-2147483648)%Z).
Proof. unfold builder_of. cbn [b_http_cache_max_size]. by split; intros ->. Qed.

(** A call that is not started leaves the reason of an earlier failure of the
    thread to be read as its own. *)
Definition bad_rules_config : cronet_engine_config :=
  mkCConfig None None None None (Some (blit "nonsense")) None None None [] 1 1 1 0 0.
Definition urlless_request : cronet_request := mkCRequest None (Some []) [] None 4 0 0.

Lemma call_start_stale_reason :
  let g := (cronet_engine_create (Some bad_rules_config) no_error).2 in
  let '(started, _, g') := cronet_call_start 0 (Some sample_engine) (Some urlless_request) g in
  started = None /\ g' = g /\ cronet_last_error g = blit "proxy_rules could not be parsed: nonsense".
Proof.
  unfold cronet_call_start, urlless_request. cbn [c_url].
  split_and!; [reflexivity..|]. vm_compute. reflexivity.
Qed.

(** An engine shutting down refuses a call whose request is well formed. *)
Lemma shutdown_refuses {CH : Chromium} (call : nat) (e : Engine CH) (request : cronet_request) (g : bytes) :
  is_shutting_down e = true -> (cronet_call_start call (Some e) (Some request) g).1.1 = None.
Proof.
  intros H. unfold cronet_call_start, StartCall, RegisterCall. rewrite H.
  destruct (request_spec request) as [spec|]; cbn; [|done].
  by destruct (GURL_is_valid (spec_url spec)).
Qed.
