(* ===== verification/Waiting.v ===== *)
(** * Waiting: one thread's use of the native library (_bridge.py, [Call] and
    [Engine.start]; session.py, the waiting of [AsyncSession]).

    Everything the library, the network and the clock may do is behind the
    class [Library]: each entry point answers as it likes and moves the
    library to any state it likes.  The loops that call it are the code's, so
    what is proved of them holds for every behaviour of the other side.

    A loop that could wait for ever takes its [patience]: the number of rounds
    after which the waiting thread is interrupted (KeyboardInterrupt, or the
    cancellation of its task), which is a behaviour of its own and runs every
    [finally] on its way out. *)

From S2P Require Import Prelude PyText PyUrl Headers Types Errors Json Abi Floats Options.
From S2P Require Import Multipart Request.
From S2P Require Import Native Call Bridge.

(** What [Engine] and [Call] use of libcronet.so, poll() and the clock. *)
Class Library (X : Type) := {
  lib_engine_create : NativeConfig -> X -> bool * X;
  lib_engine_destroy : X -> X;
  lib_start_net_log : bytes -> Z -> X -> Z * X;
  lib_stop_net_log : X -> X;
  lib_last_error : X -> bytes;
  lib_call_start : NativeRequest -> X -> option nat * X;
  lib_call_state_of : nat -> X -> Z * X;
  lib_call_response : nat -> X -> option NativeResponse * X;
  lib_call_read : nat -> N -> X -> option bytes * X;
  lib_drain_fd : nat -> X -> X;
  lib_poll_fd : nat -> Z -> X -> bool * X;
  lib_call_wait : nat -> Z -> X -> bool * X;
  lib_call_cancel : nat -> X -> X;
  lib_call_free : nat -> X -> X;
  monotonic : X -> float * X;
  (* awaiting a readable descriptor inside [asyncio.timeout(seconds)] *)
  await_fd : nat -> option seconds -> X -> res exn unit * X;
}.

(** What a thread does with the library, in order. *)
Inductive call_event :=
| CallStarted (call : nat) (request : NativeRequest)
| CallRead (call : nat) (answer : option bytes)
| CallCancelled (call : nat)
| CallFreed (call : nat)
| NetLogStarted (path : bytes) (log_all : Z)
| NetLogStopped
| EngineDestroyed.

Section waiting.
Context {X J : Type} {LX : Library X}.

(** The engine's bookkeeping, the session's jar and the library's side. *)
Record world := mkWorld {
  w_open : bool;
  w_live : gset nat;
  w_flight : nat;
  w_jar : option J;
  w_lib : X;
  w_trace : list call_event;
}.

Definition set_lib (w : world) (x : X) : world :=
  mkWorld (w_open w) (w_live w) (w_flight w) (w_jar w) x (w_trace w).
Definition set_jar (w : world) (j : option J) : world :=
  mkWorld (w_open w) (w_live w) (w_flight w) j (w_lib w) (w_trace w).
Definition set_live (w : world) (l : gset nat) : world :=
  mkWorld (w_open w) l (w_flight w) (w_jar w) (w_lib w) (w_trace w).
Definition set_flight (w : world) (n : nat) : world :=
  mkWorld (w_open w) (w_live w) n (w_jar w) (w_lib w) (w_trace w).
Definition add_event (w : world) (ev : call_event) : world :=
  mkWorld (w_open w) (w_live w) (w_flight w) (w_jar w) (w_lib w) (w_trace w ++ [ev]).

Abbreviation run := (st world exn).

Definition native {A} (f : X -> A * X) : run A := fun w =>
  let '(a, x) := f (w_lib w) in (Ok a, set_lib w x).
Definition note (ev : call_event) : run unit := fun w => (Ok tt, add_event w ev).
Definition raise {A} (e : exn) : run A := fun w => (Raise e, w).

(** ** The engine *)

Definition engine_claim : run unit := fun w =>
  if w_open w then (Ok tt, set_flight w (S (w_flight w))) else (Raise SessionClosed, w).

Definition engine_release : run unit := fun w => (Ok tt, set_flight w (w_flight w - 1)).

Definition call_cancel (c : nat) : run unit :=
  _ ← note (CallCancelled c);
  native (fun x => (tt, lib_call_cancel c x)).

(** [_binding.last_error() or otherwise] *)
Definition last_error_or (otherwise : str) : run str := fun w =>
  let message := decode_replace (lib_last_error (w_lib w)) in
  (Ok (if nonempty message then message else otherwise), w).

Definition engine_register (c : nat) : run unit := fun w =>
  let w := set_live w ({[c]} ∪ w_live w) in
  if w_open w then (Ok tt, w) else call_cancel c w.

(** [Engine.start(settings)] *)
Definition engine_start (settings : CallSettings) : run nat :=
  request ← st_lift (build_request settings);
  _ ← engine_claim;
  call ← native (lib_call_start request);
  match call with
  | None =>
      _ ← engine_release;
      message ← last_error_or (#"the request could not be started");
      raise (RequestError PlainRequestError message 0 (call_url settings))
  | Some c =>
      _ ← note (CallStarted c request);
      _ ← engine_register c;
      mret c
  end.

(** [Engine._free_call(call)] *)
Definition free_call (c : nat) : run unit :=
  _ ← (fun w => (Ok tt, set_live w (w_live w ∖ {[c]})) : res exn unit * world);
  _ ← note (CallFreed c);
  _ ← native (fun x => (tt, lib_call_free c x));
  engine_release.

(** ** The calls *)

Definition call_state (c : nat) : run Z := native (lib_call_state_of c).
Definition call_wait (c : nat) (timeout_ms : Z) : run bool := native (lib_call_wait c timeout_ms).
Definition drain (c : nat) : run unit := native (fun x => (tt, lib_drain_fd c x)).

Definition call_read (c : nat) : run (option bytes) :=
  answer ← native (lib_call_read c CHUNK_SIZE);
  _ ← note (CallRead c answer);
  mret answer.

(** [poller.poll(...)], which refuses more milliseconds than it can count. *)
Definition wait_for_progress (c : nat) (timeout_ms : Z) : run bool :=
  if poll_refuses timeout_ms then raise OverflowError else native (lib_poll_fd c timeout_ms).

Definition call_result (c : nat) (url : str) : run RawResponse :=
  pointer ← native (lib_call_response c);
  st_lift (read_response pointer url).

(** [Call.close()] *)
Definition call_close (c : nat) : run unit := free_call c.

(** *** [_countdown(timeout_ms)]: its start, and one round *)

Definition countdown_begin (timeout_ms : Z) : run float :=
  if (timeout_ms <? 0)%Z then mret (S754_zero false)
  else now ← native monotonic; st_lift (countdown_deadline timeout_ms now).

Definition countdown_next (timeout_ms : Z) (deadline : float) : run (option Z) :=
  if (timeout_ms <? 0)%Z then mret (Some (-1)%Z)
  else now ← native monotonic; st_lift (countdown timeout_ms deadline now).

(** *** [wait_for_headers(timeout_ms)] *)

Fixpoint headers_rounds (patience : nat) (timeout_ms : Z) (deadline : float) (c : nat) : run bool :=
  match patience with
  | O => raise Interrupted
  | S patience =>
      remaining ← countdown_next timeout_ms deadline;
      match remaining with
      | None => state ← call_state c; mret (negb (state =? CALL_STARTED)%Z)
      | Some remaining =>
          _ ← drain c;
          state ← call_state c;
          if negb (state =? CALL_STARTED)%Z then mret true
          else
            progress ← wait_for_progress c remaining;
            if progress : bool then headers_rounds patience timeout_ms deadline c else mret false
      end
  end.

Definition wait_for_headers (patience : nat) (timeout_ms : Z) (c : nat) : run bool :=
  deadline ← countdown_begin timeout_ms;
  headers_rounds patience timeout_ms deadline c.

(** *** [iter_body(timeout_ms)], run to its end

    [reading] is the [while piece] loop of the round whose wait may last
    [Some remaining]; [None] is the head of a round. *)

Fixpoint body_rounds (patience : nat) (timeout_ms : Z) (deadline : float) (c : nat)
    (reading : option Z) (got : list bytes) : run (list bytes) :=
  match patience with
  | O => raise Interrupted
  | S patience =>
      match reading with
      | None =>
          remaining ← countdown_next timeout_ms deadline;
          match remaining with
          | None => raise TimeoutError
          | Some remaining =>
              _ ← drain c;
              body_rounds patience timeout_ms deadline c (Some remaining) got
          end
      | Some remaining =>
          piece ← call_read c;
          match piece with
          | None => mret got
          | Some [] =>
              progress ← wait_for_progress c remaining;
              if progress : bool then body_rounds patience timeout_ms deadline c None got
              else raise TimeoutError
          | Some piece =>
              body_rounds patience timeout_ms deadline c (Some remaining) (got ++ [piece])
          end
      end
  end.

Definition iter_body (patience : nat) (timeout_ms : Z) (c : nat) : run (list bytes) :=
  deadline ← countdown_begin timeout_ms;
  body_rounds patience timeout_ms deadline c None [].

(** ** The waiting of [AsyncSession] *)

(** [_progress(call)], inside the time limit of the request: it may also end
    with TimeoutError or with the task's cancellation. *)
Definition progress (c : nat) (limit : option seconds) : run unit := fun w =>
  let '(r, x) := await_fd c limit (w_lib w) in (r, set_lib w x).

Fixpoint async_wait_for_headers (patience : nat) (limit : option seconds) (c : nat) : run unit :=
  match patience with
  | O => raise Interrupted
  | S patience =>
      _ ← drain c;
      state ← call_state c;
      if negb (state =? CALL_STARTED)%Z then mret tt
      else _ ← progress c limit; async_wait_for_headers patience limit c
  end.

Fixpoint read_body (patience : nat) (limit : option seconds) (c : nat) (reading : bool)
    (got : list bytes) : run bytes :=
  match patience with
  | O => raise Interrupted
  | S patience =>
      if reading then
        piece ← call_read c;
        match piece with
        | None => mret (mjoin got)
        | Some [] => _ ← progress c limit; read_body patience limit c false got
        | Some piece => read_body patience limit c true (got ++ [piece])
        end
      else _ ← drain c; read_body patience limit c true got
  end.

(** ** What waiting leaves alone *)

(** An event of a call in progress. *)
Definition about (c : nat) (ev : call_event) : Prop :=
  match ev with CallRead d _ | CallCancelled d => d = c | _ => False end.

(** The octets the events say were read. *)
Definition octets (evs : list call_event) : bytes :=
  evs ≫= (fun ev => match ev with CallRead _ (Some b) => b | _ => [] end).

Record quiet (c : nat) (evs : list call_event) (w w' : world) : Prop := {
  q_open : w_open w' = w_open w;
  q_live : w_live w' = w_live w;
  q_flight : w_flight w' = w_flight w;
  q_jar : w_jar w' = w_jar w;
  q_trace : w_trace w' = w_trace w ++ evs;
  q_about : Forall (about c) evs;
}.

Lemma quiet_refl (c : nat) (w : world) : quiet c [] w w.
Proof. constructor; try done. by rewrite app_nil_r. Qed.

Lemma quiet_trans (c : nat) (e1 e2 : list call_event) (w1 w2 w3 : world) :
  quiet c e1 w1 w2 -> quiet c e2 w2 w3 -> quiet c (e1 ++ e2) w1 w3.
Proof.
  intros [A1 A2 A3 A4 A5 A6] [B1 B2 B3 B4 B5 B6]. constructor; try congruence.
  - by rewrite B5, A5, app_assoc.
  - by apply Forall_app.
Qed.

(** [m] only waits on [c]; its result and the events it caused satisfy [P]. *)
Definition Quiet {A} (c : nat) (m : run A) (P : res exn A -> list call_event -> Prop) : Prop :=
  forall w r w', m w = (r, w') -> exists evs, quiet c evs w w' /\ P r evs.

Lemma Quiet_weaken {A} (c : nat) (m : run A) (P Q : res exn A -> list call_event -> Prop) :
  Quiet c m P -> (forall r evs, P r evs -> Q r evs) -> Quiet c m Q.
Proof. intros H1 H2 w r w' E. destruct (H1 _ _ _ E) as (evs & Hq & HP). exists evs. auto. Qed.

Lemma Quiet_any {A} (c : nat) (m : run A) (P : res exn A -> list call_event -> Prop) :
  Quiet c m P -> Quiet c m (fun _ _ => True).
Proof. intros H. by eapply Quiet_weaken. Qed.

Lemma Quiet_const {A} (c : nat) (r : res exn A) (m : run A) :
  (forall w, m w = (r, w)) -> Quiet c m (fun r' evs => r' = r /\ evs = []).
Proof. intros H w r' w' E. rewrite H in E. injection E as <- <-. exists []. by split; [apply quiet_refl|]. Qed.

Lemma Quiet_bind {A B} (c : nat) (m : run A) (f : A -> run B)
    (P : res exn A -> list call_event -> Prop) (Q : res exn B -> list call_event -> Prop) :
  Quiet c m P ->
  (forall e evs, P (Raise e) evs -> Q (Raise e) evs) ->
  (forall a e1, P (Ok a) e1 -> Quiet c (f a) (fun r e2 => Q r (e1 ++ e2))) ->
  Quiet c (x ← m; f x) Q.
Proof.
  intros Hm He Hf w r w' E. unfold mbind, st_bind in E. destruct (m w) as [[a|e] w1] eqn:Em.
  - destruct (Hm _ _ _ Em) as (e1 & Hq1 & HP). destruct (Hf a e1 HP _ _ _ E) as (e2 & Hq2 & HQ).
    exists (e1 ++ e2). split; [by eapply quiet_trans|done].
  - injection E as <- <-. destruct (Hm _ _ _ Em) as (e1 & Hq1 & HP). exists e1. auto.
Qed.

Lemma Quiet_native {A} (c : nat) (f : X -> A * X) : Quiet c (native f) (fun r evs => is_ok r = true /\ evs = []).
Proof.
  intros w r w' E. unfold native in E. destruct (f (w_lib w)) as [a x]. injection E as <- <-.
  exists []. split; [|done]. constructor; try done. cbn. by rewrite app_nil_r.
Qed.

Lemma Quiet_note (c : nat) (ev : call_event) :
  about c ev -> Quiet c (note ev) (fun r evs => r = Ok tt /\ evs = [ev]).
Proof. intros Ha w r w' E. injection E as <- <-. exists [ev]. split; [|done]. constructor; try done. by constructor. Qed.

(** Steps that read nothing. *)
Definition silent {A} (r : res exn A) (evs : list call_event) : Prop := octets evs = [].

Lemma Quiet_silent_native {A} (c : nat) (f : X -> A * X) : Quiet c (native f) silent.
Proof. eapply Quiet_weaken; [apply Quiet_native|]. by intros r evs [_ ->]. Qed.

Lemma Quiet_silent_const {A} (c : nat) (r : res exn A) (m : run A) :
  (forall w, m w = (r, w)) -> Quiet c m silent.
Proof. intros Hm. eapply Quiet_weaken; [by apply Quiet_const|]. by intros r' evs [_ ->]. Qed.

Lemma octets_app (e1 e2 : list call_event) : octets (e1 ++ e2) = octets e1 ++ octets e2.
Proof. apply bind_app. Qed.

Lemma Quiet_silent_bind {A B} (c : nat) (m : run A) (f : A -> run B) :
  Quiet c m silent -> (forall a, Quiet c (f a) silent) -> Quiet c (x ← m; f x) silent.
Proof.
  intros Hm Hf. eapply Quiet_bind; [exact Hm|done|]. intros a e1 H1.
  eapply Quiet_weaken; [apply Hf|]. intros r e2 H2. unfold silent in *.
  by rewrite octets_app, H1, H2.
Qed.

Lemma Quiet_silent_if {A} (c : nat) (b : bool) (m1 m2 : run A) :
  Quiet c m1 silent -> Quiet c m2 silent -> Quiet c (if b then m1 else m2) silent.
Proof. by destruct b. Qed.

Ltac silent :=
  repeat first
    [ apply Quiet_silent_bind; [|intros ?]
    | apply Quiet_silent_native
    | (by eapply Quiet_silent_const)
    | apply Quiet_silent_if
    | case_match ].

Lemma Quiet_countdown_begin (c : nat) (t : Z) : Quiet c (countdown_begin t) silent.
Proof. unfold countdown_begin. silent. Qed.

Lemma Quiet_countdown_next (c : nat) (t : Z) (d : float) : Quiet c (countdown_next t d) silent.
Proof. unfold countdown_next. silent. Qed.

Lemma Quiet_wait_for_progress (c : nat) (ms : Z) : Quiet c (wait_for_progress c ms) silent.
Proof. unfold wait_for_progress. silent. Qed.

Lemma Quiet_wait_for_headers (c patience : nat) (t : Z) :
  Quiet c (wait_for_headers patience t c) silent.
Proof.
  apply Quiet_silent_bind; [apply Quiet_countdown_begin|]. intros d.
  induction patience as [|p IH]; [by eapply Quiet_silent_const|].
  cbn [headers_rounds]. apply Quiet_silent_bind; [apply Quiet_countdown_next|].
  intros [r|]; [|silent]. unfold drain, call_state, wait_for_progress.
  repeat first [exact IH|progress silent].
Qed.

Lemma Quiet_progress (c : nat) (limit : option seconds) : Quiet c (progress c limit) silent.
Proof.
  intros w r w' E. unfold progress in E. destruct (await_fd c limit (w_lib w)) as [r' x].
  injection E as <- <-. exists []. split; [|done]. constructor; try done. cbn. by rewrite app_nil_r.
Qed.

Lemma Quiet_async_headers (c patience : nat) (limit : option seconds) :
  Quiet c (async_wait_for_headers patience limit c) silent.
Proof.
  induction patience as [|p IH]; [by eapply Quiet_silent_const|].
  cbn [async_wait_for_headers]. unfold drain, call_state.
  repeat first [exact IH|apply Quiet_progress|progress silent].
Qed.

Lemma Quiet_call_result (c : nat) (url : str) : Quiet c (call_result c url) silent.
Proof. unfold call_result. silent. Qed.

Lemma Quiet_call_read (c : nat) :
  Quiet c (call_read c) (fun r evs => exists a, r = Ok a /\ evs = [CallRead c a]).
Proof.
  unfold call_read. eapply Quiet_bind; [apply Quiet_native| |].
  - by intros e evs [H1 H2].
  - intros a e1 [_ ->]. eapply Quiet_bind; [by apply Quiet_note|by intros e evs [? ?]|].
    intros u e2 [_ ->]. eapply Quiet_weaken; [by apply Quiet_const|].
    intros r e3 [-> ->]. by exists a.
Qed.

(** What a whole-body read has when it ends well: every octet the library
    gave it, the last answer being the end. *)
Definition whole (got : list bytes) (r : res exn (list bytes)) (evs : list call_event) : Prop :=
  forall pieces, r = Ok pieces ->
    mjoin pieces = mjoin got ++ octets evs
    /\ exists c before, evs = before ++ [CallRead c None].

Lemma whole_silent (got : list bytes) (r : res exn (list bytes)) (e1 e2 : list call_event) :
  octets e1 = [] -> whole got r e2 -> whole got r (e1 ++ e2).
Proof.
  intros H1 H pieces Hr. destruct (H pieces Hr) as (H2 & c & before & ->).
  rewrite octets_app, H1. split; [done|]. exists c, (e1 ++ before). by rewrite app_assoc.
Qed.

Lemma Quiet_whole_bind {A} (c : nat) (m : run A) (f : A -> run (list bytes)) (got : list bytes) :
  Quiet c m silent -> (forall a, Quiet c (f a) (whole got)) -> Quiet c (x ← m; f x) (whole got).
Proof.
  intros Hm Hf. eapply Quiet_bind; [exact Hm|done|].
  intros a e1 H1. eapply Quiet_weaken; [apply Hf|]. intros r e2. by apply whole_silent.
Qed.

Lemma Quiet_whole_raise (c : nat) (e : exn) (got : list bytes) : Quiet c (raise e) (whole got).
Proof. eapply Quiet_weaken; [by apply Quiet_const|]. by intros r evs [-> _] pieces. Qed.

Lemma mjoin_snoc (got : list bytes) (piece : bytes) : mjoin (got ++ [piece]) = mjoin got ++ piece.
Proof. rewrite join_app. cbn. by rewrite app_nil_r. Qed.

Lemma Quiet_body_rounds (c patience : nat) (t : Z) (d : float) (reading : option Z)
    (got : list bytes) :
  Quiet c (body_rounds patience t d c reading got) (whole got).
Proof.
  revert reading got. induction patience as [|p IH]; intros reading got; [apply Quiet_whole_raise|].
  cbn [body_rounds]. destruct reading as [remaining|].
  - eapply Quiet_bind; [apply Quiet_call_read|by intros e evs (a & ? & _)|].
    intros a e1 (a' & [= <-] & ->). destruct a as [[|b piece]|].
    + eapply Quiet_weaken with (P := whole got); [|intros r evs; by apply whole_silent].
      apply Quiet_whole_bind; [apply Quiet_wait_for_progress|].
      intros []; [apply IH|apply Quiet_whole_raise].
    + eapply Quiet_weaken; [apply IH|]. intros r evs Hw pieces Hr.
      destruct (Hw pieces Hr) as (Hj & c' & before & ->). split.
      * rewrite Hj, mjoin_snoc, !octets_app. cbn. by rewrite app_nil_r, <- !app_assoc.
      * exists c', (CallRead c (Some (b :: piece)) :: before). done.
    + eapply Quiet_weaken; [by apply Quiet_const|]. intros r evs [-> ->] pieces [= <-].
      split; [cbn; by rewrite app_nil_r|]. by exists c, [].
  - apply Quiet_whole_bind; [apply Quiet_countdown_next|]. intros [remaining|].
    + apply Quiet_whole_bind; [apply Quiet_silent_native|]. intros _. apply IH.
    + apply Quiet_whole_raise.
Qed.

Lemma Quiet_iter_body (c patience : nat) (t : Z) : Quiet c (iter_body patience t c) (whole []).
Proof.
  apply Quiet_whole_bind; [apply Quiet_countdown_begin|]. intros d. apply Quiet_body_rounds.
Qed.

(** The same of a body read on the event loop. *)
Definition whole_bytes (got : list bytes) (r : res exn bytes) (evs : list call_event) : Prop :=
  forall b, r = Ok b ->
    b = mjoin got ++ octets evs /\ exists c before, evs = before ++ [CallRead c None].

Lemma Quiet_whole_bytes_bind {A} (c : nat) (m : run A) (f : A -> run bytes) (got : list bytes) :
  Quiet c m silent -> (forall a, Quiet c (f a) (whole_bytes got)) ->
  Quiet c (x ← m; f x) (whole_bytes got).
Proof.
  intros Hm Hf. eapply Quiet_bind; [exact Hm|done|].
  intros a e1 H1. eapply Quiet_weaken; [apply Hf|]. intros r e2 H b Hr.
  destruct (H b Hr) as (H2 & d & before & ->).
  rewrite octets_app, H1. split; [done|]. exists d, (e1 ++ before). by rewrite app_assoc.
Qed.

Lemma Quiet_read_body (c patience : nat) (limit : option seconds) (reading : bool)
    (got : list bytes) :
  Quiet c (read_body patience limit c reading got) (whole_bytes got).
Proof.
  revert reading got. induction patience as [|p IH]; intros reading got.
  { eapply Quiet_weaken; [by apply Quiet_const|]. by intros r evs [-> _] b. }
  cbn [read_body]. destruct reading.
  - eapply Quiet_bind; [apply Quiet_call_read|by intros e evs (a & ? & _)|].
    intros a e1 (a' & [= <-] & ->). destruct a as [[|b piece]|].
    + eapply Quiet_weaken with (P := whole_bytes got).
      * apply Quiet_whole_bytes_bind; [apply Quiet_progress|]. intros _. apply IH.
      * intros r evs H b Hr. destruct (H b Hr) as (Hj & c' & before & ->).
        split; [done|]. by exists c', (CallRead c (Some []) :: before).
    + eapply Quiet_weaken; [apply IH|]. intros r evs H b' Hr.
      destruct (H b' Hr) as (Hj & c' & before & ->). split.
      * rewrite Hj, mjoin_snoc, !octets_app. cbn. by rewrite app_nil_r, <- !app_assoc.
      * by exists c', (CallRead c (Some (b :: piece)) :: before).
    + eapply Quiet_weaken; [by apply Quiet_const|]. intros r evs [-> ->] b [= <-].
      split; [cbn; by rewrite app_nil_r|]. by exists c, [].
  - apply Quiet_whole_bytes_bind; [apply Quiet_silent_native|]. intros _. apply IH.
Qed.

Lemma Quiet_except {A} (c : nat) (m : run A) (h : exn -> option (run A))
    (P Q : res exn A -> list call_event -> Prop) :
  Quiet c m P ->
  (forall a evs, P (Ok a) evs -> Q (Ok a) evs) ->
  (forall e evs, P (Raise e) evs ->
     match h e with None => Q (Raise e) evs | Some k => Quiet c k (fun r e2 => Q r (evs ++ e2)) end) ->
  Quiet c (st_except m h) Q.
Proof.
  intros Hm Ho Hr w r w' E. unfold st_except in E. destruct (m w) as [[a|e] w1] eqn:Em;
    destruct (Hm _ _ _ Em) as (e1 & Hq1 & HP).
  - injection E as <- <-. exists e1. auto.
  - specialize (Hr e e1 HP). destruct (h e) as [k|].
    + destruct (Hr _ _ _ E) as (e2 & Hq2 & HQ). exists (e1 ++ e2). split; [by eapply quiet_trans|done].
    + injection E as <- <-. by exists e1.
Qed.

(** ** More patience changes nothing but an interruption *)

Definition Patient {A} (m m' : run A) : Prop :=
  forall w r w', m w = (r, w') -> r <> Raise Interrupted -> m' w = (r, w').

Lemma Patient_refl {A} (m : run A) : Patient m m.
Proof. by intros w r w' H _. Qed.

Lemma Patient_raise {A} (m : run A) : Patient (raise Interrupted) m.
Proof. intros w r w' [= <- <-] H. done. Qed.

Lemma Patient_bind {A B} (m m' : run A) (f f' : A -> run B) :
  Patient m m' -> (forall a, Patient (f a) (f' a)) -> Patient (x ← m; f x) (x ← m'; f' x).
Proof.
  intros Hm Hf w r w' E Hr. unfold mbind, st_bind in *. destruct (m w) as [[a|e] w1] eqn:Em.
  - rewrite (Hm _ _ _ Em) by done. by apply Hf.
  - injection E as <- <-. rewrite (Hm _ _ _ Em); [done|]. congruence.
Qed.

Lemma Patient_finally {A} (m m' : run A) (k : run unit) :
  (forall w, is_ok (k w).1 = true) -> Patient m m' -> Patient (st_finally m k) (st_finally m' k).
Proof.
  intros Hk Hm w r w' E Hr. unfold st_finally in *. destruct (m w) as [r1 w1] eqn:Em.
  specialize (Hk w1). destruct (k w1) as [[[]|e] w2] eqn:Ek; [|done].
  injection E as <- <-. by rewrite (Hm _ _ _ Em Hr), Ek.
Qed.

Lemma Patient_except {A} (m m' : run A) (h : exn -> option (run A)) :
  h Interrupted = None -> Patient m m' -> Patient (st_except m h) (st_except m' h).
Proof.
  intros Hh Hm w r w' E Hr. unfold st_except in *. destruct (m w) as [[a|e] w1] eqn:Em.
  - by rewrite (Hm _ _ _ Em).
  - assert (e <> Interrupted) as He.
    { intros ->. rewrite Hh in E. by injection E as <- _. }
    rewrite (Hm _ _ _ Em); [done|]. congruence.
Qed.

Lemma Patient_headers (p k : nat) (t : Z) (c : nat) :
  Patient (wait_for_headers p t c) (wait_for_headers (p + k) t c).
Proof.
  apply Patient_bind; [apply Patient_refl|]. intros d.
  induction p as [|p IH]; [apply Patient_raise|]. cbn [headers_rounds Nat.add].
  apply Patient_bind; [apply Patient_refl|]. intros [r|]; [|apply Patient_refl].
  apply Patient_bind; [apply Patient_refl|]. intros _.
  apply Patient_bind; [apply Patient_refl|]. intros s. destruct (negb _); [apply Patient_refl|].
  apply Patient_bind; [apply Patient_refl|]. intros []; [exact IH|apply Patient_refl].
Qed.

Lemma Patient_body (p k : nat) (t : Z) (c : nat) : Patient (iter_body p t c) (iter_body (p + k) t c).
Proof.
  apply Patient_bind; [apply Patient_refl|]. intros d. generalize (@nil bytes) as got.
  generalize (@None Z) as reading.
  induction p as [|p IH]; intros reading got; [apply Patient_raise|].
  cbn [body_rounds Nat.add]. destruct reading as [r|].
  - apply Patient_bind; [apply Patient_refl|]. intros [[|b piece]|]; [|apply IH|apply Patient_refl].
    apply Patient_bind; [apply Patient_refl|]. intros []; [apply IH|apply Patient_refl].
  - apply Patient_bind; [apply Patient_refl|]. intros [r|]; [|apply Patient_refl].
    apply Patient_bind; [apply Patient_refl|]. intros _. apply IH.
Qed.
End waiting.

Arguments world X J : clear implicits.
