(* ===== verification/Session.v ===== *)
(** * Session: opening a session and making requests through it (session.py).

    [_BaseSession] is the record [Session] and the functions on it; [Session]
    and [AsyncSession] are the two ways of waiting, [perform] and
    [perform_async], under one [request_with].  A request runs on the [world]
    of Waiting.v: the engine's bookkeeping, the jar, and a library free to
    answer anything. *)

From S2P Require Import Prelude Unicode PyText PyUrl Headers Types Errors Json Tls Abi Cookies.
From S2P Require Import Dict Floats.
From S2P Require Import Options Multipart Request Redirect Native Call Bridge Waiting.

(** ** Opening a session *)

Inductive QuicHint :=
| HintHost (host : str)
| HintHostPort (host : str) (port : Z).

Inductive Cache := CacheOff | CacheMemory | CacheDisk.

Definition cache_value (c : Cache) : str :=
  match c with CacheOff => #"off" | CacheMemory => #"memory" | CacheDisk => #"disk" end.

(** [Cache(value)] *)
Definition Cache_of (value : str) : res exn Cache :=
  match find_first (fun c => bool_decide (cache_value c = value)) [CacheOff; CacheMemory; CacheDisk] with
  | Some c => Ok c
  | None => Raise (ValueError (NotAMember (#"Cache") value))
  end.

(** [_CACHE_MODES] *)
Definition CACHE_MODES (c : Cache) : Z :=
  match c with
  | CacheOff => CACHE_DISABLED
  | CacheMemory => CACHE_IN_MEMORY
  | CacheDisk => CACHE_ON_DISK
  end.

(** [cookies=]: False, True, or a jar to share. *)
Inductive CookieChoice (J : Type) := NoCookies | OwnJar | SharedJar (jar : J).
Arguments NoCookies {J}.
Arguments OwnJar {J}.
Arguments SharedJar {J} jar.

(** The keywords of [_BaseSession.__init__]. *)
Record SessionArgs (J : Type) := mkArgs {
  arg_headers : HeaderSource;
  arg_proxy : option str;
  arg_proxy_bypass : option str;
  arg_proxy_username : option str;
  arg_proxy_password : option str;
  arg_user_agent : option str;
  arg_accept_language : option str;
  arg_http2 : bool;
  arg_http3 : bool;
  arg_require_http3 : bool;
  arg_quic_hints : option (list QuicHint);
  arg_brotli : bool;
  arg_cookies : CookieChoice J;
  arg_cache : str;
  arg_cache_size : Z;
  arg_storage_path : option str;
  arg_timeout : option seconds;
  arg_max_redirects : Z;
  arg_tls : option TlsProfile;
  arg_experimental_options : list (str * json);
}.
Arguments mkArgs {J}.
Arguments arg_headers {J}.
Arguments arg_proxy {J}.
Arguments arg_proxy_bypass {J}.
Arguments arg_proxy_username {J}.
Arguments arg_proxy_password {J}.
Arguments arg_user_agent {J}.
Arguments arg_accept_language {J}.
Arguments arg_http2 {J}.
Arguments arg_http3 {J}.
Arguments arg_require_http3 {J}.
Arguments arg_quic_hints {J}.
Arguments arg_brotli {J}.
Arguments arg_cookies {J}.
Arguments arg_cache {J}.
Arguments arg_cache_size {J}.
Arguments arg_storage_path {J}.
Arguments arg_timeout {J}.
Arguments arg_max_redirects {J}.
Arguments arg_tls {J}.
Arguments arg_experimental_options {J}.

(** The attributes of a session, but for the jar and the engine, which live
    in the world. *)
Record Session := mkSession {
  require_http3 : bool;
  session_headers : Headers;
  session_timeout : option seconds;
  session_max_redirects : Z;
}.

(** [default_user_agent()], for the version the library reports. *)
Definition default_user_agent (version : str) : str :=
  #"Mozilla/5.0 (X11; Linux x86_64) AppleWebKit/537.36 (KHTML, like Gecko) Chrome/"
  ++ (partition 46%N version).1.1 ++ #".0.0.0 Safari/537.36".

Definition hint_pair (h : QuicHint) : str * Z :=
  match h with HintHost host => (host, 443%Z) | HintHostPort host port => (host, port) end.

(** [proxy and not proxy.startswith("socks5://")] *)
Definition without_datagrams (proxy : option str) : bool :=
  match proxy with Some p => nonempty p && negb (starts (#"socks5://") p) | None => false end.

Section session.
Context {X J : Type} {LX : Library X} {CS : CookieStore J}.
Context (guess_type : str -> option str) (msgspec : option (json -> bytes)).
Context (draws : nat -> nat -> nat) (repr_seconds : option seconds -> str).
Context (version : res exn str) (empty_jar : J).

Abbreviation run := (st (world X J) exn).

Definition engine_settings (args : SessionArgs J) : res exn EngineSettings :=
  let options := dict_of (arg_experimental_options args) in
  let options :=
    match arg_tls args with Some tls => dict_update options (to_options tls) | None => options end in
  user_agent ← match arg_user_agent args with
               | None => default_user_agent <$> version
               | Some ua => Ok ua
               end;
  experimental ← (if nonempty options then decode_strict (json_encode msgspec (JObject options))
                  else Ok []);
  proxy_rules ← with_proxy_credentials (default [] (arg_proxy args))
                  (default [] (arg_proxy_username args)) (default [] (arg_proxy_password args));
  cache ← Cache_of (arg_cache args);
  Ok {| set_user_agent := user_agent;
        set_accept_language := default [] (arg_accept_language args);
        set_experimental_options := experimental;
        set_storage_path := default [] (arg_storage_path args);
        set_proxy_rules := proxy_rules;
        set_proxy_bypass_rules := default [] (arg_proxy_bypass args);
        set_proxy_username := default [] (arg_proxy_username args);
        set_proxy_password := default [] (arg_proxy_password args);
        set_quic_hints := hint_pair <$> default [] (arg_quic_hints args);
        set_enable_quic := arg_http3 args;
        set_enable_http2 := arg_http2 args;
        set_enable_brotli := arg_brotli args;
        set_cache_mode := CACHE_MODES cache;
        set_cache_max_bytes := arg_cache_size args |}.

(** [Engine(settings)]: the world of a new engine. *)
Definition engine_init (settings : EngineSettings) (cookies : option J) (x : X)
  : res exn (world X J) :=
  config ← build_engine_config settings;
  let '(created, x) := lib_engine_create config x in
  if created then Ok (mkWorld true ∅ 0 cookies x [])
  else
    let message := decode_replace (lib_last_error x) in
    Raise (LibraryError (if nonempty message then message
                         else #"the engine could not be created")).

(** [_BaseSession.__init__] *)
Definition session_init (args : SessionArgs J) (x : X) : res exn (Session * world X J) :=
  _ ← check_headers (arg_headers args) (#"the session");
  if arg_require_http3 args && negb (arg_http3 args) then Raise (ValueError Http3SwitchedOff)
  else if arg_require_http3 args && without_datagrams (arg_proxy args)
  then Raise (ValueError Http3Unreachable)
  else
    let session := {| require_http3 := arg_require_http3 args;
                      session_headers := Headers_init (source_after (arg_headers args));
                      session_timeout := arg_timeout args;
                      session_max_redirects := arg_max_redirects args |} in
    let cookies := match arg_cookies args with
                   | NoCookies => None
                   | OwnJar => Some empty_jar
                   | SharedJar jar => Some jar
                   end in
    settings ← engine_settings args;
    w ← engine_init settings cookies x;
    Ok (session, w).

(** ** The parts of a request *)

Context (s : Session).

(** [_call(method, url, options, max_redirects)] *)
Definition session_call (method url : str) (options : RequestOptions) (max_redirects : Z)
  : run CallSettings := fun w =>
  let draw := draws (length (w_trace w)) in
  let '(r, jar) := build_call guess_type msgspec draw method url options (session_headers s)
                     max_redirects (w_jar w) in
  (r, set_jar w jar).

(** [_target(url, options)]: the URL, and the options as the check of the
    headers leaves them. *)
Definition session_target (url : str) (options : RequestOptions) : res exn (str * RequestOptions) :=
  _ ← check_options (option_keys options);
  _ ← check_headers (opt_headers options) (#"a request");
  url ← checked_url url;
  target ← with_query url (opt_query options);
  Ok (target, set_headers options (source_after (opt_headers options))).

(** [_redirect_limit(options)] *)
Definition redirect_limit (options : RequestOptions) : Z :=
  default (session_max_redirects s) (opt_max_redirects options).

(** [_timeout_seconds(options)]: a present None is "no limit". *)
Definition timeout_seconds (options : RequestOptions) : option seconds :=
  default (session_timeout s) (opt_timeout options).

(** [int(seconds * 1000)] *)
Definition milliseconds (t : seconds) : res exn Z :=
  match t with
  | IntSeconds n => Ok (n * 1000)%Z
  | FloatSeconds x =>
      match float_of_Z 1000 with
      | Some k =>
          match float_mul x k with
          | S754_infinity _ => Raise OverflowError
          | y => match truncate y with Some z => Ok z | None => Raise (ValueError NotANumber) end
          end
      | None => Raise OverflowError
      end
  end.

(** [_timeout_ms(options)] *)
Definition timeout_ms (options : RequestOptions) : res exn Z :=
  match timeout_seconds options with
  | None => Ok (-1)%Z
  | Some t => z ← milliseconds t; Ok (Z.max 0 z)
  end.

Definition downgraded (r : Response) : exn :=
  ProtocolDowngraded
    (url r ++ #" answered over "
     ++ (if nonempty (http_version r) then http_version r else #"an unknown protocol")
     ++ #", not HTTP/3, and this session was opened with require_http3=True") r.

(** [_checked(response)] *)
Definition checked (r : Response) : res exn Response :=
  if require_http3 s && negb (bool_decide (http_version r = #"h3")) then Raise (downgraded r)
  else Ok r.

(** [_timed_out(url, options)] *)
Definition timed_out (url : str) (options : RequestOptions) : exn :=
  RequestError Timeout
    (#"no response from " ++ url ++ #" within " ++ repr_seconds (timeout_seconds options) ++ #"s "
     ++ [8212%N] ++ #" raise timeout=, or pass timeout=None for no limit")
    ERROR_TIMED_OUT url.

(** [except TimeoutError] *)
Definition on_timeout {A} (m : run A) (e : exn) : option (run A) :=
  match e with TimeoutError => Some m | _ => None end.

(** ** Blocking *)

(** The inner [try] of [Session._perform]: the body of a finished call. *)
Definition perform_body (patience : nat) (call : nat) (url : str) (options : RequestOptions)
    (timeout : Z) : run bytes :=
  st_except
    (headers ← wait_for_headers patience timeout call;
     _ ← (if headers : bool then mret tt else raise TimeoutError);
     _ ← call_result call url;
     pieces ← iter_body patience timeout call;
     mret (mjoin pieces))
    (on_timeout
       (_ ← call_cancel call;
        _ ← call_wait call (-1);
        raise (timed_out url options))).

(** [Session._perform(method, url, options, max_redirects)] *)
Definition perform (patience : nat) (method url : str) (options : RequestOptions)
    (max_redirects : Z) : run Response :=
  settings ← session_call method url options max_redirects;
  call ← engine_start settings;
  st_finally
    (timeout ← st_lift (timeout_ms options);
     content ← perform_body patience call url options timeout;
     raw ← call_result call url;
     st_lift (checked (from_raw raw content)))
    (call_close call).

(** [Session.stream], around what the [with] block does with the response and
    with its body, whose pieces it may pull to the end. *)
Definition stream_with {A} (patience : nat) (method url : str) (options : RequestOptions)
    (block : Response -> run (list bytes) -> run A) : run A :=
  '(target, options) ← st_lift (session_target url options);
  settings ← session_call method target options (redirect_limit options);
  call ← engine_start settings;
  timeout ← st_lift (timeout_ms options);
  st_finally
    (_ ← st_except
           (headers ← wait_for_headers patience timeout call;
            if headers : bool then mret tt else raise TimeoutError)
           (on_timeout (raise (timed_out target options)));
     raw ← call_result call target;
     response ← st_lift (checked (from_raw raw []));
     block response (iter_body patience timeout call))
    (finished ← call_wait call 0;
     _ ← (if finished : bool then mret tt else call_cancel call);
     call_close call).

(** ** On an event loop *)

(** [AsyncSession._perform(method, url, options, max_redirects)] *)
Definition perform_async (patience : nat) (method url : str) (options : RequestOptions)
    (max_redirects : Z) : run Response :=
  let seconds := timeout_seconds options in
  settings ← session_call method url options max_redirects;
  call ← engine_start settings;
  st_finally
    (content ← st_except
       (_ ← async_wait_for_headers patience seconds call;
        _ ← call_result call url;
        read_body patience seconds call false [])
       (on_timeout
          (raise (RequestError Timeout
             (#"no response within " ++ repr_seconds seconds ++ #" seconds") ERROR_TIMED_OUT url)));
     raw ← call_result call url;
     st_lift (checked (from_raw raw content)))
    (finished ← call_wait call 0;
     _ ← (if finished : bool then mret tt else call_cancel call);
     call_close call).

(** ** Requests *)

Section request_with.
(** [self._perform] *)
Context (perform_one : str -> str -> RequestOptions -> Z -> run Response).

Definition perform_hop (h : hop) : run Response :=
  let '(method, url, options) := h in perform_one method url options 0.

(** [_chain(method, url, options, jar)] *)
Definition session_chain (method url : str) (options : RequestOptions) : RedirectChain :=
  RedirectChain_init method url options (redirect_limit options).

Definition jar_of (w : world X J) : J := default empty_jar (w_jar w).
Definition with_jar (w : world X J) (jar : J) : world X J := set_jar w (Some jar).

(** [request] once the target is known.  The walk of a chain is over in
    [limit + 2] rounds. *)
Definition follow (method target : str) (options : RequestOptions) : run Response := fun w =>
  match w_jar w with
  | None => perform_one method target options (redirect_limit options) w
  | Some _ =>
      default (Raise Interrupted, w)
        (walk jar_of with_jar perform_hop (Z.to_nat (redirect_limit options) + 2)
           (session_chain method target options) w)
  end.

(** [request(method, url, **options)], on either kind of session. *)
Definition request_with (method url : str) (options : RequestOptions) : run Response :=
  '(target, options) ← st_lift (session_target url options);
  follow method target options.
End request_with.

Definition request (patience : nat) : str -> str -> RequestOptions -> run Response :=
  request_with (perform patience).
Definition request_async (patience : nat) : str -> str -> RequestOptions -> run Response :=
  request_with (perform_async patience).

(** [get], [post], [put], [patch], [delete], [head] and [options]. *)
Inductive verb := VGet | VPost | VPut | VPatch | VDelete | VHead | VOptions.

Definition verb_method (v : verb) : str :=
  match v with
  | VGet => #"GET" | VPost => #"POST" | VPut => #"PUT" | VPatch => #"PATCH"
  | VDelete => #"DELETE" | VHead => #"HEAD" | VOptions => #"OPTIONS"
  end.

Definition send (patience : nat) (v : verb) : str -> RequestOptions -> run Response :=
  request patience (verb_method v).
Definition send_async (patience : nat) (v : verb) : str -> RequestOptions -> run Response :=
  request_async patience (verb_method v).

(** ** What a request does to the engine *)

(** One call, from its start to its release, and several in a row. *)
Definition bracket (c : nat) (q : NativeRequest) (evs : list call_event) : list call_event :=
  CallStarted c q :: evs ++ [CallFreed c].

Inductive brackets : list call_event -> Prop :=
| no_bracket : brackets []
| next_bracket c q evs rest :
    Forall (about c) evs -> brackets rest -> brackets (bracket c q evs ++ rest).

Lemma brackets_app (l1 l2 : list call_event) : brackets l1 -> brackets l2 -> brackets (l1 ++ l2).
Proof.
  induction 1 as [|c q evs rest Ha Hr IH]; intros H2; [done|]. rewrite <- app_assoc.
  constructor; auto.
Qed.

(** The engine after some calls have come and gone. *)
Record balanced (w w' : world X J) : Prop := {
  b_open : w_open w' = w_open w;
  b_flight : w_flight w' = w_flight w;
  b_live : w_live w' ⊆ w_live w;
  b_trace : exists evs, w_trace w' = w_trace w ++ evs /\ brackets evs;
}.

Lemma balanced_refl (w : world X J) : balanced w w.
Proof. constructor; try done. exists []. split; [by rewrite app_nil_r|constructor]. Qed.

Lemma balanced_trans (w1 w2 w3 : world X J) : balanced w1 w2 -> balanced w2 w3 -> balanced w1 w3.
Proof.
  intros [A1 A2 A3 (e1 & A4 & A5)] [B1 B2 B3 (e2 & B4 & B5)]. constructor; try congruence; [set_solver|].
  exists (e1 ++ e2). split; [by rewrite B4, A4, app_assoc|by apply brackets_app].
Qed.

Lemma balanced_jar (w w' : world X J) (j : option J) : balanced w w' -> balanced w (set_jar w' j).
Proof. by intros [A1 A2 A3 A4]. Qed.

Lemma session_call_spec (m u : str) (o : RequestOptions) (l : Z) (w w' : world X J) r :
  session_call m u o l w = (r, w') -> exists j, w' = set_jar w j.
Proof.
  unfold session_call. destruct (build_call _ _ _ _ _ _ _ _ _) as [r' j]. intros [= <- <-]. by exists j.
Qed.

Lemma engine_start_spec (st : CallSettings) (w w' : world X J) (r : res exn nat) :
  engine_start st w = (r, w') ->
  (exists e, r = Raise e /\ w_trace w' = w_trace w /\ w_live w' = w_live w
     /\ w_flight w' = w_flight w /\ w_open w' = w_open w)
  \/ (exists c q, r = Ok c /\ build_request st = Ok q /\ w_trace w' = w_trace w ++ [CallStarted c q]
       /\ w_live w' = {[c]} ∪ w_live w /\ w_flight w' = S (w_flight w) /\ w_open w' = w_open w).
Proof.
  unfold engine_start. unfold mbind, st_bind, st_lift.
  destruct (build_request st) as [q|e]; cbn; [|intros [= <- <-]; left; by eexists].
  unfold engine_claim. destruct (w_open w) eqn:Eo; cbn; [|intros [= <- <-]; left; eexists; by rewrite Eo].
  unfold native. cbn. destruct (lib_call_start q (w_lib w)) as [[c|] x]; cbn.
  - unfold engine_register. cbn. rewrite Eo. intros [= <- <-]. right. exists c, q. by split_and!.
  - intros [= <- <-]. left. eexists. cbn. rewrite Nat.sub_0_r. by split_and!.
Qed.

(** What a [finally] clause must come to: the call freed, and nothing raised. *)
Definition Closes (c : nat) (m : run unit) : Prop :=
  forall w r w', m w = (r, w') ->
    r = Ok tt /\ w_open w' = w_open w /\ w_live w' = w_live w ∖ {[c]}
    /\ w_flight w' = w_flight w - 1
    /\ exists evs, w_trace w' = w_trace w ++ evs ++ [CallFreed c] /\ Forall (about c) evs
         /\ octets evs = [].

Lemma Closes_close (c : nat) : Closes c (call_close c).
Proof. intros w r w' [= <- <-]. split_and!; try done. exists []. by split_and!. Qed.

Lemma Closes_after_wait (c : nat) :
  Closes c (finished ← call_wait c 0;
            _ ← (if finished : bool then mret tt else call_cancel c);
            call_close c).
Proof.
  intros w r w'. unfold mbind, st_bind, call_wait, native.
  destruct (lib_call_wait c 0 (w_lib w)) as [[] x]; cbn; intros [= <- <-]; split_and!; try done.
  - by exists [].
  - exists [CallCancelled c]. cbn. rewrite <- app_assoc. split_and!; try done. by constructor.
Qed.

(** A call with a body that only waits on it, freed in the end. *)
Definition with_call {A} (settings : run CallSettings) (body : nat -> run A) (cleanup : nat -> run unit)
  : run A :=
  st ← settings; c ← engine_start st; st_finally (body c) (cleanup c).

(** What one such call comes to. *)
Inductive one_call {A} (P : nat -> res exn A -> list call_event -> Prop) (w w' : world X J)
  (r : res exn A) : Prop :=
| never_started e : r = Raise e -> w_trace w' = w_trace w -> w_live w' = w_live w -> one_call P w w' r
| started c q evs post :
    w_trace w' = w_trace w ++ bracket c q (evs ++ post) -> Forall (about c) (evs ++ post) ->
    octets post = [] -> w_live w' = w_live w ∖ {[c]} -> P c r evs -> one_call P w w' r.

Lemma with_call_spec {A} (m u : str) (o : RequestOptions) (l : Z) (body : nat -> run A)
    (cleanup : nat -> run unit) (P : nat -> res exn A -> list call_event -> Prop) w w' r :
  (forall c, Quiet c (body c) (P c)) -> (forall c, Closes c (cleanup c)) ->
  with_call (session_call m u o l) body cleanup w = (r, w') ->
  w_open w' = w_open w /\ w_flight w' = w_flight w /\ one_call P w w' r.
Proof.
  intros Hb Hc. unfold with_call. unfold mbind, st_bind.
  destruct (session_call m u o l w) as [r1 w1] eqn:E1.
  destruct (session_call_spec _ _ _ _ _ _ _ E1) as [j ->]. destruct r1 as [st|e].
  2: { intros [= <- <-]. split_and!; try done. by eapply never_started. }
  destruct (engine_start st (set_jar w j)) as [r2 w2] eqn:E2.
  destruct (engine_start_spec _ _ _ _ E2)
    as [(e & -> & T & L & F & O)|(c & q & -> & _ & T & L & F & O)].
  { intros [= <- <-]. split_and!; try done. by eapply never_started. }
  unfold st_finally. destruct (body c w2) as [r3 w3] eqn:E3.
  destruct (Hb c _ _ _ E3) as (evs & [Q1 Q2 Q3 Q4 Q5 Q6] & HP).
  destruct (cleanup c w3) as [r4 w4] eqn:E4.
  destruct (Hc c _ _ _ E4) as (-> & C1 & C2 & C3 & post & C4 & C5 & C6).
  intros [= <- <-]. cbn in T, L, F, O. split; [congruence|]. split; [rewrite C3, Q3, F; lia|].
  eapply (started _ _ _ _ c q evs post); try done.
  - rewrite C4, Q5, T. unfold bracket. cbn. by rewrite <- !app_assoc.
  - by apply Forall_app.
  - rewrite C2, Q2, L. set_solver.
Qed.

Lemma one_call_balanced {A} (P : nat -> res exn A -> list call_event -> Prop) (w w' : world X J) r :
  w_open w' = w_open w -> w_flight w' = w_flight w -> one_call P w w' r -> balanced w w'.
Proof.
  intros Ho Hf [e _ T L|c q evs post T Ha _ L _]; constructor; try done.
  - by rewrite L.
  - exists []. rewrite app_nil_r. split; [done|constructor].
  - set_solver.
  - eexists. split; [exact T|]. rewrite <- (app_nil_r (bracket _ _ _)). constructor; [done|constructor].
Qed.

(** *** A whole response *)

(** [b] is everything the library gave, to its end. *)
Definition read_to_end (b : bytes) (evs : list call_event) : Prop :=
  b = octets evs /\ exists d, CallRead d None ∈ evs.

Definition body_post (r : res exn bytes) (evs : list call_event) : Prop :=
  forall b, r = Ok b -> read_to_end b evs.

Lemma read_to_end_pre (b : bytes) (e1 e2 : list call_event) :
  octets e1 = [] -> read_to_end b e2 -> read_to_end b (e1 ++ e2).
Proof.
  intros H [-> (d & Hd)]. split; [by rewrite octets_app, H|]. exists d. apply elem_of_app. by right.
Qed.

Lemma read_to_end_post (b : bytes) (e1 e2 : list call_event) :
  octets e2 = [] -> read_to_end b e1 -> read_to_end b (e1 ++ e2).
Proof.
  intros H [-> (d & Hd)]. split; [by rewrite octets_app, H, app_nil_r|]. exists d.
  apply elem_of_app. by left.
Qed.

Lemma Quiet_pre {A} (c : nat) (m : run A) (f : A -> run bytes) :
  Quiet c m silent -> (forall a, Quiet c (f a) body_post) -> Quiet c (x ← m; f x) body_post.
Proof.
  intros Hm Hf. eapply Quiet_bind; [exact Hm|done|]. intros a e1 H1.
  eapply Quiet_weaken; [apply Hf|]. intros r e2 H b Hr. by apply read_to_end_pre, H.
Qed.

Lemma Quiet_failing {A} (c : nat) (m : run A) (P : res exn A -> list call_event -> Prop) :
  Quiet c m (fun r _ => is_ok r = false) -> (forall e evs, P (Raise e) evs) -> Quiet c m P.
Proof. intros H HP. eapply Quiet_weaken; [exact H|]. intros [a|e] evs; [done|]. intros _. apply HP. Qed.

Lemma Quiet_perform_body (p c : nat) (u : str) (o : RequestOptions) (t : Z) :
  Quiet c (perform_body p c u o t) body_post.
Proof.
  eapply Quiet_except with (P := body_post).
  - apply Quiet_pre; [apply Quiet_wait_for_headers|]. intros b.
    apply Quiet_pre; [destruct b; by eapply Quiet_silent_const|]. intros _.
    apply Quiet_pre; [apply Quiet_call_result|]. intros _.
    eapply Quiet_bind; [apply Quiet_iter_body|by intros e evs _ b'|]. intros ps e1 Hw.
    eapply Quiet_weaken; [by apply Quiet_const|]. intros r e2 [-> ->] b' [= <-].
    destruct (Hw ps eq_refl) as (Hj & d & before & ->). rewrite app_nil_r.
    split; [exact Hj|]. exists d. apply elem_of_app. right. by left.
  - done.
  - intros e evs _. unfold on_timeout. destruct e; try (by intros b').
    apply Quiet_failing; [|by intros e evs' b'].
    eapply Quiet_bind with (P := fun _ _ => True).
    + unfold call_cancel. eapply Quiet_bind; [by apply Quiet_note|done|]. intros _ e1 _.
      eapply Quiet_any, Quiet_native.
    + done.
    + intros _ e1 _. eapply Quiet_bind; [eapply Quiet_any, Quiet_native|done|]. intros _ e2 _.
      eapply Quiet_weaken; [by apply Quiet_const|]. by intros r e3 [-> _].
Qed.

(** The response a call ends with. *)
Definition response_post (r : res exn Response) (evs : list call_event) : Prop :=
  forall resp, r = Ok resp ->
    read_to_end (content resp) evs /\ history resp = []
    /\ (require_http3 s = true -> http_version resp = #"h3").

Lemma checked_ok (r r' : Response) :
  checked r = Ok r' -> r' = r /\ (require_http3 s = true -> http_version r = #"h3").
Proof.
  unfold checked. destruct (require_http3 s); cbn.
  - case_bool_decide; cbn; [|done]. by intros [= <-].
  - by intros [= <-].
Qed.

Lemma Quiet_finish (c : nat) (u : str) (b : bytes) (before : list call_event) :
  read_to_end b before ->
  Quiet c (raw ← call_result c u; st_lift (checked (from_raw raw b)) : run Response)
    (fun r evs => response_post r (before ++ evs)).
Proof.
  intros Hb. eapply Quiet_bind; [apply Quiet_call_result|by intros e evs _ resp|].
  intros raw e1 H1. eapply Quiet_weaken; [by apply Quiet_const|].
  intros r e2 [-> ->] resp E. apply checked_ok in E as [-> Hh].
  rewrite app_nil_r. split_and!; [by apply read_to_end_post|done|done].
Qed.

Lemma Quiet_with_body (c : nat) (u : str) (m : run bytes) :
  Quiet c m body_post ->
  Quiet c (b ← m; raw ← call_result c u; st_lift (checked (from_raw raw b))) response_post.
Proof.
  intros Hm. eapply Quiet_bind; [exact Hm|by intros e evs _ resp|].
  intros b e1 Hb. by apply Quiet_finish, Hb.
Qed.

Lemma perform_spec (p : nat) (m u : str) (o : RequestOptions) (l : Z) (w w' : world X J) r :
  perform p m u o l w = (r, w') ->
  w_open w' = w_open w /\ w_flight w' = w_flight w
  /\ one_call (fun _ => response_post) w w' r.
Proof.
  apply (with_call_spec m u o l
    (fun c => timeout ← st_lift (timeout_ms o);
              content ← perform_body p c u o timeout;
              raw ← call_result c u;
              st_lift (checked (from_raw raw content)))
    call_close); [|intros c; apply Closes_close].
  intros c. eapply Quiet_bind with (P := silent).
  - by eapply Quiet_silent_const.
  - by intros e evs _ resp.
  - intros t e1 H1. eapply Quiet_weaken; [apply Quiet_with_body, Quiet_perform_body|].
    intros r' e2 H resp Hr. destruct (H resp Hr) as (H2 & H3).
    split; [by apply read_to_end_pre|done].
Qed.

Lemma Quiet_async_body (p c : nat) (limit : option seconds) (u : str) (e : exn) :
  Quiet c (st_except
    (_ ← async_wait_for_headers p limit c; _ ← call_result c u; read_body p limit c false [] : run bytes)
    (on_timeout (raise e))) body_post.
Proof.
  eapply Quiet_except with (P := body_post).
  - apply Quiet_pre; [apply Quiet_async_headers|]. intros _.
    apply Quiet_pre; [apply Quiet_call_result|]. intros _.
    eapply Quiet_weaken; [apply Quiet_read_body|]. intros r evs H b Hr.
    destruct (H b Hr) as (-> & d & before & ->). split; [done|].
    exists d. apply elem_of_app. right. by left.
  - done.
  - intros e' evs _. unfold on_timeout. destruct e'; try (by intros b').
    apply Quiet_failing; [|by intros e' evs' b'].
    eapply Quiet_weaken; [by apply Quiet_const|]. by intros r e3 [-> _].
Qed.

Lemma perform_async_spec (p : nat) (m u : str) (o : RequestOptions) (l : Z) (w w' : world X J) r :
  perform_async p m u o l w = (r, w') ->
  w_open w' = w_open w /\ w_flight w' = w_flight w
  /\ one_call (fun _ => response_post) w w' r.
Proof.
  refine (with_call_spec m u o l (fun c => _) (fun c => _) _ w w' r _ _);
    [|intros c; apply Closes_after_wait].
  intros c. apply Quiet_with_body, Quiet_async_body.
Qed.

(** One request of either kind of session. *)
Definition performs (blocking : bool) (p : nat) : str -> str -> RequestOptions -> Z -> run Response :=
  if blocking then perform p else perform_async p.

Lemma performs_spec (b : bool) (p : nat) (m u : str) (o : RequestOptions) (l : Z) (w w' : world X J) r :
  performs b p m u o l w = (r, w') ->
  w_open w' = w_open w /\ w_flight w' = w_flight w
  /\ one_call (fun _ => response_post) w w' r.
Proof. destruct b; [apply perform_spec|apply perform_async_spec]. Qed.

(** C7: every call a request starts is freed exactly once, last, whatever the
    library answers and whichever way the request ends: with a response, an
    error, a timeout or an interruption. Blocking or on an event loop, the
    engine is left holding nothing of it. *)
Theorem perform_frees_once (b : bool) (p : nat) (m u : str) (o : RequestOptions) (l : Z)
    (w w' : world X J) (r : res exn Response) (Hrun : performs b p m u o l w = (r, w')) :
  w_flight w' = w_flight w /\ w_open w' = w_open w
  /\ ((exists e, r = Raise e /\ w_trace w' = w_trace w /\ w_live w' = w_live w)
      \/ (exists c q evs, w_trace w' = w_trace w ++ CallStarted c q :: evs ++ [CallFreed c]
           /\ Forall (about c) evs /\ w_live w' = w_live w ∖ {[c]})).
Proof.
  destruct (performs_spec _ _ _ _ _ _ _ _ _ Hrun) as (Ho & Hf & Hc). split_and!; [done|done|].
  destruct Hc as [e Hr T L|c q evs post T Ha _ L _]; [left; by exists e|].
  right. by exists c, q, (evs ++ post).
Qed.

(** C21: a response that is returned is whole: its body is every octet the
    library handed over, in order, and the library had said it was the end. *)
Theorem response_is_whole (b : bool) (p : nat) (m u : str) (o : RequestOptions) (l : Z)
    (w w' : world X J) (resp : Response) (Hrun : performs b p m u o l w = (Ok resp, w')) :
  exists c q evs, w_trace w' = w_trace w ++ CallStarted c q :: evs ++ [CallFreed c]
    /\ content resp = octets evs /\ CallRead c None ∈ evs.
Proof.
  destruct (performs_spec _ _ _ _ _ _ _ _ _ Hrun) as (_ & _ & Hc).
  destruct Hc as [e Hr _ _|c q evs post T Ha Hp _ H]; [done|].
  destruct (H resp eq_refl) as ([Hb (d & Hd)] & _). exists c, q, (evs ++ post). split; [exact T|].
  assert (CallRead d None ∈ evs ++ post) as Hin by (apply elem_of_app; by left).
  split; [by rewrite octets_app, Hp, app_nil_r|].
  rewrite Forall_forall in Ha. specialize (Ha _ Hin). cbn in Ha. by subst.
Qed.

(** *** Chains *)

Lemma walk_keeps (R : world X J -> world X J -> Prop) (one : hop -> run Response) (fuel : nat)
    (c : RedirectChain) (w w' : world X J) (r : res exn Response) :
  (forall a, R a a) -> (forall a b d, R a b -> R b d -> R a d) ->
  (forall h a ra b, one h a = (ra, b) -> R a b) -> (forall a j, R a (set_jar a j)) ->
  walk jar_of with_jar one fuel c w = Some (r, w') -> R w w'.
Proof.
  intros Hrefl Htrans Hone Hjar. revert c w. induction fuel as [|fuel IH]; intros c w; [done|].
  cbn [walk]. destruct (pending c) as [h|]; [|by intros [= _ <-]].
  destruct (one h w) as [[resp|e] w1] eqn:E1; [|intros [= _ <-]; by eapply Hone].
  unfold receive_in. destruct (receive c resp (jar_of w1)) as [[c2|e] j].
  - intros H. eapply Htrans; [by eapply Hone|]. eapply Htrans; [|by eapply IH]. apply Hjar.
  - intros [= _ <-]. eapply Htrans; [by eapply Hone|]. apply Hjar.
Qed.

(** A chain all of whose responses satisfy [P]. *)
Definition chain_all (P : Response -> Prop) (c : RedirectChain) : Prop :=
  Forall P (chain_history c) /\ forall r, final c = Some r -> P r /\ Forall P (history r).

Lemma receive_all (P : Response -> Prop) (c c' : RedirectChain) (resp : Response) (j j' : J) :
  (forall r h, P r -> P (set_history r h)) -> P resp -> chain_all P c ->
  receive c resp j = (Ok c', j') -> chain_all P c'.
Proof.
  intros Hset Hp [H1 H2]. unfold receive. destruct (pending c) as [[[m u] o]|]; [|done].
  destruct (store u (headers resp) j) as [[[]|] j1]; [|done].
  destruct (next_hop m u resp o) as [h|]; [|done].
  destruct (match h with None => true | Some _ => _ end).
  - intros [= <- _]. split; [done|]. intros r [= <-]. split; [by apply Hset|done].
  - destruct (limit c <=? _)%Z; [done|]. intros [= <- _]. split; [|done].
    by apply Forall_app; split; [|constructor].
Qed.

Lemma walk_all (P : Response -> Prop) (one : hop -> run Response) (fuel : nat) (c : RedirectChain)
    (w w' : world X J) (r : Response) :
  (forall r h, P r -> P (set_history r h)) ->
  (forall h a ra b, one h a = (Ok ra, b) -> P ra) -> chain_all P c ->
  walk jar_of with_jar one fuel c w = Some (Ok r, w') -> P r /\ Forall P (history r).
Proof.
  intros Hset Hone. revert c w. induction fuel as [|fuel IH]; intros c w Hc; [done|].
  cbn [walk]. destruct (pending c) as [h|].
  - destruct (one h w) as [[resp|e] w1] eqn:E1; [|done]. unfold receive_in.
    destruct (receive c resp (jar_of w1)) as [[c2|e] j] eqn:Er; [|done].
    apply IH. by eapply receive_all; [..|exact Er]; [|eapply Hone|].
  - intros [= Hr _]. unfold result in Hr. destruct Hc as [_ Hf].
    destruct (final c); [|done]. injection Hr as ->. by apply Hf.
Qed.

Lemma follow_total (one : str -> str -> RequestOptions -> Z -> run Response) (m u : str)
    (o : RequestOptions) (w : world X J) (j : J) :
  w_jar w = Some j ->
  exists r, walk jar_of with_jar (perform_hop one) (Z.to_nat (redirect_limit o) + 2)
              (RedirectChain_init m u o (redirect_limit o)) w = Some r
    /\ follow one m u o w = r.
Proof.
  intros Hj. unfold follow. rewrite Hj.
  destruct (walk _ _ _ _ _ _) as [r|] eqn:E; [by exists r|exfalso].
  assert (is_Some (walk jar_of with_jar (perform_hop one) (Z.to_nat (redirect_limit o) + 2)
            (RedirectChain_init m u o (redirect_limit o)) w)) as [r H]; [|congruence].
  apply walk_total. cbn. lia.
Qed.

Lemma request_with_ok (one : str -> str -> RequestOptions -> Z -> run Response) (m u : str)
    (o : RequestOptions) (w w' : world X J) r :
  request_with one m u o w = (r, w') ->
  (exists e, r = Raise e /\ w' = w /\ session_target u o = Raise e)
  \/ (exists t o', session_target u o = Ok (t, o') /\ follow one m t o' w = (r, w')).
Proof.
  unfold request_with, mbind, st_bind, st_lift.
  destruct (session_target u o) as [[t o']|e]; [by right; exists t, o'|].
  intros [= <- <-]. left. by exists e.
Qed.

Definition requests (blocking : bool) (p : nat) : str -> str -> RequestOptions -> run Response :=
  if blocking then request p else request_async p.

Lemma requests_with (b : bool) (p : nat) : requests b p = request_with (performs b p).
Proof. by destruct b. Qed.

Lemma requests_balanced (b : bool) (p : nat) (m u : str) (o : RequestOptions)
    (w w' : world X J) (r : res exn Response) :
  requests b p m u o w = (r, w') -> balanced w w'.
Proof.
  intros Hrun. rewrite requests_with in Hrun.
  assert (forall m u o l a ra a', performs b p m u o l a = (ra, a') -> balanced a a') as Hone.
  { intros m1 u1 o1 l a ra a' E. destruct (performs_spec _ _ _ _ _ _ _ _ _ E) as (Ho & Hf & Hc).
    by eapply one_call_balanced. }
  destruct (request_with_ok _ _ _ _ _ _ _ Hrun) as [(e & _ & -> & _)|(t & o' & _ & Hf)];
    [apply balanced_refl|].
  destruct (w_jar w) as [j|] eqn:Ej.
  - destruct (follow_total (performs b p) m t o' w j Ej) as (r' & Hw & Hr). rewrite Hr in Hf. subst r'.
    eapply walk_keeps; [apply balanced_refl|apply balanced_trans| | |exact Hw].
    + intros [[m1 u1] o1] a ra a' E. by eapply Hone.
    + intros a j'. apply balanced_jar, balanced_refl.
  - unfold follow in Hf. rewrite Ej in Hf. by eapply Hone.
Qed.

(** A closed session starts nothing. *)
Lemma requests_closed (b : bool) (p : nat) (m u : str) (o : RequestOptions)
    (w w' : world X J) (r : res exn Response) :
  w_open w = false -> requests b p m u o w = (r, w') ->
  (exists e, r = Raise e) /\ w_trace w' = w_trace w /\ w_lib w' = w_lib w.
Proof.
  intros Ho Hrun. rewrite requests_with in Hrun.
  assert (forall m u o l ra w', performs b p m u o l w = (ra, w') ->
            (exists e, ra = Raise e) /\ w_trace w' = w_trace w /\ w_lib w' = w_lib w) as Hone.
  { clear Hrun. intros m1 u1 o1 l ra w1. destruct b; unfold performs, perform, perform_async;
      unfold mbind at 1, st_bind at 1;
      destruct (session_call m1 u1 o1 l w) as [r1 w2] eqn:E1;
      destruct (session_call_spec _ _ _ _ _ _ _ E1) as [j ->];
      (destruct r1 as [settings|e]; [|intros [= <- <-]; eauto]);
      unfold mbind at 1, st_bind at 1, engine_start, engine_claim; unfold mbind at 1, st_bind at 1, st_lift;
      (destruct (build_request settings) as [q|e]; [|intros [= <- <-]; eauto]);
      unfold mbind at 1, st_bind at 1; cbn [w_open set_jar]; rewrite Ho; intros [= <- <-]; eauto. }
  destruct (request_with_ok _ _ _ _ _ _ _ Hrun) as [(e & -> & -> & _)|(t & o' & _ & Hf)]; [eauto|].
  unfold follow in Hf. destruct (w_jar w) as [j|] eqn:Ej; [|by eapply Hone].
  replace (Z.to_nat (redirect_limit o') + 2) with (S (S (Z.to_nat (redirect_limit o')))) in Hf by lia.
  cbn [walk session_chain RedirectChain_init pending perform_hop] in Hf.
  destruct (performs b p m t o' 0 w) as [ra w1] eqn:E.
  destruct (Hone _ _ _ _ _ _ E) as ((e & ->) & Ht & Hl). cbn in Hf. injection Hf as <- <-. eauto.
Qed.

(** C20: a whole request, every hop of its redirect chain included, leaves the
    engine as it found it: each hop's call is started and freed before the
    next one starts, and what was live before is all that is live after. *)
Theorem request_balanced (b : bool) (p : nat) (m u : str) (o : RequestOptions)
    (w w' : world X J) (r : res exn Response) (Hrun : requests b p m u o w = (r, w')) :
  w_open w' = w_open w /\ w_flight w' = w_flight w /\ w_live w' ⊆ w_live w
  /\ exists evs, w_trace w' = w_trace w ++ evs /\ brackets evs.
Proof. by destruct (requests_balanced _ _ _ _ _ _ _ _ Hrun). Qed.

(** C37: a session opened with require_http3 never returns anything else: the
    response came over HTTP/3, and so did every response of its history. *)
Theorem http3_or_nothing (b : bool) (p : nat) (m u : str) (o : RequestOptions)
    (w w' : world X J) (resp : Response) (Hreq : require_http3 s = true)
    (Hrun : requests b p m u o w = (Ok resp, w')) :
  http_version resp = #"h3" /\ Forall (fun r => http_version r = #"h3") (history resp).
Proof.
  rewrite requests_with in Hrun.
  assert (forall m u o l a ra a', performs b p m u o l a = (Ok ra, a') ->
            http_version ra = #"h3" /\ history ra = []) as Hone.
  { intros m1 u1 o1 l a ra a' E. destruct (performs_spec _ _ _ _ _ _ _ _ _ E) as (_ & _ & Hc).
    destruct Hc as [e Hr _ _|c q evs post _ _ _ _ H]; [done|]. destruct (H ra eq_refl) as (_ & Hh & H3).
    by split; [apply H3|]. }
  destruct (request_with_ok _ _ _ _ _ _ _ Hrun) as [(e & He & _)|(t & o' & _ & Hf)]; [done|].
  destruct (w_jar w) as [j|] eqn:Ej.
  - destruct (follow_total (performs b p) m t o' w j Ej) as (r' & Hw & Hr). rewrite Hr in Hf. subst r'.
    eapply (walk_all (fun r => http_version r = #"h3")); [done| | |exact Hw].
    + intros [[m1 u1] o1] a ra a' E. by apply Hone in E as [E _].
    + by split; [|done].
  - unfold follow in Hf. rewrite Ej in Hf. destruct (Hone _ _ _ _ _ _ _ Hf) as [H ->]. by split.
Qed.

(** How long a request is given to answer is no part of what it answers.
    If it ends on its own, giving it more rounds of waiting before it would
    have been interrupted changes neither its result nor anything it did. *)
Theorem patience_irrelevant (p k : nat) (m u : str) (o : RequestOptions) (l : Z)
    (w w' : world X J) (r : res exn Response)
    (Hrun : perform p m u o l w = (r, w')) (Hr : r <> Raise Interrupted) :
  perform (p + k) m u o l w = (r, w').
Proof.
  revert w r w' Hrun Hr. change (Patient (perform p m u o l) (perform (p + k) m u o l)).
  apply Patient_bind; [apply Patient_refl|]. intros st.
  apply Patient_bind; [apply Patient_refl|]. intros c.
  apply Patient_finally; [done|].
  apply Patient_bind; [apply Patient_refl|]. intros t.
  apply Patient_bind; [|intros b; apply Patient_refl].
  apply Patient_except; [done|].
  apply Patient_bind; [apply Patient_headers|]. intros b.
  apply Patient_bind; [apply Patient_refl|]. intros _.
  apply Patient_bind; [apply Patient_refl|]. intros _.
  apply Patient_bind; [apply Patient_body|]. intros ps. apply Patient_refl.
Qed.

(** *** Streaming *)

(** A [with] block that does with its call no more than wait on it. *)
Definition only_reads {A} (block : Response -> run (list bytes) -> run A) : Prop :=
  forall c r m, Quiet c m (fun _ _ => True) -> Quiet c (block r m) (fun _ _ => True).

Lemma Quiet_top_bind {A B} (c : nat) (m : run A) (f : A -> run B) :
  Quiet c m (fun _ _ => True) -> (forall a, Quiet c (f a) (fun _ _ => True)) ->
  Quiet c (x ← m; f x) (fun _ _ => True).
Proof. intros Hm Hf. eapply Quiet_bind; [exact Hm|done|]. intros a e1 _. apply Hf. Qed.

Lemma Quiet_stream {A} (p c : nat) (u : str) (o : RequestOptions) (t : Z)
    (block : Response -> run (list bytes) -> run A) :
  only_reads block ->
  Quiet c
    (_ ← st_except
           (headers ← wait_for_headers p t c;
            if headers : bool then mret tt else raise TimeoutError)
           (on_timeout (raise (timed_out u o)));
     raw ← call_result c u;
     response ← st_lift (checked (from_raw raw []));
     block response (iter_body p t c))
    (fun _ _ => True).
Proof.
  intros Hb. apply Quiet_top_bind.
  - eapply Quiet_except with (P := fun _ _ => True); [|done|].
    + apply Quiet_top_bind; [eapply Quiet_any, Quiet_wait_for_headers|].
      intros []; eapply Quiet_any; by apply Quiet_const.
    + intros e evs _. unfold on_timeout. destruct e; try done.
      eapply Quiet_any. by apply Quiet_const.
  - intros _. apply Quiet_top_bind; [eapply Quiet_any, Quiet_call_result|]. intros raw.
    apply Quiet_top_bind; [eapply Quiet_any; by apply Quiet_const|]. intros r.
    apply Hb. eapply Quiet_any, Quiet_iter_body.
Qed.

Lemma target_timeout (u t : str) (o o' : RequestOptions) :
  session_target u o = Ok (t, o') -> opt_timeout o' = opt_timeout o.
Proof.
  unfold session_target. intros H.
  apply res_bind_ok in H as (? & _ & H). apply res_bind_ok in H as (? & _ & H).
  apply res_bind_ok in H as (? & _ & H). apply res_bind_ok in H as (? & _ & [= _ <-]). done.
Qed.

(** A streamed response does not outlive its [with] block. Given a time
    limit that is a number, then whatever the block does with the body, reads
    all of it, some, or raises, its call has been freed exactly once when the
    block is left, after being cancelled if it had not finished. *)
Theorem stream_closed {A} (p : nat) (m u : str) (o : RequestOptions)
    (block : Response -> run (list bytes) -> run A) (w w' : world X J) (r : res exn A)
    (Hblock : only_reads block) (Htime : is_ok (timeout_ms o) = true)
    (Hrun : stream_with p m u o block w = (r, w')) :
  w_flight w' = w_flight w /\ w_open w' = w_open w
  /\ ((exists e, r = Raise e /\ w_trace w' = w_trace w /\ w_live w' = w_live w)
      \/ (exists c q evs, w_trace w' = w_trace w ++ CallStarted c q :: evs ++ [CallFreed c]
           /\ Forall (about c) evs /\ w_live w' = w_live w ∖ {[c]})).
Proof.
  destruct (session_target u o) as [[t o']|e] eqn:Et.
  2: { unfold stream_with, mbind, st_bind, st_lift in Hrun. rewrite Et in Hrun.
       injection Hrun as <- <-. split_and!; try done. left. by exists e. }
  assert (timeout_ms o' = timeout_ms o) as Htm.
  { unfold timeout_ms, timeout_seconds. by rewrite (target_timeout _ _ _ _ Et). }
  rewrite <- Htm in Htime. destruct (timeout_ms o') as [ms|] eqn:Ems; [|done].
  pose proof (with_call_spec m t o' (redirect_limit o') _ _ (fun _ _ _ => True) w w' r
    (fun c => Quiet_stream p c t o' ms block Hblock) Closes_after_wait) as H.
  destruct H as (Ho & Hf & Hc).
  - rewrite <- Hrun. unfold stream_with, with_call, mbind, st_bind. unfold st_lift at 3.
    rewrite Et. cbn. by rewrite Ems.
  - split_and!; [done|done|]. destruct Hc as [e Hr T L|c q evs post T Ha _ L _]; [left; by exists e|].
    right. by exists c, q, (evs ++ post).
Qed.

(** The time limit is read after the call has started and outside the [try]:
    one that [int] refuses leaks the call, and the engine with it. *)
Lemma stream_leaks {A} (p c : nat) (m u t : str) (o o' : RequestOptions) (st : CallSettings) (e : exn)
    (block : Response -> run (list bytes) -> run A) (w w1 w2 : world X J) :
  session_target u o = Ok (t, o') ->
  session_call m t o' (redirect_limit o') w = (Ok st, w1) ->
  engine_start st w1 = (Ok c, w2) -> timeout_ms o' = Raise e ->
  stream_with p m u o block w = (Raise e, w2)
  /\ w_flight w2 = S (w_flight w) /\ c ∈ w_live w2
  /\ (exists q, w_trace w2 = w_trace w ++ [CallStarted c q]).
Proof.
  intros Et Es Ec Em. split.
  - unfold stream_with, mbind, st_bind, st_lift. by rewrite Et, Es, Ec, Em.
  - destruct (session_call_spec _ _ _ _ _ _ _ Es) as [j ->].
    destruct (engine_start_spec _ _ _ _ Ec) as [(e' & ? & _)|(c' & q & [= <-] & _ & T & L & F & _)]; [done|].
    cbn in T, L, F. split_and!; [done|set_solver|by exists q].
Qed.

(** ** Time limits *)

(** A time limit that was not given is the session's, and one given as
    None is no limit at all, however short the session's. No limit is spelled
    -1; any other limit is the number of milliseconds, never negative. *)
Theorem timeout_rule (o : RequestOptions) :
  (opt_timeout o = Some None -> timeout_ms o = Ok (-1)%Z)
  /\ (opt_timeout o = None -> timeout_seconds o = session_timeout s)
  /\ (forall t, opt_timeout o = Some t -> timeout_seconds o = t)
  /\ (forall n, timeout_seconds o = Some (IntSeconds n) -> timeout_ms o = Ok (Z.max 0 (1000 * n)))
  /\ (forall ms, timeout_ms o = Ok ms -> (ms = -1)%Z /\ timeout_seconds o = None
        \/ (0 <= ms)%Z /\ timeout_seconds o <> None).
Proof.
  unfold timeout_ms, timeout_seconds. split_and!.
  - by intros ->.
  - by intros ->.
  - by intros t ->.
  - intros n ->. cbn. f_equal. lia.
  - intros ms. destruct (default (session_timeout s) (opt_timeout o)) as [t|].
    + intros H. apply res_bind_ok in H as (z & _ & [= <-]). right. by split; [lia|].
    + intros [= <-]. by left.
Qed.

(** ** Opening and targets *)

Lemma cache_of_spec (v : str) (c : Cache) : Cache_of v = Ok c -> cache_value c = v.
Proof.
  unfold Cache_of. destruct (find_first _ _) as [c'|] eqn:E; [|done]. intros [= <-].
  apply find_first_some in E as (H & _). by apply bool_decide_eq_true in H.
Qed.

(** A session that could only ever raise is refused when it is opened:
    require_http3 with HTTP/3 off, or with a proxy that is not socks5://. One
    that opens has refused no header, holds no call, has the jar it was asked
    for, and keeps the arguments its requests read; its engine was built with
    the protocol switches as given, 443 for a hint with no port, and the cache
    mode of the cache named. *)
Theorem session_opened (args : SessionArgs J) (x : X) :
  (arg_require_http3 args && (negb (arg_http3 args) || without_datagrams (arg_proxy args)) = true ->
     check_headers (arg_headers args) (#"the session") = Ok tt ->
     exists why, session_init args x = Raise (ValueError why)
       /\ why ∈ [Http3SwitchedOff; Http3Unreachable])
  /\ (forall s' w, session_init args x = Ok (s', w) ->
        check_headers (arg_headers args) (#"the session") = Ok tt
        /\ (arg_require_http3 args = true ->
             arg_http3 args = true /\ without_datagrams (arg_proxy args) = false)
        /\ s' = mkSession (arg_require_http3 args) (Headers_init (source_after (arg_headers args)))
                  (arg_timeout args) (arg_max_redirects args)
        /\ w_jar w = match arg_cookies args with
                     | NoCookies => None | OwnJar => Some empty_jar | SharedJar j => Some j end
        /\ (w_open w = true /\ w_live w = ∅ /\ w_flight w = 0 /\ w_trace w = [])
        /\ exists settings cache config, engine_settings args = Ok settings
             /\ cache_value cache = arg_cache args
             /\ set_cache_mode settings = CACHE_MODES cache
             /\ set_enable_quic settings = arg_http3 args
             /\ set_enable_http2 settings = arg_http2 args
             /\ (forall h, HintHost h ∈ default [] (arg_quic_hints args) ->
                  (h, 443%Z) ∈ set_quic_hints settings)
             /\ build_engine_config settings = Ok config
             /\ fst (lib_engine_create config x) = true).
Proof.
  unfold session_init. split.
  - intros Hr ->. cbn [mbind res_bind]. apply andb_true_iff in Hr as [-> Hr]. cbn [andb].
    destruct (negb (arg_http3 args)) eqn:E3; [eexists; split; [done|by left]|].
    cbn [orb] in Hr. rewrite Hr. eexists. split; [done|]. right. by left.
  - intros s' w H. apply res_bind_ok in H as ([] & Hc & H).
    destruct (arg_require_http3 args && negb (arg_http3 args)) eqn:E1; [done|].
    destruct (arg_require_http3 args && without_datagrams (arg_proxy args)) eqn:E2; [done|].
    apply res_bind_ok in H as (settings & Es & H). apply res_bind_ok in H as (w1 & Ew & [= <- <-]).
    unfold engine_init in Ew. apply res_bind_ok in Ew as (config & Eg & Ew).
    destruct (lib_engine_create config x) as [[] x'] eqn:Ex; [|done]. injection Ew as <-.
    split_and!; try done.
    + intros Hr. rewrite Hr in E1, E2. cbn in E1, E2. by apply negb_false_iff in E1.
    + pose proof Es as Es'. unfold engine_settings in Es'.
      apply res_bind_ok in Es' as (ua & _ & Es'). apply res_bind_ok in Es' as (ex & _ & Es').
      apply res_bind_ok in Es' as (rules & _ & Es'). apply res_bind_ok in Es' as (cache & Ec & [= <-]).
      eexists _, cache, config.
      cbn [set_cache_mode set_enable_quic set_enable_http2 set_quic_hints].
      split_and!; [exact Es|by apply cache_of_spec|done..| |exact Eg|by rewrite Ex].
      intros h Hh. apply list_elem_of_fmap. by exists (HintHost h).
Qed.

(** A request goes out only for options every one of which is known, with
    no header Chromium owns, to an absolute http or https URL with the query
    parameters added; nothing else about the options changes but that a
    one-shot iterator of headers has been spent by the check. *)
Theorem target_checked (u t : str) (o o' : RequestOptions)
    (Ht : session_target u o = Ok (t, o')) :
  (forall k, k ∈ opt_other o -> k ∈ optional_keys)
  /\ (forall n v, (n, v) ∈ source_pairs (opt_headers o) -> lower n ∉ owned_names)
  /\ checked_url u = Ok u /\ with_query u (opt_query o) = Ok t
  /\ o' = set_headers o (source_after (opt_headers o)).
Proof.
  unfold session_target in Ht.
  apply res_bind_ok in Ht as ([] & H1 & Ht). apply res_bind_ok in Ht as ([] & H2 & Ht).
  apply res_bind_ok in Ht as (u' & H3 & Ht). apply res_bind_ok in Ht as (t' & H4 & [= -> <-]).
  assert (u' = u) as ->.
  { revert H3. unfold checked_url. intros H3. apply res_bind_ok in H3 as (ps & _ & H3).
    repeat (destruct (negb _); [done|]). by injection H3 as ->. }
  split_and!; try done.
  - intros k Hk. destruct (decide (k ∈ optional_keys)) as [|Hn]; [done|exfalso].
    unfold check_options in H1. destruct (nonempty _) eqn:E; [done|].
    apply nonempty_false in E. apply (not_elem_of_nil (A := str) k). rewrite <- E. apply elem_of_keep.
    split; [|by apply option_keys_unknown]. by rewrite bool_decide_eq_false_2.
  - intros n v Hin. unfold check_headers in H2. apply res_iter_ok in H2.
    rewrite Forall_forall in H2. specialize (H2 _ Hin). unfold check_header in H2. cbn [fst] in H2.
    apply stack_owned_none. by destruct (stack_owned n).
Qed.

(** Headers given as a one-shot iterator are checked and then lost. *)
Lemma iterator_headers_lost (u t : str) (o o' : RequestOptions) (ps : header_pairs) :
  opt_headers o = HeadersIterator ps -> session_target u o = Ok (t, o') ->
  source_pairs (opt_headers o') = [].
Proof.
  intros E Ht. unfold session_target in Ht.
  apply res_bind_ok in Ht as (? & _ & Ht). apply res_bind_ok in Ht as (? & _ & Ht).
  apply res_bind_ok in Ht as (? & _ & Ht). apply res_bind_ok in Ht as (? & _ & [= _ <-]).
  by rewrite E.
Qed.
End session.

(** ** At a concrete library *)

(** A library that answers every call with headers at once, the given reads
    in turn and then the end, and the given response. *)
Record script := mkScript { reads : list (option bytes); view : NativeResponse; created : nat }.

#[export] Instance scripted : Library script := {
  lib_engine_create := fun _ x => (true, x);
  lib_engine_destroy := fun x => x;
  lib_start_net_log := fun _ _ x => (1%Z, x);
  lib_stop_net_log := fun x => x;
  lib_last_error := fun _ => [];
  lib_call_start := fun _ x => (Some (created x), mkScript (reads x) (view x) (S (created x)));
  lib_call_state_of := fun _ x => (CALL_HEADERS, x);
  lib_call_response := fun _ x => (Some (view x), x);
  lib_call_read := fun _ _ x =>
    match reads x with [] => (None, x) | r :: rs => (r, mkScript rs (view x) (created x)) end;
  lib_drain_fd := fun _ x => x;
  lib_poll_fd := fun _ _ x => (true, x);
  lib_call_wait := fun _ _ x => (true, x);
  lib_call_cancel := fun _ x => x;
  lib_call_free := fun _ x => x;
  monotonic := fun x => (S754_zero false, x);
  await_fd := fun _ _ x => (Ok tt, x);
}.

Definition h3_view : NativeResponse :=
  mkNative 200 (blit "OK") [] (blit "h3") (blit ":0") (blit "https://h/") 0 0 0 [] native_no_metrics.

Definition two_reads : script := mkScript [Some (blit "ab"); Some []; Some (blit "c")] h3_view 0.

Definition plain_world (jar : option CookieJar) : world script CookieJar :=
  mkWorld true ∅ 0 jar two_reads [].

Definition strict_session : Session := mkSession true (mkHeaders []) (Some (IntSeconds 5)) 20.

Definition guess0 : str -> option str := fun _ => None.
Definition draws0 : nat -> nat -> nat := fun _ n => n.
Definition repr0 : option seconds -> str := fun _ => #"5".
Definition jar0 : CookieJar := CookieJar_init.

Abbreviation do_perform b :=
  (performs guess0 None draws0 repr0 strict_session b 10 (#"GET") (#"https://h/") no_options 0
     (plain_world None)).
Abbreviation do_request b :=
  (requests guess0 None draws0 repr0 jar0 strict_session b 10 (#"GET") (#"https://h/") no_options
     (plain_world (Some jar0))).
Abbreviation do_stream :=
  (stream_with guess0 None draws0 repr0 strict_session 10 (#"GET") (#"https://h/") no_options
     (fun _ pull => pull) (plain_world None)).

Definition ok_or {E A S} (d : A) (r : res E A * S) : A := match r.1 with Ok a => a | Raise _ => d end.

Lemma perform_frees_once_witness : w_flight (do_perform true).2 = 0 /\ w_flight (do_perform false).2 = 0.
Proof.
  split.
  - destruct (do_perform true) as [r w'] eqn:E.
    exact (proj1 (perform_frees_once guess0 None draws0 repr0 strict_session true 10 (#"GET")
             (#"https://h/") no_options 0 (plain_world None) w' r E)).
  - destruct (do_perform false) as [r w'] eqn:E.
    exact (proj1 (perform_frees_once guess0 None draws0 repr0 strict_session false 10 (#"GET")
             (#"https://h/") no_options 0 (plain_world None) w' r E)).
Defined.

Lemma perform_at_script (b : bool) :
  (ok_or (sample_response 0 []) (do_perform b)).(content) = blit "abc" /\ is_ok (do_perform b).1 = true.
Proof. destruct b; vm_compute; split; reflexivity. Qed.

Lemma response_is_whole_witness :
  exists evs, octets evs = blit "abc" /\ CallRead 0 None ∈ evs.
Proof.
  destruct (do_perform true) as [[resp|e] w'] eqn:E; [|vm_compute in E; discriminate E].
  destruct (response_is_whole guess0 None draws0 repr0 strict_session true 10 (#"GET") (#"https://h/") no_options 0
              (plain_world None) w' resp E) as (c & q & evs & Ht & Hc & Hr).
  vm_compute in E. injection E as <- <-. vm_compute in Ht.
  exists evs. split; [symmetry; exact Hc|]. injection Ht as <- _ _. exact Hr.
Defined.

Lemma request_balanced_witness :
  w_flight (do_request true).2 = 0 /\ exists evs, w_trace (do_request true).2 = evs /\ brackets evs.
Proof.
  destruct (do_request true) as [r w'] eqn:E.
  destruct (request_balanced guess0 None draws0 repr0 jar0 strict_session true 10 (#"GET")
              (#"https://h/") no_options (plain_world (Some jar0)) w' r E) as (_ & Hf & _ & Ht).
  split; [exact Hf|exact Ht].
Defined.

Lemma http3_or_nothing_witness :
  exists resp, (do_request true).1 = Ok resp /\ http_version resp = #"h3".
Proof.
  destruct (do_request true) as [[resp|e] w'] eqn:E; [|vm_compute in E; discriminate E].
  exists resp. split; [reflexivity|].
  exact (proj1 (http3_or_nothing guess0 None draws0 repr0 jar0 strict_session true 10 (#"GET") (#"https://h/") no_options
                  (plain_world (Some jar0)) w' resp eq_refl E)).
Defined.

Abbreviation do_blocking p :=
  (perform guess0 None draws0 repr0 strict_session p (#"GET") (#"https://h/") no_options 0
     (plain_world None)).

Lemma patience_irrelevant_witness :
  is_ok (do_blocking 10).1 = true /\ do_blocking (10 + 15) = do_blocking 10.
Proof.
  destruct (do_blocking 10) as [r w'] eqn:E.
  assert (is_ok r = true) as Hok by (vm_compute in E; injection E as <- <-; reflexivity).
  split; [exact Hok|].
  apply (patience_irrelevant guess0 None draws0 repr0 strict_session 10 15 (#"GET") (#"https://h/")
           no_options 0 (plain_world None) w' r E).
  intros Hr. rewrite Hr in Hok. discriminate Hok.
Defined.

Lemma stream_closed_witness : w_flight do_stream.2 = 0 /\ ok_or [] do_stream = [blit "ab"; blit "c"].
Proof.
  split; [|vm_compute; reflexivity]. destruct do_stream as [r w'] eqn:E.
  refine (proj1 (stream_closed guess0 None draws0 repr0 strict_session 10 (#"GET") (#"https://h/")
            no_options (fun _ pull => pull) (plain_world None) w' r _ eq_refl E)).
  intros c resp m Hm. exact Hm.
Defined.

(** With a limit of infinity, [session.stream] leaves its call in flight. *)
Example stream_leak_ex :
  let s := mkSession false (mkHeaders []) (Some (FloatSeconds (S754_infinity false))) 20 in
  let out := stream_with (fun _ => None) None (fun _ n => n) (fun _ => #"inf") s 10 (#"GET")
               (#"https://h/") no_options (fun _ pull => pull) (plain_world None) in
  out.1 = Raise OverflowError /\ w_flight out.2 = 1.
Proof. vm_compute. split; reflexivity. Qed.

Definition sample_args : SessionArgs CookieJar :=
  mkArgs HeadersNone (Some (#"http://p:1")) None None None None None true true true
    (Some [HintHost (#"h")]) true OwnJar (#"off") 0 None (Some (IntSeconds 30)) 20 None [].

Definition direct_args : SessionArgs CookieJar :=
  mkArgs HeadersNone None None None None None None true true true
    (Some [HintHost (#"h")]) true OwnJar (#"off") 0 None (Some (IntSeconds 30)) 20 None [].

Lemma session_opened_witness :
  (exists why, session_init None (Ok (#"150.0")) CookieJar_init sample_args two_reads
     = Raise (ValueError why) /\ why ∈ [Http3SwitchedOff; Http3Unreachable])
  /\ is_ok (session_init None (Ok (#"150.0")) CookieJar_init direct_args two_reads) = true.
Proof.
  split; [|vm_compute; reflexivity].
  apply (proj1 (session_opened None (Ok (#"150.0")) CookieJar_init sample_args two_reads));
    reflexivity.
Defined.

Lemma timeout_rule_witness :
  timeout_ms strict_session no_options = Ok 5000%Z.
Proof.
  exact (proj1 (proj2 (proj2 (proj2 (timeout_rule strict_session no_options)))) 5%Z eq_refl).
Defined.

Lemma target_checked_witness :
  session_target (#"https://h/") no_options = Ok (#"https://h/", no_options)
  /\ checked_url (#"https://h/") = Ok (#"https://h/").
Proof.
  assert (session_target (#"https://h/") no_options = Ok (#"https://h/", no_options)) as E
    by (vm_compute; reflexivity).
  split; [exact E|]. exact (proj1 (proj2 (proj2 (target_checked _ _ _ _ E)))).
Defined.
