(* ===== verification/Raises.v ===== *)
(** * Raises: which exceptions come out of a request (session.py, errors.py).

    A judgement [effect E m]: the computation [m] lets no exceptions out but
    those of [E], given whether the session was open, and does not open or
    close it.  It has a rule for each construct of the monad, so the exceptions
    of a request are read off its definition, as an effect system would. *)

From S2P Require Import Prelude PyText PyUrl Headers Types Errors Json Abi HttpDate Cookiejar.
From S2P Require Import Cookies Options.
From S2P Require Import Multipart Request Redirect Floats Native Call Bridge Waiting Session.

(** ** Computations without a state *)

Definition throws {A} (E : exn -> Prop) (r : res exn A) : Prop := forall e, r = Raise e -> E e.

Create HintDb raises.

Section throws.
Context (E : exn -> Prop).

Lemma throws_ok {A} (a : A) : throws E (Ok a).
Proof. done. Qed.
Lemma throws_raise {A} (e : exn) : E e -> throws E (@Raise exn A e).
Proof. by intros H ? [= <-]. Qed.
Lemma throws_bind {A B} (r : res exn A) (k : A -> res exn B) :
  throws E r -> (forall a, throws E (k a)) -> throws E (r ≫= k).
Proof. intros Hr Hk e. destruct r as [a|e']; cbn; [by apply Hk|]. intros [= <-]. by apply Hr. Qed.
Lemma throws_map {A B} (f : A -> res exn B) (l : list A) :
  (forall a, throws E (f a)) -> throws E (res_map f l).
Proof.
  intros Hf. induction l as [|x l IH]; [done|]. cbn [res_map].
  apply throws_bind; [apply Hf|]. intros b. apply throws_bind; [done|]. done.
Qed.
Lemma throws_iter {A} (f : A -> res exn unit) (l : list A) :
  (forall a, throws E (f a)) -> throws E (res_iter f l).
Proof. intros Hf. induction l as [|x l IH]; [done|]. cbn [res_iter]. by apply throws_bind. Qed.
End throws.

Ltac throws_step :=
  match goal with
  | |- throws _ (Ok _) => apply throws_ok
  | |- throws _ (Raise _) => apply throws_raise; eauto with raises
  | |- throws _ (res_map _ _) => apply throws_map; intros ?
  | |- throws _ (res_iter _ _) => apply throws_iter; intros ?
  | |- throws _ (mbind _ _) => apply throws_bind; [|intros ?]
  | |- throws _ _ => solve [eauto with raises] || case_match
  end.

(** ** What a request may raise *)

(** The complaints about a value that a request can make; the others belong to
    opening a session and to TLS profiles. *)
Definition request_value (why : value_complaint) : bool :=
  match why with
  | StackOwned _ _ _ | UrlError _ | NotAMember _ _ | NotEncodable _ | NotDecodable _ | NotANumber
  | UnknownUrlType _ => true
  | Http3SwitchedOff | Http3Unreachable | BadVersion _ _ | BadAlpn _ | Unorderable _ | RepeatedExtension => false
  end.

Inductive argument_error : exn -> Prop :=
| bad_type why : argument_error (TypeError why)
| bad_value why : request_value why = true -> argument_error (ValueError why)
| bad_size : argument_error OverflowError
| bad_authority : argument_error AttributeError.

Inductive may_raise (strict open : bool) : exn -> Prop :=
| about_arguments e : argument_error e -> may_raise strict open e
| about_network message net_error url :
    may_raise strict open (RequestError (class_for net_error) message net_error url)
| about_closing : open = false -> may_raise strict open SessionClosed
| about_protocol message r :
    strict = true -> http_version r <> #"h3" -> may_raise strict open (ProtocolDowngraded message r)
| about_descriptor : may_raise strict open OSError
| about_task : may_raise strict open Interrupted.

#[export] Hint Constructors argument_error may_raise : raises.
#[export] Hint Extern 1 (request_value _ = true) => reflexivity : raises.

Lemma throws_lift {A} (r : res url_error A) : throws argument_error (lift_url r).
Proof. destruct r; cbn; repeat throws_step. Qed.
Lemma throws_encode (t : str) : throws argument_error (encode_strict t).
Proof. unfold encode_strict. repeat throws_step. Qed.
Lemma throws_encode_header (t : str) : throws argument_error (encode_header t).
Proof. unfold encode_header. repeat throws_step. Qed.
Lemma throws_decode (b : bytes) : throws argument_error (decode_strict b).
Proof. unfold decode_strict. repeat throws_step. Qed.
#[export] Hint Resolve throws_lift throws_encode throws_encode_header throws_decode : raises.

Lemma throws_build_request (st : CallSettings) : throws argument_error (build_request st).
Proof. unfold build_request, native_header. repeat throws_step. Qed.
Lemma throws_check_options (keys : list str) : throws argument_error (check_options keys).
Proof. unfold check_options. repeat throws_step. Qed.
Lemma throws_check_headers (h : HeaderSource) (src : str) : throws argument_error (check_headers h src).
Proof. unfold check_headers, check_header. repeat throws_step. Qed.
Lemma throws_checked_url (u : str) : throws argument_error (checked_url u).
Proof. unfold checked_url. repeat throws_step. Qed.
Lemma throws_urlencode (q : list (str * str)) : throws argument_error (urlencode_strict q).
Proof. unfold urlencode_strict. repeat throws_step. Qed.
Lemma throws_content (c : FileContent) : throws argument_error (content_bytes c).
Proof. destruct c; cbn; repeat throws_step. Qed.
#[export] Hint Resolve throws_urlencode throws_content : raises.
Lemma throws_append {A} (turn : A -> res exn bytes) (l : list A) (b : bytes) :
  (forall x, throws argument_error (turn x)) -> throws argument_error (append_all turn l b).
Proof.
  intros Ht. revert b. induction l as [|x l IH]; intros b; cbn [append_all]; [done|]. by apply throws_bind.
Qed.
Lemma throws_multipart guess fields files boundary :
  throws argument_error (encode_multipart guess fields files boundary).
Proof.
  unfold encode_multipart. apply throws_bind; [|intros b1; apply throws_bind; [|intros b2]].
  - apply throws_append. intros [n v]. unfold field_bytes. repeat throws_step.
  - apply throws_append. intros [n sp]. unfold file_bytes, file_part. repeat throws_step.
  - repeat throws_step.
Qed.
#[export] Hint Resolve throws_multipart : raises.
Lemma throws_with_query (u : str) (q : list (str * str)) : throws argument_error (with_query u q).
Proof. unfold with_query. repeat throws_step. Qed.
#[export] Hint Resolve throws_build_request throws_check_options throws_check_headers throws_checked_url
  throws_with_query : raises.

Lemma throws_deadline (t : Z) (now : float) : throws argument_error (countdown_deadline t now).
Proof. unfold countdown_deadline. repeat throws_step. Qed.
Lemma throws_countdown (t : Z) (d now : float) : throws argument_error (countdown t d now).
Proof.
  unfold countdown. case_match; [done|]. apply throws_bind; [|done]. unfold int_of_float.
  case_match; [done|]. apply throws_raise. case_match; eauto with raises.
Qed.
#[export] Hint Resolve throws_deadline throws_countdown : raises.

Lemma throws_target (u : str) (o : RequestOptions) : throws argument_error (session_target u o).
Proof. unfold session_target. repeat throws_step. Qed.
Lemma throws_authorization (o : RequestOptions) : throws argument_error (authorization o).
Proof. unfold authorization. repeat throws_step. Qed.
Lemma throws_encode_body guess msgspec draw (o : RequestOptions) :
  throws argument_error (encode_body guess msgspec draw o).
Proof. unfold encode_body. repeat throws_step. Qed.
Lemma throws_priority (v : str) : throws argument_error (Priority_of v).
Proof. unfold Priority_of. repeat throws_step. Qed.
Lemma throws_origin (u : str) : throws argument_error (origin u).
Proof. unfold origin. repeat throws_step. Qed.
#[export] Hint Resolve throws_target throws_authorization throws_encode_body throws_priority throws_origin : raises.

Lemma throws_next_hop (m u : str) (r : Response) (o : RequestOptions) : throws argument_error (next_hop m u r o).
Proof. unfold next_hop. repeat throws_step. Qed.
Lemma throws_timeout_ms (s : Session) (o : RequestOptions) : throws argument_error (timeout_ms s o).
Proof. unfold timeout_ms, milliseconds. repeat throws_step. Qed.
#[export] Hint Resolve throws_next_hop throws_timeout_ms : raises.

Lemma throws_read_response (strict open : bool) (p : option NativeResponse) (u : str) :
  throws (may_raise strict open) (read_response p u).
Proof.
  assert (forall b, throws (may_raise strict open) (decode_strict b)) as Hd.
  { intros b e He. apply about_arguments. by eapply throws_decode. }
  unfold read_response, error_for. destruct p as [raw|].
  - destruct (negb _); [apply throws_raise, about_network|]. repeat throws_step; apply Hd.
  - apply throws_raise. apply (about_network strict open _ 0).
Qed.

Lemma throws_checked (s : Session) (open : bool) (r : Response) :
  throws (may_raise (require_http3 s) open) (checked s r).
Proof.
  unfold checked. destruct (require_http3 s && _) eqn:E; [|done].
  apply andb_true_iff in E as [E1 E2]. apply throws_raise, about_protocol; [done|].
  by apply negb_true_iff, bool_decide_eq_false in E2.
Qed.

(** ** Computations on a session *)

Section effects.
Context {X J : Type}.
Abbreviation run := (st (world X J) exn).

Definition effect {A} (E : bool -> exn -> Prop) (m : run A) : Prop :=
  forall w r w', m w = (r, w') -> w_open w' = w_open w /\ (forall e, r = Raise e -> E (w_open w) e).

Context (E : bool -> exn -> Prop).

Lemma effect_ret {A} (a : A) : effect E (mret a : run A).
Proof. by intros w r w' [= <- <-]. Qed.
Lemma effect_raise {A} (e : exn) : (forall open, E open e) -> effect E (raise e : run A).
Proof. intros H w r w' [= <- <-]. split; [done|]. by intros ? [= <-]. Qed.
Lemma effect_lift {A} (r : res exn A) : (forall open, throws (E open) r) -> effect E (st_lift r : run A).
Proof. intros H w r' w' [= <- <-]. split; [done|]. intros e He. by apply (H (w_open w)). Qed.
Lemma effect_native {A} (f : X -> A * X) : effect E (Waiting.native f : run A).
Proof. intros w r w'. unfold Waiting.native. destruct (f _). by intros [= <- <-]. Qed.
Lemma effect_note (ev : call_event) : effect E (note ev : run unit).
Proof. by intros w r w' [= <- <-]. Qed.
Lemma effect_bind {A B} (m : run A) (k : A -> run B) :
  effect E m -> (forall a, effect E (k a)) -> effect E (m ≫= k).
Proof.
  intros Hm Hk w r w'. unfold mbind, st_bind. destruct (m w) as [[a|e] w1] eqn:Em.
  - destruct (Hm _ _ _ Em) as [Ho _]. intros Ek. destruct (Hk a _ _ _ Ek) as [H1 H2].
    rewrite <- Ho. by split.
  - intros [= <- <-]. destruct (Hm _ _ _ Em) as [Ho He]. split; [done|]. intros e' [= <-]. by apply He.
Qed.
Lemma effect_finally {A} (m : run A) (cleanup : run unit) :
  effect E m -> effect E cleanup -> effect E (st_finally m cleanup).
Proof.
  intros Hm Hc w r w'. unfold st_finally. destruct (m w) as [r1 w1] eqn:Em.
  destruct (Hm _ _ _ Em) as [Ho He]. destruct (cleanup w1) as [[[]|e] w2] eqn:Ec;
    destruct (Hc _ _ _ Ec) as [Ho' He']; intros [= <- <-]; (split; [congruence|]).
  - done.
  - intros e' [= <-]. rewrite <- Ho. by apply He'.
Qed.
(** [E1] is what the body raises; what the handler does not take is left. *)
Lemma effect_except {A} (E1 : bool -> exn -> Prop) (m : run A) (h : exn -> option (run A)) :
  effect E1 m ->
  (forall e, match h e with Some k => effect E k | None => forall open, E1 open e -> E open e end) ->
  effect E (st_except m h).
Proof.
  intros Hm Hh w r w'. unfold st_except. destruct (m w) as [[a|e] w1] eqn:Em;
    destruct (Hm _ _ _ Em) as [Ho He]; [by intros [= <- <-]|].
  specialize (Hh e). destruct (h e) as [k|].
  - intros Hk. destruct (Hh _ _ _ Hk) as [H1 H2]. rewrite <- Ho. by split.
  - intros [= <- <-]. split; [done|]. intros e' [= <-]. by apply Hh, He.
Qed.
End effects.

Lemma effect_weaken {X J A} (E E' : bool -> exn -> Prop) (m : st (world X J) exn A) :
  (forall open e, E open e -> E' open e) -> effect E m -> effect E' m.
Proof. intros H Hm w r w' Hr. destruct (Hm _ _ _ Hr) as [H1 H2]. split; [done|]. auto. Qed.

(** An exception of the arguments, as an exception of a request. *)
Lemma effect_argument {X J A} (strict : bool) (r : res exn A) :
  throws argument_error r -> effect (may_raise strict) (st_lift r : st (world X J) exn A).
Proof. intros H. apply effect_lift. intros open e He. apply about_arguments. by apply H. Qed.

Ltac effect_step :=
  match goal with
  | |- effect _ (mret _) => apply effect_ret
  | |- effect _ (raise _) => apply effect_raise; intros ?; eauto with raises
  | |- effect _ (Waiting.native _) => apply effect_native
  | |- effect _ (note _) => apply effect_note
  | |- effect _ (mbind _ _) => apply effect_bind; [|intros ?]
  | |- effect _ (st_finally _ _) => apply effect_finally
  | |- effect _ _ => solve [eauto with raises] || case_match
  end.

Section requests.
Context {X J : Type} {LX : Library X} {CS : CookieStore J}.
Context (guess_type : str -> option str) (msgspec : option (json -> bytes)).
Context (draws : nat -> nat -> nat) (repr_seconds : option seconds -> str).
Context (empty_jar : J) (s : Session).

(** Awaiting a descriptor ends with the limit's TimeoutError, with an OSError
    of the event loop or with the task's cancellation; a jar refuses a URL as
    it refuses an argument. *)
Definition waiting_error (e : exn) : Prop := e = TimeoutError \/ e = OSError \/ e = Interrupted.

Hypothesis await_raises : forall c limit x e x',
  await_fd (Library := LX) c limit x = (Raise e, x') -> waiting_error e.
Hypothesis jar_raises : forall (jar : J) url h,
  throws argument_error (header_for url jar).1 /\ throws argument_error (store url h jar).1.

Abbreviation run := (st (world X J) exn).
Abbreviation may := (may_raise (require_http3 s)).
(** While a call is waited for, the limit of the request may also run out. *)
Definition may_expire (open : bool) (e : exn) : Prop := may open e \/ e = TimeoutError.

Lemma may_expire_may (open : bool) (e : exn) : may open e -> may_expire open e.
Proof. by left. Qed.
Lemma may_expire_out (open : bool) : may_expire open TimeoutError.
Proof. by right. Qed.
Hint Resolve may_expire_may may_expire_out : raises.

Lemma effect_expires {A} (m : run A) : effect may m -> effect may_expire m.
Proof. apply effect_weaken. apply may_expire_may. Qed.

Lemma session_call_effect (m u : str) (o : RequestOptions) (l : Z) :
  effect may (session_call (X := X) guess_type msgspec draws s m u o l).
Proof.
  intros w r w'. unfold session_call.
  assert (throws argument_error (build_call guess_type msgspec (draws (length (w_trace w))) m u o (session_headers s) l (w_jar w)).1) as H.
  { unfold build_call, mbind, st_bind, st_lift. 
    pose proof (throws_encode_body guess_type msgspec (draws (length (w_trace w))) o) as Hb.
    destruct (encode_body _ _ _ o) as [[body implied]|e]; [|by intros e' [= <-]; apply Hb].
    pose proof (throws_authorization o) as Ha. destruct (authorization o) as [cred|e]; [|by intros e' [= <-]; apply Ha].
    assert (forall merged, throws argument_error (cookie_addition merged u (w_jar w)).1) as Hc.
    { intros merged. unfold cookie_addition. destruct (w_jar w) as [jar|]; [|done]. case_match; [done|].
      pose proof (proj1 (jar_raises jar u (mkHeaders []))) as Hj.
      destruct (header_for u jar) as [[cookie|e] jar']; [done|by intros e' [= <-]; apply Hj]. }
    specialize (Hc (with_defaults (Headers_init (opt_headers o)) (session_headers s))).
    destruct (cookie_addition _ u (w_jar w)) as [[cookie|e] jar']; [|by intros e' [= <-]; apply Hc].
    pose proof (throws_priority (default (priority_value MEDIUM) (opt_priority o))) as Hp.
    destruct (Priority_of _); [done|by intros e' [= <-]; apply Hp]. }
  destruct (build_call _ _ _ _ _ _ _ _ _) as [r' jar]. intros [= <- <-]. split; [done|].
  intros e He. apply about_arguments. by apply H.
Qed.

Lemma engine_start_effect (settings : CallSettings) :
  effect may (engine_start settings : run nat).
Proof.
  unfold engine_start. apply effect_bind; [apply effect_argument, throws_build_request|]. intros q.
  apply effect_bind.
  { intros w r w'. unfold engine_claim. destruct (w_open w) eqn:Eo; intros [= <- <-]; cbn; (split; [done|]).
    - done.
    - intros e [= <-]. by apply about_closing. }
  intros _. apply effect_bind; [apply effect_native|]. intros [c|].
  - apply effect_bind; [apply effect_note|]. intros _. apply effect_bind; [|intros _; apply effect_ret].
    intros w r w'. unfold engine_register. cbn. destruct (w_open w) eqn:Eo; [intros [= <- <-]; by cbn|].
    unfold call_cancel, mbind, st_bind, note, Waiting.native. cbn. intros [= <- <-]. by cbn.
  - apply effect_bind; [by intros w r w' [= <- <-]|]. intros _.
    apply effect_bind; [by intros w r w' [= <- <-]|]. intros message. apply effect_raise. intros open.
    apply (about_network _ _ _ 0).
Qed.

Lemma call_close_effect (c : nat) : effect may (call_close c : run unit).
Proof. by intros w r w' [= <- <-]. Qed.

Lemma call_result_effect (c : nat) (u : str) : effect may (call_result c u : run RawResponse).
Proof.
  unfold call_result. apply effect_bind; [apply effect_native|]. intros p.
  apply effect_lift. intros open. apply throws_read_response.
Qed.

(** *** Waiting *)

Lemma countdown_effect (t : Z) (d : float) : effect may (countdown_next t d : run (option Z)).
Proof.
  unfold countdown_next. case_match; [apply effect_ret|]. apply effect_bind; [apply effect_native|].
  intros now. apply effect_argument, throws_countdown.
Qed.
Lemma countdown_begin_effect (t : Z) : effect may (countdown_begin t : run float).
Proof.
  unfold countdown_begin. case_match; [apply effect_ret|]. apply effect_bind; [apply effect_native|].
  intros now. apply effect_argument, throws_deadline.
Qed.
Lemma wait_for_progress_effect (c : nat) (ms : Z) : effect may (wait_for_progress c ms : run bool).
Proof. unfold wait_for_progress. case_match; [|apply effect_native]. apply effect_raise. eauto with raises. Qed.

Lemma headers_rounds_effect (n : nat) (t : Z) (d : float) (c : nat) :
  effect may (headers_rounds n t d c : run bool).
Proof.
  induction n as [|n IH]; cbn [headers_rounds]; [repeat effect_step|].
  apply effect_bind; [apply countdown_effect|]. intros [remaining|].
  - apply effect_bind; [apply effect_native|]. intros _. apply effect_bind; [apply effect_native|]. intros state.
    destruct (negb _); [apply effect_ret|]. apply effect_bind; [apply wait_for_progress_effect|]. intros [];
    [apply IH|apply effect_ret].
  - apply effect_bind; [apply effect_native|]. intros state. apply effect_ret.
Qed.

Lemma wait_for_headers_effect (n : nat) (t : Z) (c : nat) : effect may (wait_for_headers n t c : run bool).
Proof.
  unfold wait_for_headers. apply effect_bind; [apply countdown_begin_effect|]. intros d. apply headers_rounds_effect.
Qed.

Lemma call_read_effect (c : nat) : effect may_expire (Waiting.call_read c : run (option bytes)).
Proof. unfold Waiting.call_read. repeat effect_step. Qed.

Lemma body_rounds_effect (n : nat) (t : Z) (d : float) (c : nat) (reading : option Z) (got : list bytes) :
  effect may_expire (body_rounds n t d c reading got : run (list bytes)).
Proof.
  revert reading got. induction n as [|n IH]; intros reading got; cbn [body_rounds]; [repeat effect_step|].
  destruct reading as [remaining|].
  - apply effect_bind; [apply call_read_effect|]. intros [[|b piece]|]; [|apply IH|apply effect_ret].
    apply effect_bind; [apply effect_expires, wait_for_progress_effect|]. intros []; [apply IH|]. apply effect_raise, may_expire_out.
  - apply effect_bind; [apply effect_expires, countdown_effect|]. intros [remaining|].
    + apply effect_bind; [apply effect_native|]. intros _. apply IH.
    + apply effect_raise, may_expire_out.
Qed.

Lemma iter_body_effect (n : nat) (t : Z) (c : nat) : effect may_expire (iter_body n t c : run (list bytes)).
Proof.
  unfold iter_body. apply effect_bind; [apply effect_expires, countdown_begin_effect|]. intros d. apply body_rounds_effect.
Qed.

Lemma progress_effect (c : nat) (limit : option seconds) : effect may_expire (progress c limit : run unit).
Proof.
  intros w r w'. unfold progress. destruct (await_fd c limit (w_lib w)) as [r0 x] eqn:E.
  intros [= <- <-]. split; [done|]. intros e ->.
  destruct (await_raises _ _ _ _ _ E) as [->|[->| ->]]; unfold may_expire; eauto with raises.
Qed.

Lemma async_headers_effect (n : nat) (limit : option seconds) (c : nat) :
  effect may_expire (async_wait_for_headers n limit c : run unit).
Proof.
  induction n as [|n IH]; cbn [async_wait_for_headers]; [repeat effect_step|].
  apply effect_bind; [apply effect_native|]. intros _. apply effect_bind; [apply effect_native|]. intros state.
  destruct (negb _); [apply effect_ret|]. apply effect_bind; [apply progress_effect|]. intros _. apply IH.
Qed.

Lemma read_body_effect (n : nat) (limit : option seconds) (c : nat) (reading : bool) (got : list bytes) :
  effect may_expire (read_body n limit c reading got : run bytes).
Proof.
  revert reading got. induction n as [|n IH]; intros reading got; cbn [read_body]; [repeat effect_step|].
  destruct reading.
  - apply effect_bind; [apply call_read_effect|]. intros [[|b piece]|]; [|apply IH|apply effect_ret].
    apply effect_bind; [apply progress_effect|]. intros _. apply IH.
  - apply effect_bind; [apply effect_native|]. intros _. apply IH.
Qed.

(** *** One call *)

Lemma checked_effect (r : Response) : effect may (st_lift (checked s r) : run Response).
Proof. apply effect_lift. intros open. apply throws_checked. Qed.

Lemma wind_up_effect (c : nat) :
  effect may ((finished ← call_wait c 0; _ ← (if finished : bool then mret tt else call_cancel c); call_close c) : run unit).
Proof.
  apply effect_bind; [apply effect_native|]. intros finished. apply effect_bind; [|intros _; apply call_close_effect].
  destruct finished; [apply effect_ret|]. apply effect_bind; [apply effect_note|]. intros _. apply effect_native.
Qed.

(** [except TimeoutError] leaves nothing of a limit that ran out. *)
Lemma expires_caught {A} (m k : run A) : effect may_expire m -> effect may k -> effect may (st_except m (on_timeout k)).
Proof.
  intros Hm Hk. apply (effect_except _ may_expire); [exact Hm|].
  intros e. destruct e; cbn; try exact Hk; intros open [H|H]; done.
Qed.

(** The exception a request makes of a limit that ran out. *)
Lemma timeout_effect {A} (message url : str) : effect may (raise (RequestError Timeout message ERROR_TIMED_OUT url) : run A).
Proof. apply effect_raise. intros open. apply (about_network _ _ _ ERROR_TIMED_OUT). Qed.

Lemma performs_effect (b : bool) (n : nat) (m u : str) (o : RequestOptions) (l : Z) :
  effect may (performs guess_type msgspec draws repr_seconds s b n m u o l : run Response).
Proof.
  destruct b; unfold performs, perform, perform_async;
    (apply effect_bind; [apply session_call_effect|]); intros settings;
    (apply effect_bind; [apply engine_start_effect|]); intros c; apply effect_finally.
  - apply effect_bind; [apply effect_argument, throws_timeout_ms|]. intros t. apply effect_bind.
    + apply expires_caught.
      * apply effect_bind; [apply effect_expires, wait_for_headers_effect|]. intros ready.
        apply effect_bind; [destruct ready; [apply effect_ret|apply effect_raise, may_expire_out]|]. intros _.
        apply effect_bind; [apply effect_expires, call_result_effect|]. intros _.
        apply effect_bind; [apply iter_body_effect|]. intros pieces. apply effect_ret.
      * apply effect_bind; [apply effect_bind; [apply effect_note|intros _; apply effect_native]|]. intros _.
        apply effect_bind; [apply effect_native|]. intros _. apply timeout_effect.
    + intros content. apply effect_bind; [apply call_result_effect|]. intros raw. apply checked_effect.
  - apply call_close_effect.
  - apply effect_bind.
    + apply expires_caught; [|apply timeout_effect].
      apply effect_bind; [apply async_headers_effect|]. intros _.
      apply effect_bind; [apply effect_expires, call_result_effect|]. intros _. apply read_body_effect.
    + intros content. apply effect_bind; [apply call_result_effect|]. intros raw. apply checked_effect.
  - apply wind_up_effect.
Qed.

(** *** The chain *)

(** A chain that is over has a response to give. *)
Definition settled_chain (c : RedirectChain) : Prop := pending c = None -> is_Some (final c).

Lemma receive_effect (c : RedirectChain) (r : Response) (jar jar' : J) (res0 : res exn RedirectChain) :
  pending c <> None -> receive c r jar = (res0, jar') ->
  throws (may false) res0 /\ throws (may true) res0 /\ (forall c', res0 = Ok c' -> settled_chain c').
Proof.
  intros Hp. unfold receive. destruct (pending c) as [[[m u] o]|]; [|done].
  assert (forall e, argument_error e -> throws (may false) (@Raise exn RedirectChain e)
    /\ throws (may true) (@Raise exn RedirectChain e) /\ (forall c', Raise e = Ok c' -> settled_chain c')) as Ha.
  { intros e He. split_and!; [apply throws_raise, about_arguments, He..|done]. }
  destruct (store u (headers r) jar) as [[[]|e] jar1] eqn:Es.
  2:{ intros [= <- <-]. apply Ha. apply (jar_raises jar u (headers r)). by rewrite Es. }
  destruct (next_hop m u r o) as [h|e] eqn:En.
  2:{ intros [= <- <-]. apply Ha. by eapply throws_next_hop. }
  cbv zeta. destruct (match h with None => true | Some _ => _ end) eqn:Estop.
  { intros H. injection H as <- <-. split_and!; [done|done|]. intros c2 E2. injection E2 as <-. by eexists. }
  destruct (limit c <=? _)%Z; intros H; injection H as <- <-.
  - split_and!; [apply throws_raise, (about_network _ _ _ ERROR_TOO_MANY_REDIRECTS)..|done].
  - split_and!; [done|done|]. intros c2 E2. injection E2 as <-. by destruct h.
Qed.

Lemma walk_effect (n fuel : nat) (b : bool) (c : RedirectChain) (w w' : world X J) (r : res exn Response) :
  settled_chain c ->
  walk (jar_of empty_jar) with_jar (perform_hop (performs guess_type msgspec draws repr_seconds s b n)) fuel c w
  = Some (r, w') ->
  w_open w' = w_open w /\ throws (may (w_open w)) r.
Proof.
  revert c w. induction fuel as [|fuel IH]; intros c w Hc; cbn [walk]; [done|].
  destruct (pending c) as [[[m u] o]|] eqn:Ep.
  2:{ intros [= <- <-]. split; [done|]. unfold result. by destruct (Hc Ep) as [resp ->]. }
  destruct (perform_hop _ (m, u, o) w) as [[resp|e] w1] eqn:E1;
    unfold perform_hop in E1; destruct (performs_effect _ _ _ _ _ _ _ _ _ E1) as [Ho He].
  2:{ intros [= <- <-]. split; [done|]. intros e' [= <-]. by apply He. }
  unfold receive_in. destruct (receive c resp (jar_of empty_jar w1)) as [r2 jar] eqn:E2.
  destruct (receive_effect c resp _ _ _ ltac:(congruence) E2) as (T1 & T2 & Hset).
  destruct r2 as [c2|e].
  - intros Hw. destruct (IH c2 _ (Hset c2 eq_refl) Hw) as [H1 H2].
    change (w_open (with_jar w1 jar)) with (w_open w1) in *. rewrite <- Ho. by split.
  - intros [= <- <-]. split; [done|]. intros e' [= <-]. destruct (w_open w); [by apply T2|by apply T1].
Qed.

(** C19: what a request can raise, blocking or async, redirects and cookies
    included, whatever the library answers: a complaint about its arguments
    (TypeError, ValueError or OverflowError, and the AttributeError of a URL
    without a host that meets a cookie with a Port), a RequestError whose class is the
    one of the code it carries, SessionClosed only when the session was closed,
    ProtocolDowngraded only under require_http3 and for a response that was not
    HTTP/3, an OSError of the descriptor or the interruption of the task.  Never
    a bare TimeoutError, a RuntimeError of a chain misused, a LibraryError or an
    HTTPStatusError; and a request neither opens nor closes its session. *)
Theorem request_raises (b : bool) (n : nat) (m u : str) (o : RequestOptions) (w w' : world X J) (r : res exn Response)
    (Hrun : requests guess_type msgspec draws repr_seconds empty_jar s b n m u o w = (r, w')) :
  w_open w' = w_open w /\ forall e, r = Raise e -> may_raise (require_http3 s) (w_open w) e.
Proof.
  revert w r w' Hrun. rewrite requests_with. apply (effect_bind may); [apply effect_argument, throws_target|].
  intros [target o'] w r w'. unfold follow. destruct (w_jar w); [|apply performs_effect].
  destruct (walk _ _ _ _ _ _) as [[r1 w1]|] eqn:Ew.
  - intros H. injection H as <- <-. by eapply walk_effect in Ew.
  - intros H. injection H as <- <-. split; [done|]. intros e [= <-]. apply about_task.
Qed.
End requests.

(** ** The package's own jar *)

Lemma throws_Request (u : str) : throws argument_error (Request u).
Proof. unfold Request. repeat throws_step. Qed.
Lemma throws_request_port (rq : UrlRequest) : throws argument_error (request_port rq).
Proof. unfold request_port. repeat throws_step. Qed.
#[export] Hint Resolve throws_Request throws_request_port : raises.

Lemma throws_return_ok (now : Z) (c : Cookie) (rq : UrlRequest) : throws argument_error (return_ok now c rq).
Proof. unfold return_ok, return_ok_port. repeat throws_step. Qed.
Lemma throws_set_ok (c : Cookie) (rq : UrlRequest) : throws argument_error (set_ok c rq).
Proof. unfold set_ok, set_ok_port. repeat throws_step. Qed.
#[export] Hint Resolve throws_return_ok throws_set_ok : raises.

Lemma throws_keep {A} (f : A -> res exn bool) (l : list A) :
  (forall a, throws argument_error (f a)) -> throws argument_error (res_keep f l).
Proof.
  intros Hf. induction l as [|x l IH]; [done|]. cbn [res_keep].
  apply throws_bind; [apply Hf|]. intros b. apply throws_bind; [done|]. done.
Qed.

Lemma throws_cookies_for_request (now : Z) (rq : UrlRequest) (d : by_domain) :
  throws argument_error (cookies_for_request now rq d).
Proof.
  unfold cookies_for_request, cookies_for_domain, cookies_for_path. repeat throws_step.
  apply throws_keep. eauto with raises.
Qed.

Lemma throws_set_cookies (rq : UrlRequest) (cs : list Cookie) (d : by_domain) :
  throws argument_error (set_cookies rq cs d).1.
Proof.
  revert d. induction cs as [|c cs IH]; intros d; cbn [set_cookies]; [done|].
  pose proof (throws_set_ok c rq) as Hc. destruct (set_ok c rq) as [[]|e]; [apply IH..|].
  intros e' [= <-]. by apply Hc.
Qed.

(** A URL urllib cannot use is a ValueError; a cookie with a Port, met at a URL
    that names no host, an AttributeError. *)
Lemma cookie_jar_raises `{CK : Clock} (jar : CookieJar) (url : str) (h : Headers) :
  throws argument_error (header_for url jar).1 /\ throws argument_error (store url h jar).1.
Proof.
  split; cbn; unfold CookieJar_header_for, CookieJar_store, mbind, st_bind, st_lift;
    pose proof (throws_Request url) as Hu.
  - destruct (Request url) as [rq|e]; [|intros e' [= <-]; by apply Hu]. unfold on_jar, add_cookie_header.
    pose proof (throws_cookies_for_request (clock (ticks (Cookies.jar jar))) rq (cookies (Cookies.jar jar))) as Hc.
    destruct (cookies_for_request _ _ _) as [cs|e]; [done|]. intros e' [= <-]. by apply Hc.
  - destruct (contains h _); [|done].
    destruct (Request url) as [rq|e]; [|intros e' [= <-]; by apply Hu]. unfold on_jar, extract_cookies.
    destruct (make_cookies _ _ _ _ _) as [cs d]. pose proof (throws_set_cookies rq cs d) as Hs.
    destruct (set_cookies rq cs d) as [r d']. exact Hs.
Qed.

(** ** At a library that falls silent *)

(** A library whose calls stay in the given state: nothing is ever readable,
    and awaiting a descriptor outlasts the limit. *)
Definition silent (state : Z) : Library script := {|
  lib_engine_create := fun _ x => (true, x);
  lib_engine_destroy := fun x => x;
  lib_start_net_log := fun _ _ x => (1%Z, x);
  lib_stop_net_log := fun x => x;
  lib_last_error := fun _ => [];
  lib_call_start := fun _ x => (Some (created x), mkScript (reads x) (view x) (S (created x)));
  lib_call_state_of := fun _ x => (state, x);
  lib_call_response := fun _ x => (Some (view x), x);
  lib_call_read := fun _ _ x => (Some [], x);
  lib_drain_fd := fun _ x => x;
  lib_poll_fd := fun _ _ x => (false, x);
  lib_call_wait := fun _ _ x => (true, x);
  lib_call_cancel := fun _ x => x;
  lib_call_free := fun _ x => x;
  monotonic := fun x => (S754_zero false, x);
  await_fd := fun _ limit x => (Raise (if limit is Some _ then TimeoutError else Interrupted), x);
|}.

Abbreviation do_silent b :=
  (requests (LX := silent CALL_STARTED) guess0 None draws0 repr0 jar0 strict_session b 10
     (#"GET") (#"https://h/") no_options (plain_world (Some jar0))).

(** A request that runs out of time raises the package's Timeout, with its
    code, on either kind of session. *)
Lemma request_raises_witness :
  (exists message, (do_silent true).1 = Raise (RequestError (class_for (-7)) message (-7) (#"https://h/")))
  /\ (exists message, (do_silent false).1 = Raise (RequestError (class_for (-7)) message (-7) (#"https://h/")))
  /\ w_open (do_silent false).2 = true
  /\ forall e, (do_silent false).1 = Raise e -> may_raise true true e.
Proof.
  split; [eexists; vm_compute; reflexivity|]. split; [eexists; vm_compute; reflexivity|].
  destruct (do_silent false) as [r w'] eqn:E.
  apply (request_raises (LX := silent CALL_STARTED) guess0 None draws0 repr0 jar0 strict_session) in E.
  - exact E.
  - intros c limit x e x' H. cbn in H. injection H as <- _.
    destruct limit; [by left|by right; right].
  - apply cookie_jar_raises.
Defined.

(** While the body of a stream is being read the limit is not caught: running
    out of it is Python's own TimeoutError, no CronetError. *)
Lemma stream_timeout_escapes :
  (stream_with (LX := silent CALL_HEADERS) guess0 None draws0 repr0 strict_session 10 (#"GET") (#"https://h/")
     no_options (fun _ pull => pull) (plain_world None)).1 = Raise TimeoutError
  /\ is_cronet_error TimeoutError = false.
Proof. vm_compute. by split. Qed.
