(* ===== verification/Lifecycle.v ===== *)
(** * Lifecycle: from opening a session to closing it (session.py; _bridge.py,
    [Engine.close], [start_net_log] and [stop_net_log]).

    Closing is modelled for the thread that closes: it takes the handle,
    cancels what is live and waits until nothing is in flight.  With no other
    thread to release anything, a wait that has something to wait for can only
    be interrupted; how several threads close and release together is the
    component Engine. *)

From S2P Require Import Prelude PyText PyUrl Headers Types Errors Json Abi Cookies Options.
From S2P Require Import Multipart Request Redirect Floats Native Call Bridge Waiting Session.

(** ** What a block may do

    Any code of one task: it uses the session one operation at a time, the block
    of a stream included, and goes on as it likes with what each of them
    returned or raised. *)

Inductive program (A : Type) : Type :=
| Done (r : res exn A)
| MakeRequest (blocking : bool) (patience : nat) (method url : str) (options : RequestOptions)
    (k : res exn Response -> program A)
| StartNetLog (path : str) (log_all : bool) (k : res exn unit -> program A)
| StopNetLog (k : res exn unit -> program A)
| AskClosed (k : bool -> program A)
| CloseSession (k : res exn unit -> program A)
| Stream {B : Type} (patience : nat) (method url : str) (options : RequestOptions)
    (block : Response -> program B) (k : res exn B -> program A)
(* the rest of the body of a stream, counted from the innermost one open *)
| ReadBody (stream : nat) (k : res exn (list bytes) -> program A).
Arguments Done {A}. Arguments MakeRequest {A}. Arguments StartNetLog {A}.
Arguments StopNetLog {A}. Arguments AskClosed {A}. Arguments CloseSession {A}.
Arguments Stream {A B}. Arguments ReadBody {A}.

Section lifecycle.
Context {X J : Type} {LX : Library X} {CS : CookieStore J}.
Context (guess_type : str -> option str) (msgspec : option (json -> bytes)).
Context (draws : nat -> nat -> nat) (repr_seconds : option seconds -> str).
Context (empty_jar : J).

Abbreviation run := (st (world X J) exn).

Definition set_open (w : world X J) (b : bool) : world X J :=
  mkWorld b (w_live w) (w_flight w) (w_jar w) (w_lib w) (w_trace w).

(** *** The engine's methods *)

(** [Engine.closed] *)
Definition closed : run bool := fun w => (Ok (negb (w_open w)), w).

(** [for call in self._live_calls: lib.cronet_call_cancel(call)] *)
Fixpoint cancel_all (calls : list nat) : run unit :=
  match calls with
  | [] => mret tt
  | c :: calls => _ ← call_cancel c; cancel_all calls
  end.

(** [while self._calls_in_flight: self._idle.wait()] *)
Definition wait_idle : run unit := fun w =>
  if w_flight w =? 0 then (Ok tt, w) else (Raise Interrupted, w).

(** [self._finalizer()] *)
Definition destroy : run unit :=
  _ ← note EngineDestroyed;
  native (fun x => (tt, lib_engine_destroy x)).

(** [Engine.close()] *)
Definition close : run unit := fun w =>
  if w_open w then
    (_ ← cancel_all (elements (w_live w));
     _ ← wait_idle;
     destroy) (set_open w false)
  else (Ok tt, w).

(** [Engine.start_net_log(path, log_all)] *)
Definition start_net_log (path : str) (log_all : bool) : run unit :=
  _ ← engine_claim;
  started ← st_finally
    (path ← st_lift (encode_strict path);
     _ ← note (NetLogStarted (c_string path) (Z.b2z log_all));
     native (lib_start_net_log (c_string path) (Z.b2z log_all)))
    engine_release;
  if (started =? 0)%Z then
    raise (LibraryError (#"a NetLog could not be written to " ++ path ++ #" " ++ [8212%N]
      ++ #" the path must be writable, and only one log may run at a time"))
  else mret tt.

(** [Engine.stop_net_log()] *)
Definition stop_net_log : run unit :=
  _ ← engine_claim;
  st_finally
    (_ ← note NetLogStopped;
     native (fun x => (tt, lib_stop_net_log x)))
    engine_release.

(** *** The session's methods, on its engine *)

Definition session_closed : run bool := closed.
Definition session_start_net_log (path : str) (log_all : bool) : run unit := start_net_log path log_all.
Definition session_stop_net_log : run unit := stop_net_log.

(** [Session.close()], and [AsyncSession.aclose()], whose closing runs on
    another thread while the task waits for it. *)
Definition session_close : run unit := close.
Definition session_aclose : run unit := close.

(** [with Session(...) as session: block] and its async twin: entering gives
    the session, leaving closes it and keeps the block's outcome. *)
Definition with_session {A} (blocking : bool) (block : run A) : run A :=
  st_finally block (if blocking then session_close else session_aclose).

(** ** Running a block *)

Context (s : Session).
Abbreviation requests_ := (requests guess_type msgspec draws repr_seconds empty_jar s).

(** The streams that are open, innermost first; one that was read to its end,
    or failed, has no more to give. *)
Definition streams := list (option (run (list bytes))).

Fixpoint run_program {A} (p : program A) (open : streams) (w : world X J) : res exn A * streams * world X J :=
  match p with
  | Done r => (r, open, w)
  | MakeRequest b n m u o k => let '(r, w) := requests_ b n m u o w in run_program (k r) open w
  | StartNetLog path all k => let '(r, w) := session_start_net_log path all w in run_program (k r) open w
  | StopNetLog k => let '(r, w) := session_stop_net_log w in run_program (k r) open w
  | AskClosed k =>
      match session_closed w with
      | (Ok c, w) => run_program (k c) open w
      | (Raise e, w) => (Raise e, open, w)
      end
  | CloseSession k => let '(r, w) := session_close w in run_program (k r) open w
  | Stream n m u o block k =>
      let enter response body := fun w =>
        let '(r, open, w) := run_program (block response) (Some body :: open) w in (Ok (r, tail open), w) in
      match stream_with guess_type msgspec draws repr_seconds s n m u o enter w with
      | (Ok (r, open), w) => run_program (k r) open w
      | (Raise e, w) => run_program (k (Raise e)) open w
      end
  | ReadBody i k =>
      match open !! i with
      | Some (Some body) => let '(r, w) := body w in run_program (k r) (<[i := None]> open) w
      | _ => run_program (k (Ok [])) open w
      end
  end.

Definition run_block {A} (p : program A) : run A := fun w => let '(r, _, w) := run_program p [] w in (r, w).

(** ** What a session does, in order *)

Definition is_log (ev : call_event) : bool :=
  match ev with NetLogStarted _ _ | NetLogStopped => true | _ => false end.

(** Calls freed in the order opposite to the one they were started in, each of
    them used while it was there, and logs between. *)
Inductive orderly : list nat -> list call_event -> Prop :=
| orderly_nil held : orderly held []
| orderly_call held c q evs rest :
    orderly (c :: held) evs -> orderly held rest -> orderly held (CallStarted c q :: evs ++ CallFreed c :: rest)
| orderly_use held c ev rest : c ∈ held -> about c ev -> orderly held rest -> orderly held (ev :: rest)
| orderly_log held ev rest : is_log ev = true -> orderly held rest -> orderly held (ev :: rest).

Lemma orderly_app (held : list nat) (l1 l2 : list call_event) : orderly held l1 -> orderly held l2 -> orderly held (l1 ++ l2).
Proof.
  induction 1 as [held|held c q evs rest He _ Hr IH|held c ev rest Hc Ha Hr IH|held ev rest He Hr IH]; intros H2; [done|..].
  - cbn. rewrite <- app_assoc. cbn. constructor; auto.
  - cbn. eapply orderly_use; eauto.
  - cbn. apply orderly_log; auto.
Qed.

Lemma orderly_uses (held : list nat) (c : nat) (evs : list call_event) :
  c ∈ held -> Forall (about c) evs -> orderly held evs.
Proof. intros Hc. induction 1; [constructor|by eapply orderly_use]. Qed.

Lemma brackets_orderly (held : list nat) (l : list call_event) : brackets l -> orderly held l.
Proof.
  induction 1 as [|c q evs rest Ha Hr IH]; [constructor|]. unfold bracket. cbn. rewrite <- app_assoc. cbn.
  apply orderly_call; [|done]. by eapply orderly_uses; [left|].
Qed.

Lemma orderly_destroys (held : list nat) (l : list call_event) : orderly held l -> EngineDestroyed ∉ l.
Proof.
  induction 1 as [held|held c q evs rest He H1 Hr IH|held c ev rest Hc Ha Hr IH|held ev rest He Hr IH].
  - apply not_elem_of_nil.
  - rewrite elem_of_cons, elem_of_app, elem_of_cons. naive_solver.
  - rewrite elem_of_cons. intros [<-|?]; [by destruct Ha|done].
  - rewrite elem_of_cons. intros [<-|?]; done.
Qed.

(** Like [balanced], with logs, and with the streams [held] open. *)
Record tidy (held : list nat) (w w' : world X J) : Prop := {
  t_open : w_open w' = w_open w;
  t_flight : w_flight w' = w_flight w;
  t_live : w_live w' ⊆ w_live w;
  t_trace : exists evs, w_trace w' = w_trace w ++ evs /\ orderly held evs;
}.

Lemma tidy_refl (held : list nat) (w : world X J) : tidy held w w.
Proof. constructor; try done. exists []. split; [by rewrite app_nil_r|constructor]. Qed.

Lemma tidy_trans (held : list nat) (w1 w2 w3 : world X J) : tidy held w1 w2 -> tidy held w2 w3 -> tidy held w1 w3.
Proof.
  intros [A1 A2 A3 (e1 & A4 & A5)] [B1 B2 B3 (e2 & B4 & B5)].
  constructor; [congruence|congruence|set_solver|].
  exists (e1 ++ e2). split; [by rewrite B4, A4, app_assoc|by apply orderly_app].
Qed.

Lemma balanced_tidy (held : list nat) (w w' : world X J) : balanced w w' -> tidy held w w'.
Proof.
  intros [A1 A2 A3 (evs & A4 & A5)]. constructor; try done.
  exists evs. split; [done|by apply brackets_orderly].
Qed.

Lemma quiet_tidy (held : list nat) (c : nat) (evs : list call_event) (w w' : world X J) :
  c ∈ held -> quiet c evs w w' -> tidy held w w'.
Proof.
  intros Hc [Q1 Q2 Q3 _ Q5 Q6]. constructor; [done|done|by rewrite Q2|]. exists evs. split; [done|by eapply orderly_uses].
Qed.

Lemma tidy_log (held : list nat) (w w' : world X J) (ev : call_event) :
  is_log ev = true -> w_open w' = w_open w -> w_flight w' = w_flight w -> w_live w' = w_live w ->
  w_trace w' = w_trace w ++ [ev] -> tidy held w w'.
Proof.
  intros He Ho Hf Hl Ht. constructor; [done|done|by rewrite Hl|].
  exists [ev]. split; [done|]. apply orderly_log; [done|constructor].
Qed.

Lemma start_net_log_tidy (held : list nat) (path : str) (all : bool) (w w' : world X J) (r : res exn unit) :
  start_net_log path all w = (r, w') -> tidy held w w'.
Proof.
  unfold start_net_log, engine_claim, mbind, st_bind, st_finally, st_lift, note, native, engine_release.
  destruct (w_open w) eqn:Eo; cbn; [|intros [= <- <-]; apply tidy_refl].
  destruct (encode_strict path) as [b|e]; cbn.
  - destruct (lib_start_net_log _ _ _) as [started x]. cbn. case_match; intros [= <- <-];
      (eapply tidy_log; cbn; [|by rewrite Eo|lia|done|done]; done).
  - intros [= <- <-]. constructor; cbn; [by rewrite Eo|lia|done|].
    exists []. split; [by rewrite app_nil_r|constructor].
Qed.

Lemma stop_net_log_tidy (held : list nat) (w w' : world X J) (r : res exn unit) :
  stop_net_log w = (r, w') -> tidy held w w'.
Proof.
  unfold stop_net_log, engine_claim, mbind, st_bind, st_finally, note, native, engine_release.
  destruct (w_open w) eqn:Eo; cbn; [|intros [= <- <-]; apply tidy_refl].
  intros [= <- <-]. eapply tidy_log; cbn; [|by rewrite Eo|lia|done|done]; done.
Qed.

(** *** Streams *)

(** What a stream comes to, around what its block does. *)
Inductive streamed {A} (block : Response -> run (list bytes) -> run A) (p : nat) (o : RequestOptions)
    (w w' : world X J) (r : res exn A) : Prop :=
| not_started e : r = Raise e -> w_trace w' = w_trace w -> w_live w' = w_live w ->
    w_flight w' = w_flight w -> w_open w' = w_open w -> streamed block p o w w' r
| leaked c q e : is_ok (timeout_ms s o) = false -> r = Raise e -> w_trace w' = w_trace w ++ [CallStarted c q] ->
    w_live w' = {[c]} ∪ w_live w -> w_flight w' = S (w_flight w) -> w_open w' = w_open w -> streamed block p o w w' r
| ran c q evs post w1 w2 w3 :
    w_trace w1 = w_trace w ++ [CallStarted c q] -> w_live w1 = {[c]} ∪ w_live w -> w_flight w1 = S (w_flight w) ->
    w_open w1 = w_open w -> quiet c evs w1 w2 ->
    ((exists e, r = Raise e) /\ w3 = w2 \/ exists response t, block response (iter_body p t c) w2 = (r, w3)) ->
    w_open w' = w_open w3 -> w_live w' = w_live w3 ∖ {[c]} -> w_flight w' = w_flight w3 - 1 ->
    w_trace w' = w_trace w3 ++ post ++ [CallFreed c] -> Forall (about c) post -> streamed block p o w w' r.

Lemma Quiet_entering (p c : nat) (u : str) (o : RequestOptions) (t : Z) :
  Quiet (J := J) c (_ ← st_except
                 (headers ← wait_for_headers p t c;
                  if headers : bool then mret tt else raise TimeoutError)
                 (on_timeout (raise (timed_out repr_seconds s u o)));
           raw ← call_result c u;
           st_lift (checked s (from_raw raw []))) (fun (_ : res exn Response) _ => True).
Proof.
  apply Quiet_top_bind; [|intros _; apply Quiet_top_bind; [eapply Quiet_any, Quiet_call_result|]; intros raw; eapply Quiet_any; by apply Quiet_const].
  eapply Quiet_except with (P := fun _ _ => True); [|done|].
  - apply Quiet_top_bind; [eapply Quiet_any, Quiet_wait_for_headers|]. intros []; eapply Quiet_any; by apply Quiet_const.
  - intros e evs _. unfold on_timeout. destruct e; try done. eapply Quiet_any. by apply Quiet_const.
Qed.

Lemma bind3 {A B C D} (a : run A) (b : run B) (f : B -> run C) (g : C -> run D) (w : world X J) :
  (_ ← a; x ← b; y ← f x; g y) w = (y ← (_ ← a; x ← b; f x); g y) w.
Proof. unfold mbind, st_bind. destruct (a w) as [[?|] ?]; [|done]. by destruct (b _) as [[?|] ?]. Qed.

Lemma finally_ext {A} (m m' : run A) (clean : run unit) (w : world X J) :
  m w = m' w -> st_finally m clean w = st_finally m' clean w.
Proof. intros H. unfold st_finally. by rewrite H. Qed.

Lemma finally_entered {A} (c : nat) (m : run Response) (g : Response -> run A) (clean : run unit)
    (w w' : world X J) (r : res exn A) :
  Quiet c m (fun _ _ => True) -> Closes c clean -> st_finally (y ← m; g y) clean w = (r, w') ->
  exists evs w2 w3 post, quiet c evs w w2
    /\ ((exists e, r = Raise e) /\ w3 = w2 \/ exists response, g response w2 = (r, w3))
    /\ w_open w' = w_open w3 /\ w_live w' = w_live w3 ∖ {[c]} /\ w_flight w' = w_flight w3 - 1
    /\ w_trace w' = w_trace w3 ++ post ++ [CallFreed c] /\ Forall (about c) post.
Proof.
  intros Hm Hc. unfold st_finally, mbind, st_bind. destruct (m w) as [[resp|e] w2] eqn:E;
    destruct (Hm _ _ _ E) as (evs & Hq & _).
  - destruct (g resp w2) as [r3 w3] eqn:E3. destruct (clean w3) as [r4 w4] eqn:E4.
    destruct (Hc _ _ _ E4) as (-> & C1 & C2 & C3 & post & C4 & C5 & _). intros [= <- <-].
    exists evs, w2, w3, post. split_and!; try done. right. by exists resp.
  - destruct (clean w2) as [r4 w4] eqn:E4. destruct (Hc _ _ _ E4) as (-> & C1 & C2 & C3 & post & C4 & C5 & _).
    intros [= <- <-]. exists evs, w2, w2, post. split_and!; try done. left. split; [by exists e|done].
Qed.

Lemma stream_cases {A} (p : nat) (m u : str) (o : RequestOptions) (block : Response -> run (list bytes) -> run A)
    (w w' : world X J) (r : res exn A) :
  stream_with guess_type msgspec draws repr_seconds s p m u o block w = (r, w') -> streamed block p o w w' r.
Proof.
  unfold stream_with. unfold mbind at 1, st_bind at 1, st_lift at 1.
  destruct (session_target u o) as [[t o']|e] eqn:Et; [|intros [= <- <-]; by eapply not_started].
  unfold mbind at 1, st_bind at 1. destruct (session_call _ _ _ _ m t o' _ w) as [r1 w1] eqn:E1.
  edestruct @session_call_spec as [j Ej]; [exact E1|subst w1].
  destruct r1 as [st|e]; [|intros [= <- <-]; by eapply not_started].
  unfold mbind at 1, st_bind at 1. destruct (engine_start st (set_jar w j)) as [r2 w2] eqn:E2.
  destruct (engine_start_spec _ _ _ _ E2) as [(e & -> & T & L & F & O)|(c & q & -> & _ & T & L & F & O)];
    [intros [= <- <-]; by eapply not_started|].
  unfold mbind at 1, st_bind at 1, st_lift at 1.
  assert (timeout_ms s o' = timeout_ms s o) as Etm by (unfold timeout_ms, timeout_seconds; by rewrite (target_timeout _ _ _ _ Et)).
  destruct (timeout_ms s o') as [ms|e] eqn:Ems; [|intros [= <- <-]; eapply leaked; [|done..]; by rewrite <- Etm].
  rewrite (finally_ext _ _ _ _ (bind3 _ _ _ _ _)). intros H.
  apply finally_entered with (c := c) in H as (evs & w2' & w3 & post & Hq & Hrun & C1 & C2 & C3 & C4 & C5);
    [|apply Quiet_entering|apply Closes_after_wait].
  eapply (ran block p o w w' r c q evs post w2 w2' w3); try done.
  destruct Hrun as [?|(resp & Hr)]; [by left|right; by exists resp, ms].
Qed.

(** *** Blocks *)

(** The streams a block finds open, and the calls they read. *)
Definition reads (held : list nat) (open : streams) : Prop :=
  Forall2 (fun c b => match b with Some m => Quiet c m (fun _ _ => True) | None => True end) held open.

Lemma reads_at (held : list nat) (open : streams) (i : nat) (body : run (list bytes)) :
  reads held open -> open !! i = Some (Some body) -> exists c, c ∈ held /\ Quiet c body (fun _ _ => True).
Proof.
  intros H Hi. destruct (Forall2_lookup_r _ _ _ _ _ H Hi) as (c & Hc & Hq). exists c. split; [by eapply list_elem_of_lookup_2|done].
Qed.

Lemma reads_done (held : list nat) (open : streams) (i : nat) : reads held open -> reads held (<[i := None]> open).
Proof.
  intros H. unfold reads. revert i. induction H as [|c b held open Hb H IH]; intros [|i]; cbn; by constructor.
Qed.

Lemma reads_more (held : list nat) (open : streams) (c p : nat) (t : Z) :
  reads held open -> reads (c :: held) (Some (iter_body p t c) :: open).
Proof. intros H. constructor; [eapply Quiet_any, Quiet_iter_body|done]. Qed.

Lemma reads_tail (held : list nat) (open : streams) (c : nat) : reads (c :: held) open -> reads held (tail open).
Proof. intros H. by inversion H. Qed.

(** A block that closes the session in no block of a stream of its own, and
    whose streams have a time limit that is a number. *)
Fixpoint careful {A} (inside : bool) (p : program A) : Prop :=
  match p with
  | Done _ => True
  | MakeRequest _ _ _ _ _ k => forall r, careful inside (k r)
  | StartNetLog _ _ k => forall r, careful inside (k r)
  | StopNetLog k => forall r, careful inside (k r)
  | AskClosed k => forall r, careful inside (k r)
  | CloseSession k => inside = false /\ forall r, careful inside (k r)
  | Stream _ _ _ o block k =>
      is_ok (timeout_ms s o) = true /\ (forall r, careful true (block r)) /\ forall r, careful inside (k r)
  | ReadBody _ k => forall r, careful inside (k r)
  end.

(** A stream whose block is tidy is. *)
Lemma stream_tidy {A} (held : list nat) (p : nat) (o : RequestOptions) (block : Response -> run (list bytes) -> run A)
    (w w' : world X J) (r : res exn A) :
  is_ok (timeout_ms s o) = true ->
  (forall c response t v v' r', block response (iter_body p t c) v = (r', v') -> tidy (c :: held) v v') ->
  streamed block p o w w' r -> tidy held w w'.
Proof.
  intros Ht Hb [e _ T L F O|c q e Hn|c q evs post w1 w2 w3 T1 L1 F1 O1 Hq Hrun O L F T Hp].
  - constructor; [done|done|by rewrite L|]. exists []. split; [by rewrite app_nil_r|constructor].
  - congruence.
  - assert (tidy (c :: held) w1 w3) as [A1 A2 A3 (e3 & A4 & A5)].
    { eapply tidy_trans; [by eapply (quiet_tidy (c :: held)); [left|]|].
      destruct Hrun as [[_ ->]|(resp & t & Hr)]; [apply tidy_refl|by eapply Hb]. }
    constructor; [congruence|rewrite F, A2, F1; lia|rewrite L; set_solver|].
    exists (CallStarted c q :: (e3 ++ post) ++ CallFreed c :: []). split; [rewrite T, A4, T1; by rewrite <- !app_assoc|].
    apply orderly_call; [|constructor]. apply orderly_app; [done|]. by eapply orderly_uses; [left|].
Qed.

Ltac next_program H := match type of H with context [let '(_, _) := ?m in _] => destruct m as [?r ?v] eqn:?E end.
Ltac program_cases p :=
  induction p as [A r0|A b n m u o k IH|A path all k IH|A k IH|A k IH|A k IH|A B n m u o block IHb k IH|A i k IH].

(** The same streams are open after a program as before it. *)
Lemma program_reads {A} (p : program A) (held : list nat) (open open' : streams) (w w' : world X J) (r : res exn A) :
  reads held open -> run_program p open w = (r, open', w') -> reads held open'.
Proof.
  revert held open open' w w' r. program_cases p; intros held open open' w w' r Hr H; cbn [run_program] in H.
  - by injection H as <- <- <-.
  - next_program H. by eapply IH.
  - next_program H. by eapply IH.
  - next_program H. by eapply IH.
  - eapply IH; [exact Hr|exact H].
  - next_program H. by eapply IH.
  - next_program H.
    match goal with E : stream_with _ _ _ _ _ _ _ _ _ _ _ = _ |- _ => apply stream_cases in E; rename E into Hs end.
    destruct r0 as [[r2 open2]|e]; [|by eapply IH]. eapply IH; [|exact H]. clear H.
    destruct Hs as [|? ? ? ? ?|c q evs post w1 w2 w3 _ _ _ _ _ Hrun]; [done..|].
    destruct Hrun as [[[? ?] _]|(resp & t & Hrun)]; [done|].
    destruct (run_program (block resp) _ w2) as [[r3 open3] v3] eqn:E. injection Hrun as <- <- <-.
    eapply reads_tail, (IHb resp (c :: held)); [by apply reads_more|exact E].
  - destruct (open !! i) as [[body|]|] eqn:Ei; [|eapply IH; [exact Hr|exact H]..].
    next_program H. eapply IH; [|exact H]. by apply reads_done.
Qed.

Lemma inside_tidy {A} (p : program A) (held : list nat) (open open' : streams) (w w' : world X J) (r : res exn A) :
  careful true p -> reads held open -> run_program p open w = (r, open', w') -> tidy held w w'.
Proof.
  revert held open open' w w' r. program_cases p; intros held open open' w w' r Hc Hr H; cbn [run_program careful] in *.
  - injection H as <- <- <-. apply tidy_refl.
  - next_program H. eapply tidy_trans; [by eapply balanced_tidy, requests_balanced|by eapply IH].
  - next_program H. eapply tidy_trans; [by eapply start_net_log_tidy|by eapply IH].
  - next_program H. eapply tidy_trans; [by eapply stop_net_log_tidy|by eapply IH].
  - eapply IH; [apply Hc|exact Hr|exact H].
  - by destruct Hc.
  - destruct Hc as (Ht & Hcb & Hck). pose proof H as Hk. next_program Hk.
    match goal with E : stream_with _ _ _ _ _ _ _ _ _ _ _ = _ |- _ => rename E into Hs end.
    assert (tidy held w v) as T.
    { eapply stream_tidy; [exact Ht| |eapply stream_cases, Hs]. intros c resp t v1 v2 r'. cbn.
      destruct (run_program _ _ _) as [[r2 open2] v3] eqn:E. intros [= _ <-].
      by eapply (IHb resp (c :: held)); [apply Hcb|apply reads_more|exact E]. }
    eapply tidy_trans; [exact T|]. destruct r0 as [[r2 open2]|e]; [|eapply IH; [apply Hck|exact Hr|exact Hk]].
    eapply IH; [apply Hck| |exact Hk].
    eapply (program_reads (Stream n m u o block (fun r => Done r)) held open); [exact Hr|]. cbn [run_program]. by rewrite Hs.
  - destruct (open !! i) as [[body|]|] eqn:Ei; [|eapply IH; [apply Hc|exact Hr|exact H]..].
    next_program H. destruct (reads_at _ _ _ _ Hr Ei) as (c & Hin & Hq).
    match goal with E : body w = _ |- _ => destruct (Hq _ _ _ E) as (evs & Hqt & _) end.
    eapply tidy_trans; [by eapply quiet_tidy|]. eapply IH; [apply Hc|by apply reads_done|exact H].
Qed.

(** *** Closing *)

Lemma cancel_all_spec (cs : list nat) (w : world X J) :
  exists w', cancel_all cs w = (Ok tt, w') /\ w_open w' = w_open w /\ w_flight w' = w_flight w /\ w_live w' = w_live w
    /\ w_trace w' = w_trace w ++ (CallCancelled <$> cs).
Proof.
  revert w. induction cs as [|c cs IH]; intros w; cbn [cancel_all].
  - exists w. by rewrite app_nil_r.
  - unfold mbind at 1, st_bind at 1. cbn. destruct (IH (set_lib (add_event w (CallCancelled c)) (lib_call_cancel c (w_lib w))))
      as (w' & Hw & H1 & H2 & H3 & H4). exists w'. split; [exact Hw|]. cbn in *. split_and!; try done. by rewrite H4, <- app_assoc.
Qed.

(** The engine goes when nothing is in flight; otherwise closing waits, and
    only an interruption ends the wait. *)
Lemma close_cases (w w' : world X J) (r : res exn unit) :
  close w = (r, w') -> w_open w = true ->
  w_open w' = false /\ w_flight w' = w_flight w /\ w_live w' = w_live w
  /\ if w_flight w =? 0
     then r = Ok tt /\ w_trace w' = w_trace w ++ (CallCancelled <$> elements (w_live w)) ++ [EngineDestroyed]
     else r = Raise Interrupted /\ w_trace w' = w_trace w ++ (CallCancelled <$> elements (w_live w)).
Proof.
  unfold close. intros H Ho. rewrite Ho in H. unfold mbind at 1, st_bind at 1 in H.
  destruct (cancel_all_spec (elements (w_live w)) (set_open w false)) as (v & Hv & V1 & V2 & V3 & V4). rewrite Hv in H.
  unfold mbind, st_bind, wait_idle in H. cbn in V1, V2, V3, V4. rewrite V2 in H.
  destruct (w_flight w =? 0); injection H as <- <-; cbn; split_and!; try done. by rewrite V4, <- app_assoc.
Qed.

Lemma close_closed (w : world X J) : w_open w = false -> close w = (Ok tt, w).
Proof. intros H. unfold close. by rewrite H. Qed.

(** What is done with a session that was closed: nothing. *)
Record idle (w w' : world X J) : Prop := {
  id_open : w_open w' = w_open w;
  id_flight : w_flight w' = w_flight w;
  id_live : w_live w' ⊆ w_live w;
  id_trace : w_trace w' = w_trace w;
  id_lib : w_lib w' = w_lib w;
}.

Lemma idle_refl (w : world X J) : idle w w.
Proof. done. Qed.

Lemma idle_trans (w1 w2 w3 : world X J) : idle w1 w2 -> idle w2 w3 -> idle w1 w3.
Proof. intros [] []. constructor; try congruence. set_solver. Qed.

Lemma stream_idle {A} (p : nat) (m u : str) (o : RequestOptions) (block : Response -> run (list bytes) -> run A)
    (w w' : world X J) (r : res exn A) :
  w_open w = false -> stream_with guess_type msgspec draws repr_seconds s p m u o block w = (r, w') ->
  is_ok r = false /\ idle w w'.
Proof.
  intros Ho. unfold stream_with. unfold mbind at 1, st_bind at 1, st_lift at 1.
  destruct (session_target u o) as [[t o']|e]; [|by intros [= <- <-]].
  unfold mbind at 1, st_bind at 1. destruct (session_call _ _ _ _ m t o' _ w) as [r1 w1] eqn:E1.
  edestruct @session_call_spec as [j Ej]; [exact E1|subst w1]. destruct r1 as [st|e]; [|by intros [= <- <-]].
  unfold mbind at 1, st_bind at 1. unfold engine_start. unfold mbind at 1, st_bind at 1, st_lift at 1.
  destruct (build_request st) as [q|e]; [|by intros [= <- <-]].
  unfold mbind at 1, st_bind at 1, engine_claim. cbn. rewrite Ho. by intros [= <- <-].
Qed.

Lemma program_closed {A} (p : program A) (open' : streams) (w w' : world X J) (r : res exn A) :
  w_open w = false -> run_program p [] w = (r, open', w') -> idle w w'.
Proof.
  revert open' w w' r. program_cases p; intros open' w w' r Ho H; cbn [run_program] in H.
  - by injection H as <- <- <-.
  - next_program H. assert (idle w v) as T.
    { match goal with E : requests_ _ _ _ _ _ _ = _ |- _ =>
        destruct (requests_closed _ _ _ _ _ _ _ _ _ _ _ _ _ _ Ho E) as (_ & Ht & Hl);
        destruct (requests_balanced _ _ _ _ _ _ _ _ _ _ _ _ _ _ E) as [B1 B2 B3 _] end. by constructor. }
    eapply idle_trans; [exact T|]. eapply IH; [by rewrite (id_open _ _ T)|exact H].
  - unfold session_start_net_log, start_net_log, engine_claim, mbind, st_bind in H. rewrite Ho in H. by eapply IH.
  - unfold session_stop_net_log, stop_net_log, engine_claim, mbind, st_bind in H. rewrite Ho in H. by eapply IH.
  - eapply IH; [exact Ho|exact H].
  - unfold session_close in H. rewrite close_closed in H by done. by eapply IH.
  - next_program H. match goal with E : stream_with _ _ _ _ _ _ _ _ _ _ _ = _ |- _ => apply stream_idle in E as [Hr T]; [|done] end.
    destruct r0 as [[? ?]|e]; [done|]. eapply idle_trans; [exact T|]. eapply IH; [by rewrite (id_open _ _ T)|exact H].
  - destruct i as [|i]; (eapply IH; [exact Ho|exact H]).
Qed.

(** *** A careful block *)

(** A session that has been closed properly. *)
Definition wound_up (w w' : world X J) : Prop :=
  w_open w' = false /\ w_flight w' = 0 /\ w_live w' = ∅
  /\ exists evs, w_trace w' = w_trace w ++ evs ++ [EngineDestroyed] /\ orderly [] evs.

Lemma wound_up_after (w w1 w2 : world X J) : tidy [] w w1 -> wound_up w1 w2 -> wound_up w w2.
Proof.
  intros [_ _ _ (e1 & T1 & O1)] (H1 & H2 & H3 & evs & T & O). split_and!; try done. exists (e1 ++ evs).
  split; [by rewrite T, T1, <- !app_assoc|by apply orderly_app].
Qed.

Lemma wound_up_idle (w w1 w2 : world X J) : wound_up w w1 -> idle w1 w2 -> wound_up w w2.
Proof.
  intros (H1 & H2 & H3 & evs & T & O) [I1 I2 I3 I4 _]. split_and!; [congruence|congruence|set_solver|]. exists evs. by rewrite I4.
Qed.

Lemma close_winds_up (w w' : world X J) (r : res exn unit) :
  w_open w = true -> w_flight w = 0 -> w_live w = ∅ -> close w = (r, w') -> r = Ok tt /\ wound_up w w'.
Proof.
  intros Ho Hf Hl H. destruct (close_cases _ _ _ H Ho) as (H1 & H2 & H3 & H4). rewrite Hf, Hl in *. rewrite elements_empty in H4.
  destruct H4 as [-> T]. split; [done|]. split_and!; try done. exists []. split; [done|constructor].
Qed.

Lemma careful_block {A} (p : program A) (open' : streams) (w w' : world X J) (r : res exn A) :
  careful false p -> w_open w = true -> w_flight w = 0 -> w_live w = ∅ -> run_program p [] w = (r, open', w') ->
  tidy [] w w' \/ wound_up w w'.
Proof.
  revert open' w w' r.
  assert (forall B (p : program B) (open' : streams) (w v w' : world X J) (r : res exn B),
    (forall open' w w' r, w_open w = true -> w_flight w = 0 -> w_live w = ∅ -> run_program p [] w = (r, open', w') ->
       tidy [] w w' \/ wound_up w w') ->
    w_open w = true -> w_flight w = 0 -> w_live w = ∅ -> tidy [] w v -> run_program p [] v = (r, open', w') ->
    tidy [] w w' \/ wound_up w w') as Hnext.
  { intros B p0 open' w v w' r IH Ho Hf Hl T H. destruct T as [T1 T2 T3 T4].
    destruct (IH open' v w' r) as [Ht|Hw]; [congruence|congruence|set_solver|done|left|right].
    - by eapply tidy_trans.
    - by eapply wound_up_after. }
  program_cases p; intros open' w w' r Hc Ho Hf Hl H; cbn [run_program careful] in *.
  - injection H as <- <- <-. left. apply tidy_refl.
  - next_program H. eapply (Hnext _ (k r0) open' w v); try done; [intros; eapply IH; [apply Hc|eassumption..]|by eapply balanced_tidy, requests_balanced].
  - next_program H. eapply (Hnext _ (k r0) open' w v); try done; [intros; eapply IH; [apply Hc|eassumption..]|by eapply start_net_log_tidy].
  - next_program H. eapply (Hnext _ (k r0) open' w v); try done; [intros; eapply IH; [apply Hc|eassumption..]|by eapply stop_net_log_tidy].
  - eapply IH; [apply Hc|done..|exact H].
  - destruct Hc as [_ Hk]. next_program H. match goal with E : session_close w = _ |- _ => apply close_winds_up in E as [_ Hw]; [|done..] end.
    right. eapply wound_up_idle; [exact Hw|]. eapply program_closed; [apply Hw|exact H].
  - destruct Hc as (Ht & Hcb & Hck). pose proof H as Hk. next_program Hk.
    assert (tidy [] w v) as T.
    { destruct r0 as [[r2 open2]|e]; (eapply (inside_tidy (Stream n m u o block (fun r => Done r)) []);
        [by cbn|constructor|cbn [run_program]; match goal with E : stream_with _ _ _ _ _ _ _ _ _ _ _ = _ |- _ => by rewrite E end]). }
    assert (forall r2 open2, r0 = Ok (r2, open2) -> open2 = []) as Hnil.
    { intros r2 open2 ->. assert (reads [] open2) as Hrd; [|by inversion Hrd].
      eapply (program_reads (Stream n m u o block (fun r => Done r)) [] []); [constructor|].
      cbn [run_program]. match goal with E : stream_with _ _ _ _ _ _ _ _ _ _ _ = _ |- _ => by rewrite E end. }
    destruct r0 as [[r2 open2]|e].
    + specialize (Hnil r2 open2 eq_refl) as ->. eapply (Hnext _ (k r2) open' w v); try done. intros; eapply IH; [apply Hck|eassumption..].
    + eapply (Hnext _ (k (Raise e)) open' w v); try done. intros; eapply IH; [apply Hck|eassumption..].
  - destruct i as [|i]; (eapply IH; [apply Hc|done..|exact H]).
Qed.

(** *** Any block *)

(** Nothing of the engine is destroyed. *)
Record calm (w w' : world X J) : Prop := {
  c_open : w_open w' = true -> w_open w = true;
  c_flight : w_flight w <= w_flight w';
  c_trace : exists evs, w_trace w' = w_trace w ++ evs /\ (EngineDestroyed ∉ evs);
}.

(** Or it is, last, with nothing in flight. *)
Definition winds (w w' : world X J) : Prop :=
  calm w w' \/ w_open w' = false /\ w_flight w = 0 /\ w_flight w' = 0
    /\ exists evs, w_trace w' = w_trace w ++ evs ++ [EngineDestroyed] /\ EngineDestroyed ∉ evs.

Lemma calm_refl (w : world X J) : calm w w.
Proof. constructor; try done. exists []. rewrite app_nil_r. split; [done|apply not_elem_of_nil]. Qed.

Lemma tidy_calm (held : list nat) (w w' : world X J) : tidy held w w' -> calm w w'.
Proof.
  intros [T1 T2 _ (evs & T & O)]. constructor; [congruence|lia|]. exists evs. split; [done|by eapply orderly_destroys].
Qed.

Lemma calm_winds (w w1 w2 : world X J) : calm w w1 -> winds w1 w2 -> winds w w2.
Proof.
  intros [A1 A2 (e1 & A3 & A4)] [[B1 B2 (e2 & B3 & B4)]|(B1 & B2 & B3 & e2 & B4 & B5)].
  - left. constructor; [auto|lia|]. exists (e1 ++ e2). split; [by rewrite B3, A3, app_assoc|]. rewrite elem_of_app. naive_solver.
  - right. split_and!; [done|lia|done|]. exists (e1 ++ e2). split; [by rewrite B4, A3, <- !app_assoc|].
    rewrite elem_of_app. naive_solver.
Qed.

Lemma winds_idle (w w1 w2 : world X J) : winds w w1 -> idle w1 w2 -> winds w w2.
Proof.
  intros H [I1 I2 _ I4 _]. destruct H as [[A1 A2 A3]|(B1 & B2 & B3 & B4)]; [left; constructor|right].
  - rewrite I1. exact A1.
  - by rewrite I2.
  - by rewrite I4.
  - rewrite I1, I2, I4. by split_and!.
Qed.

Lemma close_winds (w w' : world X J) (r : res exn unit) :
  close w = (r, w') -> w_open w' = false /\ (calm w w' \/ w_flight w = 0 /\ winds w w').
Proof.
  intros H. destruct (w_open w) eqn:Ho; [|rewrite close_closed in H by done; injection H as _ <-; split; [done|left; apply calm_refl]].
  assert (EngineDestroyed ∉ CallCancelled <$> elements (w_live w)) as Hn by (by intros (c & ? & _)%list_elem_of_fmap).
  destruct (close_cases _ _ _ H Ho) as (H1 & H2 & H3 & H4). split; [done|].
  destruct (Nat.eqb_spec (w_flight w) 0) as [Hz|Hz]; destruct H4 as [_ T]; [right; split; [done|right]|left].
  - split_and!; [done|done|lia|]. by eexists.
  - constructor; [done|lia|]. by eexists.
Qed.

Lemma program_winds {A} (p : program A) (held : list nat) (open open' : streams) (w w' : world X J) (r : res exn A) :
  reads held open -> length held <= w_flight w -> run_program p open w = (r, open', w') -> winds w w'.
Proof.
  revert held open open' w w' r. program_cases p; intros held open open' w w' r Hr Hn H; cbn [run_program] in H.
  - injection H as <- <- <-. left. apply calm_refl.
  - next_program H. assert (calm w v) as T by by eapply (tidy_calm []), balanced_tidy, requests_balanced.
    eapply calm_winds; [exact T|]. eapply (IH _ held); [exact Hr| |exact H]. destruct T. lia.
  - next_program H. assert (calm w v) as T by by eapply (tidy_calm []), start_net_log_tidy.
    eapply calm_winds; [exact T|]. eapply (IH _ held); [exact Hr| |exact H]. destruct T. lia.
  - next_program H. assert (calm w v) as T by by eapply (tidy_calm []), stop_net_log_tidy.
    eapply calm_winds; [exact T|]. eapply (IH _ held); [exact Hr| |exact H]. destruct T. lia.
  - eapply (IH _ held); [exact Hr|exact Hn|exact H].
  - next_program H. match goal with E : session_close w = _ |- _ => apply close_winds in E as [Ho [T|[Hz Hw]]] end.
    + eapply calm_winds; [exact T|]. eapply (IH _ held); [exact Hr| |exact H]. destruct T. lia.
    + assert (open = []) as ->. { destruct Hr; [done|]. cbn in Hn. lia. }
      eapply winds_idle; [exact Hw|]. by eapply program_closed.
  - pose proof H as Hk. next_program Hk. match goal with E : stream_with _ _ _ _ _ _ _ _ _ _ _ = _ |- _ => rename E into Es end.
    assert (calm w v) as T.
    { pose proof (stream_cases _ _ _ _ _ _ _ _ Es) as Hs. clear Es H Hk.
      destruct Hs as [e _ T L F O|c q e _ _ T L F O|c q evs post w1 w2 w3 T1 L1 F1 O1 Hq Hrun O L F T Hp].
      - constructor; [congruence|lia|]. exists []. rewrite app_nil_r. split; [done|apply not_elem_of_nil].
      - constructor; [congruence|lia|]. exists [CallStarted c q]. split; [done|]. by intros [?|?%elem_of_nil]%elem_of_cons.
      - pose proof (quiet_tidy [c] c evs w1 w2 ltac:(by left) Hq) as Tq. assert (calm w2 w3) as T2.
        { destruct Hrun as [[_ ->]|(resp & t & Hrun)]; [apply calm_refl|].
          destruct (run_program (block resp) _ w2) as [[r3 open3] v3] eqn:E. injection Hrun as _ <-.
          assert (length (c :: held) <= w_flight w2) as Hlen by (destruct Tq; cbn; lia).
          destruct (IHb resp (c :: held) _ _ _ _ _ (reads_more held open c n t Hr) Hlen E) as [?|(_ & Hz & _)]; [done|].
          cbn in Hlen. lia. }
        destruct (calm_winds _ _ _ (tidy_calm _ _ _ Tq) (or_introl T2)) as [[C1 C2 (e3 & C3 & C4)]|(_ & Hz & _)]; [|lia].
        constructor; [rewrite O, <- O1; exact C1|lia|].
        exists (CallStarted c q :: e3 ++ post ++ [CallFreed c]). split; [rewrite T, C3, T1; by rewrite <- !app_assoc|].
        assert (EngineDestroyed ∉ post) as Hpn by (by eapply orderly_destroys, (orderly_uses [c]); [left|exact Hp]).
        rewrite elem_of_cons, !elem_of_app, list_elem_of_singleton. naive_solver. }
    eapply calm_winds; [exact T|]. assert (length held <= w_flight v) as Hv by (destruct T; lia).
    destruct r0 as [[r2 open2]|e]; [|by eapply (IH _ held)]. eapply (IH _ held); [|exact Hv|exact Hk].
    eapply (program_reads (Stream n m u o block (fun r => Done r)) held open); [exact Hr|]. cbn [run_program]. by rewrite Es.
  - destruct (open !! i) as [[body|]|] eqn:Ei; [|eapply (IH _ held); [exact Hr|exact Hn|exact H]..].
    next_program H. destruct (reads_at _ _ _ _ Hr Ei) as (c & Hin & Hq).
    match goal with E : body w = _ |- _ => destruct (Hq _ _ _ E) as (evs & Hqt & _) end.
    pose proof (tidy_calm _ _ _ (quiet_tidy _ _ _ _ _ Hin Hqt)) as T. eapply calm_winds; [exact T|].
    eapply (IH _ held); [by apply reads_done| |exact H]. destruct T. lia.
Qed.


(** Closing twice is closing once. *)
Lemma close_idempotent (w w' : world X J) (r : res exn unit) :
  close w = (r, w') -> close w' = (Ok tt, w').
Proof. intros H. apply close_closed. by apply close_winds in H as [H _]. Qed.

(** A thread that closes the session while it holds a call of its own waits
    for itself: only an interruption ends the wait, and the engine is not
    destroyed. *)
Lemma close_with_call_waits (w w' : world X J) (r : res exn unit) :
  w_open w = true -> 0 < w_flight w -> close w = (r, w') -> r = Raise Interrupted.
Proof.
  intros Ho Hf H. destruct (close_cases _ _ _ H Ho) as (_ & _ & _ & H4). destruct (Nat.eqb_spec (w_flight w) 0); [lia|]. apply H4.
Qed.
End lifecycle.

(** ** A session's life *)

(** A request made, and a log stopped, while a stream is open; the session
    closed before the block ends. *)
Definition busy_block : program nat :=
  StartNetLog #"/tmp/log" false (fun _ =>
  Stream 10 #"GET" #"https://h/" no_options
    (fun _ => ReadBody 0 (fun pieces =>
              MakeRequest true 10 #"GET" #"https://h/" no_options (fun r =>
              StopNetLog (fun _ =>
              Done (Ok (match pieces, r with Ok l, Ok _ => length l | _, _ => 0 end))))))
    (fun r => CloseSession (fun _ => Done r))).

Definition too_late : program bool := AskClosed (fun c => StopNetLog (fun r => Done (Ok (c && negb (is_ok r))))).

(** A session closed inside the block of a stream of its own never gets there:
    the stream's call is in flight until the block is left. *)
Definition stuck_block : program unit := Stream 10 #"GET" #"https://h/" no_options (fun _ => CloseSession (fun r => Done r)) (fun r => Done r).

Abbreviation life_world := (plain_world None).
Abbreviation do_block p := (with_session true (run_block guess0 None draws0 repr0 jar0 strict_session p) life_world).
Abbreviation do_after w := (run_block guess0 None draws0 repr0 jar0 strict_session too_late w).


Lemma close_inside_stream :
  (do_block stuck_block).1 = Raise Interrupted /\ EngineDestroyed ∉ w_trace (do_block stuck_block).2.
Proof. split; [vm_compute; reflexivity|]. intros H. vm_compute in H. repeat (apply elem_of_cons in H as [H|H]; [done|]). by apply elem_of_nil in H. Qed.
