(* ===== verification/Opening.v ===== *)
(** * Opening: from the arguments of a session to Chromium's configuration.

    Session.v gives the settings of a session, Bridge.v the struct they are
    marshalled into and Capi.v what the C++ code does with it.  Here the three
    are composed: which engine a session gets, and why one is refused.  What
    the library does of this is the class [NativeEngine]. *)

From S2P Require Import Prelude Unicode PyText PyUrl Headers Types Errors Json Tls Abi Floats.
From S2P Require Import Cookies Options.
From S2P Require Import Multipart Request Native Call Bridge Waiting Session Capi.

(** A library whose engines are made by [cronet_engine_create]. *)
Class NativeEngine (X : Type) `{LX : Library X} `{CH : Chromium} := {
  reason : X -> bytes;                       (* [g_last_error] of the thread *)
  current_engine : X -> option (Engine CH);  (* the last one created *)
  creates : forall config x,
    cronet_engine_create (Some (c_config config)) (reason x)
    = (if (lib_engine_create config x).1 then current_engine (lib_engine_create config x).2 else None,
       reason (lib_engine_create config x).2)
    /\ ((lib_engine_create config x).1 = true -> current_engine (lib_engine_create config x).2 <> None);
  reads_reason : forall x, lib_last_error x = cronet_last_error (reason x);
}.

(** No NUL where the library would stop reading. *)
Record settings_nul_free (s : EngineSettings) : Prop := {
  nf_user_agent : 0%N ∉ set_user_agent s;
  nf_accept_language : 0%N ∉ set_accept_language s;
  nf_experimental_options : 0%N ∉ set_experimental_options s;
  nf_storage_path : 0%N ∉ set_storage_path s;
  nf_proxy_rules : 0%N ∉ set_proxy_rules s;
  nf_proxy_bypass_rules : 0%N ∉ set_proxy_bypass_rules s;
  nf_proxy_username : 0%N ∉ set_proxy_username s;
  nf_proxy_password : 0%N ∉ set_proxy_password s;
  nf_quic_hints : Forall (fun h : str * Z => 0%N ∉ h.1) (set_quic_hints s);
}.

(** Numbers that fit the C ints they end up in. *)
Definition fits_int (z : Z) : Prop := (-2147483648 <= z < 2147483648)%Z.

Record settings_fit (s : EngineSettings) : Prop := {
  fit_cache : fits_int (set_cache_max_bytes s);
  fit_ports : Forall (fun h : str * Z => fits_int h.2) (set_quic_hints s);
}.

Section opening.
Context {CH : Chromium}.

(** What Chromium is configured with, said of the settings. *)
Definition builder_for (s : EngineSettings) : ContextBuilder := {|
  b_enable_quic := set_enable_quic s;
  b_enable_spdy := set_enable_http2 s;
  b_enable_brotli := set_enable_brotli s;
  b_user_agent := encode (set_user_agent s);
  b_accept_language := encode (set_accept_language s);
  b_storage_path := encode (set_storage_path s);
  b_experimental_options :=
    if nonempty (set_experimental_options s) then Some (encode (set_experimental_options s)) else None;
  b_http_cache :=
    if (set_cache_mode s =? CACHE_DISABLED)%Z then DISABLED
    else if (set_cache_mode s =? CACHE_IN_MEMORY)%Z then MEMORY else DISK;
  b_http_cache_max_size := set_cache_max_bytes s;
|}.

(** The rules a proxy is configured from, if any. *)
Definition rules_for (s : EngineSettings) : option ProxyRules :=
  if nonempty (set_proxy_rules s) then Some (ParseProxyRules (encode (set_proxy_rules s))) else None.

(** Why no engine is made for these settings. *)
Definition refusal (s : EngineSettings) : option bytes :=
  if (set_cache_mode s =? CACHE_ON_DISK)%Z && negb (nonempty (set_storage_path s)) then Some no_storage
  else match Build (builder_for s) with
       | None => Some bad_options
       | Some _ =>
           if from_option rules_empty false (rules_for s)
           then Some (bad_proxy_rules ++ encode (set_proxy_rules s)) else None
       end.

Definition all_chains (r : ProxyRules) : list ProxyChain :=
  single_proxies r ++ proxies_for_http r ++ proxies_for_https r ++ fallback_proxies r.

(** A hint's port, both the one asked for and the one offered; 443 for none. *)
Definition hint_for (h : str * Z) : QuicHint :=
  let port := if (h.2 <=? 0)%Z then 443%Z else h.2 in mkHint (encode h.1) port port.

(** The engine the settings describe. *)
Record engine_for (s : EngineSettings) (e : Engine CH) : Prop := {
  for_context : Build (builder_for s) = Some (context e);
  for_hints : context_hints e = hint_for <$> set_quic_hints s;
  for_proxy : rules <$> pending_proxy e = rules_for s;
  for_bypass : forall p, pending_proxy e = Some p ->
    default [] (bypass_rules p) = encode (set_proxy_bypass_rules s);
  (* the authentication cache is given the credentials for the http and https
     proxies of the rules, and for no other *)
  for_auth : forall entry, entry ∈ auth_cache e <->
    set_proxy_username s <> []
    /\ exists r server, rules_for s = Some r /\ Single server ∈ all_chains r
       /\ is_http server || is_https server = true
       /\ entry = mkAuth (mkOrigin (if is_https server then blit "https" else blit "http")
                            (server_host server) (server_port server))
                    (UTF8ToUTF16 (encode (set_proxy_username s))) (UTF8ToUTF16 (encode (set_proxy_password s)));
  for_idle : live_calls e = ∅ /\ is_shutting_down e = false /\ is_net_logging e = false;
}.

(** ** Lemmas *)

Lemma as_bytes_ok (s : str) (b : bytes) : as_bytes s = Ok b -> Forall scalar s /\ b = encode s.
Proof. unfold as_bytes. destruct s as [|c s]; [by intros [= <-]|]. apply encode_strict_ok. Qed.

Lemma as_bytes_reads (s : str) (b : bytes) : 0%N ∉ s -> as_bytes s = Ok b -> c_string b = encode s.
Proof. intros H0 H. apply as_bytes_ok in H as [Hs ->]. by apply utf8_whole. Qed.

Lemma hints_read (hs : list (str * Z)) (l : list (bytes * Z * Z)) :
  Forall (fun h : str * Z => 0%N ∉ h.1) hs -> res_map native_hint hs = Ok l ->
  l = (fun '(h, p) => (encode h, to_int32 p, to_int32 p)) <$> hs.
Proof.
  intros H0 H. apply res_map_ok in H. induction H as [|[h p] y hs l Hy Hl IH]; [done|].
  apply Forall_cons in H0 as [H1 H2]. cbn. rewrite <- IH by done. f_equal.
  unfold native_hint in Hy. apply res_bind_ok in Hy as (b & Hb & [= <-]). cbn [fst snd] in *.
  apply encode_strict_ok in Hb as [Hs ->]. by rewrite utf8_whole.
Qed.

Lemma to_int64_id (z : Z) : fits_int z -> to_int64 z = z.
Proof.
  unfold fits_int, to_int64. intros H. change 18446744073709551615%Z with (Z.ones 64).
  rewrite Z.land_ones, Z.mod_small by lia. lia.
Qed.

Lemma hints_fit (hs : list (str * Z)) :
  Forall (fun h : str * Z => fits_int h.2) hs ->
  ((fun '(h, p) => mkHint (encode h) (port_or_default (to_int32 p)) (port_or_default (to_int32 p))) <$> hs)
  = (hint_for <$> hs).
Proof.
  intros H. induction H as [|[h p] hs Hp Hhs IH]; [done|]. rewrite !fmap_cons, IH. f_equal.
  cbn [snd] in Hp. unfold hint_for, port_or_default. cbn [fst snd]. rewrite to_int32_id by done.
  destruct (Z.ltb_spec 0 p), (Z.leb_spec p 0); done || lia.
Qed.

(** What [cronet_engine_create] is given. *)
Lemma config_reads (s : EngineSettings) (config : NativeConfig) :
  settings_nul_free s -> build_engine_config s = Ok config ->
  engine_config (c_config config) = {|
    user_agent := encode (set_user_agent s);
    accept_language := encode (set_accept_language s);
    experimental_options := encode (set_experimental_options s);
    storage_path := encode (set_storage_path s);
    proxy_rules := encode (set_proxy_rules s);
    proxy_bypass_rules := encode (set_proxy_bypass_rules s);
    proxy_username := encode (set_proxy_username s);
    proxy_password := encode (set_proxy_password s);
    enable_quic := set_enable_quic s;
    enable_http2 := set_enable_http2 s;
    enable_brotli := set_enable_brotli s;
    cache_mode := to_int32 (set_cache_mode s);
    cache_max_bytes := to_int64 (set_cache_max_bytes s);
    quic_hints := (fun '(h, p) => mkHint (encode h) (port_or_default (to_int32 p)) (port_or_default (to_int32 p)))
                    <$> set_quic_hints s |}.
Proof.
  intros [N1 N2 N3 N4 N5 N6 N7 N8 N9] H. unfold build_engine_config in H.
  repeat (let v := fresh "v" in let E := fresh "E" in apply res_bind_ok in H as (v & E & H)).
  injection H as <-. unfold engine_config, c_config.
  cbn [ToString default from_option id c_user_agent c_accept_language c_experimental_options c_storage_path
    c_proxy_rules c_proxy_bypass_rules c_proxy_username c_proxy_password c_enable_quic c_enable_http2
    c_enable_brotli c_cache_mode c_cache_max_bytes c_quic_hints cfg_user_agent cfg_accept_language
    cfg_experimental_options cfg_storage_path cfg_proxy_rules cfg_proxy_bypass_rules cfg_proxy_username
    cfg_proxy_password cfg_enable_quic cfg_enable_http2 cfg_enable_brotli cfg_cache_mode cfg_cache_max_bytes
    cfg_quic_hints].
  rewrite !int_of_bool_set, hints_of_set. f_equal; try (by eapply as_bytes_reads).
  match goal with E : res_map native_hint _ = Ok _ |- _ => rewrite (hints_read _ _ N9 E) end.
  rewrite <- list_fmap_compose. apply list_fmap_ext. by intros i [h p] _.
Qed.

Lemma elem_of_auth (chains : list ProxyChain) (o : SchemeHostPort) :
  o ∈ CollectHttpProxies chains <->
  exists server, Single server ∈ chains /\ is_http server || is_https server = true
    /\ o = mkOrigin (if is_https server then blit "https" else blit "http") (server_host server) (server_port server).
Proof.
  unfold CollectHttpProxies. rewrite list_elem_of_omap. split.
  - intros ([|server|servers] & Hin & H); [done| |done].
    destruct (_ || _) eqn:E; [|done]. injection H as <-. by exists server.
  - intros (server & Hin & E & ->). exists (Single server). by rewrite E.
Qed.

Lemma elem_of_preload (r : ProxyRules) (user password : bytes) (entry : AuthEntry) :
  entry ∈ PreloadProxyCredentials r user password <->
  exists server, Single server ∈ all_chains r /\ is_http server || is_https server = true
    /\ entry = mkAuth (mkOrigin (if is_https server then blit "https" else blit "http")
                         (server_host server) (server_port server)) (UTF8ToUTF16 user) (UTF8ToUTF16 password).
Proof.
  unfold PreloadProxyCredentials, all_chains. rewrite list_elem_of_fmap. split.
  - intros (o & -> & Hin). rewrite !elem_of_app, !elem_of_auth in Hin.
    destruct Hin as [(v & H & ? & ->)|[(v & H & ? & ->)|[(v & H & ? & ->)|(v & H & ? & ->)]]];
      exists v; rewrite !elem_of_app; tauto.
  - intros (server & Hin & E & ->). eexists. split; [reflexivity|].
    rewrite !elem_of_app in *. rewrite !elem_of_auth. naive_solver.
Qed.

(** [Engine::Create] on the settings of a session. *)
Lemma create_for (s : EngineSettings) (config : NativeConfig) :
  settings_nul_free s -> settings_fit s -> build_engine_config s = Ok config ->
  set_cache_mode s ∈ [CACHE_DISABLED; CACHE_IN_MEMORY; CACHE_ON_DISK] ->
  match refusal s with
  | Some why => Engine_Create (engine_config (c_config config)) = Raise why
  | None => exists e, Engine_Create (engine_config (c_config config)) = Ok e /\ engine_for s e
  end.
Proof.
  intros Hn [Hcache Hports] Hb Hm. unfold Engine_Create. rewrite (config_reads s config Hn Hb).
  rewrite to_int64_id, hints_fit by done.
  assert (to_int32 (set_cache_mode s) = set_cache_mode s) as Em.
  { apply to_int32_id. rewrite !elem_of_cons, elem_of_nil in Hm. unfold CACHE_DISABLED, CACHE_IN_MEMORY, CACHE_ON_DISK in Hm. lia. }
  match goal with |- context [builder_of ?c] => set (config' := c) end.
  assert (cache_of_mode config'
          = if (set_cache_mode s =? CACHE_ON_DISK)%Z && negb (nonempty (set_storage_path s)) then Raise no_storage
            else Ok (b_http_cache (builder_for s))) as ->.
  { unfold cache_of_mode, builder_for. cbn [config' cache_mode storage_path b_http_cache]. rewrite Em, encode_nonempty.
    rewrite !elem_of_cons, elem_of_nil in Hm. destruct Hm as [->|[->|[->|[]]]]; [done|done|].
    by destruct (nonempty (set_storage_path s)). }
  assert (builder_of config' (b_http_cache (builder_for s)) = builder_for s) as Eb.
  { unfold builder_of, builder_for. cbn. by rewrite encode_nonempty, to_int32_id. }
  unfold refusal. destruct (_ && _); [done|]. cbn [mbind res_bind]. rewrite Eb.
  destruct (Build (builder_for s)) as [ctx|] eqn:Ec; [|done].
  unfold proxy_of. cbn [config' proxy_rules proxy_bypass_rules proxy_username proxy_password quic_hints].
  rewrite !encode_nonempty. unfold rules_for. destruct (nonempty (set_proxy_rules s)) eqn:Er; cbn [from_option].
  - destruct (rules_empty _) eqn:Ee; [done|]. cbn [mbind res_bind]. eexists. split; [done|].
    constructor; cbn [context context_hints pending_proxy auth_cache live_calls is_shutting_down is_net_logging]; try done.
    + cbn. unfold rules_for. by rewrite Er.
    + intros p [= <-]. cbn. destruct (set_proxy_bypass_rules s) eqn:E; [done|]. done.
    + intros entry. unfold rules_for. rewrite Er. cbn [rules].
      destruct (set_proxy_username s) eqn:Eu; cbn [nonempty].
      * split; [by intros ?%elem_of_nil|by intros []].
      * rewrite elem_of_preload. naive_solver.
  - cbn [mbind res_bind]. eexists. split; [done|].
    constructor; cbn [context context_hints pending_proxy auth_cache live_calls is_shutting_down is_net_logging]; try done.
    + cbn. unfold rules_for. by rewrite Er.
    + intros entry. unfold rules_for. rewrite Er. split; [by intros ?%elem_of_nil|by intros (_ & ? & ? & ? & _)].
Qed.

Lemma refusal_text (s : EngineSettings) (why : bytes) :
  refusal s = Some why -> NUL ∉ encode (set_proxy_rules s) ->
  (NUL ∉ why) /\ nonempty (decode_replace (take (kLastErrorSize - 1) why)) = true.
Proof.
  unfold refusal. intros H Hn.
  destruct (_ && _).
  { injection H as <-. split; [apply (bool_decide_unpack _); vm_compute; exact I|done]. }
  destruct (Build _); [|injection H as <-; split; [apply (bool_decide_unpack _); vm_compute; exact I|done]].
  destruct (from_option _ _ _); [|done].
  assert (why = bad_proxy_rules ++ encode (set_proxy_rules s)) as -> by congruence. split; [|done].
  intros [Hin|Hin]%elem_of_app; [|done]. revert Hin. apply (bool_decide_unpack _). vm_compute. exact I.
Qed.
End opening.

Section session.
Context {X J : Type} {LX : Library X} {CH : Chromium} {NE : NativeEngine X}.
Context (msgspec : option (json -> bytes)) (version : res exn str) (empty_jar : J).

(** What is asked of the arguments before anything of the library is. *)
Definition admissible (args : SessionArgs J) : Prop :=
  check_headers (arg_headers args) (#"the session") = Ok tt
  /\ arg_require_http3 args && (negb (arg_http3 args) || without_datagrams (arg_proxy args)) = false.

Lemma settings_rules (args : SessionArgs J) (s : EngineSettings) :
  engine_settings msgspec version args = Ok s ->
  with_proxy_credentials (default [] (arg_proxy args)) (default [] (arg_proxy_username args))
    (default [] (arg_proxy_password args)) = Ok (set_proxy_rules s).
Proof.
  unfold engine_settings. intros H.
  apply res_bind_ok in H as (ua & _ & H). apply res_bind_ok in H as (e & _ & H).
  apply res_bind_ok in H as (r & -> & H). apply res_bind_ok in H as (c & _ & [= <-]). done.
Qed.

End session.

(** ** At a concrete library *)

(** The library of one thread: its last engine and its reason. *)
Record opened := mkOpened { op_engine : option (Engine sample_chromium); op_reason : bytes }.

#[export] Instance opened_library : Library opened := {
  lib_engine_create config x :=
    let '(engine, g) := cronet_engine_create (Some (c_config config)) (op_reason x) in
    (match engine with Some _ => true | None => false end, mkOpened engine g);
  lib_engine_destroy x := x;
  lib_start_net_log _ _ x := (0%Z, x);
  lib_stop_net_log x := x;
  lib_last_error x := cronet_last_error (op_reason x);
  lib_call_start _ x := (None, x);
  lib_call_state_of _ x := (CALL_DONE, x);
  lib_call_response _ x := (None, x);
  lib_call_read _ _ x := (None, x);
  lib_drain_fd _ x := x;
  lib_poll_fd _ _ x := (true, x);
  lib_call_wait _ _ x := (true, x);
  lib_call_cancel _ x := x;
  lib_call_free _ x := x;
  monotonic x := (SpecFloat.S754_zero false, x);
  await_fd _ _ x := (Ok tt, x);
}.

Lemma opened_creates (config : NativeConfig) (x : opened) :
  cronet_engine_create (Some (c_config config)) (op_reason x)
  = (if (lib_engine_create config x).1 then op_engine (lib_engine_create config x).2 else None,
     op_reason (lib_engine_create config x).2)
  /\ ((lib_engine_create config x).1 = true -> op_engine (lib_engine_create config x).2 <> None).
Proof.
  unfold lib_engine_create, opened_library.
  by destruct (cronet_engine_create (Some (c_config config)) (op_reason x)) as [[e|] g].
Qed.

#[export] Instance opened_native : NativeEngine opened :=
  Build_NativeEngine opened _ _ op_reason op_engine opened_creates (fun _ => eq_refl).

Definition proxied_args (cache proxy : str) : SessionArgs unit :=
  mkArgs HeadersNone (Some proxy) None (Some (#"user")) (Some (#"secret")) (Some (#"ua")) None
    true true false (Some [HintHostPort (#"h") 0%Z]) true NoCookies cache 0%Z None None 20 None [].

(** The settings and the struct these arguments give, with what is known of them. *)
Ltac settings_of args Ha Hs Hb Hn Hf :=
  let r := eval vm_compute in (engine_settings None (Ok []) args) in
  match r with
  | Ok ?s =>
      let config := fresh in
      destruct (build_engine_config s) as [config|?] eqn:Hb; [|exfalso; vm_compute in Hb; discriminate Hb];
      assert (admissible args) as Ha by (split; reflexivity);
      assert (settings_nul_free s) as Hn by (constructor; apply (bool_decide_unpack _); vm_compute; exact I);
      assert (settings_fit s) as Hf
        by (constructor; [|repeat constructor]; unfold fits_int; cbn [set_cache_max_bytes snd]; lia);
      assert (engine_settings None (Ok []) args = Ok s) as Hs by (vm_compute; reflexivity)
  end.

