(* ===== verification/Observer.v ===== *)
(** * Observer: what the network thread records of a request
    ([RequestObserver] of native/call.cc), and redirects on both sides.

    A handler runs on the observer of one request: it records what it is told
    in the [CallState] and posts tasks to the request.  Where the owner reads
    between two effects of a handler, Native.v and Call.v have the order of
    them; here a handler runs whole.  The theorem is about the two ways a
    session follows redirects, natively or hop by hop with a jar: against the
    same server they agree, if Chromium redirects as it is documented to. *)

From S2P Require Import Prelude Unicode PyText PyUrl Headers Types Errors Json Abi Cookies.
From S2P Require Import Options.
From S2P Require Import Multipart Request Redirect Native Bridge Capi.

(** ** The handlers *)

(** What Chromium tells of a response. *)
Record Answer := mkAnswer {
  an_status_code : Z;
  an_status_text : bytes;
  an_headers : list (bytes * bytes);
  an_was_cached : bool;
  an_negotiated_protocol : bytes;
  an_proxy_server : bytes;
}.

(** A task posted to the request. *)
Inductive post :=
| PostRead
| PostFollow
| PostDestroy (send_on_canceled : bool).

#[export] Instance post_eq_dec : EqDecision post.
Proof. solve_decision. Defined.

Record observer := mkObserver {
  state : CallState;
  max_redirects_ : Z;
  redirect_count_ : Z;
}.

Definition with_state (o : observer) (s : CallState) : observer :=
  mkObserver s (max_redirects_ o) (redirect_count_ o).

Definition with_view (v : NativeResponse) (s : CallState) : CallState :=
  mkState (body_ s) (body_offset_ s) (body_complete_ s) (read_paused_ s) (outcome_claimed_ s)
    (state_ s) (finished_ s) (completion_fd_ s) v (destroy_requested_ s).

(** [set_initial_url] and [OnRedirect] *)
Definition set_final_url (url : bytes) (s : CallState) : CallState :=
  let v := view_ s in
  with_view (mkNative (nr_status_code v) (nr_status_text v) (nr_headers v) (nr_negotiated_protocol v)
    (nr_proxy_server v) url (nr_redirect_count v) (nr_was_cached v) (nr_error_code v) (nr_error_message v)
    (nr_metrics v)) s.

Definition set_redirect_count (count : Z) (s : CallState) : CallState :=
  let v := view_ s in
  with_view (mkNative (nr_status_code v) (nr_status_text v) (nr_headers v) (nr_negotiated_protocol v)
    (nr_proxy_server v) (nr_final_url v) count (nr_was_cached v) (nr_error_code v) (nr_error_message v)
    (nr_metrics v)) s.

(** [set_metrics]: the last word goes to whoever published the outcome. *)
Definition set_metrics (metrics : NativeMetrics) (s : CallState) : CallState :=
  if is_finished s then s
  else
    let v := view_ s in
    with_view (mkNative (nr_status_code v) (nr_status_text v) (nr_headers v) (nr_negotiated_protocol v)
      (nr_proxy_server v) (nr_final_url v) (nr_redirect_count v) (nr_was_cached v) (nr_error_code v)
      (nr_error_message v) metrics) s.

(** The whole of [CallState::OnResponse]. *)
Definition publish (a : Answer) (s : CallState) : CallState :=
  let v := view_ s in
  SignalProgress (OnResponse
    (mkNative (an_status_code a) (an_status_text a) (an_headers a) (an_negotiated_protocol a) (an_proxy_server a)
       (nr_final_url v) (nr_redirect_count v) (int_of_bool (an_was_cached a)) (nr_error_code v) (nr_error_message v)
       (nr_metrics v)) s).

(** The whole of [CallState::Finish]. *)
Definition finish (code : Z) (message : bytes) (s : CallState) : CallState :=
  if outcome_claimed_ s then s else SignalProgress (Finish code message s).

(** [ReadData], [FollowRedirect] and [DestroyRequest]: what each posts. *)
Definition read_data (s : CallState) : list post := if destroy_requested_ s then [] else [PostRead].
Definition follow_redirect (s : CallState) : list post := if destroy_requested_ s then [] else [PostFollow].
Definition destroy (send_on_canceled : bool) (s : CallState) : list post * CallState :=
  if destroy_requested_ s then ([], s) else ([PostDestroy send_on_canceled], DestroyRequest s).

Definition limit_reached : bytes := blit "redirect limit reached at ".
Definition was_cancelled : bytes := blit "the call was cancelled".
Definition no_result : bytes := blit "the call ended without a result".

Definition OnReceivedRedirect (location : bytes) (a : Answer) (o : observer) : list post * observer :=
  if (max_redirects_ o <=? redirect_count_ o)%Z then
    let s := set_redirect_count (redirect_count_ o) (publish a (state o)) in
    let s := if (max_redirects_ o =? 0)%Z then finish 0 [] s
             else finish ERROR_TOO_MANY_REDIRECTS (limit_reached ++ location) s in
    let '(posted, s) := destroy false s in
    (posted, with_state o s)
  else
    let s := set_final_url location (state o) in
    (follow_redirect s, mkObserver s (max_redirects_ o) (redirect_count_ o + 1)).

Definition OnResponseStarted (a : Answer) (o : observer) : list post * observer :=
  let s := set_redirect_count (redirect_count_ o) (publish a (state o)) in
  (read_data s, with_state o s).

Definition OnReadCompleted (data : bytes) (o : observer) : list post * observer :=
  let '(keep_reading, s) := OnData data (state o) in
  let s := SignalProgress s in
  (if keep_reading then read_data s else [], with_state o s).

Definition OnSucceeded (o : observer) : list post * observer :=
  let '(posted, s) := destroy false (finish 0 [] (state o)) in (posted, with_state o s).

(** [net_text] is [net::ErrorToString(net_error)]. *)
Definition OnError (net_text : Z -> bytes) (net_error : Z) (error_string : bytes) (o : observer) : list post * observer :=
  let message := if nonempty error_string then error_string else net_text net_error in
  let '(posted, s) := destroy false (finish net_error message (state o)) in (posted, with_state o s).

Definition OnCanceled (o : observer) : observer :=
  with_state o (finish ERROR_ABORTED was_cancelled (state o)).

(** The rest of [OnDestroyed] lets go of the call: see Teardown.v. *)
Definition OnDestroyed (o : observer) : observer :=
  with_state o (finish ERROR_ABORTED no_result (state o)).

(** The timings of a request, as Chromium reports them. *)
Record Timings (T : Type) := mkTimings {
  request_start : T;
  dns_start : T;
  dns_end : T;
  connect_start : T;
  connect_end : T;
  ssl_start : T;
  ssl_end : T;
  send_start : T;
  send_end : T;
  receive_headers_end : T;
  request_end : T;
}.
Arguments mkTimings {T}.
Arguments request_start {T}.
Arguments dns_start {T}.
Arguments dns_end {T}.
Arguments connect_start {T}.
Arguments connect_end {T}.
Arguments ssl_start {T}.
Arguments ssl_end {T}.
Arguments send_start {T}.
Arguments send_end {T}.
Arguments receive_headers_end {T}.
Arguments request_end {T}.

(** [to_epoch_us] is Cronet's conversion, relative to the request's start. *)
Definition OnMetricsCollected {T} (to_epoch_us : T -> Z) (t : Timings T) (socket_reused : bool)
    (sent_bytes_count received_bytes_count : Z) (o : observer) : observer :=
  with_state o (set_metrics
    (mkNativeMetrics (to_epoch_us (request_start t)) (to_epoch_us (dns_start t)) (to_epoch_us (dns_end t))
       (to_epoch_us (connect_start t)) (to_epoch_us (connect_end t)) (to_epoch_us (ssl_start t))
       (to_epoch_us (ssl_end t)) (to_epoch_us (send_start t)) (to_epoch_us (send_end t))
       (to_epoch_us (receive_headers_end t)) (to_epoch_us (request_end t)) sent_bytes_count received_bytes_count
       (int_of_bool socket_reused)) (state o)).

(** The observer [StartCall] makes. *)
Definition observer_init (url : bytes) (max_redirects : Z) : observer :=
  mkObserver (set_final_url url CallState_init) (redirect_limit_of max_redirects) 0.

(** ** Redirects, followed natively *)

(** What a server sees of a request: its method, its URL and what its body is
    made of. *)
Abbreviation asked := (str * str * (option FileContent * option (list (str * str)) * option (list (str * FileSpec)) * json))%type.

Definition seen (h : hop) : asked := (h.1, bodies h.2).

Section network.
(** The servers, and where Chromium goes from an answer. *)
Context (server : asked -> Answer) (chromium : asked -> Answer -> option asked).

(** The callbacks of a request left to itself: a redirect is followed when the
    observer posts that, and otherwise the request is destroyed.  One round
    more than the limit is enough. *)
Fixpoint follow_natively (rounds : nat) (x : asked) (o : observer) : option observer :=
  match rounds with
  | O => None
  | S rounds =>
      match chromium x (server x) with
      | Some x' =>
          let '(posted, o) := OnReceivedRedirect (encode x'.1.2) (server x) o in
          if bool_decide (PostFollow ∈ posted) then follow_natively rounds x' o else Some (OnDestroyed o)
      | None => Some (OnDestroyed (OnSucceeded (OnResponseStarted (server x) o).2).2)
      end
  end.

(** What Python then reads of the call. *)
Definition native_result (rounds : nat) (x : asked) (max_redirects : Z) : option (res exn RawResponse) :=
  (fun o => read_response (response (state o)) x.1.2)
  <$> follow_natively rounds x (observer_init (encode x.1.2) max_redirects).

(** ** Redirects, one hop at a time *)

(** [perform] of the sessions' loop: each hop is a call that follows nothing. *)
Definition perform_hop {J} (h : hop) : st J exn Response := fun jar =>
  (match native_result 1 (seen h) 0 with
   | Some r => (fun raw => from_raw raw []) <$> r
   | None => Raise Interrupted
   end, jar).
End network.

(** The answer as the response of a call to [url] that followed [count]. *)
Definition answer_view (url : bytes) (count : Z) (a : Answer) : NativeResponse :=
  mkNative (an_status_code a) (an_status_text a) (an_headers a) (an_negotiated_protocol a) (an_proxy_server a)
    url count (int_of_bool (an_was_cached a)) 0 [] (nr_metrics no_view).

Definition answer_raw (url : str) (count : Z) (a : Answer) : res exn RawResponse :=
  read_response (Some (answer_view (encode url) count a)) url.

(** ** What is known of the other side *)

(** The codes Chromium takes for a redirect. *)
Definition REDIRECT_CODES : list Z := [301; 302; 303; 307; 308]%Z.

(** net/url_request/redirect_info.cc: the method after a redirect. *)
Definition redirected_method (status : Z) (m : str) : str :=
  if ((status =? 303)%Z && negb (bool_decide (m = #"HEAD")))
     || (((status =? 301)%Z || (status =? 302)%Z) && bool_decide (m = #"POST"))
  then #"GET" else m.

(** Chromium as documented: it follows those codes with a Location, to the URL
    that resolves to, and drops the body when the method changes. *)
Record documented (known : asked -> Prop) (server : asked -> Answer)
    (chromium : asked -> Answer -> option asked) : Prop := {
  doc_follows : forall x raw loc target, known x ->
    answer_raw x.1.2 0 (server x) = Ok raw -> raw_status_code raw ∈ REDIRECT_CODES ->
    get (headers (from_raw raw [])) (#"location") = Some loc -> loc <> [] -> urljoin x.1.2 loc = Ok target ->
    let m' := redirected_method (raw_status_code raw) x.1.1 in
    chromium x (server x) = Some (m', target, if bool_decide (m' = x.1.1) then x.2 else no_bodies);
  doc_stays : forall x raw, known x ->
    answer_raw x.1.2 0 (server x) = Ok raw ->
    (forall loc, raw_status_code raw ∈ REDIRECT_CODES ->
       get (headers (from_raw raw [])) (#"location") = Some loc -> loc = []) ->
    chromium x (server x) = None;
  doc_known : forall x x', known x -> chromium x (server x) = Some x' -> known x';
}.

(** Servers whose answers can be read, whose cookies can be stored, whose
    Locations resolve and are in answers of those codes only, and who send no
    303 to a GET that has a body. *)
Record usual {J} `{CookieStore J} (known : asked -> Prop) (server : asked -> Answer) : Prop := {
  us_reads : forall x, known x -> exists raw, answer_raw x.1.2 0 (server x) = Ok raw
    /\ forall jar, exists jar', store x.1.2 (headers (from_raw raw [])) jar = (Ok tt, jar');
  us_resolves : forall x raw loc, known x -> answer_raw x.1.2 0 (server x) = Ok raw ->
    redirects_to (from_raw raw []) loc ->
    exists target, urljoin x.1.2 loc = Ok target /\ is_ok (origin x.1.2) = true /\ is_ok (origin target) = true;
  us_codes : forall x raw loc, known x -> answer_raw x.1.2 0 (server x) = Ok raw ->
    redirects_to (from_raw raw []) loc ->
    raw_status_code raw ∈ REDIRECT_CODES /\ (raw_status_code raw = 303%Z -> x.1.1 = #"GET" -> x.2 = no_bodies);
}.

Definition set_count (n : Z) (raw : RawResponse) : RawResponse :=
  mkRaw (raw_status_code raw) (raw_reason raw) (raw_headers raw) (raw_url raw) (raw_http_version raw) n
    (raw_from_cache raw) (raw_proxy raw) (raw_metrics raw).

Lemma answer_raw_count (url : str) (count : Z) (a : Answer) :
  answer_raw url count a = set_count count <$> answer_raw url 0 a.
Proof.
  unfold answer_raw, read_response, answer_view.
  cbn [nr_error_code nr_headers nr_proxy_server nr_final_url nr_negotiated_protocol Z.eqb negb].
  destruct (decode_strict (an_proxy_server a)); cbn [mbind res_bind]; [|done].
  destruct (decode_strict (encode url)); cbn [mbind res_bind]; [|done].
  by destruct (decode_strict (an_negotiated_protocol a)).
Qed.

(** The observer of a request that has followed [count] redirects to [url]. *)
Definition at_url (url : str) (l count : Z) : observer :=
  mkObserver (set_final_url (encode url) CallState_init) l count.

Definition result_of (o : observer) (start : str) : res exn RawResponse := read_response (response (state o)) start.

(** What an observer makes of an answer that is not a redirect, and of one that
    is. *)
Lemma final_result (url start : str) (l count : Z) (a : Answer) (raw : RawResponse) :
  answer_raw url 0 a = Ok raw ->
  result_of (OnDestroyed (OnSucceeded (OnResponseStarted a (at_url url l count)).2).2) start = Ok (set_count count raw).
Proof.
  intros H. assert (answer_raw url count a = Ok (set_count count raw)) as <- by (by rewrite answer_raw_count, H).
  reflexivity.
Qed.

Lemma redirect_followed (location url : str) (l count : Z) (a : Answer) :
  (count < l)%Z -> OnReceivedRedirect (encode location) a (at_url url l count) = ([PostFollow], at_url location l (count + 1)).
Proof.
  intros H. unfold OnReceivedRedirect. cbn -[encode]. destruct (Z.leb_spec l count); [lia|]. reflexivity.
Qed.

(** What is left of the request when a redirect is not followed. *)
Definition refused (url : str) (l count : Z) (location : bytes) (a : Answer) : observer :=
  let s := set_redirect_count count (publish a (set_final_url (encode url) CallState_init)) in
  mkObserver (DestroyRequest (if (l =? 0)%Z then finish 0 [] s
                              else finish ERROR_TOO_MANY_REDIRECTS (limit_reached ++ location) s)) l count.

Lemma redirect_refused (location : bytes) (url : str) (l count : Z) (a : Answer) :
  (l <= count)%Z -> OnReceivedRedirect location a (at_url url l count) = ([PostDestroy false], refused url l count location a).
Proof.
  intros Hl. unfold OnReceivedRedirect, refused, at_url. cbn [max_redirects_ redirect_count_ state].
  destruct (Z.leb_spec l count); [|lia]. cbn zeta. unfold destroy.
  match goal with |- context [destroy_requested_ ?x] => assert (destroy_requested_ x = false) as -> by (by destruct (l =? 0)%Z) end.
  unfold with_state. cbn [max_redirects_ redirect_count_]. reflexivity.
Qed.

Lemma refused_result (location : bytes) (url start : str) (l count : Z) (a : Answer) (raw : RawResponse) :
  answer_raw url 0 a = Ok raw ->
  result_of (OnDestroyed (refused url l count location a)) start
  = if (l =? 0)%Z then Ok (set_count count raw)
    else Raise (error_for ERROR_TOO_MANY_REDIRECTS (decode_replace (limit_reached ++ location)) start).
Proof.
  intros H. assert (answer_raw url count a = Ok (set_count count raw)) as <- by (by rewrite answer_raw_count, H).
  unfold refused. by destruct (l =? 0)%Z.
Qed.

(** ** The two agree *)

(** What both ways end in, for a request that began at [start]. *)
Definition alike (start : str) (natively : res exn RawResponse) (hop_by_hop : res exn Response) : Prop :=
  match natively, hop_by_hop with
  | Ok raw, Ok r => raw_redirect_count raw = Z.of_nat (length (history r))
                    /\ r = set_history (from_raw (set_count 0 raw) []) (history r)
  | Raise e, Raise e' => exists message message',
      e = RequestError TooManyRedirects message ERROR_TOO_MANY_REDIRECTS start
      /\ e' = RequestError TooManyRedirects message' ERROR_TOO_MANY_REDIRECTS start
  | _, _ => False
  end.

Section both.
Context {J : Type} `{CookieStore J}.
Context (server : asked -> Answer) (chromium : asked -> Answer -> option asked) (known : asked -> Prop).

Abbreviation hops := (perform_hop server chromium).
Abbreviation walk_hops := (walk (W := J) id (fun _ jar => jar) hops).
Abbreviation visits := (visit (W := J) id (fun _ jar => jar) hops).
Abbreviation natively := (follow_natively server chromium).

Lemma set_count_zero (url : str) (a : Answer) (raw : RawResponse) : answer_raw url 0 a = Ok raw -> set_count 0 raw = raw.
Proof. intros H0. pose proof (answer_raw_count url 0 a) as E. rewrite H0 in E. by injection E as <-. Qed.

(** A hop answers with what the server says, redirect or not. *)
Lemma visit_answer (h : hop) (raw : RawResponse) (jar jar' : J) :
  answer_raw h.1.2 0 (server (seen h)) = Ok raw ->
  store h.1.2 (headers (from_raw raw [])) jar = (Ok tt, jar') -> visits h jar (from_raw raw []) jar'.
Proof.
  intros Ha Hs. exists jar, jar'. split_and!; [|done|done]. unfold perform_hop, native_result. cbn [follow_natively].
  change (observer_init (encode (seen h).1.2) 0) with (at_url h.1.2 0 0).
  pose proof (set_count_zero _ _ _ Ha) as E. destruct (chromium (seen h) (server (seen h))) as [x'|].
  - pose proof (refused_result (encode x'.1.2) h.1.2 h.1.2 0 0 _ raw Ha) as Ho. rewrite redirect_refused by lia.
    rewrite bool_decide_eq_false_2 by (intros Hin; by apply list_elem_of_singleton in Hin).
    cbn [fmap option_fmap option_map]. unfold result_of in Ho. cbn [seen fst snd] in *. rewrite Ho. cbn [Z.eqb fmap res_fmap]. by rewrite E.
  - pose proof (final_result h.1.2 h.1.2 0 0 _ raw Ha) as Ho. unfold result_of in Ho.
    cbn [fmap option_fmap option_map]. cbn [seen fst snd] in *. rewrite Ho. cbn [fmap res_fmap]. by rewrite E.
Qed.

Lemma alike_ok (start url : str) (a : Answer) (raw : RawResponse) (pre : list Response) :
  answer_raw url 0 a = Ok raw ->
  alike start (Ok (set_count (Z.of_nat (length pre)) raw)) (Ok (set_history (from_raw raw []) pre)).
Proof.
  intros Ha. split; [done|]. change (set_count 0 (set_count (Z.of_nat (length pre)) raw)) with (set_count 0 raw).
  by rewrite (set_count_zero _ _ _ Ha).
Qed.

Context (Hdoc : documented known server chromium) (Husual : usual (J := J) known server).

Lemma redirected_upper (status : Z) (m : str) :
  upper m = m -> redirected_method status m = (if becomes_get status m then #"GET" else m)
  /\ upper (redirected_method status m) = redirected_method status m.
Proof.
  intros Hm. unfold redirected_method, becomes_get. rewrite Hm. split; [done|]. by destruct (_ || _).
Qed.

(** Where an answer leads, for the one and for the other. *)
Lemma one_hop (h : hop) :
  known (seen h) -> upper h.1.1 = h.1.1 ->
  exists raw, answer_raw h.1.2 0 (server (seen h)) = Ok raw
    /\ (forall jar, exists jar', store h.1.2 (headers (from_raw raw [])) jar = (Ok tt, jar'))
    /\ (leads h (from_raw raw []) = Ok None /\ chromium (seen h) (server (seen h)) = None
        \/ exists h', leads h (from_raw raw []) = Ok (Some h') /\ chromium (seen h) (server (seen h)) = Some (seen h')
             /\ known (seen h') /\ upper h'.1.1 = h'.1.1).
Proof.
  intros Hk Hm. destruct (us_reads _ _ Husual _ Hk) as (raw & Ha & Hs). exists raw. split_and!; [done|done|].
  destruct (get (headers (from_raw raw [])) (#"location")) as [[|c loc]|] eqn:El.
  1, 3: left; split; [apply next_hop_stays; intros loc (_ & E & Hne); congruence|];
        apply (doc_stays _ _ _ Hdoc _ raw Hk Ha); intros loc _ E; congruence.
  destruct (is_redirect (raw_status_code raw)) eqn:Er.
  - right. assert (redirects_to (from_raw raw []) (c :: loc)) as Hr.
    { unfold is_redirect in Er. apply andb_true_iff in Er as [E1 E2]. apply Z.leb_le in E1. apply Z.ltb_lt in E2. by split_and!. }
    destruct (us_resolves _ _ Husual _ raw _ Hk Ha Hr) as (target & Et & Eo & Eo').
    destruct (us_codes _ _ Husual _ raw _ Hk Ha Hr) as (Hcode & H303).
    pose proof (doc_follows _ _ _ Hdoc _ raw _ target Hk Ha Hcode El ltac:(done) Et) as Hc. cbn zeta in Hc.
    unfold leads. rewrite (next_hop_leads _ _ _ _ _ Hr). cbn [seen fst snd] in *. rewrite Et. cbn [lift_url mbind res_bind].
    destruct (origin h.1.2) as [here|]; [|done]. destruct (origin target) as [there|]; [|done]. cbn [mbind res_bind].
    destruct (redirected_upper (raw_status_code raw) h.1.1 Hm) as [Em Eu].
    eexists. split; [reflexivity|]. rewrite Hc.
    match goal with |- Some ?x = Some ?y /\ _ => assert (x = y) as Exy end.
    { unfold seen. cbn [fst snd]. change (status_code (from_raw raw [])) with (raw_status_code raw).
      rewrite (proj1 (strip_if _ _ _)). rewrite Em. f_equal.
      destruct (becomes_get (raw_status_code raw) h.1.1) eqn:Eb; cbv iota; [|by rewrite bool_decide_eq_true_2].
      destruct (decide (#"GET" = h.1.1)) as [Eg|Eg]; [rewrite (bool_decide_eq_true_2 _ Eg)|by rewrite (bool_decide_eq_false_2 _ Eg)].
      rewrite H303; [reflexivity| |done].
      unfold becomes_get in Eb. rewrite Hm, <- Eg in Eb. vm_compute (bool_decide (#"GET" = #"POST")) in Eb.
      rewrite andb_false_r, orb_false_r in Eb. apply andb_true_iff in Eb as [Eb _]. by apply Z.eqb_eq. }
    rewrite <- Exy. split_and!; [done|by eapply (doc_known _ _ _ Hdoc _ _ Hk)|].
    change (status_code (from_raw raw [])) with (raw_status_code raw). cbn [fst snd]. by rewrite <- Em.
  - left. split.
    + apply next_hop_stays. intros loc' ([H1 H2] & _). unfold is_redirect in Er. apply andb_false_iff in Er as [E|E].
      * apply Z.leb_gt in E. cbn in *. lia.
      * apply Z.ltb_ge in E. cbn in *. lia.
    + apply (doc_stays _ _ _ Hdoc _ raw Hk Ha). intros loc' Hin _. exfalso. unfold REDIRECT_CODES in Hin.
      unfold is_redirect in Er. repeat (apply elem_of_cons in Hin as [Hin|Hin]; [by rewrite Hin in Er|]). by apply elem_of_nil in Hin.
Qed.

Lemma walk_alike (n : nat) (h : hop) (c : RedirectChain) (pre : list Response) (l : Z) (fuel rounds : nat) (jar : J) :
  known (seen h) -> upper h.1.1 = h.1.1 -> at_hop c h pre l -> (0 < l)%Z ->
  Z.of_nat (length pre + n) = l -> n + 2 <= fuel -> n + 1 <= rounds ->
  exists py w o, walk_hops fuel c jar = Some (py, w)
    /\ natively rounds (seen h) (at_url h.1.2 l (Z.of_nat (length pre))) = Some o
    /\ alike (start c) (result_of o (start c)) py.
Proof.
  revert h c pre fuel rounds jar. induction n as [|n IH]; intros h c pre fuel rounds jar Hk Hm Hat Hl Hn Hf Hr;
    destruct (one_hop h Hk Hm) as (raw & Ha & Hstore & Hgo); destruct (Hstore jar) as [jar' Hs];
    pose proof Hat as (Hp & _); pose proof (visit_answer h raw jar jar' Ha Hs) as Hv;
    (destruct rounds as [|rounds]; [lia|]); (destruct fuel as [|[|fuel]]; [lia..|]); cbn [follow_natively];
    destruct Hgo as [[Hlead ->]|(h' & Hlead & -> & Hk' & Hm')].
  1, 3: destruct (receive_in_stop _ _ _ c h pre l _ _ _ Hat Hv (or_introl Hlead)) as (w1 & Hw & Hc);
        eexists _, _, _; split; [rewrite (walk_step _ _ _ _ _ h _ w1 (from_raw raw [])), Hc by done; by apply walk_end|];
        split; [reflexivity|]; rewrite (final_result _ _ _ _ _ raw Ha); by eapply alike_ok.
  - destruct (receive_in_follow _ _ _ c h h' pre l _ _ _ Hat ltac:(lia) Hv Hlead) as (w1 & Hw & Hc).
    pose proof (refused_result (encode (seen h').1.2) h.1.2 (start c) l (Z.of_nat (length pre)) _ raw Ha) as Hres.
    eexists _, _, _. split; [rewrite (walk_step _ _ _ _ _ h _ w1 (from_raw raw [])), Hc by done;
      destruct (Z.leb_spec l (Z.of_nat (length pre))); [reflexivity|lia]|].
    rewrite redirect_refused, bool_decide_eq_false_2 by (lia || (intros Hin; by apply list_elem_of_singleton in Hin)).
    split; [reflexivity|]. rewrite Hres. destruct (Z.eqb_spec l 0); [lia|]. unfold error_for, too_many. by eexists _, _.
  - destruct (receive_in_follow _ _ _ c h h' pre l _ _ _ Hat ltac:(lia) Hv Hlead) as (w1 & Hw & Hc).
    rewrite (walk_step _ _ _ _ _ h _ w1 (from_raw raw [])), Hc by done.
    destruct (Z.leb_spec l (Z.of_nat (length pre))); [lia|].
    rewrite redirect_followed, bool_decide_eq_true_2 by (lia || by left).
    replace (Z.of_nat (length pre) + 1)%Z with (Z.of_nat (length (pre ++ [from_raw raw []])))
      by (rewrite length_app; cbn [length]; lia).
    apply (IH h' (mkChain (Some h') l (pre ++ [from_raw raw []]) (final c) (start c)));
      [done|done|by split_and!|done|rewrite length_app; cbn [length]; lia|lia|lia].
Qed.
End both.


(** ** At a concrete chain, and where the two differ *)

Definition sample_answer (status : Z) (headers : list (bytes * bytes)) : Answer :=
  mkAnswer status [] headers false (blit "h2") (blit ":0").

Definition url_a : str := #"http://h/a".
Definition url_b : str := #"http://h/b".

(** A server that sends [status] with a Location at one URL, and answers at
    another. *)
Definition sample_server (status : Z) (x : asked) : Answer :=
  if bool_decide (x.1.2 = url_a) then sample_answer status [(blit "Location", blit "/b")] else sample_answer 200 [].

Definition sample_chromium (x : asked) (a : Answer) : option asked :=
  if (an_status_code a =? 302)%Z then
    let m' := redirected_method 302 x.1.1 in
    Some (m', url_b, if bool_decide (m' = x.1.1) then x.2 else no_bodies)
  else None.

#[export] Instance unit_store : CookieStore unit := {
  header_for _ jar := (Ok None, jar);
  store _ _ jar := (Ok tt, jar);
}.

(** A POST with a body. *)
Definition posted : RequestOptions :=
  mkOptions HeadersNone [] (Some (Bytes (blit "x"))) None None JNull None None None None None false [].

Definition sample_walk (status l : Z) (fuel : nat) : option (res exn Response) :=
  fst <$> walk (W := unit) id (fun _ jar => jar) (perform_hop (sample_server status) sample_chromium) fuel
            (RedirectChain_init (#"POST") url_a posted l) tt.

Definition sample_native (status l : Z) : option (res exn RawResponse) :=
  native_result (sample_server status) sample_chromium 7 (#"POST", url_a, bodies posted) l.

Definition sample_known (x : asked) : Prop := x.1.2 = url_a \/ x.1.2 = url_b.

Definition sample_hop_raw (url : str) (status : Z) (headers : list (bytes * bytes)) : RawResponse :=
  match answer_raw url 0 (sample_answer status headers) with Ok raw => raw | Raise _ => sample_raw 0 [] end.
Definition raw_a : RawResponse := sample_hop_raw url_a 302 [(blit "Location", blit "/b")].
Definition raw_b : RawResponse := sample_hop_raw url_b 200 [].

Lemma sample_raws (x : asked) (raw : RawResponse) : sample_known x -> answer_raw x.1.2 0 (sample_server 302 x) = Ok raw ->
  x.1.2 = url_a /\ raw = raw_a \/ x.1.2 = url_b /\ raw = raw_b.
Proof.
  unfold sample_server. intros [E|E]; rewrite E.
  - rewrite bool_decide_eq_true_2 by done. intros H. left. split; [done|].
    assert (answer_raw url_a 0 (sample_answer 302 [(blit "Location", blit "/b")]) = Ok raw_a) as Hr by (vm_compute; reflexivity). congruence.
  - rewrite bool_decide_eq_false_2 by (intros Hx; vm_compute in Hx; discriminate Hx). intros H. right. split; [done|].
    assert (answer_raw url_b 0 (sample_answer 200 []) = Ok raw_b) as Hr by (vm_compute; reflexivity). congruence.
Qed.

Lemma sample_status (x : asked) : sample_known x ->
  x.1.2 = url_a /\ an_status_code (sample_server 302 x) = 302%Z \/ x.1.2 = url_b /\ an_status_code (sample_server 302 x) = 200%Z.
Proof.
  unfold sample_server. intros [E|E]; rewrite E.
  - rewrite bool_decide_eq_true_2 by done. by left.
  - rewrite bool_decide_eq_false_2 by (intros Hx; vm_compute in Hx; discriminate Hx). by right.
Qed.

Lemma raw_a_location : get (headers (from_raw raw_a [])) (#"location") = Some (#"/b") /\ raw_status_code raw_a = 302%Z.
Proof. vm_compute. by split. Qed.
Lemma raw_b_location : get (headers (from_raw raw_b [])) (#"location") = None /\ raw_status_code raw_b = 200%Z.
Proof. vm_compute. by split. Qed.
Lemma sample_join : urljoin url_a (#"/b") = Ok url_b.
Proof. vm_compute. reflexivity. Qed.

Lemma sample_documented : documented sample_known (sample_server 302) sample_chromium.
Proof.
  constructor.
  - intros x raw loc target Hk Ha Hc Hl Hne Hj. destruct (sample_raws x raw Hk Ha) as [[Hu ->]|[Hu ->]].
    + rewrite (proj1 raw_a_location) in Hl. injection Hl as <-. rewrite Hu, sample_join in Hj. injection Hj as <-.
      rewrite (proj2 raw_a_location). unfold sample_chromium. destruct (sample_status x Hk) as [[_ ->]|[Hb _]]; [reflexivity|].
      rewrite Hu in Hb. vm_compute in Hb. discriminate Hb.
    + rewrite (proj1 raw_b_location) in Hl. done.
  - intros x raw Hk Ha Hn. destruct (sample_raws x raw Hk Ha) as [[Hu ->]|[Hu ->]].
    + specialize (Hn (#"/b")). rewrite (proj2 raw_a_location), (proj1 raw_a_location) in Hn.
      specialize (Hn ltac:(right; left) eq_refl). vm_compute in Hn. discriminate Hn.
    + unfold sample_chromium. destruct (sample_status x Hk) as [[Hb _]|[_ ->]]; [|reflexivity].
      rewrite Hu in Hb. vm_compute in Hb. discriminate Hb.
  - intros x x' Hk. unfold sample_chromium. destruct (_ =? _)%Z; [|done]. intros [= <-]. by right.
Qed.

Lemma sample_usual : usual (J := unit) sample_known (sample_server 302).
Proof.
  constructor.
  - intros x Hk. assert (exists raw, answer_raw x.1.2 0 (sample_server 302 x) = Ok raw) as [raw Hr].
    { unfold sample_server. destruct Hk as [-> | ->]; eexists; vm_compute; reflexivity. }
    exists raw. split; [done|]. intros []. by exists tt.
  - intros x raw loc Hk Ha (_ & El & _). destruct (sample_raws x raw Hk Ha) as [[-> ->]|[_ ->]].
    + rewrite (proj1 raw_a_location) in El. injection El as <-. exists url_b. rewrite sample_join. split; [done|]. by vm_compute.
    + by rewrite (proj1 raw_b_location) in El.
  - intros x raw loc Hk Ha (_ & El & _). destruct (sample_raws x raw Hk Ha) as [[_ ->]|[_ ->]].
    + rewrite (proj2 raw_a_location). split; [right; left|done].
    + by rewrite (proj1 raw_b_location) in El.
Qed.


(** A response reached hop by hop says it followed no redirect. *)
Lemma jar_forgets_redirect_count :
  exists r raw, sample_walk 302 5 7 = Some (Ok r) /\ redirect_count r = 0%Z /\ length (history r) = 1
    /\ sample_native 302 5 = Some (Ok raw) /\ raw_redirect_count raw = 1%Z.
Proof. vm_compute. eexists _, _. by split_and!. Qed.

(** A negative limit is twenty natively and none at all with a jar. *)
Lemma negative_limits_differ :
  is_ok (default (Raise Interrupted) (sample_native 302 (-1))) = true
  /\ sample_walk 302 (-1) 7 = Some (Raise (too_many (RedirectChain_init (#"POST") url_a posted (-1)))).
Proof. vm_compute. by split. Qed.

(** A Location in a 300 is followed hop by hop, where Chromium stays. *)
Lemma other_codes_differ :
  exists r raw, sample_walk 300 5 7 = Some (Ok r) /\ length (history r) = 1 /\ status_code r = 200%Z
    /\ sample_native 300 5 = Some (Ok raw) /\ raw_redirect_count raw = 0%Z /\ raw_status_code raw = 300%Z.
Proof. vm_compute. eexists _, _. by split_and!. Qed.

(** Between the signal that the headers are there and the end of the handler,
    the owner reads a count of zero. *)
Lemma redirect_count_published_late (a : Answer) (o : observer) :
  nr_redirect_count (view_ (state o)) = 0%Z ->
  let s := publish a (state o) in
  (exists v, response s = Some v /\ nr_redirect_count v = 0%Z)
  /\ nr_redirect_count (view_ (state (OnResponseStarted a o).2)) = redirect_count_ o.
Proof. intros H s. split; [|done]. by eexists. Qed.
