(* ===== verification/Composed.v ===== *)
(** * Composed: the waiting loops on top of the native call.

    Waiting proves what the Python loops do for any library; Call proves what
    two threads over one [CallState] can do.  Here the library is that call:
    [netlib] answers every entry point by an operation of Native, after the
    network thread has taken whatever steps a plan gives it.  A plan says, for
    every moment, which steps those are, so it stands for any interleaving;
    one made too early is skipped.

    The loops of Waiting then are schedules of Call ([headers_refines],
    [body_refines], [async_body_refines]), so the invariant of Call holds
    throughout, and a response that [perform] returns carries exactly the
    octets the network brought. *)

From S2P Require Import Prelude PyText PyUrl Headers Types Errors Json Abi Cookies Options.
From S2P Require Import Multipart Request Redirect Floats Response Native Call Bridge Waiting.
From S2P Require Import Session.

(** The call, and how many turns the network thread has had.  Its consumer's
    place and deadline are not used: they are the loops'. *)
Record netlib := mkLib { sys : system; moment : nat }.

Definition set_sys (x : netlib) (s : system) : netlib := mkLib s (moment x).

Definition network (e : event) : bool :=
  match e with NetHeaders _ _ | NetData _ | NetOutcome _ _ | NetStep => true | _ => false end.

(** A step of the network thread, if it is one and can be taken now. *)
Definition try_step (s : system) (e : event) : system :=
  if network e then default s (Call.step 0 e s) else s.

Section netlib.
Context (plan : nat -> list event) (clock : nat -> float) (horizon : nat).

(** The network thread's turn. *)
Definition due (x : netlib) : netlib :=
  mkLib (foldl try_step (sys x) (plan (moment x))) (S (moment x)).
#[local] Arguments due : simpl never.

(** [cronet_call_read]: the copy under the lock, then, when it made room, the
    next read posted; the network thread may run in between. *)
Definition net_read (capacity : N) (x : netlib) : option bytes * netlib :=
  let x := due x in
  let '(out, resume, n) := Read capacity (Call.native (sys x)) in
  let s := set_native (sys x) n in
  let x := set_sys x (match out with Some (c :: piece) => deliver s (c :: piece) | _ => s end) in
  (out, if resume : bool then let x := due x in set_sys x (post_read (sys x)) else x).

(** poll(): the network thread goes on until the descriptor is readable, for
    as many turns as the wait may last.  A wait without a limit that nothing
    ends in that time is given up the same way, which the code takes for a
    timeout. *)
Fixpoint poll_turns (n : nat) (x : netlib) : bool * netlib :=
  let x := due x in
  if readable (Call.native (sys x)) then (true, x)
  else match n with O => (false, x) | S n => poll_turns n x end.

Definition net_poll (remaining : Z) (x : netlib) : bool * netlib := poll_turns horizon x.

Definition net_await (limit : option seconds) (x : netlib) : res exn unit * netlib :=
  let '(ready, x) := poll_turns horizon x in
  (if ready : bool then Ok tt
   else Raise match limit with None => Interrupted | Some _ => TimeoutError end, x).

(** [cronet_call_wait], on the finished flag. *)
Definition net_wait (timeout_ms : Z) (x : netlib) : bool * netlib :=
  let x := due x in (finished_ (Call.native (sys x)), x).

#[export] Instance netlib_library : Library netlib := {
  lib_engine_create _ x := (true, x);
  lib_engine_destroy x := x;
  lib_start_net_log _ _ x := (1%Z, due x);
  lib_stop_net_log x := due x;
  lib_last_error _ := [];
  lib_call_start _ x := (Some 0, set_sys x Call.init);
  lib_call_state_of _ x := let x := due x in (state_ (Call.native (sys x)), x);
  lib_call_response _ x := let x := due x in (response (Call.native (sys x)), x);
  lib_call_read _ capacity x := net_read capacity x;
  lib_drain_fd _ x := let x := due x in set_sys x (set_native (sys x) (call_drain (Call.native (sys x))));
  lib_poll_fd _ remaining x := net_poll remaining x;
  lib_call_wait _ timeout_ms x := net_wait timeout_ms x;
  lib_call_cancel _ x := let x := due x in set_sys x (set_native (sys x) (DestroyRequest (Call.native (sys x))));
  lib_call_free _ x := due x;
  monotonic x := (clock (moment x), due x);
  await_fd _ limit x := net_await limit x;
}.

(** ** Schedules of Call *)

(** The consumer's place and deadline are the loops', not the library's. *)
Definition dress (p : consumer_pc) (d : float) (s : system) : system :=
  set_consumer (set_deadline s d) p.

Section schedules.
Context (t : Z) (d : float).

(** Some schedule leads from one place to another. *)
Definition leads (p : consumer_pc) (s : system) (p' : consumer_pc) (s' : system) : Prop :=
  exists es, Call.run t es (dress p d s) = Some (dress p' d s').

Lemma leads_refl (p : consumer_pc) (s : system) : leads p s p s.
Proof. by exists []. Qed.

Lemma call_run_app (es es' : list event) (s : system) :
  Call.run t (es ++ es') s = match Call.run t es s with Some s => Call.run t es' s | None => None end.
Proof. revert s; induction es as [|e es IH]; intros s; cbn; [done|]. by case_match. Qed.

Lemma leads_trans (p1 p2 p3 : consumer_pc) (s1 s2 s3 : system) :
  leads p1 s1 p2 s2 -> leads p2 s2 p3 s3 -> leads p1 s1 p3 s3.
Proof. intros [es H] [es' H']. exists (es ++ es'). by rewrite call_run_app, H. Qed.

Lemma leads_step (e : event) (p p' : consumer_pc) (s s' : system) :
  Call.step t e (dress p d s) = Some (dress p' d s') -> leads p s p' s'.
Proof. intros H. exists [e]. cbn. by rewrite H. Qed.

(** A network step does not look at the consumer. *)
Lemma network_step (e : event) (p : consumer_pc) (s : system) :
  network e = true -> Call.step t e (dress p d s) = dress p d <$> Call.step 0 e s.
Proof.
  destruct e as [v k|data|c m| | | | |]; try discriminate; intros _; unfold dress; cbn.
  - destruct (net s), k; cbn; try done; by case_match.
  - destruct (net s), (reading s); cbn; try done. case_match; [|done].
    by destruct (OnData data (Call.native s)).
  - by destruct (net s).
  - unfold net_step, post_read. cbn. destruct (net s) as [|[]| | | | | |]; cbn; try done; by case_match.
Qed.

Lemma leads_try (e : event) (p : consumer_pc) (s : system) : leads p s p (try_step s e).
Proof.
  unfold try_step. destruct (network e) eqn:En; [|apply leads_refl].
  destruct (Call.step 0 e s) as [s'|] eqn:Es; cbn; [|apply leads_refl].
  apply (leads_step e). by rewrite network_step, Es.
Qed.

Lemma leads_due (p : consumer_pc) (x : netlib) : leads p (sys x) p (sys (due x)).
Proof.
  unfold due. cbn [sys]. generalize (sys x) as s. induction (plan (moment x)) as [|e es IH]; intros s.
  - apply leads_refl.
  - eapply leads_trans; [apply leads_try|apply IH].
Qed.

(** ** The loops as schedules *)

Context {J : Type}.
Abbreviation nworld := (@world netlib J).
Abbreviation at_ w := (sys (w_lib (w : nworld))).

Lemma leads_drain (p p' : consumer_pc) (c : nat) (x : netlib) :
  (exists r, (p = HDrain r /\ p' = HCheck r) \/ (p = BDrain r /\ p' = BRead r)) ->
  leads p (sys x) p' (sys (lib_drain_fd c x)).
Proof.
  intros (r & [[-> ->]|[-> ->]]); (eapply leads_trans; [apply leads_due|]);
    by apply (leads_step Consume).
Qed.

Lemma leads_check (r : Z) (x : netlib) :
  leads (HCheck r) (sys x) (if (state_ (Call.native (sys (due x))) =? CALL_STARTED)%Z then HPoll r else BStart)
    (sys (due x)).
Proof. eapply leads_trans; [apply leads_due|]. by apply (leads_step Consume). Qed.

Lemma leads_wakes (p p' : consumer_pc) (r : Z) (s : system) :
  (p = HPoll r /\ p' = HRound) \/ (p = BPoll r /\ p' = BRound) ->
  poll_refuses r = false -> readable (Call.native s) = true -> leads p s p' s.
Proof.
  intros Hp Hr Er. apply (leads_step Consume).
  destruct Hp as [[-> ->]|[-> ->]]; cbn; unfold dress; cbn; by rewrite Hr, Er.
Qed.

Lemma leads_refused (p p' : consumer_pc) (r : Z) (s : system) :
  (p = HPoll r /\ p' = HRound) \/ (p = BPoll r /\ p' = BRound) ->
  poll_refuses r = true -> leads p s (Failed OverflowError) s.
Proof.
  intros Hp Hr. apply (leads_step Consume).
  destruct Hp as [[-> ->]|[-> ->]]; cbn; unfold dress; cbn; by rewrite Hr.
Qed.

Lemma leads_expires (p p' : consumer_pc) (r : Z) (s : system) :
  (p = HPoll r /\ p' = HRound) \/ (p = BPoll r /\ p' = BRound) ->
  poll_refuses r = false -> readable (Call.native s) = false -> (0 <= r)%Z -> leads p s Expired s.
Proof.
  intros Hp Hf Er Hr. apply (leads_step PollExpires).
  destruct Hp as [[-> ->]|[-> ->]]; cbn; unfold poll_expires, dress; cbn;
    by rewrite Hf, Er, (proj2 (Z.ltb_ge _ _) Hr).
Qed.

(** The network thread delivers nothing. *)
Lemma due_delivered (x : netlib) : delivered (sys (due x)) = delivered (sys x).
Proof.
  unfold due. cbn [sys]. generalize (sys x) as s.
  induction (plan (moment x)) as [|e es IH]; intros s; [done|]. cbn [foldl]. rewrite IH.
  unfold try_step. destruct (network e) eqn:En; [|done].
  destruct e as [v k|data|c m| | | | |]; try discriminate; cbn; unfold net_step, post_read;
    repeat (case_match; cbn); simplify_eq; done.
Qed.

(** A wait that ends well, and one that does not. *)
Lemma leads_poll (p p' : consumer_pc) (r remaining : Z) (x x' : netlib) (b : bool) :
  (p = HPoll r /\ p' = HRound) \/ (p = BPoll r /\ p' = BRound) ->
  poll_refuses r = false -> net_poll remaining x = (b, x') ->
  if b then leads p (sys x) p' (sys x') else (0 <= r)%Z -> leads p (sys x) Expired (sys x').
Proof.
  unfold net_poll. revert x x' b. induction horizon as [|n IH]; intros x x' b Hp Hf; cbn [poll_turns];
    generalize (leads_due p x); generalize (due x); intros y Hy;
    destruct (readable (Call.native (sys y))) eqn:Er.
  - intros [= <- <-]. eapply leads_trans; [exact Hy|]. by apply (leads_wakes _ _ r).
  - intros [= <- <-] Hr. eapply leads_trans; [exact Hy|]. by apply (leads_expires _ p' r).
  - intros [= <- <-]. eapply leads_trans; [exact Hy|]. by apply (leads_wakes _ _ r).
  - intros H%IH; [|done|done]. destruct b; [|intros Hr]; (eapply leads_trans; [exact Hy|]); auto.
Qed.

Lemma poll_delivered (n : nat) (x : netlib) : delivered (sys (poll_turns n x).2) = delivered (sys x).
Proof.
  revert x. induction n as [|n IH]; intros x; cbn [poll_turns]; rewrite <- (due_delivered x);
    generalize (due x); intros y; case_match; try apply IH; done.
Qed.

(** [wait_for_progress]: it wakes, runs out of time, or is refused. *)
Lemma leads_progress (p p' : consumer_pc) (c : nat) (r : Z) (w w' : nworld) (a : res exn bool) :
  (p = HPoll r /\ p' = HRound) \/ (p = BPoll r /\ p' = BRound) ->
  wait_for_progress c r w = (a, w') ->
  delivered (at_ w') = delivered (at_ w) /\
  match a with
  | Ok true => leads p (at_ w) p' (at_ w')
  | Ok false => (0 <= r)%Z -> leads p (at_ w) Expired (at_ w')
  | Raise e => leads p (at_ w) (Failed e) (at_ w')
  end.
Proof.
  intros Hp. unfold wait_for_progress. destruct (poll_refuses r) eqn:Hf.
  - intros [= <- <-]. split; [done|]. by eapply leads_refused.
  - unfold Waiting.native. cbn [lib_poll_fd netlib_library].
    pose proof (poll_delivered horizon (w_lib w)) as Hd. unfold net_poll.
    destruct (poll_turns horizon (w_lib w)) as [b x] eqn:E. intros [= <- <-]. split; [exact Hd|].
    pose proof (leads_poll p p' r r _ _ _ Hp Hf E) as H. by destruct b.
Qed.

(** The deadline the loops hold counts down like that of the schedule. *)
Definition same_countdown (dl : float) : Prop := forall now, countdown t dl now = countdown t d now.

Lemma countdown_next_spec (dl : float) (w w' : nworld) (r : res exn (option Z)) :
  same_countdown dl -> countdown_next t dl w = (r, w') ->
  (exists now, r = countdown t d now) /\
  (forall p, leads p (at_ w) p (at_ w')) /\ w_trace w' = w_trace w.
Proof.
  intros Hdl. unfold countdown_next. destruct (Z.ltb_spec t 0) as [Ht|Ht].
  - intros [= <- <-]. split_and!; [|intros p; apply leads_refl|done].
    exists (S754_zero false). unfold countdown. by rewrite (proj2 (Z.ltb_lt _ _) Ht).
  - unfold mbind, st_bind, Waiting.native, mret, st_ret. cbn. intros [= <- <-].
    split_and!; [eexists; by rewrite Hdl|intros p; apply leads_due|done].
Qed.

Lemma countdown_positive (now : float) (r : Z) :
  countdown t d now = Ok (Some r) -> (t < 0 /\ r = -1)%Z \/ (0 <= t /\ 0 < r)%Z.
Proof.
  unfold countdown. destruct (Z.ltb_spec t 0); [intros [= <-]; by left|].
  destruct (int_of_float _) as [n|]; cbn [mbind res_bind]; [|done].
  destruct (Z.leb_spec n 0); [done|]. intros [= <-]. by right.
Qed.

Lemma read_resumes (n : N) (s s' : CallState) (out : option bytes) :
  Read n s = (out, true, s') -> exists b bs, out = Some (b :: bs).
Proof.
  unfold Read. destruct (N.eqb_spec n 0); [discriminate|]. destruct (Nat.eqb_spec (available s) 0) as [|Ha]; [discriminate|].
  case_match. intros [= <- _ _]. destruct (take _ _) as [|b bs] eqn:E; [|by exists b, bs].
  apply (f_equal length) in E. rewrite length_take, length_drop in E. cbn in E.
  unfold available, size_N in *. lia.
Qed.

Lemma leads_resume (r : Z) (s : system) : leads (BResume r) s (BRead r) (post_read s).
Proof.
  apply (leads_step Consume). cbn. unfold consume, dress, post_read. cbn.
  by destruct (ReadData (Call.native s)).
Qed.

(** [call_read]: the piece it answers is delivered, and nothing else is. *)
Lemma leads_read (r : Z) (c : nat) (w w' : nworld) (a : res exn (option bytes)) :
  Waiting.call_read c w = (a, w') ->
  exists piece, a = Ok piece /\
    delivered (at_ w') = delivered (at_ w) ++ match piece with Some (b :: bs) => [b :: bs] | _ => [] end /\
    leads (BRead r) (at_ w)
      match piece with None => Complete | Some [] => BPoll r | Some _ => BRead r end (at_ w').
Proof.
  unfold Waiting.call_read, mbind, st_bind, Waiting.native, note, mret, st_ret. cbn [w_lib lib_call_read netlib_library].
  unfold net_read. pose proof (leads_due (BRead r) (w_lib w)) as H1.
  rewrite <- (due_delivered (w_lib w)). generalize dependent (due (w_lib w)). intros x H1.
  destruct (Read CHUNK_SIZE (Call.native (sys x))) as [[out resume] n] eqn:Er.
  assert (leads (BRead r) (sys x)
            match out with None => Complete | Some [] => BPoll r
            | Some _ => if resume : bool then BResume r else BRead r end
            match out with Some (b :: bs) => deliver (set_native (sys x) n) (b :: bs)
            | _ => set_native (sys x) n end) as H2.
  { apply (leads_step Consume). cbn -[Read CHUNK_SIZE]. unfold consume, Call.call_read, dress. cbn -[Read CHUNK_SIZE].
    rewrite Er. by destruct out as [[|b bs]|]. }
  pose proof (leads_trans _ _ _ _ _ _ H1 H2) as H3.
  destruct resume; intros [= <- <-]; exists out; (split; [done|]).
  - destruct (read_resumes _ _ _ _ Er) as (b & bs & ->). 
    set (y := set_sys x (deliver (set_native (sys x) n) (b :: bs))).
    split.
    + change (delivered (post_read (sys (due y))) = delivered (sys x) ++ [b :: bs]).
      assert (forall s, delivered (post_read s) = delivered s) as -> by (intros s; unfold post_read; by case_match).
      by rewrite due_delivered.
    + change (leads (BRead r) (sys (w_lib w)) (BRead r) (post_read (sys (due y)))).
      eapply leads_trans; [exact H3|]. eapply leads_trans; [apply (leads_due (BResume r) y)|].
      apply leads_resume.
  - split; [|by destruct out as [[|b bs]|]]. cbn. destruct out as [[|b bs]|]; cbn; by rewrite ?app_nil_r.
Qed.

Lemma bind_ok {A B} (m : st nworld exn A) (f : A -> st nworld exn B) (w w1 : nworld) (a : A) :
  m w = (Ok a, w1) -> mbind f m w = f a w1.
Proof. intros H. unfold mbind, st_bind. by rewrite H. Qed.

Lemma bind_raise {A B} (m : st nworld exn A) (f : A -> st nworld exn B) (w w1 : nworld) (e : exn) :
  m w = (Raise e, w1) -> mbind f m w = (Raise e, w1).
Proof. intros H. unfold mbind, st_bind. by rewrite H. Qed.

Lemma headers_refines_rounds (p c : nat) (dl : float) (w w' : nworld) (r : res exn bool) :
  same_countdown dl -> headers_rounds p t dl c w = (r, w') ->
  match r with
  | Ok true => leads HRound (at_ w) BStart (at_ w')
  | Ok false => (0 <= t)%Z -> leads HRound (at_ w) Expired (at_ w')
  | Raise e => leads HRound (at_ w) (Failed e) (at_ w') \/ e = Interrupted
  end.
Proof.
  intros Hdl. revert w. induction p as [|p IH]; intros w; cbn [headers_rounds]; [intros [= <- <-]; by right|].
  destruct (countdown_next t dl w) as [r1 w1] eqn:E1.
  destruct (countdown_next_spec _ _ _ _ Hdl E1) as ((now & ->) & H1 & _). specialize (H1 HRound).
  destruct (countdown t d now) as [[rem|]|e] eqn:Ec;
    [rewrite (bind_ok _ _ _ _ _ E1)|rewrite (bind_ok _ _ _ _ _ E1)|rewrite (bind_raise _ _ _ _ _ E1)].
  - assert (leads HRound (at_ w1) (HDrain rem) (at_ w1)) as H2.
    { apply (leads_step (Tick now)). cbn. unfold tick, dress. cbn. by rewrite Ec. }
    assert (leads (HDrain rem) (at_ w1) (HCheck rem) (sys (lib_drain_fd c (w_lib w1)))) as H3
      by (apply leads_drain; eauto).
    pose proof (leads_trans _ _ _ _ _ _ H1 (leads_trans _ _ _ _ _ _ H2 H3)) as H4. clear H1 H2 H3.
    set (x := lib_drain_fd c (w_lib w1)) in *.
    rewrite (bind_ok _ _ _ (set_lib w1 x) tt) by reflexivity.
    rewrite (bind_ok _ _ _ (set_lib w1 (due x)) (state_ (Call.native (sys (due x))))) by reflexivity.
    pose proof (leads_trans _ _ _ _ _ _ H4 (leads_check rem x)) as H5.
    destruct (state_ (Call.native (sys (due x))) =? CALL_STARTED)%Z; cbn [negb].
    + destruct (wait_for_progress c rem (set_lib w1 (due x))) as [a w2] eqn:Ep.
      destruct (leads_progress (HPoll rem) HRound c rem _ _ _ (or_introl (conj eq_refl eq_refl)) Ep) as [_ H6].
      cbn [w_lib set_lib] in H6.
      destruct a as [[]|e]; [rewrite (bind_ok _ _ _ _ _ Ep)|rewrite (bind_ok _ _ _ _ _ Ep)|rewrite (bind_raise _ _ _ _ _ Ep)].
      * intros Hr%IH. destruct r as [[]|]; [intros| intros|destruct Hr as [Hr|]; [left|by right]];
          (eapply leads_trans; [exact H5|]); (eapply leads_trans; [exact H6|]); auto.
      * intros [= <- <-] Ht. destruct (countdown_positive _ _ Ec) as [|[_ ?]]; [lia|].
        eapply leads_trans; [exact H5|]. apply H6. lia.
      * intros [= <- <-]. left. by eapply leads_trans.
    + by intros [= <- <-].
  - rewrite (bind_ok _ _ _ (set_lib w1 (due (w_lib w1))) (state_ (Call.native (sys (due (w_lib w1))))))
      by reflexivity.
    pose proof (leads_trans _ _ _ _ _ _ H1 (leads_due HRound (w_lib w1))) as H2.
    generalize dependent (due (w_lib w1)). intros y H2 [= <- <-]. cbn [w_lib set_lib].
    assert (leads HRound (sys y)
              (if (state_ (Call.native (sys y)) =? CALL_STARTED)%Z then Expired else BStart) (sys y)) as H3.
    { apply (leads_step (Tick now)). cbn. unfold tick, dress. cbn. by rewrite Ec. }
    pose proof (leads_trans _ _ _ _ _ _ H2 H3) as H4.
    destruct (state_ (Call.native (sys y)) =? CALL_STARTED)%Z; [intros _|]; exact H4.
  - intros [= <- <-]. left. eapply leads_trans; [exact H1|].
    apply (leads_step (Tick now)). cbn. unfold tick, dress. cbn. by rewrite Ec.
Qed.

(** Where [body_rounds] is in a round. *)
Definition body_pc (reading : option Z) : consumer_pc :=
  match reading with None => BRound | Some r => BRead r end.

Definition limited (reading : option Z) : Prop :=
  match reading with Some r => (0 <= t)%Z -> (0 < r)%Z | None => True end.

(** The end of a body: the pieces it adds are those delivered on the way. *)
Definition reads_to_end (p : consumer_pc) (got ps : list bytes) (w w' : nworld) : Prop :=
  exists more, ps = got ++ more /\ delivered (at_ w') = delivered (at_ w) ++ more
               /\ leads p (at_ w) Complete (at_ w').

Lemma reads_to_end_pre (p p1 : consumer_pc) (got ps : list bytes) (w w1 w' : nworld) :
  leads p (at_ w) p1 (at_ w1) -> delivered (at_ w1) = delivered (at_ w) ->
  reads_to_end p1 got ps w1 w' -> reads_to_end p got ps w w'.
Proof.
  intros H1 Hd (more & -> & Hm & H2). exists more. rewrite Hm, Hd.
  split_and!; [done..|]. by eapply leads_trans.
Qed.

Lemma reads_to_end_piece (p p1 : consumer_pc) (got ps : list bytes) (piece : bytes) (w w1 w' : nworld) :
  leads p (at_ w) p1 (at_ w1) -> delivered (at_ w1) = delivered (at_ w) ++ [piece] ->
  reads_to_end p1 (got ++ [piece]) ps w1 w' -> reads_to_end p got ps w w'.
Proof.
  intros H1 Hd (more & -> & Hm & H2). exists ([piece] ++ more). rewrite Hm, Hd, <- !app_assoc.
  split_and!; [done..|]. by eapply leads_trans.
Qed.

Lemma countdown_next_delivered (dl : float) (w w' : nworld) (r : res exn (option Z)) :
  countdown_next t dl w = (r, w') -> delivered (at_ w') = delivered (at_ w).
Proof.
  unfold countdown_next. case_match; [by intros [= <- <-]|].
  unfold mbind, st_bind, Waiting.native, mret, st_ret. cbn [w_lib set_lib monotonic netlib_library].
  pose proof (due_delivered (w_lib w)) as H'. generalize dependent (due (w_lib w)).
  by intros y Hy [= <- <-].
Qed.

Lemma drain_delivered (c : nat) (x : netlib) : delivered (sys (lib_drain_fd c x)) = delivered (sys x).
Proof. rewrite <- (due_delivered x). cbn. by generalize (due x). Qed.

(** What a round's end comes to: the whole body, a wait that ran out, or a
    number that does not fit. *)
Definition body_outcome (reading : option Z) (got : list bytes) (w w' : nworld)
    (r : res exn (list bytes)) : Prop :=
  match r with
  | Ok ps => reads_to_end (body_pc reading) got ps w w'
  | Raise e => (e = TimeoutError /\ ((0 <= t)%Z -> leads (body_pc reading) (at_ w) Expired (at_ w')))
               \/ leads (body_pc reading) (at_ w) (Failed e) (at_ w')
               \/ e = Interrupted
  end.

(** A step of a round before the rest of it, one that reads nothing or a piece. *)
Lemma body_outcome_after (reading reading1 : option Z) (got more : list bytes) (w w1 w' : nworld)
    (r : res exn (list bytes)) :
  leads (body_pc reading) (at_ w) (body_pc reading1) (at_ w1) -> delivered (at_ w1) = delivered (at_ w) ++ more ->
  body_outcome reading1 (got ++ more) w1 w' r -> body_outcome reading got w w' r.
Proof.
  intros H1 Hd Hr. destruct r as [ps|e]; cbn [body_outcome] in *.
  - destruct Hr as (rest & -> & Hm & H2). exists (more ++ rest). rewrite Hm, Hd, <- !app_assoc.
    split_and!; [done..|]. by eapply leads_trans.
  - destruct Hr as [[-> Hr]|[Hr|]]; [left|right; left|by right; right].
    + split; [done|]. intros Ht. eapply leads_trans; [exact H1|]. by apply Hr.
    + by eapply leads_trans.
Qed.

Lemma body_refines_rounds (p c : nat) (dl : float) : same_countdown dl ->
  forall (w w' : nworld) (reading : option Z) (got : list bytes) (r : res exn (list bytes)),
  limited reading -> body_rounds p t dl c reading got w = (r, w') ->
  body_outcome reading got w w' r.
Proof.
  intros Hdl. induction p as [|p IH]; intros w w' reading got r Hl; cbn [body_rounds];
    [intros [= <- <-]; by right; right|].
  destruct reading as [rem|].
  - destruct (Waiting.call_read c w) as [r1 w1] eqn:E1.
    destruct (leads_read rem _ _ _ _ E1) as (piece & -> & Hd & H1). rewrite (bind_ok _ _ _ _ _ E1).
    destruct piece as [[|b bs]|].
    + rewrite app_nil_r in Hd. destruct (wait_for_progress c rem w1) as [a w2] eqn:Ep.
      destruct (leads_progress (BPoll rem) BRound c rem _ _ _ (or_intror (conj eq_refl eq_refl)) Ep) as [Hd' H2].
      destruct a as [[]|e]; [rewrite (bind_ok _ _ _ _ _ Ep)|rewrite (bind_ok _ _ _ _ _ Ep)|rewrite (bind_raise _ _ _ _ _ Ep)].
      * intros Hr%IH; [|done]. apply (body_outcome_after _ None got [] _ w2); rewrite ?app_nil_r;
          [by eapply leads_trans|congruence|exact Hr].
      * intros [= <- <-]. left. split; [done|]. intros Ht. eapply leads_trans; [exact H1|].
        apply H2. cbn in Hl. specialize (Hl Ht). lia.
      * intros [= <- <-]. right. left. by eapply leads_trans.
    + intros Hr%IH; [|done]. by apply (body_outcome_after (Some rem) (Some rem) got [b :: bs] w w1).
    + intros [= <- <-]. rewrite app_nil_r in Hd. exists []. by rewrite !app_nil_r.
  - destruct (countdown_next t dl w) as [r1 w1] eqn:E1.
    destruct (countdown_next_spec _ _ _ _ Hdl E1) as ((now & ->) & H1 & _).
    pose proof (countdown_next_delivered _ _ _ _ E1) as Hd1. specialize (H1 BRound).
    destruct (countdown t d now) as [[rem|]|e] eqn:Ec;
      [rewrite (bind_ok _ _ _ _ _ E1)|rewrite (bind_ok _ _ _ _ _ E1)|rewrite (bind_raise _ _ _ _ _ E1)].
    + set (x := lib_drain_fd c (w_lib w1)).
      assert (leads BRound (at_ w1) (BDrain rem) (at_ w1)) as H2.
      { apply (leads_step (Tick now)). cbn. unfold tick, dress. cbn. by rewrite Ec. }
      assert (leads (BDrain rem) (at_ w1) (BRead rem) (sys x)) as H3 by (apply leads_drain; eauto).
      assert (leads BRound (at_ w) (BRead rem) (sys x)) as H4
        by (eapply leads_trans; [exact H1|]; by eapply leads_trans).
      rewrite (bind_ok _ _ _ (set_lib w1 x) tt) by reflexivity.
      pose proof (drain_delivered c (w_lib w1)) as Hd2. fold x in Hd2. clearbody x.
      intros Hr%IH; [|intros Ht; destruct (countdown_positive _ _ Ec); lia].
      apply (body_outcome_after _ (Some rem) got [] _ (set_lib w1 x)); rewrite ?app_nil_r;
        [exact H4|cbn [w_lib set_lib]; congruence|exact Hr].
    + intros [= <- <-]. left. split; [done|]. intros _. eapply leads_trans; [exact H1|].
      apply (leads_step (Tick now)). cbn. unfold tick, dress. cbn. by rewrite Ec.
    + intros [= <- <-]. right. left. eapply leads_trans; [exact H1|].
      apply (leads_step (Tick now)). cbn. unfold tick, dress. cbn. by rewrite Ec.
Qed.


(** *** The loops of [AsyncSession], which have no countdown of their own *)

Section async.
Hypothesis no_limit : (t < 0)%Z.

Lemma unlimited_tick (p p' : consumer_pc) (s : system) :
  (p = HRound /\ p' = HDrain (-1)) \/ (p = BRound /\ p' = BDrain (-1)) -> leads p s p' s.
Proof.
  assert (forall now, countdown t d now = Ok (Some (-1)%Z)) as Hc.
  { intros now. unfold countdown. by rewrite (proj2 (Z.ltb_lt _ _) no_limit). }
  intros [[-> ->]|[-> ->]]; apply (leads_step (Tick (S754_zero false))); cbn; unfold tick, dress; cbn;
    by rewrite Hc.
Qed.

Lemma progress_ok (p p' : consumer_pc) (c : nat) (limit : option seconds) (w w' : nworld) :
  (p = HPoll (-1) /\ p' = HRound) \/ (p = BPoll (-1) /\ p' = BRound) ->
  progress c limit w = (Ok tt, w') ->
  leads p (at_ w) p' (at_ w') /\ delivered (at_ w') = delivered (at_ w).
Proof.
  intros Hp. unfold progress. cbn [await_fd netlib_library]. unfold net_await.
  pose proof (poll_delivered horizon (w_lib w)) as Hd.
  destruct (poll_turns horizon (w_lib w)) as [b y] eqn:E.
  pose proof (leads_poll p p' (-1) (-1) _ _ _ Hp eq_refl E) as H1.
  destruct b; [|by destruct limit]. intros [= <-]. by split.
Qed.

Lemma progress_unit (c : nat) (limit : option seconds) (w : nworld) :
  (exists w', progress c limit w = (Ok tt, w')) \/ (exists e w', progress c limit w = (Raise e, w')).
Proof. unfold progress. destruct (await_fd _ _ _) as [[[]|e] x]; [left|right]; eauto. Qed.

Lemma async_headers_refines (p c : nat) (limit : option seconds) (w w' : nworld) :
  async_wait_for_headers p limit c w = (Ok tt, w') ->
  leads HRound (at_ w) BStart (at_ w').
Proof.
  revert w. induction p as [|p IH]; intros w; cbn [async_wait_for_headers]; [discriminate|].
  set (x := lib_drain_fd c (w_lib w)).
  rewrite (bind_ok _ _ _ (set_lib w x) tt) by reflexivity.
  rewrite (bind_ok _ _ _ (set_lib w (due x)) (state_ (Call.native (sys (due x))))) by reflexivity.
  assert (leads HRound (at_ w) (HCheck (-1)) (sys x)) as H1.
  { eapply leads_trans; [apply unlimited_tick; left; eauto|]. apply leads_drain; eauto. }
  pose proof (leads_trans _ _ _ _ _ _ H1 (leads_check (-1) x)) as H2.
  generalize dependent (due x). intros y H2.
  destruct (state_ (Call.native (sys y)) =? CALL_STARTED)%Z; cbn [negb].
  - destruct (progress_unit c limit (set_lib w y)) as [(w1 & E)|(e & w1 & E)].
    + rewrite (bind_ok _ _ _ _ _ E). intros H%IH. eapply leads_trans; [exact H2|].
      eapply leads_trans; [|exact H]. by apply (progress_ok (HPoll (-1)) HRound) in E as [E _]; [|by left].
    + by rewrite (bind_raise _ _ _ _ _ E).
  - by intros [= <-].
Qed.

Lemma async_body_refines (p c : nat) (limit : option seconds) : forall (w w' : nworld)
    (reading : bool) (got : list bytes) (body : bytes),
  read_body p limit c reading got w = (Ok body, w') ->
  exists ps, body = mjoin ps /\
    reads_to_end (body_pc (if reading then Some (-1)%Z else None)) got ps w w'.
Proof.
  induction p as [|p IH]; intros w w' reading got body; cbn [read_body]; [discriminate|].
  destruct reading.
  - destruct (Waiting.call_read c w) as [r1 w1] eqn:E1.
    destruct (leads_read (-1) _ _ _ _ E1) as (piece & -> & Hd & H1). rewrite (bind_ok _ _ _ _ _ E1).
    destruct piece as [[|b bs]|].
    + rewrite app_nil_r in Hd. destruct (progress_unit c limit w1) as [(w2 & E)|(e & w2 & E)].
      * rewrite (bind_ok _ _ _ _ _ E). intros (ps & -> & H)%IH. exists ps. split; [done|].
        apply (progress_ok (BPoll (-1)) BRound) in E as [E Hd2]; [|by right].
        eapply reads_to_end_pre; [|by rewrite Hd2|exact H]. by eapply leads_trans.
      * by rewrite (bind_raise _ _ _ _ _ E).
    + intros (ps & -> & H)%IH. exists ps. split; [done|]. by eapply reads_to_end_piece.
    + intros [= <- <-]. exists got. split; [done|]. rewrite app_nil_r in Hd. exists [].
      by rewrite !app_nil_r.
  - set (x := lib_drain_fd c (w_lib w)). rewrite (bind_ok _ _ _ (set_lib w x) tt) by reflexivity.
    assert (leads BRound (at_ w) (BRead (-1)) (sys x)) as H1.
    { eapply leads_trans; [apply unlimited_tick; right; eauto|]. apply leads_drain; eauto. }
    pose proof (drain_delivered c (w_lib w)) as Hd. fold x in Hd. clearbody x.
    intros (ps & -> & H)%IH. exists ps. split; [done|].
    by eapply (reads_to_end_pre _ _ _ _ _ (set_lib w x)).
Qed.
End async.
End schedules.

(** ** From the start of a call *)

Context {J : Type}.
Abbreviation nworld := (@world netlib J).
Abbreviation at_ w := (sys (w_lib (w : nworld))).

(** A consumer at [p] is where some schedule of Call leads from the start. *)
Definition reached (t : Z) (p : consumer_pc) (s : system) : Prop :=
  exists d, Call.reachable t (dress p d s).

Lemma reached_init (t : Z) : reached t HStart Call.init.
Proof. exists (S754_zero false), []. reflexivity. Qed.

Lemma reachable_leads (t : Z) (d : float) (p p' : consumer_pc) (s s' : system) :
  Call.reachable t (dress p d s) -> leads t d p s p' s' -> Call.reachable t (dress p' d s').
Proof. intros [es H] [es' H']. exists (es ++ es'). by rewrite call_run_app, H. Qed.

Lemma reached_leads (t : Z) (p p' : consumer_pc) (s s' : system) :
  reached t p s -> (forall d, leads t d p s p' s') -> reached t p' s'.
Proof. intros [d H] Hl. exists d. by eapply reachable_leads. Qed.

(** The first round sets the deadline, if it can. *)
Lemma reachable_start (t : Z) (p p' : consumer_pc) (now : float) (s : system) :
  (p = HStart /\ p' = HRound) \/ (p = BStart /\ p' = BRound) ->
  reached t p s ->
  match countdown_deadline t now with
  | Ok d => Call.reachable t (dress p' d s)
  | Raise e => reached t (Failed e) s
  end.
Proof.
  intros Hp (d & es & H).
  assert (Call.run t (es ++ [Tick now]) Call.init = Some (begin_countdown t now p' (dress p d s))) as Hr.
  { rewrite call_run_app, H. by destruct Hp as [[-> ->]|[-> ->]]. }
  unfold begin_countdown in Hr. destruct (countdown_deadline t now); [|exists d]; by exists (es ++ [Tick now]).
Qed.

Lemma reachable_unlimited (t : Z) (p p' : consumer_pc) (s : system) :
  (t < 0)%Z -> (p = HStart /\ p' = HRound) \/ (p = BStart /\ p' = BRound) ->
  reached t p s -> Call.reachable t (dress p' (S754_zero false) s).
Proof.
  intros Ht Hp H. pose proof (reachable_start t p p' (S754_zero false) s Hp H) as H1.
  unfold countdown_deadline in H1. by rewrite (proj2 (Z.ltb_lt _ _) Ht) in H1.
Qed.

Lemma countdown_begin_spec (t : Z) (p p' : consumer_pc) (w w' : nworld) (r : res exn float) :
  (p = HStart /\ p' = HRound) \/ (p = BStart /\ p' = BRound) ->
  reached t p (at_ w) -> countdown_begin t w = (r, w') ->
  delivered (at_ w') = delivered (at_ w) /\
  match r with
  | Ok d => Call.reachable t (dress p' d (at_ w'))
  | Raise e => reached t (Failed e) (at_ w')
  end.
Proof.
  intros Hp Hr. unfold countdown_begin. destruct (Z.ltb_spec t 0) as [Ht|Ht].
  - intros [= <- <-]. split; [done|]. by eapply reachable_unlimited.
  - unfold mbind, st_bind, Waiting.native, st_lift. cbn [monotonic netlib_library].
    pose proof (due_delivered (w_lib w)) as Hd.
    assert (reached t p (sys (due (w_lib w)))) as Hr'
      by (eapply reached_leads; [exact Hr|]; intros d; apply leads_due).
    generalize dependent (due (w_lib w)). intros y Hd Hr' [= <- <-]. cbn [w_lib set_lib].
    split; [done|]. by eapply reachable_start.
Qed.

Lemma same_countdown_refl (t : Z) (d : float) : same_countdown t d d.
Proof. done. Qed.

Lemma wait_for_headers_spec (t : Z) (p c : nat) (w w' : nworld) (r : res exn bool) :
  reached t HStart (at_ w) -> wait_for_headers p t c w = (r, w') ->
  match r with
  | Ok true => reached t BStart (at_ w')
  | Ok false => (0 <= t)%Z -> reached t Expired (at_ w')
  | Raise e => reached t (Failed e) (at_ w') \/ e = Interrupted
  end.
Proof.
  intros Hr. unfold wait_for_headers.
  destruct (countdown_begin t w) as [r1 w1] eqn:E1.
  destruct (countdown_begin_spec t HStart HRound _ _ _ (or_introl (conj eq_refl eq_refl)) Hr E1) as [_ H1].
  destruct r1 as [d|e]; [|rewrite (bind_raise _ _ _ _ _ E1); intros [= <- <-]; by left].
  rewrite (bind_ok _ _ _ _ _ E1). intros E2.
  pose proof (headers_refines_rounds t d p c d _ _ _ (same_countdown_refl t d) E2) as H2.
  destruct r as [[]|e]; [|intros Ht; specialize (H2 Ht)|destruct H2 as [H2|]; [left|by right]];
    exists d; by eapply reachable_leads.
Qed.

Lemma iter_body_spec (t : Z) (p c : nat) (w w' : nworld) (r : res exn (list bytes)) :
  reached t BStart (at_ w) -> iter_body p t c w = (r, w') ->
  match r with
  | Ok ps => reached t Complete (at_ w') /\ delivered (at_ w') = delivered (at_ w) ++ ps
  | Raise e => (e = TimeoutError /\ ((0 <= t)%Z -> reached t Expired (at_ w')))
               \/ reached t (Failed e) (at_ w') \/ e = Interrupted
  end.
Proof.
  intros Hr. unfold iter_body.
  destruct (countdown_begin t w) as [r1 w1] eqn:E1.
  destruct (countdown_begin_spec t BStart BRound _ _ _ (or_intror (conj eq_refl eq_refl)) Hr E1) as [Hd H1].
  destruct r1 as [d|e]; [|rewrite (bind_raise _ _ _ _ _ E1); intros [= <- <-]; by right; left].
  rewrite (bind_ok _ _ _ _ _ E1). intros E2.
  pose proof (body_refines_rounds t d p c d (same_countdown_refl t d) _ _ None [] _ I E2) as H2.
  destruct r as [ps|e]; cbn [body_outcome body_pc] in H2.
  - destruct H2 as (more & -> & Hm & H2). rewrite Hm, Hd. split; [|done]. exists d. by eapply reachable_leads.
  - destruct H2 as [[-> H2]|[H2|]]; [left|right; left|by right; right].
    + split; [done|]. intros Ht. exists d. eapply reachable_leads; [exact H1|by apply H2].
    + exists d. by eapply reachable_leads.
Qed.

Lemma async_headers_spec (p c : nat) (limit : option seconds) (w w' : nworld) :
  reached (-1) HStart (at_ w) -> async_wait_for_headers p limit c w = (Ok tt, w') ->
  reached (-1) BStart (at_ w').
Proof.
  intros Hr E. pose proof (reachable_unlimited (-1) HStart HRound _ eq_refl (or_introl (conj eq_refl eq_refl)) Hr) as H.
  eexists. eapply reachable_leads; [exact H|]. by eapply async_headers_refines.
Qed.

Lemma async_body_spec (p c : nat) (limit : option seconds) (w w' : nworld) (body : bytes) :
  reached (-1) BStart (at_ w) -> read_body p limit c false [] w = (Ok body, w') ->
  exists ps, body = mjoin ps /\ reached (-1) Complete (at_ w') /\ delivered (at_ w') = delivered (at_ w) ++ ps.
Proof.
  intros Hr E. pose proof (reachable_unlimited (-1) BStart BRound _ eq_refl (or_intror (conj eq_refl eq_refl)) Hr) as H.
  destruct (async_body_refines (-1) (S754_zero false) ltac:(lia) p c limit _ _ _ _ _ E)
    as (ps & -> & more & -> & Hm & Hl). exists more. split; [done|]. split; [|done].
  eexists. by eapply reachable_leads.
Qed.

(** Waiting for the headers delivers nothing. *)
Definition Idles {A} (m : st nworld exn A) : Prop :=
  forall w r w', m w = (r, w') -> delivered (at_ w') = delivered (at_ w).

Lemma Idles_bind {A B} (m : st nworld exn A) (f : A -> st nworld exn B) :
  Idles m -> (forall a, Idles (f a)) -> Idles (x ← m; f x).
Proof.
  intros Hm Hf w r w'. unfold mbind, st_bind. destruct (m w) as [[a|e] w1] eqn:E.
  - intros E2. by rewrite (Hf _ _ _ _ E2), (Hm _ _ _ E).
  - intros [= <- <-]. by rewrite (Hm _ _ _ E).
Qed.

Lemma Idles_ret {A} (r : res exn A) : Idles (fun w => (r, w)).
Proof. by intros w r' w' [= <- <-]. Qed.

Lemma Idles_native {A} (f : netlib -> A * netlib) :
  (forall x, delivered (sys (f x).2) = delivered (sys x)) -> Idles (Waiting.native f).
Proof.
  intros Hf w r w'. unfold Waiting.native. specialize (Hf (w_lib w)).
  destruct (f (w_lib w)) as [a x]. by intros [= <- <-].
Qed.

Lemma Idles_headers (t : Z) (p c : nat) : Idles (wait_for_headers p t c).
Proof.
  apply Idles_bind.
  { unfold countdown_begin. case_match; [apply Idles_ret|].
    apply Idles_bind; [apply Idles_native, due_delivered|intros; apply Idles_ret]. }
  intros dl. induction p as [|p IH]; [apply Idles_ret|]. cbn [headers_rounds].
  apply Idles_bind; [intros w r w'; apply countdown_next_delivered|]. intros [rem|].
  - apply Idles_bind; [apply Idles_native, drain_delivered|]. intros _.
    apply Idles_bind; [apply Idles_native, due_delivered|]. intros state. case_match; [apply Idles_ret|].
    apply Idles_bind; [|intros []; [exact IH|apply Idles_ret]].
    unfold wait_for_progress. case_match; [apply Idles_ret|apply Idles_native, poll_delivered].
  - apply Idles_bind; [apply Idles_native, due_delivered|]. intros; apply Idles_ret.
Qed.

Lemma Idles_async_headers (p c : nat) (limit : option seconds) :
  Idles (async_wait_for_headers p limit c).
Proof.
  induction p as [|p IH]; [apply Idles_ret|]. cbn [async_wait_for_headers].
  apply Idles_bind; [apply Idles_native, drain_delivered|]. intros _.
  apply Idles_bind; [apply Idles_native, due_delivered|]. intros state. case_match; [apply Idles_ret|].
  apply Idles_bind; [|intros _; exact IH]. intros w r w'. unfold progress. cbn [await_fd netlib_library].
  unfold net_await. pose proof (poll_delivered horizon (w_lib w)) as Hd.
  destruct (poll_turns horizon (w_lib w)) as [[] y]; by intros [= <- <-].
Qed.

(** *** The body of a finished call *)

(** The body is complete, and it is [b]. *)
Definition brought (b : bytes) (s : system) : Prop :=
  received s = b /\ past_complete (net s) = true.

Lemma brought_complete (t : Z) (s : system) : reached t Complete s -> brought (concat (delivered s)) s.
Proof.
  intros [d H]. apply inv_reachable in H as [_ H1 _ _ H2 _ _ _ _ _ _ _ _ H3].
  destruct (H3 eq_refl) as [Hb Hc]. split.
  - rewrite <- (app_nil_r (concat _)). rewrite <- Hb. symmetry. exact H1.
  - cbn in H2, Hc. congruence.
Qed.

Lemma brought_due (b : bytes) (x : netlib) : brought b (sys x) -> brought b (sys (due x)).
Proof.
  unfold due. cbn [sys]. generalize (sys x) as s.
  induction (plan (moment x)) as [|e es IH]; intros s [Hb Hp]; [done|]. cbn [foldl]. apply IH.
  unfold try_step. destruct (network e) eqn:En; [|done].
  destruct e as [v k|data|c m| | | | |]; try discriminate; unfold Call.step, net_step;
    destruct (net s) eqn:E; try discriminate; split; cbn; rewrite ?E; done.
Qed.

Definition Keeps {A} (m : st nworld exn A) : Prop :=
  forall w r w' b, m w = (r, w') -> brought b (at_ w) -> brought b (at_ w').

Lemma Keeps_bind {A B} (m : st nworld exn A) (f : A -> st nworld exn B) :
  Keeps m -> (forall a, Keeps (f a)) -> Keeps (x ← m; f x).
Proof.
  intros Hm Hf w r w' b. unfold mbind, st_bind. destruct (m w) as [[a|e] w1] eqn:E.
  - intros E2 Hb. eapply Hf; [exact E2|]. by eapply Hm.
  - intros [= <- <-] Hb. by eapply Hm.
Qed.

Lemma Keeps_same {A} (m : st nworld exn A) :
  (forall w r w', m w = (r, w') -> at_ w' = at_ w) -> Keeps m.
Proof. intros Hm w r w' b E. by rewrite (Hm _ _ _ E). Qed.

Lemma Keeps_native {A} (f : netlib -> A * netlib) :
  (forall x b, brought b (sys x) -> brought b (sys (f x).2)) -> Keeps (Waiting.native f).
Proof.
  intros Hf w r w' b. unfold Waiting.native. specialize (Hf (w_lib w) b).
  destruct (f (w_lib w)) as [a x]. intros [= <- <-]. exact Hf.
Qed.

Lemma Keeps_result (c : nat) (u : str) : Keeps (call_result c u).
Proof.
  apply Keeps_bind; [apply Keeps_native; intros x b; apply brought_due|].
  intros a. apply Keeps_same. by intros w r w' [= <- <-].
Qed.

Lemma Keeps_cancel (c : nat) : Keeps (call_cancel c).
Proof.
  apply Keeps_bind; [apply Keeps_same; by intros w r w' [= <- <-]|]. intros _.
  apply Keeps_native. intros x b Hb. apply brought_due in Hb. cbn. destruct Hb. by split.
Qed.

Lemma Keeps_close (c : nat) : Keeps (call_close c).
Proof.
  unfold call_close, free_call.
  apply Keeps_bind; [apply Keeps_same; by intros w r w' [= <- <-]|]. intros _.
  apply Keeps_bind; [apply Keeps_same; by intros w r w' [= <- <-]|]. intros _.
  apply Keeps_bind; [apply Keeps_native; intros x b; apply brought_due|]. intros _.
  apply Keeps_same. by intros w r w' [= <- <-].
Qed.

Section perform.
Context {CS : CookieStore J} (guess_type : str -> option str) (msgspec : option (json -> bytes)).
Context (draws : nat -> nat -> nat) (repr_seconds : option seconds -> str) (s : Session).

Lemma engine_start_fresh (settings : CallSettings) (c : nat) (w w' : nworld) :
  engine_start settings w = (Ok c, w') -> at_ w' = Call.init.
Proof.
  unfold engine_start, mbind, st_bind, st_lift. destruct (build_request settings) as [q|e]; [|discriminate].
  unfold engine_claim. destruct (w_open w) eqn:Eo; [|discriminate].
  unfold Waiting.native, note, engine_register. cbn. rewrite Eo. by intros [= <- <-].
Qed.

Lemma concat_mjoin (ps : list bytes) : concat ps = mjoin ps.
Proof. induction ps as [|p ps IH]; [done|]. cbn. by rewrite IH. Qed.

Lemma result_reached (t : Z) (c : nat) (u : str) (w w' : nworld) (r : res exn RawResponse) :
  reached t BStart (at_ w) -> call_result c u w = (r, w') ->
  reached t BStart (at_ w') /\ delivered (at_ w') = delivered (at_ w).
Proof.
  intros H1. unfold call_result, mbind, st_bind, Waiting.native, st_lift.
  cbn [lib_call_response netlib_library]. rewrite <- (due_delivered (w_lib w)).
  assert (reached t BStart (sys (due (w_lib w)))) as H
    by (eapply reached_leads; [exact H1|intros d; apply leads_due]).
  generalize dependent (due (w_lib w)). intros y Hy. by intros [= _ <-].
Qed.

Lemma perform_body_brought (p c : nat) (u : str) (o : RequestOptions) (t : Z) (b : bytes) (w w' : nworld) :
  at_ w = Call.init -> perform_body repr_seconds s p c u o t w = (Ok b, w') -> brought b (at_ w').
Proof.
  intros Hi. unfold perform_body, st_except.
  match goal with |- context [?m w] => destruct (m w) as [[b'|e] w0] eqn:E end.
  2:{ unfold on_timeout. by destruct e. }
  intros [= <- <-]. revert E. unfold mbind, st_bind.
  destruct (wait_for_headers p t c w) as [[h|e] w1] eqn:E1; [|discriminate].
  pose proof (Idles_headers _ _ _ _ _ _ E1) as Hd1.
  assert (reached t HStart (at_ w)) as Hr by (rewrite Hi; apply reached_init).
  pose proof (wait_for_headers_spec _ _ _ _ _ _ Hr E1) as H1.
  destruct h; [|discriminate]. unfold mret, st_ret.
  destruct (call_result c u w1) as [[raw|e] w2] eqn:E2; [|discriminate].
  destruct (result_reached _ _ _ _ _ _ H1 E2) as [H2 Hd2].
  destruct (iter_body p t c w2) as [[ps|e] w3] eqn:E3; [|discriminate].
  destruct (iter_body_spec _ _ _ _ _ _ H2 E3) as [H3 Hd3]. intros [= <- <-].
  rewrite Hd2, Hd1, Hi in Hd3. cbn in Hd3. apply brought_complete in H3. rewrite Hd3, concat_mjoin in H3. exact H3.
Qed.

Lemma async_body_brought (p c : nat) (limit : option seconds) (u : str) (e0 : exn) (b : bytes) (w w' : nworld) :
  at_ w = Call.init ->
  st_except (_ ← async_wait_for_headers p limit c; _ ← call_result c u; read_body p limit c false [])
    (on_timeout (raise e0)) w = (Ok b, w') ->
  brought b (at_ w').
Proof.
  intros Hi. unfold st_except.
  match goal with |- context [?m w] => destruct (m w) as [[b'|e] w0] eqn:E end.
  2:{ unfold on_timeout. by destruct e. }
  intros [= <- <-]. revert E. unfold mbind, st_bind.
  destruct (async_wait_for_headers p limit c w) as [[[]|e] w1] eqn:E1; [|discriminate].
  pose proof (Idles_async_headers _ _ _ _ _ _ E1) as Hd1.
  assert (reached (-1) HStart (at_ w)) as Hr by (rewrite Hi; apply reached_init).
  pose proof (async_headers_spec _ _ _ _ _ Hr E1) as H1.
  destruct (call_result c u w1) as [[raw|e] w2] eqn:E2; [|discriminate].
  destruct (result_reached _ _ _ _ _ _ H1 E2) as [H2 Hd2].
  intros E3. destruct (async_body_spec _ _ _ _ _ _ H2 E3) as (ps & -> & H3 & Hd3).
  rewrite Hd2, Hd1, Hi in Hd3. cbn in Hd3. apply brought_complete in H3. rewrite Hd3, concat_mjoin in H3. exact H3.
Qed.

(** What a request that ends well returns, around its body. *)
Lemma returned_brought (body : st nworld exn Types.Response) (cleanup : st nworld exn unit)
    (w w' : nworld) (resp : Types.Response) :
  (forall w1 r, body w = (Ok r, w1) -> brought (content r) (at_ w1)) -> Keeps cleanup ->
  st_finally body cleanup w = (Ok resp, w') ->
  content resp = received (at_ w') /\ past_complete (net (at_ w')) = true.
Proof.
  intros Hb Hc. unfold st_finally. destruct (body w) as [[r|e] w1] eqn:E.
  - destruct (cleanup w1) as [[[]|e] w2] eqn:E2; [|discriminate]. intros [= <- <-].
    by destruct (Hc _ _ _ _ E2 (Hb _ _ eq_refl)) as [-> ?].
  - by destruct (cleanup w1) as [[[]|e'] w2].
Qed.

Lemma finish_brought (c : nat) (u : str) (b : bytes) (w w' : nworld) (r : Types.Response) :
  brought b (at_ w) ->
  (raw ← call_result c u; st_lift (checked s (from_raw raw b)) : st nworld exn Types.Response) w = (Ok r, w') ->
  brought (content r) (at_ w').
Proof.
  intros Hb. unfold mbind, st_bind. destruct (call_result c u w) as [[raw|e] w1] eqn:E; [|discriminate].
  unfold st_lift. intros [= Hr <-]. apply checked_ok in Hr as [-> _]. by eapply Keeps_result.
Qed.

(** C4: End to end, a response's body is the network's: whatever the network
    thread does meanwhile and however its steps interleave with the waiting
    loops (any plan, any clock, any patience), when a request over the native
    call state returns a response, blocking or on an event loop, its content
    is exactly the octets the network brought, all of them: the network
    thread has marked the body complete. *)
Theorem network_to_response (blocking : bool) (p : nat) (m u : str) (o : RequestOptions) (l : Z)
    (w w' : nworld) (resp : Types.Response) :
  performs (LX := netlib_library) guess_type msgspec draws repr_seconds s blocking p m u o l w = (Ok resp, w') ->
  content resp = received (at_ w') /\ past_complete (net (at_ w')) = true.
Proof.
  destruct blocking; unfold performs, perform, perform_async; unfold mbind at 1, st_bind at 1;
    destruct (session_call _ _ _ s m u o l w) as [[settings|e] w1] eqn:E1; try discriminate;
    unfold mbind at 1, st_bind at 1;
    destruct (engine_start settings w1) as [[c|e] w2] eqn:E2; try discriminate;
    apply engine_start_fresh in E2; apply returned_brought.
  - intros w3 r. unfold mbind at 1, st_bind at 1, st_lift at 1.
    destruct (timeout_ms s o) as [t|e]; [|discriminate].
    unfold mbind at 1, st_bind at 1.
    destruct (perform_body repr_seconds s p c u o t w2) as [[b|e] w4] eqn:E3; [|discriminate].
    apply finish_brought. by eapply perform_body_brought.
  - apply Keeps_close.
  - intros w3 r. unfold mbind at 1, st_bind at 1.
    match goal with |- context [?m w2] => destruct (m w2) as [[b|e] w4] eqn:E3 end; [|discriminate].
    apply finish_brought. by eapply async_body_brought.
  - apply Keeps_bind; [apply Keeps_native; intros x b; apply brought_due|]. intros finished.
    apply Keeps_bind; [|intros _; apply Keeps_close].
    destruct finished; [apply Keeps_same; by intros ??? [= <- <-]|apply Keeps_cancel].
Qed.
End perform.

(** ** When the request ends, the loops return *)

(** The network thread ends the request: whatever callback is running is
    finished, then the outcome is stored. *)
Definition closing (code : Z) (message : bytes) : list event :=
  [NetStep; NetStep; NetOutcome code message; NetStep; NetStep; NetStep; NetStep].

(** Where a step of its own takes the network thread, the flag saying whether
    the outcome was claimed before. *)
Definition net_next (p : net_pc) (claimed : bool) : net_pc :=
  match p with
  | Idle => Idle
  | Signalling ThenRead => Reissuing
  | Signalling ThenWait => Idle
  | Signalling (ThenFinish c m) => Finishing c m
  | Reissuing => Idle
  | Finishing c m => if claimed then Ended else WritingError c m
  | WritingError _ _ => Storing
  | Storing => LastSignal
  | LastSignal | Ended => Ended
  end.

Lemma try_net_step (s : system) :
  net (try_step s NetStep) = net_next (net s) (outcome_claimed_ (Call.native s)).
Proof.
  unfold try_step, Call.step, net_step. cbn [network].
  destruct (net s) as [|[]| |c m| | | |] eqn:E; cbn [default net_next]; try done.
  by destruct (outcome_claimed_ (Call.native s)).
Qed.

Lemma try_net_outcome (c : Z) (m : bytes) (s : system) :
  net (try_step s (NetOutcome c m)) = match net s with Idle => Finishing c m | p => p end.
Proof. unfold try_step, Call.step. cbn [network]. by destruct (net s) eqn:E; cbn [default]; rewrite ?E. Qed.

Lemma closing_ends (code : Z) (message : bytes) (s : system) :
  net (foldl try_step s (closing code message)) = Ended.
Proof.
  unfold closing. cbn [foldl]. rewrite !try_net_step, try_net_outcome, !try_net_step.
  repeat match goal with |- context [outcome_claimed_ ?n] => generalize (outcome_claimed_ n); intros [] end;
    by destruct (net s) as [|[]| | | | | |].
Qed.

Section ending.
Context (k : nat) (code : Z) (message : bytes).
(** From its [k]-th turn on, the network thread ends the request. *)
Hypothesis ends : forall n, k <= n -> plan n = closing code message.
Hypothesis far : k <= horizon.

Definition settled (x : netlib) : Prop := k < moment x -> net (sys x) = Ended.

Lemma settled_due (x : netlib) : settled (due x).
Proof. intros H. unfold due in *. cbn in *. rewrite ends by lia. apply closing_ends. Qed.

Lemma due_ended (x : netlib) : net (sys x) = Ended -> sys (due x) = sys x.
Proof.
  intros H. unfold due. cbn [sys]. induction (plan (moment x)) as [|e es IH]; [done|]. cbn [foldl].
  assert (try_step (sys x) e = sys x) as ->; [|exact IH].
  unfold try_step. destruct e; cbn; unfold net_step; by rewrite ?H.
Qed.

Lemma ended_readable (t : Z) (d : float) (p p' : consumer_pc) (r : Z) (s : system) :
  (p = HPoll r /\ p' = HRound) \/ (p = BPoll r /\ p' = BRound) ->
  net s = Ended -> Call.reachable t (dress p d s) -> readable (Call.native s) = true.
Proof.
  intros Hp En Hr. apply inv_reachable in Hr as [_ _ _ _ I4 I5 _ _ _ _ _ I10 I11 _].
  unfold awake in *. cbn in *. rewrite En in *. cbn in *.
  destruct Hp as [[-> ->]|[-> ->]].
  - destruct (I10 r eq_refl) as [|]; [intros Es; by rewrite Es in I5|done|done].
  - destruct (I11 r eq_refl) as [|]; [by right|done|done].
Qed.

Lemma wait_unlimited (c : nat) (w : nworld) :
  wait_for_progress c (-1) w = let '(b, x) := poll_turns horizon (w_lib w) in (Ok b, set_lib w x).
Proof. reflexivity. Qed.

(** A wait in a round whose head was drained is always woken. *)
Lemma poll_wakes (t : Z) (d : float) (p p' : consumer_pc) (r : Z) (n : nat) (x : netlib) :
  (p = HPoll r /\ p' = HRound) \/ (p = BPoll r /\ p' = BRound) ->
  poll_refuses r = false -> Call.reachable t (dress p d (sys x)) -> k <= moment x + n ->
  exists y, poll_turns n x = (true, y) /\ moment x < moment y /\ settled y
            /\ Call.reachable t (dress p' d (sys y)).
Proof.
  intros Hp Hf. revert x. induction n as [|n IH]; intros x Hr Hk; cbn [poll_turns];
    pose proof (settled_due x) as Hs;
    pose proof (reachable_leads _ _ _ _ _ _ Hr (leads_due t d p x)) as Hd;
    assert (moment (due x) = S (moment x)) as Hm by done;
    generalize dependent (due x); intros y Hs Hd Hm;
    destruct (readable (Call.native (sys y))) eqn:Er.
  1, 3: exists y; split_and!; [done|lia|done|]; eapply reachable_leads; [exact Hd|];
    by apply (leads_wakes t d _ _ r).
  all: assert (net (sys y) <> Ended) as Hn
    by (intros En; by rewrite (ended_readable _ _ _ _ _ _ Hp En Hd) in Er).
  - exfalso. apply Hn, Hs. lia.
  - destruct (Nat.le_gt_cases (moment y) k) as [Hle|Hgt]; [|exfalso; by apply Hn, Hs].
    destruct (IH y Hd) as (z & E & Hz & ?); [lia|]. exists z. rewrite E. split_and!; [done|lia|tauto..].
Qed.

Lemma drain_moment (c : nat) (x : netlib) :
  moment (lib_drain_fd c x) = S (moment x) /\ settled (lib_drain_fd c x).
Proof. split; [done|]. pose proof (settled_due x) as H. cbn. exact H. Qed.

Lemma countdown_unlimited (t : Z) (dl : float) (w : nworld) :
  (t < 0)%Z -> countdown_next t dl w = (Ok (Some (-1)%Z), w).
Proof. intros Ht. unfold countdown_next. by rewrite (proj2 (Z.ltb_lt _ _) Ht). Qed.

Lemma ended_started (t : Z) (d : float) (p : consumer_pc) (s : system) :
  net s = Ended -> Call.reachable t (dress p d s) -> state_ (Call.native s) = CALL_DONE.
Proof.
  intros En Hr. apply inv_reachable in Hr as [_ _ _ _ _ I5 _ _ _ _ _ _ _ _]. cbn in I5.
  rewrite En in I5. by apply Z.eqb_eq in I5.
Qed.

(** [wait_for_headers] without a limit returns, and says they are there. *)
Lemma headers_return (t : Z) (d dl : float) (c : nat) : (t < 0)%Z -> forall (p : nat) (w : nworld),
  Call.reachable t (dress HRound d (at_ w)) -> k + 2 <= p + moment (w_lib w) -> 0 < p ->
  exists w', headers_rounds p t dl c w = (Ok true, w')
             /\ Call.reachable t (dress BStart d (at_ w')) /\ settled (w_lib w').
Proof.
  intros Ht p. induction p as [|p IH]; intros w Hr Hk Hp; [lia|]. cbn [headers_rounds].
  rewrite (bind_ok _ _ _ w _ (countdown_unlimited t dl w Ht)).
  destruct (drain_moment c (w_lib w)) as [Hm _]. set (x := lib_drain_fd c (w_lib w)) in *.
  rewrite (bind_ok _ _ _ (set_lib w x) tt) by reflexivity.
  rewrite (bind_ok _ _ _ (set_lib w (due x)) (state_ (Call.native (sys (due x))))) by reflexivity.
  assert (leads t d HRound (at_ w) (HCheck (-1)) (sys x)) as H1.
  { eapply leads_trans; [apply (unlimited_tick t d Ht); left; eauto|]. apply leads_drain; eauto. }
  pose proof (reachable_leads _ _ _ _ _ _ Hr (leads_trans _ _ _ _ _ _ _ _ H1 (leads_check t d (-1) x))) as Hc.
  pose proof (settled_due x) as Hs. assert (moment (due x) = S (moment x)) as Hm2 by done.
  generalize dependent (due x). intros y Hc Hs Hm2.
  destruct (state_ (Call.native (sys y)) =? CALL_STARTED)%Z eqn:Est; cbn [negb].
  - assert (moment y <= k) as Hle.
    { destruct (Nat.le_gt_cases (moment y) k) as [|Hgt]; [done|].
      pose proof (ended_started _ _ _ _ (Hs Hgt) Hc) as E. by rewrite E in Est. }
    destruct (poll_wakes t d (HPoll (-1)) HRound (-1) horizon y (or_introl (conj eq_refl eq_refl)) eq_refl Hc)
      as (z & E & Hz & Hsz & Hrz); [lia|].
    rewrite (bind_ok _ _ _ (set_lib w z) true)
      by (rewrite wait_unlimited; cbn [w_lib set_lib]; by rewrite E).
    apply IH; cbn [w_lib set_lib]; [exact Hrz|lia|lia].
  - exists (set_lib w y). split_and!; [done|exact Hc|exact Hs].
Qed.

Lemma read_moment (c : nat) (w w' : nworld) (a : res exn (option bytes)) :
  Waiting.call_read c w = (a, w') -> moment (w_lib w) < moment (w_lib w') /\ settled (w_lib w').
Proof.
  unfold Waiting.call_read, mbind, st_bind, Waiting.native, note, mret, st_ret.
  cbn [w_lib lib_call_read netlib_library]. unfold net_read.
  pose proof (settled_due (w_lib w)) as Hs. assert (moment (due (w_lib w)) = S (moment (w_lib w))) as Hm by done.
  generalize dependent (due (w_lib w)). intros x Hs Hm.
  destruct (Read CHUNK_SIZE (Call.native (sys x))) as [[out resume] n].
  set (y := set_sys x _). assert (settled y /\ moment y = moment x) as [Hsy Hmy].
  { split; [|done]. intros H. specialize (Hs H). by destruct out as [[|]|]. }
  clearbody y. destruct resume; intros [= _ <-]; cbn [w_lib set_lib add_event].
  - split; [change (moment (w_lib w) < S (moment y)); lia|]. intros H. pose proof (settled_due y H) as He.
    change (net (post_read (sys (due y))) = Ended). generalize dependent (sys (due y)). intros z He.
    unfold post_read. by case_match.
  - split; [lia|done].
Qed.

(** What a read leaves when the request is over. *)
Lemma read_ended (c : nat) (w w' : nworld) (t r : Z) (d : float) (piece : option bytes) :
  net (at_ w) = Ended -> Call.reachable t (dress (BRead r) d (at_ w)) ->
  Waiting.call_read c w = (Ok piece, w') ->
  piece = None \/ (exists b bs, piece = Some (b :: bs))
    /\ net (at_ w') = Ended
    /\ length (buffered (Call.native (at_ w'))) < length (buffered (Call.native (at_ w))).
Proof.
  intros En Hr. apply inv_reachable in Hr as [I0 _ _ _ I4 _ _ _ _ _ _ _ _ _]. cbn in I0, I4.
  rewrite En in I4. cbn in I4.
  unfold Waiting.call_read, mbind, st_bind, Waiting.native, note, mret, st_ret.
  cbn [w_lib lib_call_read netlib_library]. unfold net_read. rewrite (due_ended _ En).
  destruct (Read CHUNK_SIZE (Call.native (at_ w))) as [[out resume] n] eqn:Er.
  destruct (Read_spec _ _ _ _ _ I0 (eq_refl : (0 < CHUNK_SIZE)%N) Er) as (_ & _ & _ & _ & _ & Ho).
  destruct out as [[|b bs]|]; [destruct Ho as (_ & E & _); congruence| |intros [= <- _]; by left].
  destruct Ho as (Hb & _). intros H. right.
  set (y := set_sys (due (w_lib w)) (deliver (set_native (at_ w) n) (b :: bs))) in H.
  assert (net (sys y) = Ended /\ Call.native (sys y) = n) as [Ey En'] by (split; [exact En|done]). clearbody y.
  assert (net (at_ w') = Ended /\ Call.native (at_ w') = n /\ piece = Some (b :: bs)) as (-> & -> & ->).
  { destruct resume; injection H as <- <-; [|by split_and!].
    match goal with |- net ?x = _ /\ _ => change x with (post_read (sys (due y))) end.
    rewrite (due_ended _ Ey). unfold post_read. case_match; by split_and!. }
  split_and!; [by exists b, bs|done|]. rewrite Hb, length_app. cbn. lia.
Qed.

(** A read keeps the consumer's place one that Call can reach. *)
Lemma reachable_read (t : Z) (d : float) (r : Z) (c : nat) (w w' : nworld) (a : res exn (option bytes)) :
  Call.reachable t (dress (BRead r) d (at_ w)) -> Waiting.call_read c w = (a, w') ->
  exists piece, a = Ok piece /\
    Call.reachable t (dress match piece with None => Complete | Some [] => BPoll r | Some _ => BRead r end
                        d (at_ w')).
Proof.
  intros Hr E. destruct (leads_read t d r _ _ _ _ E) as (piece & -> & _ & Hl).
  exists piece. split; [done|]. by eapply reachable_leads.
Qed.

Lemma reachable_head (t : Z) (d : float) (c : nat) (w : nworld) :
  (t < 0)%Z -> Call.reachable t (dress BRound d (at_ w)) ->
  Call.reachable t (dress (BRead (-1)) d (sys (lib_drain_fd c (w_lib w)))).
Proof.
  intros Ht Hr. eapply reachable_leads; [exact Hr|].
  eapply leads_trans; [apply (unlimited_tick t d Ht); right; eauto|]. apply leads_drain; eauto.
Qed.

(** Once the request is over, reading what is buffered is all that is left. *)
Lemma body_return_ended (t : Z) (d dl : float) (c : nat) : (t < 0)%Z ->
  forall (p : nat) (w : nworld) (reading : option Z) (got : list bytes),
  (reading = None \/ reading = Some (-1)%Z) -> net (at_ w) = Ended ->
  Call.reachable t (dress (body_pc reading) d (at_ w)) ->
  length (buffered (Call.native (at_ w))) + (if reading is Some _ then 0 else 1) < p ->
  exists ps w', body_rounds p t dl c reading got w = (Ok ps, w').
Proof.
  intros Ht p. induction p as [|p IH]; intros w reading got Hg En Hr Hp; [lia|]. cbn [body_rounds].
  destruct Hg as [->| ->].
  - rewrite (bind_ok _ _ _ w _ (countdown_unlimited t dl w Ht)).
    set (x := lib_drain_fd c (w_lib w)).
    rewrite (bind_ok _ _ _ (set_lib w x) tt) by reflexivity.
    assert (net (sys x) = Ended /\ buffered (Call.native (sys x)) = buffered (Call.native (at_ w))) as [E1 E2].
    { change (sys x) with (set_native (sys (due (w_lib w))) (call_drain (Call.native (sys (due (w_lib w)))))).
      rewrite (due_ended _ En). by split. }
    apply IH; [by right|exact E1|by apply reachable_head|]. cbn [w_lib set_lib]. rewrite E2. lia.
  - destruct (Waiting.call_read c w) as [a w1] eqn:E.
    destruct (reachable_read _ _ _ _ _ _ _ Hr E) as (piece & -> & Hr1). rewrite (bind_ok _ _ _ _ _ E).
    destruct (read_ended _ _ _ _ _ _ _ En Hr E) as [->|((b & bs & ->) & En1 & Hb)].
    + by exists got, w1.
    + apply IH; [by right|done|done|lia].
Qed.

(** No more than this is ever buffered. *)
Definition buffer_limit : nat := N.to_nat (kHighWaterBytes + kReadBufferSize).

Lemma buffer_limited (t : Z) (d : float) (p : consumer_pc) (s : system) :
  Call.reachable t (dress p d s) -> length (buffered (Call.native s)) < buffer_limit.
Proof.
  intros Hr. apply inv_reachable in Hr as [_ _ _ _ _ _ _ _ _ _ I9 _ _ _]. cbn in I9.
  rewrite available_buffered in I9. unfold buffer_limit, size_N in *. lia.
Qed.

(** [iter_body] without a limit comes to the end of the body. *)
Lemma body_return (t : Z) (d dl : float) (c : nat) : (t < 0)%Z ->
  forall (p : nat) (w : nworld) (reading : option Z) (got : list bytes),
  (reading = None \/ reading = Some (-1)%Z) -> settled (w_lib w) ->
  Call.reachable t (dress (body_pc reading) d (at_ w)) ->
  k + buffer_limit + 2 <= p + Nat.min k (moment (w_lib w)) ->
  exists ps w', body_rounds p t dl c reading got w = (Ok ps, w').
Proof.
  intros Ht p. induction p as [|p IH]; intros w reading got Hg Hs Hr Hp; [lia|].
  destruct (Nat.le_gt_cases (moment (w_lib w)) k) as [Hle|Hgt].
  2:{ apply (body_return_ended t d dl c Ht); [done|by apply Hs|done|].
      pose proof (buffer_limited _ _ _ _ Hr). destruct reading; lia. }
  assert (forall (w1 : nworld) reading1 got1,
    (reading1 = None \/ reading1 = Some (-1)%Z) -> settled (w_lib w1) -> moment (w_lib w) < moment (w_lib w1) ->
    Call.reachable t (dress (body_pc reading1) d (at_ w1)) ->
    exists ps w', body_rounds p t dl c reading1 got1 w1 = (Ok ps, w')) as Hnext.
  { intros w1 r1 g1 Hg1 Hs1 Hm Hr1.
    destruct (Nat.le_gt_cases (moment (w_lib w1)) k) as [Hle1|Hgt1]; [apply IH; try done; lia|].
    apply (body_return_ended t d dl c Ht); [done|by apply Hs1|done|].
    pose proof (buffer_limited _ _ _ _ Hr1). destruct r1; lia. }
  cbn [body_rounds]. destruct Hg as [->| ->].
  - rewrite (bind_ok _ _ _ w _ (countdown_unlimited t dl w Ht)).
    destruct (drain_moment c (w_lib w)) as [Hm Hsx]. set (x := lib_drain_fd c (w_lib w)) in *.
    rewrite (bind_ok _ _ _ (set_lib w x) tt) by reflexivity.
    apply Hnext; [by right|exact Hsx|cbn [w_lib set_lib]; lia|by apply reachable_head].
  - destruct (Waiting.call_read c w) as [a w1] eqn:E.
    destruct (reachable_read _ _ _ _ _ _ _ Hr E) as (piece & -> & Hr1). rewrite (bind_ok _ _ _ _ _ E).
    destruct (read_moment _ _ _ _ E) as [Hm Hs1]. destruct piece as [[|b bs]|].
    + destruct (poll_wakes t d (BPoll (-1)) BRound (-1) horizon (w_lib w1)
                  (or_intror (conj eq_refl eq_refl)) eq_refl Hr1) as (z & Ez & Hz & Hsz & Hrz); [lia|].
      rewrite (bind_ok _ _ _ (set_lib w1 z) true)
        by (rewrite wait_unlimited; by rewrite Ez).
      apply Hnext; [by left|exact Hsz|cbn [w_lib set_lib]; lia|exact Hrz].
    + apply Hnext; [by right|done|lia|done].
    + by exists got, w1.
Qed.
End ending.

(** Waiting for a call and reading it to its end: what [perform] does with it,
    without the look at the response in between. *)
Definition download (p : nat) (t : Z) (c : nat) : st nworld exn (list bytes) :=
  headers ← wait_for_headers p t c;
  if headers : bool then iter_body p t c else raise TimeoutError.

(** C17: The loops are behaviours of the two-thread model.  From a fresh call,
    under every plan of the network thread, clock and patience: when waiting
    for the headers and reading the body succeeds, some schedule of [Call]
    leads to a consumer that is told the body is complete and was delivered
    exactly the pieces returned; when a limited wait runs out of time, one
    leads to the consumer that gave up; when a limit does not fit a float or
    poll(), one leads to the consumer that failed with that exception; the
    only other end is the waiting thread's interruption. *)
Theorem loops_refine_call (p : nat) (t : Z) (c : nat) (w w' : nworld) (r : res exn (list bytes)) :
  at_ w = Call.init -> download p t c w = (r, w') ->
  match r with
  | Ok ps => reached t Complete (at_ w') /\ delivered (at_ w') = ps
  | Raise e => (e = TimeoutError /\ ((0 <= t)%Z -> reached t Expired (at_ w')))
               \/ reached t (Failed e) (at_ w') \/ e = Interrupted
  end.
Proof.
  intros Hi. unfold download, mbind, st_bind.
  assert (reached t HStart (at_ w)) as Hr by (rewrite Hi; apply reached_init).
  destruct (wait_for_headers p t c w) as [[[]|e] w1] eqn:E1;
    pose proof (wait_for_headers_spec _ _ _ _ _ _ Hr E1) as H1.
  - pose proof (Idles_headers _ _ _ _ _ _ E1) as Hd.
    intros E2. apply (iter_body_spec _ _ _ _ _ _ H1) in E2. destruct r; [|exact E2].
    by rewrite Hd, Hi in E2.
  - intros [= <- <-]. left. by split.
  - intros [= <- <-]. by right.
Qed.

(** C28: A request that ends is not waited for in vain.  If from some turn on the
    network thread, whenever it runs, ends the request (with any outcome), then
    waiting without a limit for its headers and reading its body returns, in a
    number of rounds bounded by that turn and by what the buffer can hold, and
    the pieces returned are all that was ever brought. *)
Theorem download_returns (k : nat) (code : Z) (message : bytes) (p : nat) (t : Z) (c : nat) (w : nworld) :
  (forall n, k <= n -> plan n = closing code message) -> k <= horizon -> (t < 0)%Z ->
  at_ w = Call.init -> k + buffer_limit + 2 <= p ->
  exists ps w', download p t c w = (Ok ps, w') /\ mjoin ps = received (at_ w').
Proof.
  intros Hends Hfar Ht Hi Hp. set (d := S754_zero false : float).
  assert ((countdown_begin t : st nworld exn float) = mret (S754_zero false)) as Hb
    by (unfold countdown_begin; by rewrite (proj2 (Z.ltb_lt _ _) Ht)).
  assert (Call.reachable t (dress HRound d (at_ w))) as H0.
  { rewrite Hi. apply (reachable_unlimited t HStart); [done|by left|apply reached_init]. }
  assert (exists w1, wait_for_headers p t c w = (Ok true, w1) /\
            Call.reachable t (dress BStart d (at_ w1)) /\ settled k (w_lib w1)) as (w1 & E1 & H1 & Hs).
  { unfold wait_for_headers. rewrite Hb, (bind_ok _ _ _ w (S754_zero false)) by reflexivity.
    apply (headers_return k code message Hends Hfar t d); [done|done|lia|lia]. }
  assert (exists ps w2, iter_body p t c w1 = (Ok ps, w2)) as (ps & w2 & E2).
  { unfold iter_body. rewrite Hb, (bind_ok _ _ _ w1 (S754_zero false)) by reflexivity.
    apply (body_return k code message Hends Hfar t d); [done|by left|done| |lia].
    apply (reachable_unlimited t BStart); [done|by right|by exists d]. }
  exists ps, w2. assert (download p t c w = (Ok ps, w2)) as E
    by (unfold download; by rewrite (bind_ok _ _ _ _ _ E1)).
  split; [exact E|].
  assert (reached t BStart (at_ w1)) as Hr by (by exists d).
  destruct (iter_body_spec _ _ _ _ _ _ Hr E2) as [H2 Hd].
  rewrite (Idles_headers _ _ _ _ _ _ E1), Hi in Hd. cbn in Hd.
  apply brought_complete in H2 as [H2 _]. by rewrite H2, Hd, concat_mjoin.
Qed.
End netlib.

(** ** A download *)

(** Headers, two pieces of body, then the end of the request. *)
Definition sample_plan (n : nat) : list event :=
  match n with
  | 0 => [NetHeaders h3_view ThenRead; NetStep]
  | 1 => [NetStep; NetData (blit "ab"); NetStep]
  | 2 => [NetStep]
  | 3 => [NetData (blit "c"); NetStep; NetStep]
  | _ => closing 0 []
  end.

Definition sample_clock (n : nat) : float := S754_zero false.

Definition sample_world : @world netlib CookieJar :=
  mkWorld true ∅ 0 None (mkLib Call.init 0) [].

Abbreviation sample_download :=
  (download (J := CookieJar) sample_plan sample_clock 4 30 (-1) 0 sample_world).

Lemma loops_refine_call_witness :
  exists ps w', sample_download = (Ok ps, w') /\ mjoin ps = blit "abc"
    /\ reached (-1) Complete (sys (w_lib w')) /\ delivered (sys (w_lib w')) = ps.
Proof.
  destruct sample_download as [r w'] eqn:E.
  pose proof (loops_refine_call sample_plan sample_clock 4 30 (-1) 0 sample_world w' r eq_refl E) as H.
  assert (exists ps, r = Ok ps /\ mjoin ps = blit "abc") as (ps & -> & Hp).
  { apply (f_equal fst) in E. cbn [fst] in E. rewrite <- E. eexists. split; vm_compute; reflexivity. }
  exists ps, w'. split; [reflexivity|]. split; [exact Hp|exact H].
Defined.

Lemma download_returns_witness :
  exists ps w', download (J := CookieJar) sample_plan sample_clock 4
      (4 + buffer_limit + 2) (-1) 0 sample_world = (Ok ps, w')
    /\ mjoin ps = received (sys (w_lib w')).
Proof.
  apply (download_returns sample_plan sample_clock 4 4 0 [] (4 + buffer_limit + 2) (-1) 0 sample_world).
  - intros n Hn. destruct n as [|[|[|[|n]]]]; [lia..|reflexivity].
  - reflexivity.
  - reflexivity.
  - reflexivity.
  - reflexivity.
Defined.

Abbreviation net_perform b :=
  (performs (LX := netlib_library sample_plan sample_clock 4) guess0 None draws0 repr0 strict_session b 30
     #"GET" #"https://h/" no_options 0 sample_world).

Lemma network_to_response_witness :
  exists resp w', net_perform true = (Ok resp, w')
    /\ content resp = blit "abc" /\ content resp = received (sys (w_lib w')).
Proof.
  destruct (net_perform true) as [r w'] eqn:E.
  assert (exists resp, r = Ok resp /\ content resp = blit "abc") as (resp & -> & Hp).
  { apply (f_equal fst) in E. cbn [fst] in E. rewrite <- E. eexists. split; vm_compute; reflexivity. }
  pose proof (network_to_response sample_plan sample_clock 4 guess0 None draws0 repr0 strict_session
                true 30 #"GET" #"https://h/" no_options 0 sample_world w' resp E) as H.
  exists resp, w'. split; [reflexivity|]. split; [exact Hp|exact (proj1 H)].
Defined.
