(* ===== verification/Binding.v ===== *)
(** * Binding: loading libcronet.so and proving it is the right one
    (_binding.py).

    The file system, the dynamic loader and the machine are the parameters of
    the section; what the loader gives is a library's exports and what its two
    argument-free functions answer. *)

From S2P Require Import Prelude PyText PyUrl Headers Types Errors Json Abi Options Multipart.
From S2P Require Import Request Native Bridge.

(** What is asked of a loaded [ctypes.CDLL]. *)
Record cdll := mkCdll {
  hasattr : str -> bool;
  cronet_abi_version : Z;
  cronet_version : bytes;
  cronet_last_error : bytes;
}.

(** The ImportErrors of the module, by what their message reports. *)
Inductive import_error :=
| LibraryNotFound (path : str)
| WrongPlatform (path platform : str)
| WouldNotLoad (path platform failure : str)
| MissingExports (path : str) (missing : list str)
| WrongAbi (path : str) (built : Z).

Section binding.
Context (environ : option str)           (* CRONET_LIBRARY *)
  (directory : str)                      (* Path(__file__).resolve().parent *)
  (exists_ : str -> bool)                (* Path.exists *)
  (dlopen : str -> res str cdll)         (* ctypes.CDLL *)
  (sys_platform machine : str).          (* sys.platform, os.uname().machine *)

(** [_library_path()] *)
Definition library_path : str :=
  match environ with
  | Some override => if nonempty override then override else directory ++ #"/libcronet.so"
  | None => directory ++ #"/libcronet.so"
  end.

(** [_why_it_would_not_load(path, failure)] *)
Definition why_it_would_not_load (path failure : str) : import_error :=
  let platform := sys_platform ++ #", " ++ machine in
  if negb (bool_decide (sys_platform = #"linux")) || negb (bool_decide (machine = #"x86_64"))
  then WrongPlatform path platform
  else WouldNotLoad path platform failure.

(** [_load()] *)
Definition load : res import_error cdll :=
  let path := library_path in
  if negb (exists_ path) then Raise (LibraryNotFound path)
  else
    match dlopen path with
    | Raise failure => Raise (why_it_would_not_load path failure)
    | Ok library =>
        let missing := keep (fun name => negb (hasattr library name)) FUNCTIONS in
        if nonempty missing then Raise (MissingExports path missing) else Ok library
    end.

(** The module's own body: the library, once its ABI has been checked. *)
Definition import_binding : res import_error cdll :=
  lib ← load;
  if negb (cronet_abi_version lib =? ABI_VERSION)%Z
  then Raise (WrongAbi library_path (cronet_abi_version lib))
  else Ok lib.

(** [version()] and [last_error()] *)
Definition version (lib : cdll) : res exn str := decode_strict (cronet_version lib).
Definition last_error (lib : cdll) : str := decode_replace (cronet_last_error lib).

(** C40: the package imports exactly when the library is there, loads, exports
    every function the bound signatures name and was built to the very ABI
    the declarations describe; and when it does not, the error names every
    missing export, or the version found. *)
Theorem import_iff :
  (forall lib, import_binding = Ok lib <->
     exists_ library_path = true /\ dlopen library_path = Ok lib
     /\ (forall sig, sig ∈ bind -> hasattr lib (sig_name sig) = true)
     /\ cronet_abi_version lib = ABI_VERSION)
  /\ (forall path missing, import_binding = Raise (MissingExports path missing) ->
        exists lib, dlopen path = Ok lib
        /\ forall name, name ∈ missing <-> name ∈ FUNCTIONS /\ hasattr lib name = false)
  /\ (forall path built, import_binding = Raise (WrongAbi path built) -> built <> ABI_VERSION).
Proof.
  assert (FUNCTIONS = sig_name <$> bind) as HF by reflexivity.
  unfold import_binding, load, why_it_would_not_load.
  destruct (exists_ library_path); cbn [negb mbind res_bind];
    [|split_and!; [intros lib; split; [done|by intros [? _]]|done|done]].
  destruct (dlopen library_path) as [lib|failure] eqn:Ed.
  2: { destruct (_ || _); cbn; split_and!; try done; intros lib; (split; [done|by intros (_ & ? & _)]). }
  set (missing := keep _ _).
  assert (forall name, name ∈ missing <-> name ∈ FUNCTIONS /\ hasattr lib name = false) as Hm.
  { intros name. subst missing. rewrite elem_of_keep, negb_true_iff. tauto. }
  clearbody missing. split_and!.
  - intros lib'. destruct missing as [|n ns]; cbn.
    + destruct (Z.eqb_spec (cronet_abi_version lib) ABI_VERSION) as [E|E]; cbn.
      * split; [|by intros (_ & [= ->] & _)]. intros [= <-]. split_and!; try done.
        intros sig Hs. destruct (hasattr lib (sig_name sig)) eqn:Eh; [done|exfalso].
        apply (not_elem_of_nil (sig_name sig)), Hm. split; [|done].
        rewrite HF. apply list_elem_of_fmap. by exists sig.
      * split; [done|]. by intros (_ & [= ->] & _ & ?).
    + split; [done|]. intros (_ & [= ->] & H & _). exfalso.
      assert (n ∈ n :: ns) as Hn by (by left). apply Hm in Hn as [Hn Hh].
      rewrite HF in Hn. apply list_elem_of_fmap in Hn as (sig & -> & Hs). by rewrite H in Hh.
  - intros path ns. destruct missing as [|n ns']; cbn; [by destruct (negb _)|].
    intros [= <- <-]. exists lib. by split.
  - intros path built. destruct missing as [|n ns']; cbn; [|done].
    destruct (Z.eqb_spec (cronet_abi_version lib) ABI_VERSION) as [E|E]; cbn; [done|].
    by intros [= _ <-].
Qed.
End binding.

Definition good_library : cdll := mkCdll (fun _ => true) 3 (blit "150.0.7871.100") [].

Lemma import_iff_witness :
  import_binding None (#"/x") (fun _ => true) (fun _ => Ok good_library) (#"linux") (#"x86_64")
  = Ok good_library.
Proof.
  apply (proj1 (import_iff None (#"/x") (fun _ => true) (fun _ => Ok good_library) (#"linux") (#"x86_64"))
           good_library).
  split; [reflexivity|]. split; [reflexivity|]. split; [|reflexivity].
  intros sig _. reflexivity.
Defined.
