(* ===== verification/Surface.v ===== *)
(** * Surface: what the package exports and where its wheel installs
    (__init__.py, hatch_build.py).

    The names a program can import, which include the class of every exception
    the package raises as its own, and the tag the build hook gives the wheel,
    which is the platform on which a failure to load the library is not put
    down to the platform. *)

From S2P Require Import Prelude Unicode PyText Dict PyUrl Headers Types Errors Binding.

(** [__all__] *)
Definition all_names : list str :=
  [ #"DETERMINISTIC"; #"NO_TIME"; #"AsyncSession"; #"Cache"; #"Cancelled"; #"CertificateError";
    #"ConnectionFailed"; #"CookieJar"; #"CronetError"; #"HTTPStatusError"; #"Headers"; #"LibraryError";
    #"Metrics"; #"Priority"; #"ProtocolDowngraded"; #"ProxyFailed"; #"RequestError"; #"RequestOptions";
    #"Response"; #"Session"; #"SessionClosed"; #"Timeout"; #"TlsProfile"; #"TooManyRedirects";
    #"default_user_agent"; #"version"].

(** The names the module imports, by the module they come from. *)
Definition imports : list (str * list str) :=
  [(#"cookies", [ #"CookieJar"]);
   (#"errors", [ #"Cancelled"; #"CertificateError"; #"ConnectionFailed"; #"CronetError"; #"HTTPStatusError";
                 #"LibraryError"; #"ProtocolDowngraded"; #"ProxyFailed"; #"RequestError"; #"SessionClosed";
                 #"Timeout"; #"TooManyRedirects"]);
   (#"headers", [ #"Headers"]);
   (#"request", [ #"Priority"; #"RequestOptions"]);
   (#"response", [ #"NO_TIME"; #"Metrics"; #"Response"]);
   (#"session", [ #"AsyncSession"; #"Cache"; #"Session"; #"default_user_agent"; #"version"]);
   (#"tls", [ #"DETERMINISTIC"; #"TlsProfile"])].

(** The class of an exception, where it is one of the package's. *)
Definition class_name (e : exn) : option str :=
  match e with
  | LibraryError _ => Some (#"LibraryError")
  | SessionClosed => Some (#"SessionClosed")
  | RequestError c _ _ _ =>
      Some match c with
           | PlainRequestError => #"RequestError"
           | ConnectionFailed => #"ConnectionFailed"
           | Timeout => #"Timeout"
           | Cancelled => #"Cancelled"
           | TooManyRedirects => #"TooManyRedirects"
           | ProxyFailed => #"ProxyFailed"
           | CertificateError => #"CertificateError"
           end
  | HTTPStatusError _ _ => Some (#"HTTPStatusError")
  | ProtocolDowngraded _ _ => Some (#"ProtocolDowngraded")
  | _ => None
  end.

(** ** The build hook *)

Definition WHEEL_TAG : str := #"py3-none-linux_x86_64".

Inductive build_value := BuildBool (b : bool) | BuildText (s : str).

(** [CustomBuildHook.initialize(version, build_data)] *)
Definition initialize (build_data : list (str * build_value)) : list (str * build_value) :=
  dict_set (dict_set build_data (#"pure_python") (BuildBool false)) (#"tag") (BuildText WHEEL_TAG).

(** ** What they promise *)

(** What is exported is what is imported, each name once, and the class of
    every exception that is the package's own is among it. *)
Lemma exports_everything :
  NoDup all_names /\ all_names ≡ₚ mjoin (imports.*2)
  /\ forall e, is_cronet_error e = true <-> exists name, class_name e = Some name /\ name ∈ all_names.
Proof.
  split_and!; [apply (bool_decide_unpack _); vm_compute; exact I| |].
  - apply NoDup_Permutation; [apply (bool_decide_unpack _); vm_compute; exact I..|].
    intros x. split; intros Hx.
    + assert (Forall (fun x => x ∈ mjoin (imports.*2)) all_names) as H
        by (apply (bool_decide_unpack _); vm_compute; exact I). rewrite Forall_forall in H. by apply H.
    + assert (Forall (fun x => x ∈ all_names) (mjoin (imports.*2))) as H
        by (apply (bool_decide_unpack _); vm_compute; exact I). rewrite Forall_forall in H. by apply H.
  - intros e. destruct e as [| | | | | | | | | |[] | |]; cbn [is_cronet_error class_name];
      (split; [|by intros (? & ? & _)]); intros H; try done; (eexists; split; [reflexivity|]);
      apply (bool_decide_unpack _); vm_compute; exact I.
Qed.

(** A library that does not load is blamed on the platform exactly where the
    wheel's tag does not let it be installed. *)
Lemma wheel_matches_loader (sys_platform machine path failure : str) :
  95%N ∉ sys_platform ->
  (exists platform, why_it_would_not_load sys_platform machine path failure = WouldNotLoad path platform failure)
  <-> WHEEL_TAG = #"py3-none-" ++ sys_platform ++ #"_" ++ machine.
Proof.
  intros Hs. transitivity (sys_platform = #"linux" /\ machine = #"x86_64").
  - unfold why_it_would_not_load. do 2 case_bool_decide; cbn [negb orb]; split; try (by intros [? ?]).
    intros _. eexists. reflexivity.
  - split; [by intros [-> ->]|]. intros H.
    assert (sys_platform ++ 95%N :: machine = #"linux" ++ 95%N :: #"x86_64") as E.
    { change WHEEL_TAG with (#"py3-none-" ++ #"linux" ++ 95%N :: #"x86_64") in H. by apply app_inv_head in H. }
    apply (f_equal (partition 95%N)) in E. rewrite !partition_app in E; [by injection E|..|done].
    apply (bool_decide_unpack _). vm_compute. exact I.
Qed.

(** The wheel is never taken for a pure one, whatever the hook is given. *)
Lemma initialize_tags (build_data : list (str * build_value)) :
  dict_get (initialize build_data) (#"tag") = Some (BuildText WHEEL_TAG)
  /\ dict_get (initialize build_data) (#"pure_python") = Some (BuildBool false).
Proof.
  unfold initialize. rewrite !dict_get_set, !bool_decide_eq_true_2 by done.
  by rewrite bool_decide_eq_false_2 by done.
Qed.
