(* ===== verification/Socks.v ===== *)
(** * Socks: asking a SOCKS5 proxy whether it relays UDP
    (scripts/probe_socks5_udp.py), against the relay the tests run
    (tests/socks5_server.py).

    A TCP connection is what has arrived on it, in the pieces recv() will give
    it in, and what has been sent.  Textual addresses are the socket module's:
    parsing and printing one are parameters. *)

From S2P Require Import Prelude PyText PyUrl.

Definition VERSION : N := 5.
Definition AUTH_NONE : N := 0.
Definition AUTH_USERNAME_PASSWORD : N := 2.
Definition AUTH_UNACCEPTABLE : N := 255.
Definition AUTH_SUBNEGOTIATION_VERSION : N := 1.
Definition COMMAND_UDP_ASSOCIATE : N := 3.
Definition ADDRESS_IPV4 : N := 1.
Definition ADDRESS_DOMAIN : N := 3.
Definition ADDRESS_IPV6 : N := 4.
Definition ATTEMPTS : nat := 3.

(** What [ProbeFailed] says, and the other exceptions of these functions. *)
Inductive failure :=
| ClosedEarly (got expected : nat)
| NotSocks5 (version : N)
| NoMethod (offered_credentials : bool)
| Rejected (status : N)
| Refused (reply : N)
| UnreadableAddress (kind : N)
| TooFewBytes (count : nat)
| UnreadableRelayAddress (kind : N)
| CredentialsDemanded
| NoAnswer
| TooShortForQuic (count : nat)
| NotLongHeader
| WrongQuicVersion (version : N).

Inductive probe_error :=
| ProbeFailed (why : failure)
| ProbeValueError     (* an address, a length or an encoding Python refuses *)
| ProbeStructError    (* struct.error: a number that does not fit *)
| ProbeOSError.

(** ** A connection *)

Record conn := mkConn { incoming : list bytes; sent : bytes }.

Abbreviation io := (st conn probe_error).

Definition sendall (b : bytes) : io unit := fun c => (Ok tt, mkConn (incoming c) (sent c ++ b)).

(** [connection.recv(n)]: at most [n] octets of what arrives next, none when
    the other side has closed. *)
Definition recv (n : nat) (c : conn) : bytes * conn :=
  match incoming c with
  | [] => ([], c)
  | piece :: rest =>
      (take n piece,
       mkConn (match drop n piece with [] => rest | more => more :: rest end) (sent c))
  end.

(** [receive_exactly(connection, count)]; each round but the last adds an
    octet, so [count + 1] rounds are enough. *)
Fixpoint receive_rounds (fuel : nat) (count : nat) (data : bytes) : io bytes := fun c =>
  match fuel with
  | O => (Raise (ProbeFailed (ClosedEarly (length data) count)), c)
  | S fuel =>
      if count <=? length data then (Ok data, c)
      else
        let '(chunk, c) := recv (count - length data) c in
        match chunk with
        | [] => (Raise (ProbeFailed (ClosedEarly (length data) count)), c)
        | _ => receive_rounds fuel count (data ++ chunk) c
        end
  end.

Definition receive_exactly (count : nat) : io bytes := receive_rounds (S count) count [].

(** ** The conversation *)

Definition io_raise {A} (e : probe_error) : io A := fun c => (Raise e, c).
Definition fail {A} (why : failure) : io A := io_raise (ProbeFailed why).

(** [data[i]], for the octets unpacked from a read of that many. *)
Definition octet_at (b : bytes) (i : nat) : N := default 0%N (oct <$> b !! i).

(** [greet(connection, offer_credentials)] *)
Definition greet (offer_credentials : bool) : io N :=
  let methods := if offer_credentials then [AUTH_NONE; AUTH_USERNAME_PASSWORD] else [AUTH_NONE] in
  _ ← sendall (octet <$> [VERSION; N.of_nat (length methods)] ++ methods);
  answer ← receive_exactly 2;
  let version := octet_at answer 0 in
  let chosen := octet_at answer 1 in
  if negb (version =? VERSION)%N then fail (NotSocks5 version)
  else if (chosen =? AUTH_UNACCEPTABLE)%N then fail (NoMethod offer_credentials)
  else mret chosen.

(** [bytes([len(b)])], refused beyond 255. *)
Definition length_octet (b : bytes) : io bytes := fun c =>
  if length b <? 256 then (Ok [octet (N.of_nat (length b))], c) else (Raise ProbeValueError, c).

(** [s.encode()], which refuses a lone surrogate. *)
Definition encoded (s : str) : io bytes := fun c =>
  if forallb is_scalar s then (Ok (encode s), c) else (Raise ProbeValueError, c).

(** [authenticate(connection, username, password)] *)
Definition authenticate (username password : str) : io unit :=
  name ← encoded username;
  secret ← encoded password;
  name_length ← length_octet name;
  secret_length ← length_octet secret;
  _ ← sendall ([octet AUTH_SUBNEGOTIATION_VERSION] ++ name_length ++ name ++ secret_length ++ secret);
  answer ← receive_exactly 2;
  let status := octet_at answer 1 in
  if negb (status =? 0)%N then fail (Rejected status) else mret tt.

(** [struct.unpack("!H", b)] and [struct.pack("!H", n)] *)
Definition unpack_H (b : bytes) : N := (octet_at b 0 * 256 + octet_at b 1)%N.
Definition pack_H (n : N) : bytes := [octet (n / 256); octet (n mod 256)].

(** A packed address of either family. *)
Inductive address :=
| V4 (packed : bytes)
| V6 (packed : bytes).

Definition packed_of (a : address) : bytes := match a with V4 b | V6 b => b end.
Definition kind_of (a : address) : N := match a with V4 _ => ADDRESS_IPV4 | V6 _ => ADDRESS_IPV6 end.
Definition wf_address (a : address) : Prop :=
  match a with V4 b => length b = 4 | V6 b => length b = 16 end.

Section text.
Context (inet_ntop : address -> str) (ip_address : str -> option address).

(** [request_udp_associate(connection)] *)
Definition request_udp_associate : io (str * N) :=
  _ ← sendall (octet <$> [VERSION; COMMAND_UDP_ASSOCIATE; 0; ADDRESS_IPV4; 0; 0; 0; 0; 0; 0]%N);
  answer ← receive_exactly 4;
  let version := octet_at answer 0 in
  let reply := octet_at answer 1 in
  let address_type := octet_at answer 3 in
  if negb (version =? VERSION)%N then fail (NotSocks5 version)
  else if negb (reply =? 0)%N then fail (Refused reply)
  else
    host ← (if (address_type =? ADDRESS_IPV4)%N then
              packed ← receive_exactly 4; mret (inet_ntop (V4 packed))
            else if (address_type =? ADDRESS_IPV6)%N then
              packed ← receive_exactly 16; mret (inet_ntop (V6 packed))
            else if (address_type =? ADDRESS_DOMAIN)%N then
              size ← receive_exactly 1;
              name ← receive_exactly (N.to_nat (octet_at size 0));
              match decode name with
              | Some host => mret host
              | None => io_raise ProbeValueError
              end
            else fail (UnreadableAddress address_type));
    port ← receive_exactly 2;
    mret (host, unpack_H port).

(** ** Datagrams *)

(** [encapsulate(target_host, target_port, payload)] *)
Definition encapsulate (target_host : str) (target_port : Z) (payload : bytes)
  : res probe_error bytes :=
  match ip_address target_host with
  | None => Raise ProbeValueError
  | Some a =>
      if (0 <=? target_port)%Z && (target_port <? 65536)%Z then
        Ok ((octet <$> [0; 0; 0; kind_of a]%N) ++ packed_of a ++ pack_H (Z.to_N target_port) ++ payload)
      else Raise ProbeStructError
  end.

(** [strip_header(datagram)] *)
Definition strip_header (datagram : bytes) : res probe_error bytes :=
  if length datagram <? 10 then Raise (ProbeFailed (TooFewBytes (length datagram)))
  else
    let address_type := octet_at datagram 3 in
    if (address_type =? ADDRESS_IPV4)%N then Ok (drop 10 datagram)
    else if (address_type =? ADDRESS_IPV6)%N then Ok (drop 22 datagram)
    else if (address_type =? ADDRESS_DOMAIN)%N then
      Ok (drop (5 + N.to_nat (octet_at datagram 4) + 2) datagram)
    else Raise (ProbeFailed (UnreadableRelayAddress address_type)).

(** [_parse_udp_header(datagram)] of the tests' relay. *)
Definition parse_udp_header (datagram : bytes) : option (str * N * bytes) :=
  if (length datagram <? 10) || negb (octet_at datagram 2 =? 0)%N then None
  else
    let found :=
      if (octet_at datagram 3 =? ADDRESS_IPV4)%N
      then Some (inet_ntop (V4 (take 4 (drop 4 datagram))), 8)
      else if (octet_at datagram 3 =? ADDRESS_IPV6)%N
      then Some (inet_ntop (V6 (take 16 (drop 4 datagram))), 20)
      else None in
    match found with
    | None => None
    | Some (host, rest) =>
        Some (host, unpack_H (take 2 (drop rest datagram)), drop (rest + 2) datagram)
    end.

(** [_udp_header(source)] of the tests' relay, for an IPv4 source. *)
Definition udp_header (packed : bytes) (port : N) : bytes :=
  (octet <$> [0; 0; 0; ADDRESS_IPV4]%N) ++ packed ++ pack_H port.

(** ** The QUIC packet *)

(** [packet.ljust(n, b"\x00")] *)
Definition ljust (b : bytes) (n : nat) : bytes := b ++ replicate (n - length b) (octet 0).

(** [quic_probe()], for the two random connection ids it draws. *)
Definition quic_probe (destination_id source_id : bytes) : bytes * bytes :=
  let packet :=
    [octet 192] ++ (octet <$> [26; 42; 58; 74]%N) ++ [octet 8] ++ destination_id
    ++ [octet (N.of_nat (length source_id))] ++ source_id in
  (ljust packet 1200, source_id).

(** [struct.unpack("!I", b)] *)
Definition unpack_I (b : bytes) : N :=
  (((octet_at b 0 * 256 + octet_at b 1) * 256 + octet_at b 2) * 256 + octet_at b 3)%N.

(** The end of [relay_a_datagram]: what counts as a QUIC answer. *)
Definition check_answer (answer : bytes) : res probe_error nat :=
  payload ← strip_header answer;
  if length payload <? 5 then Raise (ProbeFailed (TooShortForQuic (length payload)))
  else if negb (N.testbit (octet_at payload 0) 7) then Raise (ProbeFailed NotLongHeader)
  else
    let version := unpack_I (take 4 (drop 1 payload)) in
    if negb (version =? 0)%N then Raise (ProbeFailed (WrongQuicVersion version))
    else Ok (length payload).

(** The attempts of [relay_a_datagram], [remaining] of them still to make: each
    wraps a packet of its own, with the connection ids it draws, and sends it
    to the relay; [udp n d] is what comes back for the [n]th, if anything. *)
Fixpoint relay_attempts (remaining : nat) (address : str) (ids : nat -> bytes * bytes)
    (udp : nat -> bytes -> option bytes) : res probe_error bytes :=
  match remaining with
  | O => Raise (ProbeFailed NoAnswer)
  | S remaining =>
      let n := ATTEMPTS - remaining in
      let '(packet, _) := quic_probe (ids n).1 (ids n).2 in
      datagram ← encapsulate address 443 packet;
      match udp n datagram with
      | Some answer => Ok answer
      | None => relay_attempts remaining address ids udp
      end
  end.

(** [relay_a_datagram(relay, target, timeout)]; [resolved] is what
    getaddrinfo found for the target. *)
Definition relay_a_datagram (resolved : option str) (ids : nat -> bytes * bytes)
    (udp : nat -> bytes -> option bytes) : res probe_error nat :=
  match resolved with
  | None => Raise ProbeOSError
  | Some address =>
      answer ← relay_attempts ATTEMPTS address ids udp;
      check_answer answer
  end.

(** ** The three checks *)

(** The conversation of [probe], once connected. *)
Definition probe_conversation (username password : str) (relay : str * N -> res probe_error nat) : io nat :=
  chosen ← greet (nonempty username);
  _ ← (if (chosen =? AUTH_USERNAME_PASSWORD)%N then
         if negb (nonempty username) then fail CredentialsDemanded
         else authenticate username password
       else mret tt);
  named ← request_udp_associate;
  st_lift (relay named).

(** [probe(url, target, timeout)]: its exit code; [None] is an exception it
    does not handle.  [udp] is also told which relay the proxy named. *)
Definition probe (url : str) (connected : option conn) (resolved : option str)
    (ids : nat -> bytes * bytes) (udp : str * N -> nat -> bytes -> option bytes) : option Z :=
  match urlsplit url with
  | Raise _ => None
  | Ok parts =>
      if negb (bool_decide (sr_scheme parts ∈ [ #"socks5"; #"socks5h"])) then Some 2%Z
      else if negb (nonempty (default [] (sr_hostname parts))) then Some 2%Z
      else
        match sr_port parts with
        | Raise _ => None
        | Ok port =>
            if match port with Some p => (p =? 0)%N | None => true end then Some 2%Z
            else
              let username := unquote (default [] (sr_username parts)) in
              let password := unquote (default [] (sr_password parts)) in
              match connected with
              | None => Some 1%Z
              | Some c =>
                  match (probe_conversation username password
                           (fun named => relay_a_datagram resolved ids (udp named)) c).1 with
                  | Ok _ => Some 0%Z
                  | Raise (ProbeFailed _) | Raise ProbeOSError => Some 1%Z
                  | Raise ProbeValueError | Raise ProbeStructError => None
                  end
              end
        end
  end.
End text.

(** ** Reading *)

(** A connection recv() gives in pieces that are never empty, all told [b]. *)
Definition arrives (c : conn) (b : bytes) : Prop :=
  mjoin (incoming c) = b /\ Forall (fun piece => piece <> []) (incoming c).

Lemma recv_spec (n : nat) (c : conn) (b : bytes) :
  arrives c b -> 0 < n -> b <> [] ->
  exists k c', recv n c = (take k b, c') /\ 0 < k <= n /\ k <= length b
    /\ arrives c' (drop k b) /\ sent c' = sent c.
Proof.
  intros [Hb Hne] Hn Hnil. unfold recv. destruct (incoming c) as [|piece rest] eqn:E.
  { by subst b. }
  apply Forall_cons in Hne as [Hp Hrest]. cbn in Hb. fold (mjoin rest) in Hb. subst b.
  exists (Nat.min n (length piece)). eexists. split_and!.
  - f_equal. rewrite take_app_le by lia.
    destruct (Nat.min_spec n (length piece)) as [[? ->]|[? ->]]; [done|].
    rewrite !take_ge by lia. done.
  - destruct piece; [done|cbn; lia].
  - lia.
  - rewrite length_app. lia.
  - rewrite drop_app_le by lia.
    assert (drop (Nat.min n (length piece)) piece = drop n piece) as ->.
    { destruct (Nat.min_spec n (length piece)) as [[? ->]|[? ->]]; [done|].
      rewrite !drop_ge by lia. done. }
    destruct (drop n piece) eqn:Ed; split; cbn; [done|done|done|by constructor].
  - done.
Qed.

Lemma receive_rounds_spec (fuel count : nat) (data b : bytes) (c : conn) :
  arrives c b -> length data <= count -> count - length data < fuel ->
  if count - length data <=? length b
  then exists c', receive_rounds fuel count data c = (Ok (data ++ take (count - length data) b), c')
         /\ arrives c' (drop (count - length data) b) /\ sent c' = sent c
  else exists c', receive_rounds fuel count data c
         = (Raise (ProbeFailed (ClosedEarly (length data + length b) count)), c') /\ sent c' = sent c.
Proof.
  revert data b c. induction fuel as [|fuel IH]; intros data b c Ha Hd Hf; [lia|].
  cbn [receive_rounds]. destruct (Nat.leb_spec count (length data)) as [Hle|Hgt].
  { assert (count - length data = 0) as -> by lia. cbn. exists c.
    by rewrite app_nil_r, drop_0. }
  destruct (decide (b = [])) as [->|Hnil].
  { assert (recv (count - length data) c = ([], c)) as ->.
    { destruct Ha as [Hj Hne]. unfold recv. destruct (incoming c) as [|p r]; [done|].
      apply Forall_cons in Hne as [Hp _]. cbn in Hj. by apply app_eq_nil in Hj as [-> _]. }
    destruct (Nat.leb_spec (count - length data) (length (A := ascii) [])); [cbn in *; lia|].
    exists c. cbn. by rewrite Nat.add_0_r. }
  destruct (recv_spec (count - length data) c b Ha) as (k & c1 & -> & Hk & Hkb & Ha1 & Hs1); [lia|done|].
  destruct (take k b) as [|x chunk] eqn:Et.
  { apply (f_equal length) in Et. rewrite length_take in Et. cbn in Et. lia. }
  rewrite <- Et. assert (length (take k b) = k) as Hlen by (rewrite length_take; lia).
  specialize (IH (data ++ take k b) (drop k b) c1 Ha1).
  rewrite length_app, Hlen, length_drop in IH. specialize (IH ltac:(lia) ltac:(lia)).
  destruct (Nat.leb_spec (count - (length data + k)) (length b - k)),
    (Nat.leb_spec (count - length data) (length b)); try lia.
  - destruct IH as (c' & -> & Ha' & Hs'). exists c'. split_and!; [|by rewrite drop_drop in Ha';
      replace (k + (count - (length data + k))) with (count - length data) in Ha' by lia|congruence].
    rewrite <- app_assoc. do 3 f_equal. rewrite <- (take_drop k (take (count - length data) b)).
    rewrite take_take, skipn_firstn_comm.
    f_equal; [f_equal; lia|f_equal; lia].
  - destruct IH as (c' & -> & Hs'). exists c'. split; [|congruence]. do 4 f_equal. lia.
Qed.

(** However the network cuts the proxy's answer into pieces, a read of
    [count] octets takes exactly the next [count], leaving the rest for the
    next one, and fails exactly when fewer arrive, naming how many did. *)
Theorem receive_exactly_spec (count : nat) (c : conn) (b : bytes) (Ha : arrives c b) :
  (count <= length b ->
     exists c', receive_exactly count c = (Ok (take count b), c')
       /\ arrives c' (drop count b) /\ sent c' = sent c)
  /\ (length b < count ->
     exists c', receive_exactly count c = (Raise (ProbeFailed (ClosedEarly (length b) count)), c')).
Proof.
  pose proof (receive_rounds_spec (S count) count [] b c Ha ltac:(cbn; lia) ltac:(cbn; lia)) as H.
  cbn [length] in H. rewrite Nat.sub_0_r in H. unfold receive_exactly. split; intros Hc.
  - rewrite (proj2 (Nat.leb_le _ _)) in H by done. exact H.
  - rewrite (proj2 (Nat.leb_gt _ _)) in H by done. destruct H as (c' & H & _). by exists c'.
Qed.

(** ** Both ends agree *)

Lemma unpack_pack_H (n : N) : (n < 65536)%N -> unpack_H (pack_H n) = n.
Proof.
  intros H. unfold unpack_H, pack_H, octet_at. cbn.
  rewrite !oct_octet by (zify; Z.to_euclidean_division_equations; lia).
  zify; Z.to_euclidean_division_equations; lia.
Qed.

(** A datagram: its four-octet prefix, an address, a port and a payload. *)
Definition wrapped (k : N) (packed : bytes) (port : N) (payload : bytes) : bytes :=
  (octet <$> [0; 0; 0; k]%N) ++ packed ++ pack_H port ++ payload.

Lemma wrapped_parts (k : N) (packed : bytes) (port : N) (payload : bytes) (n : nat) :
  n = length packed -> (k < 256)%N ->
  let d := wrapped k packed port payload in
  octet_at d 2 = 0%N /\ octet_at d 3 = k /\ length d = n + 6 + length payload
  /\ take n (drop 4 d) = packed /\ ((port < 65536)%N -> unpack_H (take 2 (drop (4 + n) d)) = port)
  /\ drop (4 + n + 2) d = payload.
Proof.
  intros -> Hk d. subst d. unfold wrapped. split_and!.
  - reflexivity.
  - unfold octet_at. cbn. apply oct_octet. lia.
  - rewrite !length_app. cbn. lia.
  - cbn. by rewrite drop_0, take_app_length.
  - intros Hp. cbn. rewrite drop_app_length. cbn. rewrite take_0. by apply unpack_pack_H.
  - cbn. by rewrite <- drop_drop, drop_app_length.
Qed.

Section agree.
Context (inet_ntop : address -> str) (ip_address : str -> option address).

(** C39: a datagram wrapped for the relay is one the relay understands: it
    reads back the destination and the payload, for either family and any
    payload; and the answer it wraps in turn, or the same header echoed, is
    unwrapped to exactly what it carried. *)
Theorem udp_roundtrip (host : str) (a : address) (port : Z) (payload d : bytes)
    (Hip : ip_address host = Some a) (Hback : inet_ntop a = host) (Hwf : wf_address a)
    (Henc : encapsulate ip_address host port payload = Ok d) :
  parse_udp_header inet_ntop d = Some (host, Z.to_N port, payload)
  /\ strip_header d = Ok payload
  /\ (forall source p answer, length source = 4 ->
        strip_header (udp_header source p ++ answer) = Ok answer).
Proof.
  unfold encapsulate in Henc. rewrite Hip in Henc.
  destruct (_ && _) eqn:Hp; [|done]. apply andb_true_iff in Hp as [Hp1 Hp2].
  apply Z.leb_le in Hp1. apply Z.ltb_lt in Hp2.
  assert (d = wrapped (kind_of a) (packed_of a) (Z.to_N port) payload) as -> by (unfold wrapped; congruence).
  assert ((Z.to_N port < 65536)%N) as Hport by lia.
  assert (length (packed_of a) = 4 /\ kind_of a = ADDRESS_IPV4
          \/ length (packed_of a) = 16 /\ kind_of a = ADDRESS_IPV6) as Hk.
  { destruct a; [left|right]; done. }
  destruct (wrapped_parts (kind_of a) (packed_of a) (Z.to_N port) payload _ eq_refl) as
    (H2 & H3 & Hl & Ha & Hu & Hd); [destruct Hk as [[_ ->]|[_ ->]]; done|].
  specialize (Hu Hport).
  split_and!.
  - unfold parse_udp_header. rewrite H2, H3, (proj2 (Nat.ltb_ge _ _)) by (rewrite Hl; lia). cbn [orb negb].
    destruct a as [b|b]; cbn [kind_of packed_of] in *; cbn in Hwf; rewrite Hwf in *; cbn in Ha, Hu, Hd |- *;
      by rewrite Ha, Hu, Hd, Hback.
  - unfold strip_header. rewrite H3, (proj2 (Nat.ltb_ge _ _)) by (rewrite Hl; lia).
    destruct a as [b|b]; cbn [kind_of packed_of] in *; cbn in Hwf; rewrite Hwf in *; cbn in Hd |- *;
      by rewrite Hd.
  - intros source p answer Hs.
    assert (udp_header source p ++ answer = wrapped ADDRESS_IPV4 source p answer) as ->.
    { unfold udp_header, wrapped. by rewrite <- !app_assoc. }
    destruct (wrapped_parts ADDRESS_IPV4 source p answer _ eq_refl eq_refl) as (_ & H3' & Hl' & _ & _ & Hd').
    unfold strip_header. rewrite H3', (proj2 (Nat.ltb_ge _ _)) by (rewrite Hl'; lia).
    rewrite Hs in Hd'. cbn in Hd' |- *. by rewrite Hd'.
Qed.

(** What a read takes when enough has arrived. *)
Lemma receive_exactly_app (x y : bytes) (c : conn) :
  arrives c (x ++ y) ->
  exists c', receive_exactly (length x) c = (Ok x, c') /\ arrives c' y /\ sent c' = sent c.
Proof.
  intros Ha. pose proof (receive_rounds_spec (S (length x)) (length x) [] _ c Ha
    ltac:(cbn; lia) ltac:(cbn; lia)) as H.
  cbn [length] in H. rewrite Nat.sub_0_r in H.
  rewrite (proj2 (Nat.leb_le _ _)) in H by (rewrite length_app; lia).
  by rewrite take_app_length, drop_app_length in H.
Qed.

(** The ways a proxy may name the relay. *)
Inductive relay_name : N -> bytes -> str -> Prop :=
| named_v4 b : length b = 4 -> relay_name ADDRESS_IPV4 b (inet_ntop (V4 b))
| named_v6 b : length b = 16 -> relay_name ADDRESS_IPV6 b (inet_ntop (V6 b))
| named_domain b host : length b < 256 -> decode b = Some host ->
    relay_name ADDRESS_DOMAIN (octet (N.of_nat (length b)) :: b) host.

(** A conversation that ends with [a], having sent [out] and read up to [rest]. *)
Definition ends {A} (a : A) (out rest : bytes) (outcome : res probe_error A * conn) : Prop :=
  exists c', outcome = (Ok a, c') /\ arrives c' rest /\ sent c' = out.

Lemma ends_receive {A} (f : bytes -> io A) (a : A) (out rest x y : bytes) (n : nat) (c : conn) :
  n = length x -> arrives c (x ++ y) -> sent c = out ->
  (forall c', arrives c' y -> sent c' = out -> ends a out rest (f x c')) ->
  ends a out rest ((b ← receive_exactly n; f b) c).
Proof.
  intros -> Ha Hs H. destruct (receive_exactly_app x y c Ha) as (c' & E & Ha' & Hs').
  unfold mbind, st_bind. rewrite E. apply H; [done|congruence].
Qed.

Lemma ends_bind {A B} (m : io B) (f : B -> io A) (b : B) (a : A) (out mid rest : bytes) (c : conn) :
  ends b out mid (m c) ->
  (forall c', arrives c' mid -> sent c' = out -> ends a out rest (f b c')) ->
  ends a out rest ((x ← m; f x) c).
Proof.
  intros (c' & E & Ha & Hs) H. unfold mbind, st_bind. rewrite E. by apply H.
Qed.

Lemma ends_ret {A} (a : A) (out rest : bytes) (c : conn) :
  arrives c rest -> sent c = out -> ends a out rest ((mret a : io A) c).
Proof. intros Ha Hs. by exists c. Qed.

(** The request for a relay is the ten octets RFC 1928 asks for, and when
    the proxy grants one, by IPv4, IPv6 or name and however its reply is cut
    into pieces, the host and port read are the ones it named and nothing
    after them is consumed. *)
Theorem associate_reads_relay (c : conn) (reserved port : N) (kind : N) (named rest : bytes) (host : str) :
  relay_name kind named host -> (port < 65536)%N ->
  arrives c ((octet <$> [VERSION; 0; reserved; kind]%N) ++ named ++ pack_H port ++ rest) ->
  exists c', request_udp_associate inet_ntop c = (Ok (host, port), c') /\ arrives c' rest
    /\ sent c' = sent c ++ (octet <$> [5; 3; 0; 1; 0; 0; 0; 0; 0; 0]%N).
Proof.
  intros Hn Hp [Hj Hne]. set (ten := octet <$> [5; 3; 0; 1; 0; 0; 0; 0; 0; 0]%N).
  change (ends (host, port) (sent c ++ ten) rest (request_udp_associate inet_ntop c)).
  assert (kind < 256)%N as Hk by (destruct Hn; done).
  assert (arrives (mkConn (incoming c) (sent c ++ ten))
    ((octet <$> [VERSION; 0; reserved; kind]%N) ++ named ++ pack_H port ++ rest)) as Ha by (by split).
  unfold request_udp_associate. unfold mbind at 1, st_bind at 1. cbn [sendall].
  eapply ends_receive; [|exact Ha|done|]; [done|]. clear Ha Hj Hne. intros c1 Ha Hs.
  assert (octet_at (octet <$> [VERSION; 0; reserved; kind]%N) 3 = kind) as ->.
  { unfold octet_at. cbn. by apply oct_octet. }
  change (octet_at (octet <$> [VERSION; 0; reserved; kind]%N) 0) with VERSION.
  change (octet_at (octet <$> [VERSION; 0; reserved; kind]%N) 1) with 0%N. cbn [negb N.eqb VERSION].
  eapply (ends_bind _ _ host _ _ (pack_H port ++ rest)).
  - destruct Hn as [b Hl|b Hl|b host Hl Hd]; cbn [N.eqb ADDRESS_IPV4 ADDRESS_IPV6 ADDRESS_DOMAIN].
    + eapply ends_receive; [symmetry; exact Hl|exact Ha|done|]. intros c2 Ha2 Hs2. by apply ends_ret.
    + eapply ends_receive; [symmetry; exact Hl|exact Ha|done|]. intros c2 Ha2 Hs2. by apply ends_ret.
    + eapply (ends_receive _ _ _ _ [octet (N.of_nat (length b))]); [done|exact Ha|done|].
      intros c2 Ha2 Hs2. eapply ends_receive; [|exact Ha2|done|].
      * unfold octet_at. cbn. rewrite oct_octet by lia. lia.
      * intros c3 Ha3 Hs3. rewrite Hd. by apply ends_ret.
  - intros c2 Ha2 Hs2. eapply ends_receive; [|exact Ha2|done|]; [done|].
    intros c3 Ha3 Hs3. rewrite unpack_pack_H by done. by apply ends_ret.
Qed.
End agree.

(** ** At concrete bytes *)

Definition loopback : bytes := octet <$> [127; 0; 0; 1]%N.
Definition show_address : address -> str := fun _ => #"127.0.0.1".
Definition read_address : str -> option address := fun _ => Some (V4 loopback).

Definition cut_reply : conn :=
  mkConn [octet <$> [5; 0; 0]%N; octet <$> [1; 127; 0]%N; octet <$> [0; 1; 4]%N; octet <$> [56]%N] [].

Lemma receive_exactly_spec_witness :
  exists c', receive_exactly 4 cut_reply = (Ok (octet <$> [5; 0; 0; 1]%N), c').
Proof.
  destruct (receive_exactly_spec 4 cut_reply (mjoin (incoming cut_reply))) as [H _].
  - split; [reflexivity|]. repeat constructor; discriminate.
  - destruct H as (c' & E & _); [vm_compute; lia|]. exists c'. exact E.
Defined.

Lemma udp_roundtrip_witness :
  exists d, encapsulate read_address (#"127.0.0.1") 443 (blit "quic") = Ok d
    /\ parse_udp_header show_address d = Some (#"127.0.0.1", 443%N, blit "quic").
Proof.
  destruct (encapsulate read_address (#"127.0.0.1") 443 (blit "quic")) as [d|e] eqn:E;
    [|vm_compute in E; discriminate E].
  exists d. split; [reflexivity|].
  exact (proj1 (udp_roundtrip show_address read_address (#"127.0.0.1") (V4 loopback) 443 (blit "quic") d
                  eq_refl eq_refl eq_refl E)).
Defined.

Lemma associate_reads_relay_witness :
  exists c', request_udp_associate show_address cut_reply = (Ok (#"127.0.0.1", 1080%N), c')
    /\ incoming c' = [].
Proof.
  destruct (associate_reads_relay show_address cut_reply 0 1080 ADDRESS_IPV4 loopback []
              (#"127.0.0.1")) as (c' & E & Ha & _).
  - apply (named_v4 show_address loopback). reflexivity.
  - reflexivity.
  - split; [vm_compute; reflexivity|]. repeat constructor; discriminate.
  - exists c'. split; [exact E|]. vm_compute in E. injection E as <-. reflexivity.
Defined.

(** A port that is no port ends the probe with a traceback, not with the exit
    code of a bad URL. *)
Lemma probe_bad_port (connected : option conn) (resolved : option str) (ids : nat -> bytes * bytes)
    (udp : str * N -> nat -> bytes -> option bytes) :
  probe show_address read_address (#"socks5://proxy:99999") connected resolved ids udp = None.
Proof. vm_compute. reflexivity. Qed.
